(** * A dynamic array on raw memory: [RawMemory<T>] and [Vector<T>]

    Shallow embedding of [advanced-vector/vector.h].  The C++ code owns raw
    blocks of storage, runs element constructors and destructors in them by
    hand, and relies on exceptions thrown by element operations.  The
    embedding therefore keeps

    - an explicit heap of raw blocks, each slot being raw or holding a live
      element;
    - a store of [Vector] objects addressed by identity, so that
      [this != &rhs] is a comparison of identities;
    - a state-and-exception monad whose outcomes are normal return, a
      propagating C++ exception, a failed [assert], and undefined behaviour.
*)

From stdpp Require Import gmap list.
From Stdlib Require Import ZArith Lia.

Local Open Scope Z_scope.

(** ** [size_t] *)

Definition SIZE_MODULUS : Z := 2 ^ 64.

(** Unsigned 64-bit wrap-around of [size_t] arithmetic. *)
Definition wrap (z : Z) : Z := z mod SIZE_MODULUS.

Definition PTRDIFF_MAX : Z := 2 ^ 63 - 1.

(** ** The element type [T]

    What the container needs to know about its template parameter: the
    special member functions (each may throw and may depend on, and change,
    some state of the surrounding program, [World]), the type traits queried
    by the container, and the allocation primitive [operator new]. *)

Class ElemType := {
  T : Type;
  (** a pack of constructor arguments, [Args&&...] *)
  Args : Type;
  World : Type;
  (** [sizeof(T)], a positive [size_t] *)
  sizeof_T : Z;
  sizeof_T_range : 0 < sizeof_T < SIZE_MODULUS;
  (** [T(std::forward<Args>(args)...)]: [None] when the constructor throws *)
  construct : Args -> World -> option T * World;
  (** [T()]: value initialisation *)
  value_construct : World -> option T * World;
  (** [T(const T&)] *)
  copy_construct : T -> World -> option T * World;
  (** [T(T&&)]: the state the source is left in, and the new object *)
  move_construct : T -> World -> T * option T * World;
  (** [dst = src]: the state of [dst] afterwards, and [true] on success *)
  copy_assign : T -> T -> World -> T * bool * World;
  (** [dst = std::move(src)]: [dst] and [src] afterwards, [true] on success *)
  move_assign : T -> T -> World -> T * T * bool * World;
  (** [~T()], which never throws *)
  destroy : T -> World -> World;
  is_nothrow_move_constructible : bool;
  is_copy_constructible : bool;
  is_nothrow_move_assignable : bool;
  (** whether [operator new] can serve a request of that many bytes; no
      request above [PTRDIFF_MAX] is ever served *)
  operator_new_ok : World -> Z -> bool;
  operator_new_limit w n : operator_new_ok w n = true -> n <= PTRDIFF_MAX;
}.

(** ** Pointers, blocks, objects *)

(** A [T*]: a block and an element offset into it; [blk = None] is the null
    pointer. *)
Record ptr := { blk : option nat; off : Z }.

Definition nullptr : ptr := {| blk := None; off := 0 |}.

Definition ptr_add (p : ptr) (n : Z) : ptr := {| blk := blk p; off := off p + n |}.

(** Pointer comparison follows the address order: pointers into one block
    compare by offset, and whole blocks are ordered among themselves. *)
Definition blk_index (b : option nat) : Z :=
  match b with None => 0 | Some n => Z.of_nat n + 1 end.

Definition ptr_le (p q : ptr) : bool :=
  (blk_index (blk p) <? blk_index (blk q))
  || ((blk_index (blk p) =? blk_index (blk q)) && (off p <=? off q)).

Definition ptr_lt (p q : ptr) : bool := negb (ptr_le q p).
Definition ptr_ge (p q : ptr) : bool := ptr_le q p.

(** [std::distance(p, q)] for pointers into the same array. *)
Definition distance (p q : ptr) : Z := off q - off p.

#[global] Instance ptr_eq_dec : EqDecision ptr.
Proof. solve_decision. Defined.

Record RawMemory := { buffer_ : ptr; capacity_ : Z }.
Record Vector := { data_ : RawMemory; size_ : Z }.

#[global] Instance RawMemory_eq_dec : EqDecision RawMemory.
Proof. solve_decision. Defined.
#[global] Instance Vector_eq_dec : EqDecision Vector.
Proof. solve_decision. Defined.

Inductive exn := ElementException | BadAlloc.

Section Model.
Context `{E : ElemType}.

(** The heap maps an allocated block to its slots: [None] is raw storage,
    [Some v] a live element in state [v].  [vecs] holds the [Vector] objects
    by identity. *)
Record state := {
  heap : gmap nat (list (option T));
  vecs : gmap nat Vector;
  world : World;
}.

Definition set_heap (h : gmap nat (list (option T))) (s : state) : state :=
  {| heap := h; vecs := vecs s; world := world s |}.
Definition set_vecs (m : gmap nat Vector) (s : state) : state :=
  {| heap := heap s; vecs := m; world := world s |}.
Definition set_world (w : World) (s : state) : state :=
  {| heap := heap s; vecs := vecs s; world := w |}.

(** ** Outcomes and the monad *)

Inductive result (A : Type) :=
| Normal (a : A) (s : state)
| Throw (e : exn) (s : state)
| AssertFail
| UB.
Arguments Normal {A} a s.
Arguments Throw {A} e s.
Arguments AssertFail {A}.
Arguments UB {A}.

Definition M (A : Type) : Type := state -> result A.

Definition ret {A} (a : A) : M A := fun s => Normal a s.

Definition bind {A B} (m : M A) (k : A -> M B) : M B := fun s =>
  match m s with
  | Normal a s' => k a s'
  | Throw e s' => Throw e s'
  | AssertFail => AssertFail
  | UB => UB
  end.

Definition throw {A} (e : exn) : M A := fun s => Throw e s.
Definition undefined {A} : M A := fun _ => UB.

(** [assert(c)] of a build without [NDEBUG]. *)
Definition assert_ (c : bool) : M unit := fun s =>
  if c then Normal tt s else AssertFail.

(** [try { m } catch (...) { h; throw; }] *)
Definition on_throw {A} (m : M A) (h : M unit) : M A := fun s =>
  match m s with
  | Throw e s' =>
      match h s' with
      | Normal _ s'' => Throw e s''
      | Throw e' s'' => Throw e' s''
      | AssertFail => AssertFail
      | UB => UB
      end
  | r => r
  end.

End Model.

Arguments Normal {E A} a s.
Arguments Throw {E A} e s.
Arguments AssertFail {E A}.
Arguments UB {E A}.

Declare Scope vec_scope.
Delimit Scope vec_scope with vec.
Notation "'let*' x ':=' m 'in' k" := (bind m (fun x => k))
  (at level 10, x name, m at level 100, k at level 200) : vec_scope.
Notation "m ';;' k" := (bind m (fun _ => k))
  (at level 100, k at level 200, right associativity) : vec_scope.
Local Open Scope vec_scope.

Section Primitives.
Context `{E : ElemType}.

(** ** Element operations lifted to the monad *)

Definition elem_construct (args : Args) : M T := fun s =>
  match construct args (world s) with
  | (Some x, w) => Normal x (set_world w s)
  | (None, w) => Throw ElementException (set_world w s)
  end.

Definition elem_value_construct : M T := fun s =>
  match value_construct (world s) with
  | (Some x, w) => Normal x (set_world w s)
  | (None, w) => Throw ElementException (set_world w s)
  end.

Definition elem_copy_construct (v : T) : M T := fun s =>
  match copy_construct v (world s) with
  | (Some x, w) => Normal x (set_world w s)
  | (None, w) => Throw ElementException (set_world w s)
  end.

Definition elem_destroy (v : T) : M unit := fun s =>
  Normal tt (set_world (destroy v (world s)) s).

(** ** Raw storage *)

(** [operator new(bytes)]: a fresh block with room for [bytes / sizeof(T)]
    elements, all raw, or [std::bad_alloc]. *)
Definition operator_new (bytes : Z) : M ptr := fun s =>
  if operator_new_ok (world s) bytes then
    let b := fresh (dom (heap s)) in
    Normal {| blk := Some b; off := 0 |}
           (set_heap (<[b := replicate (Z.to_nat (bytes / sizeof_T)) None]> (heap s)) s)
  else Throw BadAlloc s.

(** [operator delete(p)]: nothing for the null pointer; otherwise [p] must be
    the start of an allocated block. *)
Definition operator_delete (p : ptr) : M unit := fun s =>
  match blk p with
  | None => if off p =? 0 then Normal tt s else UB
  | Some b =>
      match heap s !! b with
      | Some _ => if off p =? 0 then Normal tt (set_heap (delete b (heap s)) s) else UB
      | None => UB
      end
  end.

(** The slot a pointer designates, when it designates one. *)
Definition slot_at (s : state) (p : ptr) : option (option T) :=
  match blk p with
  | None => None
  | Some b =>
      match heap s !! b with
      | None => None
      | Some l => if 0 <=? off p then l !! Z.to_nat (off p) else None
      end
  end.

Definition set_slot (p : ptr) (x : option T) (s : state) : state :=
  match blk p with
  | None => s
  | Some b =>
      match heap s !! b with
      | None => s
      | Some l => set_heap (<[b := <[Z.to_nat (off p) := x]> l]> (heap s)) s
      end
  end.

(** Reading through [p], which must point to a live element. *)
Definition load (p : ptr) : M T := fun s =>
  match slot_at s p with
  | Some (Some v) => Normal v s
  | _ => UB
  end.

(** The state of a live element changes in place. *)
Definition store (p : ptr) (v : T) : M unit := fun s =>
  match slot_at s p with
  | Some (Some _) => Normal tt (set_slot p (Some v) s)
  | _ => UB
  end.

(** Placement: an element in state [v] comes to life in the slot at [p].
    Whatever the slot held is overwritten without a destructor call. *)
Definition construct_at (p : ptr) (v : T) : M unit := fun s =>
  match slot_at s p with
  | Some _ => Normal tt (set_slot p (Some v) s)
  | None => UB
  end.

(** [std::destroy_at(p)] *)
Definition destroy_at (p : ptr) : M unit := fun s =>
  match slot_at s p with
  | Some (Some v) => Normal tt (set_slot p None (set_world (destroy v (world s)) s))
  | _ => UB
  end.

(** [new (dst) T(std::forward<Args>(args)...)] *)
Definition emplace_at (dst : ptr) (args : Args) : M unit :=
  let* x := elem_construct args in
  construct_at dst x.

(** [new (dst) T()] *)
Definition value_construct_at (dst : ptr) : M unit :=
  let* x := elem_value_construct in
  construct_at dst x.

(** [new (dst) T(src[0])] for the object [src] points to *)
Definition copy_construct_at (dst src : ptr) : M unit :=
  let* v := load src in
  let* x := elem_copy_construct v in
  construct_at dst x.

(** [new (dst) T(std::move(src[0]))] *)
Definition move_construct_at (dst src : ptr) : M unit :=
  let* v := load src in
  fun s =>
    match move_construct v (world s) with
    | (v', Some x, w) => (store src v' ;; construct_at dst x) (set_world w s)
    | (v', None, w) => (store src v' ;; throw ElementException) (set_world w s)
    end.

(** [dst[0] = src[0]] *)
Definition copy_assign_at (dst src : ptr) : M unit :=
  let* d := load dst in
  let* v := load src in
  fun s =>
    match copy_assign d v (world s) with
    | (d', true, w) => store dst d' (set_world w s)
    | (d', false, w) => (store dst d' ;; throw ElementException) (set_world w s)
    end.

(** [dst[0] = std::move(src[0])] *)
Definition move_assign_at (dst src : ptr) : M unit :=
  let* d := load dst in
  let* v := load src in
  fun s =>
    match move_assign d v (world s) with
    | (d', v', true, w) => (store src v' ;; store dst d') (set_world w s)
    | (d', v', false, w) =>
        (store src v' ;; store dst d' ;; throw ElementException) (set_world w s)
    end.

(** [dst = T(std::forward<Args>(args)...)], where [dst] is an expression for
    a live element: the temporary is built first, then the left operand is
    evaluated and move-assigned from the temporary, which is destroyed at
    the end of the full expression, also when the assignment throws. *)
Definition assign_temporary_at (dst : M ptr) (args : Args) : M unit :=
  let* t := elem_construct args in
  let* p := dst in
  let* d := load p in
  fun s =>
    match move_assign d t (world s) with
    | (d', t', true, w) => (store p d' ;; elem_destroy t') (set_world w s)
    | (d', t', false, w) =>
        (store p d' ;; elem_destroy t' ;; throw ElementException) (set_world w s)
    end.

(** ** The algorithms of [<memory>] and [<algorithm>] *)

(** [std::destroy_n(first, n)] *)
Fixpoint destroy_loop (first : ptr) (n : nat) : M unit :=
  match n with
  | O => ret tt
  | S n' => destroy_at first ;; destroy_loop (ptr_add first 1) n'
  end.

Definition destroy_n (first : ptr) (n : Z) : M unit :=
  destroy_loop first (Z.to_nat n).

(** The common shape of the [std::uninitialized_*_n] algorithms: construct
    [count] elements one after the other starting at [d_first]; when one
    construction throws, destroy those already constructed and rethrow.
    [i] elements have been constructed so far. *)
Fixpoint uninitialized_loop (step : ptr -> ptr -> M unit)
    (first d_first : ptr) (i : Z) (count : nat) : M unit :=
  match count with
  | O => ret tt
  | S n =>
      on_throw (step (ptr_add d_first i) (ptr_add first i)) (destroy_n d_first i) ;;
      uninitialized_loop step first d_first (i + 1) n
  end.

Definition uninitialized_copy_n (first : ptr) (count : Z) (d_first : ptr) : M unit :=
  uninitialized_loop copy_construct_at first d_first 0 (Z.to_nat count).

Definition uninitialized_move_n (first : ptr) (count : Z) (d_first : ptr) : M unit :=
  uninitialized_loop move_construct_at first d_first 0 (Z.to_nat count).

Definition uninitialized_value_construct_n (first : ptr) (count : Z) : M unit :=
  uninitialized_loop (fun dst _ => value_construct_at dst) first first 0 (Z.to_nat count).

(** The common shape of [std::copy_n] and [std::move]: assign [count]
    elements front to back. *)
Fixpoint assign_loop (step : ptr -> ptr -> M unit)
    (first d_first : ptr) (count : nat) : M unit :=
  match count with
  | O => ret tt
  | S n =>
      step d_first first ;;
      assign_loop step (ptr_add first 1) (ptr_add d_first 1) n
  end.

(** [std::copy_n(first, count, d_first)] *)
Definition copy_n (first : ptr) (count : Z) (d_first : ptr) : M unit :=
  assign_loop copy_assign_at first d_first (Z.to_nat count).

(** [std::move(first, last, d_first)] *)
Definition std_move (first last d_first : ptr) : M unit :=
  assign_loop move_assign_at first d_first (Z.to_nat (distance first last)).

(** [std::move_backward(first, last, d_last)]: while [first != last],
    step [last] and [d_last] back by one and move-assign the element at
    [last] to the element at [d_last]. *)
Fixpoint move_backward_loop (last d_last : ptr) (count : nat) : M unit :=
  match count with
  | O => ret tt
  | S n =>
      move_assign_at (ptr_add d_last (-1)) (ptr_add last (-1)) ;;
      move_backward_loop (ptr_add last (-1)) (ptr_add d_last (-1)) n
  end.

Definition move_backward (first last d_last : ptr) : M unit :=
  move_backward_loop last d_last (Z.to_nat (distance first last)).

End Primitives.

(** ** [RawMemory<T>] *)

Section RawMemoryOps.
Context `{E : ElemType}.

(** [n != 0 ? operator new(n * sizeof(T)) : nullptr] *)
Definition Allocate (n : Z) : M ptr :=
  if n =? 0 then ret nullptr else operator_new (wrap (n * sizeof_T)).

Definition Deallocate (buf : ptr) : M unit := operator_delete buf.

(** [RawMemory() = default] *)
Definition RawMemory_default : RawMemory := {| buffer_ := nullptr; capacity_ := 0 |}.

(** [explicit RawMemory(size_t capacity)] *)
Definition RawMemory_ctor (capacity : Z) : M RawMemory :=
  let* buf := Allocate capacity in
  ret {| buffer_ := buf; capacity_ := capacity |}.

(** [RawMemory(RawMemory&& other)]: the new object, and [other] afterwards. *)
Definition RawMemory_move_ctor (other : RawMemory) : RawMemory * RawMemory :=
  ({| buffer_ := buffer_ other; capacity_ := capacity_ other |},
   {| buffer_ := nullptr; capacity_ := 0 |}).

(** [operator=(RawMemory&& rhs)] on two distinct objects: [this] and [rhs]
    afterwards.  The block [this] held before is not released. *)
Definition RawMemory_move_assign (this rhs : RawMemory) : RawMemory * RawMemory :=
  ({| buffer_ := buffer_ rhs; capacity_ := capacity_ rhs |},
   {| buffer_ := nullptr; capacity_ := 0 |}).

(** [~RawMemory()] *)
Definition RawMemory_dtor (this : RawMemory) : M unit := Deallocate (buffer_ this).

(** [operator+(size_t offset)] *)
Definition RawMemory_plus (this : RawMemory) (offset : Z) : M ptr :=
  assert_ (offset <=? capacity_ this) ;;
  ret (ptr_add (buffer_ this) offset).

(** [operator[](size_t index)], a reference to the slot *)
Definition RawMemory_at (this : RawMemory) (index : Z) : M ptr :=
  assert_ (index <? capacity_ this) ;;
  ret (ptr_add (buffer_ this) index).

(** [Swap(RawMemory& other)] on two distinct objects *)
Definition RawMemory_Swap (this other : RawMemory) : RawMemory * RawMemory :=
  ({| buffer_ := buffer_ other; capacity_ := capacity_ other |},
   {| buffer_ := buffer_ this; capacity_ := capacity_ this |}).

Definition GetAddress (this : RawMemory) : ptr := buffer_ this.

End RawMemoryOps.

(** ** [Vector<T>] *)

Section VectorOps.
Context `{E : ElemType}.

(** *** Access to the object [this] refers to *)

Definition get_vec (this : nat) : M Vector := fun s =>
  match vecs s !! this with
  | Some v => Normal v s
  | None => UB
  end.

Definition put_vec (this : nat) (v : Vector) : M unit := fun s =>
  Normal tt (set_vecs (<[this := v]> (vecs s)) s).

Definition drop_vec (this : nat) : M unit := fun s =>
  Normal tt (set_vecs (delete this (vecs s)) s).

Definition get_data (this : nat) : M RawMemory :=
  let* v := get_vec this in ret (data_ v).

Definition set_data (this : nat) (d : RawMemory) : M unit :=
  let* v := get_vec this in put_vec this {| data_ := d; size_ := size_ v |}.

Definition get_size (this : nat) : M Z :=
  let* v := get_vec this in ret (size_ v).

Definition set_size (this : nat) (n : Z) : M unit :=
  let* v := get_vec this in put_vec this {| data_ := data_ v; size_ := n |}.

(** The identity of a new local object. *)
Definition new_object : M nat := fun s => Normal (fresh (dom (vecs s))) s.

(** *** Observers *)

Definition begin (this : nat) : M ptr :=
  let* d := get_data this in ret (GetAddress d).

Definition end_ (this : nat) : M ptr :=
  let* d := get_data this in
  let* n := get_size this in
  ret (ptr_add (GetAddress d) n).

Definition cbegin (this : nat) : M ptr := begin this.
Definition cend (this : nat) : M ptr := end_ this.

Definition Size (this : nat) : M Z := get_size this.

Definition Capacity (this : nat) : M Z :=
  let* d := get_data this in ret (capacity_ d).

(** [operator[](size_t index)], a reference to the element *)
Definition Vector_at (this : nat) (index : Z) : M ptr :=
  let* n := get_size this in
  assert_ (index <? n) ;;
  let* d := get_data this in
  RawMemory_at d index.

(** *** Construction and destruction

    A constructor that throws leaves no object behind: the members built so
    far are destroyed, which for [data_] releases the block. *)

(** [Vector() = default] *)
Definition Vector_default (this : nat) : M unit :=
  put_vec this {| data_ := RawMemory_default; size_ := 0 |}.

(** [explicit Vector(size_t size)] *)
Definition Vector_sized (this : nat) (size : Z) : M unit :=
  let* data := RawMemory_ctor size in
  on_throw (uninitialized_value_construct_n (GetAddress data) size)
           (RawMemory_dtor data) ;;
  put_vec this {| data_ := data; size_ := size |}.

(** [Vector(const Vector& other)] *)
Definition Vector_copy (this other : nat) : M unit :=
  let* o := get_vec other in
  let* data := RawMemory_ctor (size_ o) in
  on_throw (uninitialized_copy_n (GetAddress (data_ o)) (size_ o) (GetAddress data))
           (RawMemory_dtor data) ;;
  put_vec this {| data_ := data; size_ := size_ o |}.

(** [Vector(Vector&& other) noexcept]: each member is initialised with
    [std::exchange] on the member of [other]. *)
Definition Vector_move (this other : nat) : M unit :=
  let* moved := get_data other in
  let '(taken, moved') := RawMemory_move_ctor moved in
  let '(emptied, _) := RawMemory_move_assign moved' RawMemory_default in
  set_data other emptied ;;
  let* n := get_size other in
  set_size other 0 ;;
  put_vec this {| data_ := fst (RawMemory_move_ctor taken); size_ := n |}.

(** [~Vector()], followed by the destructor of the member [data_]; the
    object is gone afterwards. *)
Definition Vector_dtor (this : nat) : M unit :=
  let* b := begin this in
  let* n := get_size this in
  destroy_n b n ;;
  let* d := get_data this in
  RawMemory_dtor d ;;
  drop_vec this.

(** *** Swap *)

(** [std::swap(data_, other.data_)]: a temporary is move-constructed from
    the first, the first move-assigned from the second (a no-op when both
    are one object), the second move-assigned from the temporary, and the
    emptied temporary destroyed. *)
Definition swap_data (this other : nat) : M unit :=
  let* a := get_data this in
  let '(tmp, a') := RawMemory_move_ctor a in
  set_data this a' ;;
  (if decide (this = other) then ret tt
   else
     let* b := get_data other in
     let '(a'', b') := RawMemory_move_assign a' b in
     set_data other b' ;;
     set_data this a'') ;;
  let* b := get_data other in
  let '(b'', tmp') := RawMemory_move_assign b tmp in
  set_data other b'' ;;
  RawMemory_dtor tmp'.

(** [std::swap(size_, other.size_)] *)
Definition swap_size (this other : nat) : M unit :=
  let* tmp := get_size this in
  let* n := get_size other in
  set_size this n ;;
  set_size other tmp.

(** [void Swap(Vector& other) noexcept] *)
Definition Swap (this other : nat) : M unit :=
  swap_data this other ;;
  swap_size this other.

(** *** Reallocation *)

(** [InitializeRawMemory(source_start, count, dest_start)] *)
Definition InitializeRawMemory (source_start : ptr) (count : Z) (dest_start : ptr) : M unit :=
  if is_nothrow_move_constructible || negb is_copy_constructible
  then uninitialized_move_n source_start count dest_start
  else uninitialized_copy_n source_start count dest_start.

(** [data_.Swap(new_data)] at the end of the scope of the local [new_data],
    whose destructor then releases what [data_] held. *)
Definition adopt (this : nat) (new_data : RawMemory) : M unit :=
  let* d := get_data this in
  let '(d', new_data') := RawMemory_Swap d new_data in
  set_data this d' ;;
  RawMemory_dtor new_data'.

(** [void Reserve(size_t new_capacity)] *)
Definition Reserve (this : nat) (new_capacity : Z) : M unit :=
  let* cap := Capacity this in
  if new_capacity <=? cap then ret tt
  else
    let* new_data := RawMemory_ctor new_capacity in
    let* b := begin this in
    let* n := get_size this in
    on_throw (InitializeRawMemory b n (GetAddress new_data))
             (RawMemory_dtor new_data) ;;
    destroy_n b n ;;
    adopt this new_data.

(** [void Resize(size_t new_size)] *)
Definition Resize (this : nat) (new_size : Z) : M unit :=
  let* n := get_size this in
  (if new_size <? n then
     let* b := begin this in
     destroy_n (ptr_add b new_size) (wrap (n - new_size))
   else
     Reserve this new_size ;;
     let* b := begin this in
     uninitialized_value_construct_n (ptr_add b n) (wrap (new_size - n))) ;;
  set_size this new_size.

(** *** Assignment *)

(** [Vector& operator=(const Vector& rhs)] *)
Definition Vector_copy_assign (this rhs : nat) : M unit :=
  if decide (this <> rhs) then
    let* rn := get_size rhs in
    let* cap := Capacity this in
    if cap <? rn then
      let* rhs_copy := new_object in
      Vector_copy rhs_copy rhs ;;
      Swap this rhs_copy ;;
      Vector_dtor rhs_copy
    else
      let* n := get_size this in
      let* rb := begin rhs in
      let* b := begin this in
      (if rn <? n then
         copy_n rb rn b ;;
         destroy_n (ptr_add b rn) (wrap (n - rn))
       else
         copy_n rb n b ;;
         uninitialized_copy_n (ptr_add rb n) (wrap (rn - n)) (ptr_add b n)) ;;
      set_size this rn
  else ret tt.

(** [Vector& operator=(Vector&& rhs) noexcept].  [std::exchange] moves the
    member of [rhs] out and a default-constructed temporary in; the result
    is move-assigned to the member of [this], whose previous value is
    overwritten. *)
Definition Vector_move_assign (this rhs : nat) : M unit :=
  if decide (this <> rhs) then
    let* moved := get_data rhs in
    let '(taken, moved') := RawMemory_move_ctor moved in
    let '(emptied, _) := RawMemory_move_assign moved' RawMemory_default in
    set_data rhs emptied ;;
    let* d := get_data this in
    let '(d', taken') := RawMemory_move_assign d taken in
    set_data this d' ;;
    RawMemory_dtor taken' ;;
    let* n := get_size rhs in
    set_size rhs 0 ;;
    set_size this n
  else ret tt.

(** *** Insertion and removal at the end *)

(** [void PopBack() noexcept] *)
Definition PopBack (this : nat) : M unit :=
  let* b := begin this in
  let* n := get_size this in
  destroy_at (ptr_add (ptr_add b n) (-1)) ;;
  set_size this (wrap (n - 1)).

(** [T& EmplaceBack(Args&&... args)] *)
Definition EmplaceBack (this : nat) (args : Args) : M ptr :=
  let* n := get_size this in
  let* cap := Capacity this in
  (if n =? cap then
     let* new_data := RawMemory_ctor (if n =? 0 then 1 else wrap (n * 2)) in
     on_throw
       (emplace_at (ptr_add (GetAddress new_data) n) args ;;
        let* b := begin this in
        on_throw (InitializeRawMemory b n (GetAddress new_data))
                 (destroy_at (ptr_add (GetAddress new_data) n)))
       (RawMemory_dtor new_data) ;;
     let* b := begin this in
     destroy_n b n ;;
     adopt this new_data
   else
     let* b := begin this in
     emplace_at (ptr_add b n) args) ;;
  set_size this (wrap (n + 1)) ;;
  let* e := end_ this in
  ret (ptr_add e (-1)).

(** *** Insertion and removal at a position *)

(** [iterator Emplace(const_iterator pos, Args&&... args)] *)
Definition Emplace (this : nat) (pos : ptr) (args : Args) : M ptr :=
  let* b := begin this in
  let* e := end_ this in
  assert_ (ptr_ge pos b && ptr_le pos e) ;;
  let* cb := cbegin this in
  let index := wrap (distance cb pos) in
  let* n := get_size this in
  let* cap := Capacity this in
  (if n =? cap then
     let* new_data := RawMemory_ctor (if n =? 0 then 1 else wrap (n * 2)) in
     on_throw
       (emplace_at (ptr_add (GetAddress new_data) index) args ;;
        on_throw (InitializeRawMemory b index (GetAddress new_data))
                 (destroy_at (ptr_add (GetAddress new_data) index)) ;;
        on_throw (InitializeRawMemory (ptr_add b index) (wrap (n - index))
                    (ptr_add (ptr_add (GetAddress new_data) index) 1))
                 (destroy_n (GetAddress new_data) (wrap (index + 1))))
       (RawMemory_dtor new_data) ;;
     destroy_n b n ;;
     adopt this new_data
   else
     if negb (n =? index) then
       move_construct_at e (ptr_add e (-1)) ;;
       move_backward (ptr_add b index) (ptr_add e (-1)) e ;;
       let* d := get_data this in
       assign_temporary_at (RawMemory_at d index) args
     else
       emplace_at (ptr_add b index) args) ;;
  set_size this (wrap (n + 1)) ;;
  let* b := begin this in
  ret (ptr_add b index).

(** [iterator Erase(const_iterator pos)] *)
Definition Erase (this : nat) (pos : ptr) : M ptr :=
  let* b := begin this in
  let* e := end_ this in
  assert_ (ptr_ge pos b && ptr_lt pos e) ;;
  let* cb := cbegin this in
  let index := wrap (distance cb pos) in
  std_move (ptr_add (ptr_add b index) 1) e (ptr_add b index) ;;
  PopBack this ;;
  let* b := begin this in
  ret (ptr_add b index).

(** [noexcept(std::is_nothrow_move_assignable_v<T>)], the exception
    specification of [Erase] *)
Definition Erase_noexcept : bool := is_nothrow_move_assignable.

End VectorOps.


(** ** [PushBack] and [Insert]: arguments forwarded by reference

    [EmplaceBack] and [Emplace] are templates over the pack [Args&&...].
    [PushBack(const T&)] and [Insert(pos, const T&)] instantiate them with
    a reference to an existing object, which selects the copy constructor
    and is read only when the constructor runs; the object referred to may
    be an element of the vector itself. *)

Section Forwarding.
Context `{E : ElemType}.

(** What is forwarded to the constructor of the new element. *)
Inductive forwarded :=
| by_args (args : Args)
| by_const_ref (value : ptr).

(** [new (dst) T(std::forward<Args>(args)...)] *)
Definition construct_forwarded_at (dst : ptr) (a : forwarded) : M unit :=
  match a with
  | by_args args => emplace_at dst args
  | by_const_ref value => copy_construct_at dst value
  end.

(** The temporary [T(std::forward<Args>(args)...)] *)
Definition elem_construct_forwarded (a : forwarded) : M T :=
  match a with
  | by_args args => elem_construct args
  | by_const_ref value => let* v := load value in elem_copy_construct v
  end.

(** [dst = T(std::forward<Args>(args)...)], as [assign_temporary_at] *)
Definition assign_forwarded_at (dst : M ptr) (a : forwarded) : M unit :=
  let* t := elem_construct_forwarded a in
  let* p := dst in
  let* d := load p in
  fun s =>
    match move_assign d t (world s) with
    | (d', t', true, w) => (store p d' ;; elem_destroy t') (set_world w s)
    | (d', t', false, w) =>
        (store p d' ;; elem_destroy t' ;; throw ElementException) (set_world w s)
    end.

(** [EmplaceBack] for any forwarded argument *)
Definition EmplaceBack_forwarded (this : nat) (a : forwarded) : M ptr :=
  let* n := get_size this in
  let* cap := Capacity this in
  (if n =? cap then
     let* new_data := RawMemory_ctor (if n =? 0 then 1 else wrap (n * 2)) in
     on_throw
       (construct_forwarded_at (ptr_add (GetAddress new_data) n) a ;;
        let* b := begin this in
        on_throw (InitializeRawMemory b n (GetAddress new_data))
                 (destroy_at (ptr_add (GetAddress new_data) n)))
       (RawMemory_dtor new_data) ;;
     let* b := begin this in
     destroy_n b n ;;
     adopt this new_data
   else
     let* b := begin this in
     construct_forwarded_at (ptr_add b n) a) ;;
  set_size this (wrap (n + 1)) ;;
  let* e := end_ this in
  ret (ptr_add e (-1)).

(** [Emplace] for any forwarded argument *)
Definition Emplace_forwarded (this : nat) (pos : ptr) (a : forwarded) : M ptr :=
  let* b := begin this in
  let* e := end_ this in
  assert_ (ptr_ge pos b && ptr_le pos e) ;;
  let* cb := cbegin this in
  let index := wrap (distance cb pos) in
  let* n := get_size this in
  let* cap := Capacity this in
  (if n =? cap then
     let* new_data := RawMemory_ctor (if n =? 0 then 1 else wrap (n * 2)) in
     on_throw
       (construct_forwarded_at (ptr_add (GetAddress new_data) index) a ;;
        on_throw (InitializeRawMemory b index (GetAddress new_data))
                 (destroy_at (ptr_add (GetAddress new_data) index)) ;;
        on_throw (InitializeRawMemory (ptr_add b index) (wrap (n - index))
                    (ptr_add (ptr_add (GetAddress new_data) index) 1))
                 (destroy_n (GetAddress new_data) (wrap (index + 1))))
       (RawMemory_dtor new_data) ;;
     destroy_n b n ;;
     adopt this new_data
   else
     if negb (n =? index) then
       move_construct_at e (ptr_add e (-1)) ;;
       move_backward (ptr_add b index) (ptr_add e (-1)) e ;;
       let* d := get_data this in
       assign_forwarded_at (RawMemory_at d index) a
     else
       construct_forwarded_at (ptr_add b index) a) ;;
  set_size this (wrap (n + 1)) ;;
  let* b := begin this in
  ret (ptr_add b index).

(** [void PushBack(const T& value)] *)
Definition PushBack (this : nat) (value : ptr) : M unit :=
  EmplaceBack_forwarded this (by_const_ref value) ;; ret tt.

(** [iterator Insert(const_iterator pos, const T& value)] *)
Definition Insert (this : nat) (pos : ptr) (value : ptr) : M ptr :=
  Emplace_forwarded this pos (by_const_ref value).

(** With a pack of arguments these are [EmplaceBack] and [Emplace]. *)
Lemma EmplaceBack_forwarded_args (this : nat) (args : Args) :
  EmplaceBack_forwarded this (by_args args) = EmplaceBack this args.
Proof. reflexivity. Qed.

Lemma Emplace_forwarded_args (this : nat) (pos : ptr) (args : Args) :
  Emplace_forwarded this pos (by_args args) = Emplace this pos args.
Proof. reflexivity. Qed.

End Forwarding.

(** * What is observed and what is required *)

Section Observations.
Context `{E : ElemType}.

(** The pointer to slot [k] of block [b]. *)
Definition at_ (b k : nat) : ptr := {| blk := Some b; off := Z.of_nat k |}.

(** The slot [k] of block [b], when there is one. *)
Definition cell (s : state) (b k : nat) : option (option T) :=
  match heap s !! b with
  | Some l => l !! k
  | None => None
  end.

(** Which blocks are allocated, and how many slots each has. *)
Definition shape (s : state) : gmap nat nat := length <$> heap s.

(** Two states with the same blocks and the same objects. *)
Definition same_frame (s s' : state) : Prop :=
  shape s' = shape s /\ vecs s' = vecs s.

(** The element of [v] at [index], when that slot holds a live element. *)
Definition element_at (s : state) (v : Vector) (index : nat) : option T :=
  match slot_at s (ptr_add (GetAddress (data_ v)) (Z.of_nat index)) with
  | Some (Some x) => Some x
  | _ => None
  end.

(** The elements of the vector [this], front to back. *)
Definition elements (s : state) (this : nat) : option (list T) :=
  match vecs s !! this with
  | Some v => mapM (element_at s v) (seq 0 (Z.to_nat (size_ v)))
  | None => None
  end.

(** A [RawMemory] owns the block with slots [l]: the buffer is null exactly
    when the capacity is zero, and otherwise is the start of an allocated
    block of [capacity_] slots, which [operator new] could serve. *)
Definition owns (s : state) (rm : RawMemory) (l : list (option T)) : Prop :=
  Z.of_nat (length l) = capacity_ rm /\
  capacity_ rm * sizeof_T <= PTRDIFF_MAX /\
  match blk (buffer_ rm) with
  | None => off (buffer_ rm) = 0 /\ capacity_ rm = 0
  | Some b => off (buffer_ rm) = 0 /\ heap s !! b = Some l /\ 0 < capacity_ rm
  end.

(** The invariant of a [Vector]: [0 <= size <= capacity], the slots
    [[0, size)] hold live elements and the slots [[size, capacity)] are
    raw. *)
Definition vector_inv (s : state) (v : Vector) : Prop :=
  exists l, owns s (data_ v) l /\
    0 <= size_ v <= capacity_ (data_ v) /\
    (forall i, 0 <= i < size_ v -> exists x, l !! Z.to_nat i = Some (Some x)) /\
    (forall i, size_ v <= i < capacity_ (data_ v) -> l !! Z.to_nat i = Some None).

(** The vector [this] exists, satisfies its invariant, has capacity [cap]
    and holds exactly the elements [xs]. *)
Definition holds (s : state) (this : nat) (xs : list T) (cap : Z) : Prop :=
  exists v, vecs s !! this = Some v /\
    size_ v = Z.of_nat (length xs) /\
    capacity_ (data_ v) = cap /\
    owns s (data_ v) ((Some <$> xs) ++ replicate (Z.to_nat cap - length xs)%nat None).

(** Value semantics of the element type: a copy, and the target of a move,
    is in the state the source was in. *)
Class Regular := {
  copy_construct_value v w x w' :
    copy_construct v w = (Some x, w') -> x = v;
  move_construct_value v w v' x w' :
    move_construct v w = (v', Some x, w') -> x = v;
  copy_assign_value d v w d' w' :
    copy_assign d v w = (d', true, w') -> d' = v;
  move_assign_value d v w d' v' w' :
    move_assign d v w = (d', v', true, w') -> d' = v;
}.

(** What [InitializeRawMemory] needs of the construction of one element at
    [dst] from the element at [src], by copy or by move: on success the new
    element is there and the source is still live; on failure only the
    source may have changed state. *)
Definition transfer_spec (step : ptr -> ptr -> M unit) : Prop :=
  forall (s : state) bd kd bs ks v o,
    cell s bs ks = Some (Some v) -> cell s bd kd = Some o ->
    match step (at_ bd kd) (at_ bs ks) s with
    | Normal _ s' =>
        exists x v' w,
          s' = set_slot (at_ bd kd) (Some x)
                 (set_slot (at_ bs ks) (Some v') (set_world w s)) /\
          (Regular -> x = v)
    | Throw _ s' =>
        exists v' w, s' = set_slot (at_ bs ks) (Some v') (set_world w s)
    | _ => False
    end.

(** What the traits promise: an operation declared [noexcept] lets no
    exception out. *)
Definition nothrow_move_constructible_sound : Prop :=
  is_nothrow_move_constructible = true ->
  forall v w, snd (fst (move_construct v w)) <> None.

Definition nothrow_move_assignable_sound : Prop :=
  is_nothrow_move_assignable = true ->
  forall d v w, snd (fst (move_assign d v w)) = true.

(** When reallocation transfers the elements by move, no move throws.  This
    holds for every type with a [noexcept] move constructor, and for a type
    without copy constructor it is an assumption about the type. *)
Definition transfer_cannot_throw_by_move : Prop :=
  is_nothrow_move_constructible || negb is_copy_constructible = true ->
  forall v w, snd (fst (move_construct v w)) <> None.

(** The outcome of a move from [other] (which was [v]) to [this], as seen
    from the state [s] before and the state [s'] after. *)
Definition taken_over (s : state) (this other : nat) (v : Vector) (s' : state) : Prop :=
  vecs s' !! this = Some v /\
  elements s' this = elements s other /\
  vecs s' !! other = Some {| data_ := RawMemory_default; size_ := 0 |} /\
  heap s' = heap s /\ world s' = world s.

(** ** Copy assignment in place, in the words of the specification

    What the specification says of copy assignment when the source fits in
    the capacity, as a function on the lists of elements: the elements
    held afterwards, whether the assignment completed, and the world after
    the element operations it ran. *)

(** Copy-assign [vs] over [ds] element by element; when an assignment
    throws, that element is in the state the assignment left it in and
    the later ones are untouched. *)
Fixpoint spec_assign_prefix (ds vs : list T) (w : World) : list T * bool * World :=
  match ds, vs with
  | d :: ds', v :: vs' =>
      match copy_assign d v w with
      | (d', true, w') =>
          let '(ys, ok, w'') := spec_assign_prefix ds' vs' w' in (d' :: ys, ok, w'')
      | (d', false, w') => (d' :: ds', false, w')
      end
  | _, _ => (ds, true, w)
  end.

(** Copy-construct new elements from [vs], up to the first copy that
    throws. *)
Fixpoint spec_construct_tail (vs : list T) (w : World) : list T * bool * World :=
  match vs with
  | [] => ([], true, w)
  | v :: vs' =>
      match copy_construct v w with
      | (Some x, w') =>
          let '(zs, ok, w'') := spec_construct_tail vs' w' in (x :: zs, ok, w'')
      | (None, w') => ([], false, w')
      end
  end.

(** Destroy the elements [xs], front to back. *)
Definition spec_destroy_all (xs : list T) (w : World) : World :=
  foldl (fun w x => destroy x w) w xs.

(** Value-initialise [n] new elements one after the other, up to the first
    constructor that throws. *)
Fixpoint spec_value_construct (n : nat) (w : World) : list T * bool * World :=
  match n with
  | O => ([], true, w)
  | S n' =>
      match value_construct w with
      | (Some x, w') =>
          let '(zs, ok, w'') := spec_value_construct n' w' in (x :: zs, ok, w'')
      | (None, w') => ([], false, w')
      end
  end.

(** Copy-assign over the overlapping prefix of [min (size, source size)]
    elements; then destroy the trailing elements when the source is
    smaller, or copy-construct the extra elements of the source into raw
    slots when it is larger.  When an operation throws the size stays what
    it was: after a failed assignment the prefix is partially overwritten,
    and after a failed construction the extra elements built so far are
    destroyed again. *)
Definition spec_copy_assign_in_place (xs rs : list T) (w : World)
    : list T * bool * World :=
  let m := Nat.min (length xs) (length rs) in
  match spec_assign_prefix (take m xs) (take m rs) w with
  | (ys, false, w1) => (ys ++ drop m xs, false, w1)
  | (ys, true, w1) =>
      if (length rs <? length xs)%nat
      then (ys, true, spec_destroy_all (drop m xs) w1)
      else
        match spec_construct_tail (drop m rs) w1 with
        | (zs, true, w2) => (ys ++ zs, true, w2)
        | (zs, false, w2) => (ys, false, spec_destroy_all zs w2)
        end
  end.

(** Two objects that do not share a block. *)
Definition separate (s : state) (this rhs : nat) : Prop :=
  forall v r, vecs s !! this = Some v -> vecs s !! rhs = Some r ->
    blk (buffer_ (data_ v)) = None \/
    blk (buffer_ (data_ v)) <> blk (buffer_ (data_ r)).

(** [k] calls of [EmplaceBack], one per argument pack. *)
Fixpoint append_all (this : nat) (l : list Args) : M unit :=
  match l with
  | [] => ret tt
  | a :: l' => EmplaceBack this a ;; append_all this l'
  end.

(** The capacity reached by appending [k >= 1] elements to an empty vector:
    the least power of two that is at least [k]. *)
Definition doubling_capacity (k : Z) : Z := 2 ^ Z.log2_up k.

(** The capacity after [n] appends to an empty vector. *)
Definition capacity_after (n : Z) : Z :=
  if n =? 0 then 0 else doubling_capacity n.

End Observations.

(** * Sample element types and states *)

Module Samples.

Lemma served_below_limit (n : Z) : (Z.log2 n <? 63) = true -> n <= PTRDIFF_MAX.
Proof.
  intros H. apply Z.ltb_lt in H. unfold PTRDIFF_MAX.
  destruct (Z_le_gt_dec n 0) as [Hn|Hn]; [lia|].
  apply Z.log2_lt_pow2 in H; lia.
Qed.

Lemma eight_bytes : 0 < 8 < SIZE_MODULUS.
Proof. split; reflexivity. Qed.

(** An element type over integers.  Its constructor throws on a negative
    argument; copying an element in state [13] throws; the moved-from state
    is [0]; [operator new] serves every request below [2 ^ 63] bytes.
    [nothrow_move] says whether the move constructor is [noexcept]
    (when it is not, moving from state [13] throws), [copyable] whether
    there is a copy constructor. *)
Definition sample (nothrow_move copyable : bool) : ElemType := {|
  T := Z; Args := Z; World := unit;
  sizeof_T := 8; sizeof_T_range := eight_bytes;
  construct := fun a w => (if a <? 0 then None else Some a, w);
  value_construct := fun w => (Some 0, w);
  copy_construct := fun v w => (if v =? 13 then None else Some v, w);
  move_construct := fun v w =>
    if nothrow_move || negb (v =? 13) then (0, Some v, w) else (v, None, w);
  copy_assign := fun d v w => if v =? 13 then (d, false, w) else (v, true, w);
  move_assign := fun d v w => (v, 0, true, w);
  destroy := fun v w => w;
  is_nothrow_move_constructible := nothrow_move;
  is_copy_constructible := copyable;
  is_nothrow_move_assignable := true;
  operator_new_ok := fun w n => Z.log2 n <? 63;
  operator_new_limit := fun w => served_below_limit |}.

(** An ordinary copyable type with a [noexcept] move. *)
Definition Plain : ElemType := sample true true.

(** A copyable type whose move constructor may throw: reallocation copies. *)
Definition Fragile : ElemType := sample false true.

(** A move-only type whose move constructor may throw. *)
Definition MoveOnly : ElemType := sample false false.

Definition vec (b : option nat) (cap size : Z) : Vector :=
  {| data_ := {| buffer_ := {| blk := b; off := 0 |}; capacity_ := cap |};
     size_ := size |}.

(** A state of the program whose element type is [sample nm cp]. *)
Definition st (nm cp : bool) (h : gmap nat (list (option Z)))
    (m : gmap nat Vector) : @state (sample nm cp) :=
  @Build_state (sample nm cp) h m tt.

(** A vector (object 0) of size and capacity 1 holding the element [5]. *)
Definition one_element : @state Plain :=
  st true true {[ 0%nat := [Some 5] ]} {[ 0%nat := vec (Some 0%nat) 1 1 ]}.

#[export] Instance sample_regular nm cp : @Regular (sample nm cp).
Proof.
  split; simpl.
  - intros v w x w'. destruct (v =? 13); congruence.
  - intros v w v' x w'. destruct (nm || negb (v =? 13)); congruence.
  - intros d v w d' w'. destruct (v =? 13); congruence.
  - intros d v w d' v' w'. congruence.
Qed.

(** A vector (object 0) of size 2 and capacity 4 holding [1; 2]. *)
Definition roomy_vector : @state Plain :=
  st true true {[ 0%nat := [Some 1; Some 2; None; None] ]}
               {[ 0%nat := vec (Some 0%nat) 4 2 ]}.

(** A full vector (object 0) of size and capacity 2 holding [5; 13]. *)
Definition full_vector (nm cp : bool) : @state (sample nm cp) :=
  st nm cp {[ 0%nat := [Some 5; Some 13] ]} {[ 0%nat := vec (Some 0%nat) 2 2 ]}.

(** Two vectors: object 0 holds [1; 2; 3] with capacity 4, object 1 holds
    [7; 13]. *)
Definition two_vectors : @state Fragile :=
  st false true {[ 0%nat := [Some 1; Some 2; Some 3; None];
                   1%nat := [Some 7; Some 13] ]}
                {[ 0%nat := vec (Some 0%nat) 4 3; 1%nat := vec (Some 1%nat) 2 2 ]}.

(** Two vectors: object 0 holds [1] with capacity 4, object 1 holds
    [7; 8]. *)
Definition short_and_long : @state Plain :=
  st true true {[ 0%nat := [Some 1; None; None; None];
                  1%nat := [Some 7; Some 8] ]}
               {[ 0%nat := vec (Some 0%nat) 4 1; 1%nat := vec (Some 1%nat) 2 2 ]}.

(** A state without any object or block. *)
Definition nothing : @state Plain := st true true ∅ ∅.

(** A default-constructed vector (object 0). *)
Definition empty_vector : @state Plain :=
  st true true ∅ {[ 0%nat := vec None 0 0 ]}.

End Samples.

(** ** What a forwarded argument denotes *)

Section ForwardedValues.
Context `{E : ElemType}.

(** A reference argument refers to a live element. *)
Definition readable (s : state) (a : forwarded) : Prop :=
  match a with
  | by_args _ => True
  | by_const_ref value =>
      exists bv kv v, value = at_ bv kv /\ cell s bv kv = Some (Some v)
  end.

(** The element a constructor run in state [s] makes of the argument, for
    an element type with value semantics: some result of the constructor
    for a pack of arguments, the element referred to for a reference. *)
Definition forwarded_from (s : state) (a : forwarded) (x : T) : Prop :=
  match a with
  | by_args args => exists w w', construct args w = (Some x, w')
  | by_const_ref value =>
      exists bv kv, value = at_ bv kv /\ cell s bv kv = Some (Some x)
  end.

(** The element inserted at index [i] of the elements [xs] in block [b]
    without reallocation.  The argument is evaluated after the elements
    from [i] on were shifted one slot to the right, so a reference to one
    of them, at index [kv > i], then refers to the element that was at
    [kv - 1]; a reference to the element at [i] itself refers to a
    moved-from element, of which nothing is said. *)
Definition inserted_in_place (s : state) (b i : nat) (xs : list T)
    (a : forwarded) (x : T) : Prop :=
  match a with
  | by_args args => exists w w', construct args w = (Some x, w')
  | by_const_ref value =>
      exists bv kv, value = at_ bv kv /\
        if decide (bv = b /\ (i < kv)%nat) then xs !! (kv - 1)%nat = Some x
        else if decide (bv = b /\ kv = i) then True
        else cell s bv kv = Some (Some x)
  end.

End ForwardedValues.
(** * Reasoning about the model *)

(** ** Outcomes of composed computations *)

Section MonadLemmas.
Context `{E : ElemType}.

Lemma bind_normal_inv {A B} (m : M A) (k : A -> M B) s b s' :
  bind m k s = Normal b s' ->
  exists a s1, m s = Normal a s1 /\ k a s1 = Normal b s'.
Proof.
  unfold bind. destruct (m s) as [a s1| | |]; try discriminate. eauto.
Qed.

Lemma bind_throw_inv {A B} (m : M A) (k : A -> M B) s e s' :
  bind m k s = Throw e s' ->
  m s = Throw e s' \/ exists a s1, m s = Normal a s1 /\ k a s1 = Throw e s'.
Proof.
  unfold bind. destruct (m s) as [a s1|e1 s1| |]; try discriminate.
  - right. eauto.
  - intros [= -> ->]. now left.
Qed.

Lemma bind_normal {A B} (m : M A) (k : A -> M B) s a s1 :
  m s = Normal a s1 -> bind m k s = k a s1.
Proof. unfold bind. now intros ->. Qed.

Lemma bind_throw {A B} (m : M A) (k : A -> M B) s e s1 :
  m s = Throw e s1 -> bind m k s = Throw e s1.
Proof. unfold bind. now intros ->. Qed.

Lemma on_throw_normal_inv {A} (m : M A) h s a s' :
  on_throw m h s = Normal a s' -> m s = Normal a s'.
Proof.
  unfold on_throw. destruct (m s) as [a1 s1|e1 s1| |]; try discriminate; auto.
  destruct (h s1); discriminate.
Qed.

Lemma on_throw_throw_inv {A} (m : M A) h s e s' :
  on_throw m h s = Throw e s' ->
  exists e0 s1, m s = Throw e0 s1 /\
    ((h s1 = Normal tt s' /\ e = e0) \/ h s1 = Throw e s').
Proof.
  unfold on_throw. destruct (m s) as [a1 s1|e1 s1| |]; try discriminate.
  destruct (h s1) as [[] s2|e2 s2| |] eqn:Hh; try discriminate.
  - intros [= -> ->]. eauto 6.
  - intros [= -> ->]. eauto 6.
Qed.

Lemma on_throw_normal {A} (m : M A) h s a s1 :
  m s = Normal a s1 -> on_throw m h s = Normal a s1.
Proof. unfold on_throw. now intros ->. Qed.

(** A computation that leaves the [Vector] objects alone, whatever its
    outcome. *)
Definition heap_only {A} (m : M A) : Prop :=
  forall s, match m s with
            | Normal _ s' | Throw _ s' => vecs s' = vecs s
            | _ => True
            end.

(** A computation from which no exception propagates. *)
Definition no_throw {A} (m : M A) : Prop :=
  forall s e s', m s <> Throw e s'.

Lemma heap_only_ret {A} (a : A) : heap_only (ret a).
Proof. now intros s. Qed.

Lemma heap_only_throw {A} e : heap_only (@throw _ A e).
Proof. now intros s. Qed.

Lemma heap_only_bind {A B} (m : M A) (k : A -> M B) :
  heap_only m -> (forall a, heap_only (k a)) -> heap_only (bind m k).
Proof.
  intros Hm Hk s. unfold bind. specialize (Hm s).
  destruct (m s) as [a s1|e s1| |]; auto.
  specialize (Hk a s1). destruct (k a s1); auto; congruence.
Qed.

Lemma heap_only_on_throw {A} (m : M A) h :
  heap_only m -> heap_only h -> heap_only (on_throw m h).
Proof.
  intros Hm Hh s. unfold on_throw. specialize (Hm s).
  destruct (m s) as [a s1|e s1| |]; auto.
  specialize (Hh s1). destruct (h s1); auto; congruence.
Qed.

Lemma heap_only_normal {A} (m : M A) s a s' :
  heap_only m -> m s = Normal a s' -> vecs s' = vecs s.
Proof. intros Hm Hs. specialize (Hm s). now rewrite Hs in Hm. Qed.

Lemma heap_only_thrown {A} (m : M A) s e s' :
  heap_only m -> m s = Throw e s' -> vecs s' = vecs s.
Proof. intros Hm Hs. specialize (Hm s). now rewrite Hs in Hm. Qed.

Lemma no_throw_ret {A} (a : A) : no_throw (ret a).
Proof. intros s e s'. discriminate. Qed.

Lemma no_throw_bind {A B} (m : M A) (k : A -> M B) :
  no_throw m -> (forall a, no_throw (k a)) -> no_throw (bind m k).
Proof.
  intros Hm Hk s e s' H. apply bind_throw_inv in H as [H|(a & s1 & _ & H)].
  - now apply Hm in H.
  - now apply Hk in H.
Qed.

End MonadLemmas.

(** ** The primitives *)

Create HintDb heap_only.

Section PrimitiveLemmas.
Context `{E : ElemType}.

Lemma set_slot_vecs p x s : vecs (set_slot p x s) = vecs s.
Proof.
  unfold set_slot. destruct (blk p); auto. destruct (heap s !! n); auto.
Qed.

Lemma set_slot_world p x s : world (set_slot p x s) = world s.
Proof.
  unfold set_slot. destruct (blk p); auto. destruct (heap s !! n); auto.
Qed.

Lemma heap_only_elem_construct a : heap_only (elem_construct a).
Proof. intros s. unfold elem_construct. now destruct (construct a (world s)) as [[x|] w]. Qed.

Lemma heap_only_elem_value_construct : heap_only elem_value_construct.
Proof. intros s. unfold elem_value_construct. now destruct (value_construct (world s)) as [[x|] w]. Qed.

Lemma heap_only_elem_copy_construct v : heap_only (elem_copy_construct v).
Proof. intros s. unfold elem_copy_construct. now destruct (copy_construct v (world s)) as [[x|] w]. Qed.

Lemma heap_only_elem_destroy v : heap_only (elem_destroy v).
Proof. now intros s. Qed.

Lemma heap_only_operator_new n : heap_only (operator_new n).
Proof. intros s. unfold operator_new. now destruct (operator_new_ok (world s) n). Qed.

Lemma heap_only_operator_delete p : heap_only (operator_delete p).
Proof.
  intros s. unfold operator_delete. destruct (blk p).
  - destruct (heap s !! n); auto. now destruct (off p =? 0).
  - now destruct (off p =? 0).
Qed.

Lemma heap_only_load p : heap_only (load p).
Proof. intros s. unfold load. now destruct (slot_at s p) as [[v|]|]. Qed.

Lemma heap_only_store p v : heap_only (store p v).
Proof.
  intros s. unfold store. destruct (slot_at s p) as [[v0|]|]; auto.
  apply set_slot_vecs.
Qed.

Lemma heap_only_construct_at p v : heap_only (construct_at p v).
Proof.
  intros s. unfold construct_at. destruct (slot_at s p) as [o|]; auto.
  apply set_slot_vecs.
Qed.

Lemma heap_only_destroy_at p : heap_only (destroy_at p).
Proof.
  intros s. unfold destroy_at. destruct (slot_at s p) as [[v0|]|]; auto.
  now rewrite set_slot_vecs.
Qed.

Hint Resolve heap_only_ret heap_only_throw heap_only_elem_construct
  heap_only_elem_value_construct heap_only_elem_copy_construct
  heap_only_elem_destroy heap_only_operator_new heap_only_operator_delete
  heap_only_load heap_only_store heap_only_construct_at heap_only_destroy_at
  : heap_only.

Ltac heap_only_step :=
  first [ apply heap_only_bind; [|intros ?]
        | apply heap_only_on_throw
        | solve [auto with heap_only] ].

Lemma heap_only_emplace_at p a : heap_only (emplace_at p a).
Proof. unfold emplace_at. repeat heap_only_step. Qed.

Lemma heap_only_value_construct_at p : heap_only (value_construct_at p).
Proof. unfold value_construct_at. repeat heap_only_step. Qed.

Lemma heap_only_copy_construct_at p q : heap_only (copy_construct_at p q).
Proof. unfold copy_construct_at. repeat heap_only_step. Qed.

Lemma heap_only_move_construct_at p q : heap_only (move_construct_at p q).
Proof.
  unfold move_construct_at. apply heap_only_bind; [auto with heap_only|].
  intros v s. destruct (move_construct v (world s)) as [[v' [x|]] w].
  - assert (H : heap_only (store q v' ;; construct_at p x)) by repeat heap_only_step.
    specialize (H (set_world w s)). exact H.
  - assert (H : heap_only (store q v' ;; @throw _ unit ElementException))
      by repeat heap_only_step.
    specialize (H (set_world w s)). exact H.
Qed.

Lemma heap_only_copy_assign_at p q : heap_only (copy_assign_at p q).
Proof.
  unfold copy_assign_at. do 2 (apply heap_only_bind; [auto with heap_only|intros ?]).
  intros s. destruct (copy_assign a a0 (world s)) as [[d' []] w].
  - exact (heap_only_store p d' (set_world w s)).
  - assert (H : heap_only (store p d' ;; @throw _ unit ElementException))
      by repeat heap_only_step.
    exact (H (set_world w s)).
Qed.

Lemma heap_only_move_assign_at p q : heap_only (move_assign_at p q).
Proof.
  unfold move_assign_at. do 2 (apply heap_only_bind; [auto with heap_only|intros ?]).
  intros s. destruct (move_assign a a0 (world s)) as [[[d' v'] []] w].
  - assert (H : heap_only (store q v' ;; store p d')) by repeat heap_only_step.
    exact (H (set_world w s)).
  - assert (H : heap_only (store q v' ;; store p d' ;; @throw _ unit ElementException))
      by repeat heap_only_step.
    exact (H (set_world w s)).
Qed.

Lemma heap_only_destroy_loop n : forall p, heap_only (destroy_loop p n).
Proof. induction n; intros p; simpl; repeat heap_only_step. Qed.

Lemma heap_only_destroy_n p n : heap_only (destroy_n p n).
Proof. apply heap_only_destroy_loop. Qed.

Lemma heap_only_uninitialized_loop step first d_first :
  (forall p q, heap_only (step p q)) ->
  forall count i, heap_only (uninitialized_loop step first d_first i count).
Proof.
  intros Hstep. induction count; intros i; simpl.
  - apply heap_only_ret.
  - apply heap_only_bind; [|intros ?; apply IHcount].
    apply heap_only_on_throw; [apply Hstep|apply heap_only_destroy_n].
Qed.

Lemma heap_only_assign_loop step :
  (forall p q, heap_only (step p q)) ->
  forall count first d_first, heap_only (assign_loop step first d_first count).
Proof.
  intros Hstep. induction count; intros first d_first; simpl.
  - apply heap_only_ret.
  - apply heap_only_bind; [apply Hstep|intros ?; apply IHcount].
Qed.

Lemma heap_only_move_backward_loop :
  forall count last d_last, heap_only (move_backward_loop last d_last count).
Proof.
  induction count; intros last d_last; simpl.
  - apply heap_only_ret.
  - apply heap_only_bind; [apply heap_only_move_assign_at|intros ?; apply IHcount].
Qed.

Lemma heap_only_Allocate n : heap_only (Allocate n).
Proof. unfold Allocate. destruct (n =? 0); auto with heap_only. Qed.

Lemma heap_only_RawMemory_ctor n : heap_only (RawMemory_ctor n).
Proof.
  unfold RawMemory_ctor. apply heap_only_bind; [apply heap_only_Allocate|].
  intros ?. apply heap_only_ret.
Qed.

Lemma heap_only_RawMemory_dtor rm : heap_only (RawMemory_dtor rm).
Proof. apply heap_only_operator_delete. Qed.

Lemma heap_only_InitializeRawMemory p n q : heap_only (InitializeRawMemory p n q).
Proof.
  unfold InitializeRawMemory, uninitialized_move_n, uninitialized_copy_n.
  destruct (_ || _); apply heap_only_uninitialized_loop.
  - apply heap_only_move_construct_at.
  - apply heap_only_copy_construct_at.
Qed.

(** Destructors do not throw. *)
Lemma no_throw_destroy_at p : no_throw (destroy_at p).
Proof.
  intros s e s'. unfold destroy_at. destruct (slot_at s p) as [[v|]|]; discriminate.
Qed.

Lemma no_throw_destroy_loop n : forall p, no_throw (destroy_loop p n).
Proof.
  induction n; intros p; simpl.
  - apply no_throw_ret.
  - apply no_throw_bind; [apply no_throw_destroy_at|intros _; apply IHn].
Qed.

Lemma no_throw_destroy_n p n : no_throw (destroy_n p n).
Proof. apply no_throw_destroy_loop. Qed.

Lemma no_throw_operator_delete p : no_throw (operator_delete p).
Proof.
  intros s e s'. unfold operator_delete. destruct (blk p).
  - destruct (heap s !! n); [|discriminate]. destruct (off p =? 0); discriminate.
  - destruct (off p =? 0); discriminate.
Qed.

End PrimitiveLemmas.

#[export] Hint Resolve heap_only_ret heap_only_throw heap_only_elem_construct
  heap_only_elem_value_construct heap_only_elem_copy_construct
  heap_only_elem_destroy heap_only_operator_new heap_only_operator_delete
  heap_only_load heap_only_store heap_only_construct_at heap_only_destroy_at
  heap_only_emplace_at heap_only_value_construct_at heap_only_copy_construct_at
  heap_only_move_construct_at heap_only_copy_assign_at heap_only_move_assign_at
  heap_only_destroy_n heap_only_RawMemory_ctor heap_only_RawMemory_dtor
  heap_only_InitializeRawMemory : heap_only.

(** ** Access to a known object *)

Section AccessLemmas.
Context `{E : ElemType}.

Lemma get_vec_eq s this v :
  vecs s !! this = Some v -> get_vec this s = Normal v s.
Proof. unfold get_vec. now intros ->. Qed.

Lemma get_data_eq s this v :
  vecs s !! this = Some v -> get_data this s = Normal (data_ v) s.
Proof. intros H. unfold get_data, bind. now rewrite (get_vec_eq _ _ _ H). Qed.

Lemma get_size_eq s this v :
  vecs s !! this = Some v -> get_size this s = Normal (size_ v) s.
Proof. intros H. unfold get_size, bind. now rewrite (get_vec_eq _ _ _ H). Qed.

Lemma begin_eq s this v :
  vecs s !! this = Some v -> begin this s = Normal (buffer_ (data_ v)) s.
Proof. intros H. unfold begin, bind. now rewrite (get_data_eq _ _ _ H). Qed.

Lemma end_eq s this v :
  vecs s !! this = Some v ->
  end_ this s = Normal (ptr_add (buffer_ (data_ v)) (size_ v)) s.
Proof.
  intros H. unfold end_, bind.
  now rewrite (get_data_eq _ _ _ H), (get_size_eq _ _ _ H).
Qed.

Lemma Capacity_eq s this v :
  vecs s !! this = Some v -> Capacity this s = Normal (capacity_ (data_ v)) s.
Proof. intros H. unfold Capacity, bind. now rewrite (get_data_eq _ _ _ H). Qed.

Lemma set_data_eq s this v d :
  vecs s !! this = Some v ->
  set_data this d s =
  Normal tt (set_vecs (<[this := {| data_ := d; size_ := size_ v |}]> (vecs s)) s).
Proof. intros H. unfold set_data, bind. now rewrite (get_vec_eq _ _ _ H). Qed.

Lemma set_size_eq s this v n :
  vecs s !! this = Some v ->
  set_size this n s =
  Normal tt (set_vecs (<[this := {| data_ := data_ v; size_ := n |}]> (vecs s)) s).
Proof. intros H. unfold set_size, bind. now rewrite (get_vec_eq _ _ _ H). Qed.

Lemma vecs_set_vecs m (s : state) : vecs (set_vecs m s) = m.
Proof. reflexivity. Qed.

Lemma heap_set_vecs m (s : state) : heap (set_vecs m s) = heap s.
Proof. reflexivity. Qed.

Lemma slot_at_set_vecs m (s : state) p : slot_at (set_vecs m s) p = slot_at s p.
Proof. reflexivity. Qed.

Lemma slot_at_set_world w (s : state) p : slot_at (set_world w s) p = slot_at s p.
Proof. reflexivity. Qed.

(** Pointers between [begin()] and [end()] point into the vector's block. *)
Lemma ptr_between b p n :
  ptr_ge p b && ptr_le p (ptr_add b n) = true <->
  blk p = blk b /\ off b <= off p <= off b + n.
Proof.
  unfold ptr_ge, ptr_le, ptr_add. simpl.
  assert (Hinj : blk_index (blk p) = blk_index (blk b) -> blk p = blk b).
  { unfold blk_index. destruct (blk p), (blk b); intros; try lia; f_equal; lia. }
  rewrite andb_true_iff, !orb_true_iff, !andb_true_iff.
  rewrite !Z.ltb_lt, !Z.eqb_eq, !Z.leb_le. split.
  - intros [[H1|[H1 H1']] [H2|[H2 H2']]]; try lia.
    split; [auto|lia].
  - intros [-> ?]. split; right; (split; [reflexivity|lia]).
Qed.

Lemma ptr_within b p n :
  ptr_ge p b && ptr_lt p (ptr_add b n) = true <->
  blk p = blk b /\ off b <= off p < off b + n.
Proof.
  unfold ptr_ge, ptr_lt, ptr_le, ptr_add. simpl.
  assert (Hinj : blk_index (blk p) = blk_index (blk b) -> blk p = blk b).
  { unfold blk_index. destruct (blk p), (blk b); intros; try lia; f_equal; lia. }
  rewrite andb_true_iff, negb_true_iff, orb_false_iff, andb_false_iff,
    orb_true_iff, andb_true_iff.
  rewrite !Z.ltb_lt, !Z.eqb_eq, !Z.leb_le, Z.ltb_ge, Z.eqb_neq, Z.leb_gt. split.
  - intros [[H1|[H1 H1']] [H2 [H3|H3]]]; try lia.
    split; [auto|lia].
  - intros [-> ?]. split; [right; split; [reflexivity|lia]|].
    split; [lia|right; lia].
Qed.

End AccessLemmas.

(** * Operations that do not touch the elements *)

Section ElementFreeOperations.
Context `{E : ElemType}.

(** C9.  [Reserve(k)] with [k] not above the current capacity does nothing:
    the whole state, and so the capacity, the size and every element of the
    vector, is as before. *)
Theorem Reserve_within_capacity_is_noop (s : state) (this : nat) (v : Vector) (k : Z) :
  vecs s !! this = Some v ->
  k <= capacity_ (data_ v) ->
  Reserve this k s = Normal tt s.
Proof.
  intros Hv Hk. unfold Reserve.
  rewrite (bind_normal _ _ _ _ _ (Capacity_eq _ _ _ Hv)).
  apply Z.leb_le in Hk. now rewrite Hk.
Qed.

(** C10.  Assigning a vector to itself, by copy or by move, returns at once
    with the whole state unchanged: no element is copied, moved or
    destroyed, and size, capacity and elements are as before. *)
Theorem self_assignment_is_identity (s : state) (this : nat) :
  Vector_copy_assign this this s = Normal tt s /\
  Vector_move_assign this this s = Normal tt s.
Proof.
  unfold Vector_copy_assign, Vector_move_assign.
  destruct (decide (this <> this)) as [Hne|_]; [now destruct Hne|].
  split; reflexivity.
Qed.

(** Move construction: the new object takes over block, capacity and size
    of [other], which is left empty; nothing else changes. *)
Lemma Vector_move_spec (s : state) (this other : nat) (v : Vector) :
  vecs s !! other = Some v ->
  this <> other ->
  Vector_move this other s =
  Normal tt (set_vecs (<[this := v]>
                        (<[other := {| data_ := RawMemory_default; size_ := 0 |}]>
                           (vecs s))) s).
Proof.
  intros Hv Hne. unfold Vector_move.
  rewrite (bind_normal _ _ _ _ _ (get_data_eq _ _ _ Hv)). simpl.
  rewrite (bind_normal _ _ _ _ _ (set_data_eq _ _ _ _ Hv)).
  set (s1 := set_vecs _ s).
  assert (H1 : vecs s1 !! other =
               Some {| data_ := RawMemory_default; size_ := size_ v |}).
  { subst s1. simpl. now rewrite lookup_insert_eq. }
  rewrite (bind_normal _ _ _ _ _ (get_size_eq _ _ _ H1)).
  rewrite (bind_normal _ _ _ _ _ (set_size_eq _ _ _ _ H1)).
  unfold put_vec. subst s1. simpl. unfold set_vecs. simpl.
  rewrite insert_insert_eq. destruct v as [[buf cap] n]. reflexivity.
Qed.

(** Move assignment between two distinct objects: [this] takes over block,
    capacity and size of [rhs], which is left empty.  The block [this] held
    before stays in the heap as it was. *)
Lemma Vector_move_assign_spec (s : state) (this rhs : nat) (v0 v : Vector) :
  vecs s !! this = Some v0 ->
  vecs s !! rhs = Some v ->
  this <> rhs ->
  Vector_move_assign this rhs s =
  Normal tt (set_vecs (<[this := v]>
                        (<[rhs := {| data_ := RawMemory_default; size_ := 0 |}]>
                           (vecs s))) s).
Proof.
  intros Hv0 Hv Hne. unfold Vector_move_assign.
  destruct (decide (this <> rhs)) as [_|Heq]; [|contradiction].
  rewrite (bind_normal _ _ _ _ _ (get_data_eq _ _ _ Hv)). simpl.
  rewrite (bind_normal _ _ _ _ _ (set_data_eq _ _ _ _ Hv)).
  set (s1 := set_vecs _ s).
  assert (H1 : vecs s1 !! this = Some v0).
  { subst s1. simpl. now rewrite lookup_insert_ne by congruence. }
  rewrite (bind_normal _ _ _ _ _ (get_data_eq _ _ _ H1)).
  rewrite (bind_normal _ _ _ _ _ (set_data_eq _ _ _ _ H1)).
  set (s2 := set_vecs _ s1).
  assert (Hdel : RawMemory_dtor {| buffer_ := nullptr; capacity_ := 0 |} s2
                 = Normal tt s2) by reflexivity.
  rewrite (bind_normal _ _ _ _ _ Hdel).
  assert (H2 : vecs s2 !! rhs =
               Some {| data_ := RawMemory_default; size_ := size_ v |}).
  { subst s2 s1. simpl. rewrite lookup_insert_ne by congruence.
    now rewrite lookup_insert_eq. }
  rewrite (bind_normal _ _ _ _ _ (get_size_eq _ _ _ H2)).
  rewrite (bind_normal _ _ _ _ _ (set_size_eq _ _ _ _ H2)).
  set (s3 := set_vecs _ s2).
  assert (H3 : vecs s3 !! this =
               Some {| data_ := {| buffer_ := buffer_ (data_ v);
                                   capacity_ := capacity_ (data_ v) |};
                       size_ := size_ v0 |}).
  { subst s3 s2 s1. simpl. rewrite lookup_insert_ne by congruence.
    now rewrite lookup_insert_eq. }
  rewrite (set_size_eq _ _ _ _ H3). f_equal.
  subst s3 s2 s1. unfold set_vecs. simpl. f_equal.
  destruct v as [[buf cap] n]. simpl.
  apply map_eq. intros i.
  destruct (decide (i = this)) as [->|Hi].
  - now rewrite !lookup_insert_eq.
  - destruct (decide (i = rhs)) as [->|Hi']; by simplify_map_eq.
Qed.

Lemma elements_ext (s s' : state) (a b : nat) :
  heap s' = heap s -> vecs s' !! a = vecs s !! b -> elements s' a = elements s b.
Proof.
  intros Hh Hv. unfold elements. rewrite Hv. destruct (vecs s !! b) as [v|]; auto.
  f_equal. unfold element_at, slot_at. now rewrite Hh.
Qed.

(** C8, amended.  Move construction, and move assignment between two
    distinct objects, always return normally; the destination then has the
    block, the capacity, the size and so the elements the source had, the
    source has size 0 and capacity 0, and heap and world are untouched. *)
Theorem move_takes_over_the_source (s : state) (this other : nat) (v : Vector) :
  vecs s !! other = Some v ->
  this <> other ->
  (exists s', Vector_move this other s = Normal tt s' /\
              taken_over s this other v s') /\
  (is_Some (vecs s !! this) ->
   exists s', Vector_move_assign this other s = Normal tt s' /\
              taken_over s this other v s').
Proof.
  intros Hv Hne.
  assert (Hmoved : taken_over s this other v (set_vecs (<[this := v]>
            (<[other := {| data_ := RawMemory_default; size_ := 0 |}]> (vecs s))) s)).
  { unfold taken_over. simpl. rewrite lookup_insert_eq.
    rewrite lookup_insert_ne, lookup_insert_eq by congruence.
    repeat split; auto. apply elements_ext; [reflexivity|].
    simpl. now rewrite lookup_insert_eq. }
  split.
  - eexists. split; [apply (Vector_move_spec _ _ _ _ Hv Hne)|exact Hmoved].
  - intros [v0 Hv0]. eexists.
    split; [apply (Vector_move_assign_spec _ _ _ _ _ Hv0 Hv Hne)|exact Hmoved].
Qed.

(** C6.  [PopBack] on an empty vector is not stopped by an assertion: it
    goes on to destroy the element before the first slot, which is
    undefined behaviour. *)
Theorem PopBack_on_empty_is_not_asserted (s : state) (this : nat) (v : Vector) :
  vecs s !! this = Some v ->
  vector_inv s v ->
  size_ v = 0 ->
  PopBack this s = UB /\ PopBack this s <> AssertFail.
Proof.
  intros Hv (l & (_ & _ & Hbuf) & _) Hn.
  assert (H : PopBack this s = UB); [|split; [exact H|rewrite H; discriminate]].
  unfold PopBack.
  rewrite (bind_normal _ _ _ _ _ (begin_eq _ _ _ Hv)).
  rewrite (bind_normal _ _ _ _ _ (get_size_eq _ _ _ Hv)).
  unfold bind, destroy_at, slot_at, ptr_add. simpl.
  destruct (blk (buffer_ (data_ v))) as [b|]; [|reflexivity].
  destruct Hbuf as (Hoff & Hl & _). rewrite Hl, Hoff, Hn. reflexivity.
Qed.

(** The siblings of [PopBack] do assert their preconditions. *)
Lemma Erase_on_empty_asserts (s : state) (this : nat) (v : Vector) (pos : ptr) :
  vecs s !! this = Some v ->
  size_ v = 0 ->
  Erase this pos s = AssertFail.
Proof.
  intros Hv Hn. unfold Erase.
  rewrite (bind_normal _ _ _ _ _ (begin_eq _ _ _ Hv)).
  rewrite (bind_normal _ _ _ _ _ (end_eq _ _ _ Hv)).
  destruct (ptr_ge pos _ && ptr_lt pos _) eqn:Hc; [|reflexivity].
  apply ptr_within in Hc. lia.
Qed.

Lemma Vector_at_out_of_range_asserts (s : state) (this : nat) (v : Vector) (index : Z) :
  vecs s !! this = Some v ->
  size_ v <= index ->
  Vector_at this index s = AssertFail.
Proof.
  intros Hv Hn. unfold Vector_at.
  rewrite (bind_normal _ _ _ _ _ (get_size_eq _ _ _ Hv)).
  apply Z.ltb_ge in Hn. unfold bind, assert_. now rewrite Hn.
Qed.

End ElementFreeOperations.

Module SimpleWitnesses.
Import Samples.

Lemma Reserve_within_capacity_is_noop_witness :
  Reserve 0%nat 1 one_element = Normal tt one_element.
Proof.
  apply (Reserve_within_capacity_is_noop one_element 0%nat (vec (Some 0%nat) 1 1) 1).
  - reflexivity.
  - simpl. lia.
Defined.

Lemma move_takes_over_the_source_witness :
  exists s', Vector_move 1%nat 0%nat one_element = Normal tt s' /\
             elements s' 1%nat = Some [5] /\ elements s' 0%nat = Some [].
Proof.
  destruct (move_takes_over_the_source one_element 1%nat 0%nat (vec (Some 0%nat) 1 1))
    as [(s' & Hrun & H1 & H2 & H3 & H4 & _) _].
  - reflexivity.
  - discriminate.
  - exists s'. split; [exact Hrun|]. split.
    + rewrite H2. reflexivity.
    + unfold elements. rewrite H3. reflexivity.
Defined.

(** Move assignment of a vector to itself leaves it as it is, so the
    source of the move is not left with size 0 and capacity 0. *)
Lemma self_move_assign_keeps_the_source :
  Vector_move_assign 0%nat 0%nat one_element = Normal tt one_element /\
  Size 0%nat one_element = Normal 1 one_element /\
  Capacity 0%nat one_element = Normal 1 one_element.
Proof. repeat split. Qed.

Lemma PopBack_on_empty_is_not_asserted_witness :
  PopBack 0%nat empty_vector = UB /\ PopBack 0%nat empty_vector <> AssertFail.
Proof.
  apply (PopBack_on_empty_is_not_asserted empty_vector 0%nat (vec None 0 0)).
  - reflexivity.
  - exists []. unfold owns. simpl. split; [|split; [lia|split; intros i Hi; lia]].
    split; [reflexivity|]. split; [discriminate|]. split; reflexivity.
  - reflexivity.
Defined.

End SimpleWitnesses.


(** * Growth of the capacity under [EmplaceBack] *)

Section Growth.
Context `{E : ElemType}.

Lemma RawMemory_ctor_normal_inv (c : Z) (s s1 : state) (rm : RawMemory) :
  RawMemory_ctor c s = Normal rm s1 ->
  capacity_ rm = c /\ vecs s1 = vecs s /\ world s1 = world s /\
  ((c = 0 /\ buffer_ rm = nullptr /\ heap s1 = heap s) \/
   (c <> 0 /\ buffer_ rm = {| blk := Some (fresh (dom (heap s))); off := 0 |} /\
    heap s1 = <[fresh (dom (heap s)) :=
                  replicate (Z.to_nat (wrap (c * sizeof_T) / sizeof_T)) None]> (heap s))).
Proof.
  unfold RawMemory_ctor, Allocate. intros H.
  apply bind_normal_inv in H as (buf & s0 & Hal & Hret).
  injection Hret as <- <-. simpl.
  destruct (c =? 0) eqn:Hc.
  - injection Hal as <- <-. apply Z.eqb_eq in Hc. repeat split; auto.
  - unfold operator_new in Hal.
    destruct (operator_new_ok _ _); [|discriminate].
    injection Hal as <- <-. apply Z.eqb_neq in Hc. repeat split; auto.
Qed.

Lemma RawMemory_ctor_throw_inv (c : Z) (s s1 : state) e :
  RawMemory_ctor c s = Throw e s1 -> e = BadAlloc /\ s1 = s.
Proof.
  unfold RawMemory_ctor, Allocate. intros H.
  apply bind_throw_inv in H as [H|(a & s0 & _ & H)]; [|discriminate].
  destruct (c =? 0); [discriminate|].
  unfold operator_new in H. destruct (operator_new_ok _ _); [discriminate|].
  now injection H as <- <-.
Qed.

(** One more append moves the capacity along the doubling sequence. *)
Lemma capacity_after_succ (n : Z) :
  0 <= n < 2 ^ 63 ->
  (if n =? capacity_after n
   then (if n =? 0 then 1 else wrap (n * 2))
   else capacity_after n) = capacity_after (n + 1).
Proof.
  intros Hn. unfold capacity_after, doubling_capacity.
  destruct (n =? 0) eqn:H0.
  - apply Z.eqb_eq in H0. subst n. reflexivity.
  - apply Z.eqb_neq in H0.
    replace (n + 1 =? 0) with false by (symmetry; apply Z.eqb_neq; lia).
    pose proof (Z.log2_up_nonneg n) as HL.
    destruct (n =? 2 ^ Z.log2_up n) eqn:Hfull.
    + apply Z.eqb_eq in Hfull.
      assert (Hw : wrap (n * 2) = n * 2).
      { unfold wrap, SIZE_MODULUS. apply Z.mod_small. lia. }
      rewrite Hw. rewrite (Z.log2_up_unique (n + 1) (Z.log2_up n + 1)).
      * rewrite Z.pow_add_r by lia. lia.
      * lia.
      * replace (Z.pred (Z.log2_up n + 1)) with (Z.log2_up n) by lia.
        rewrite Z.pow_add_r by lia. lia.
    + apply Z.eqb_neq in Hfull.
      assert (H1 : 1 < n).
      { destruct (decide (n = 1)) as [->|]; [|lia]. now contradiction Hfull. }
      pose proof (Z.log2_up_spec n H1) as Hspec.
      assert (0 < Z.log2_up n) by (apply Z.log2_up_pos; lia).
      rewrite (Z.log2_up_unique (n + 1) (Z.log2_up n)); [reflexivity|lia|lia].
Qed.

End Growth.

(** * What a failed reallocation leaves behind *)

Section Frames.
Context `{E : ElemType}.

(** A computation all of whose outcomes are related to the initial state
    by [R]. *)
Definition frame_of (R : state -> state -> Prop) {A} (m : M A) : Prop :=
  forall s, match m s with
            | Normal _ s' | Throw _ s' => R s s'
            | _ => True
            end.

Lemma frame_of_ret R {A} (a : A) : Reflexive R -> frame_of R (ret a).
Proof. intros HR s. apply HR. Qed.

Lemma frame_of_bind R {A B} (m : M A) (k : A -> M B) :
  Transitive R -> frame_of R m -> (forall a, frame_of R (k a)) ->
  frame_of R (bind m k).
Proof.
  intros HR Hm Hk s. unfold bind. specialize (Hm s).
  destruct (m s) as [a s1|e s1| |]; auto.
  specialize (Hk a s1). destruct (k a s1); auto; etransitivity; eauto.
Qed.

Lemma frame_of_on_throw R {A} (m : M A) h :
  Transitive R -> frame_of R m -> frame_of R h -> frame_of R (on_throw m h).
Proof.
  intros HR Hm Hh s. unfold on_throw. specialize (Hm s).
  destruct (m s) as [a s1|e s1| |]; auto.
  specialize (Hh s1). destruct (h s1); auto; etransitivity; eauto.
Qed.

Lemma frame_of_normal R {A} (m : M A) s a s' :
  frame_of R m -> m s = Normal a s' -> R s s'.
Proof. intros Hm Hs. specialize (Hm s). now rewrite Hs in Hm. Qed.

Lemma frame_of_thrown R {A} (m : M A) s e s' :
  frame_of R m -> m s = Throw e s' -> R s s'.
Proof. intros Hm Hs. specialize (Hm s). now rewrite Hs in Hm. Qed.

(** Between [s] and [s'] only slots below [m] of the block [b] changed;
    every other slot, every other block and all objects are as they were. *)
Definition block_frame (b : nat) (m : nat) (s s' : state) : Prop :=
  vecs s' = vecs s /\
  (forall c, c <> b -> heap s' !! c = heap s !! c) /\
  (forall l, heap s !! b = Some l ->
     exists l', heap s' !! b = Some l' /\ length l' = length l /\
                forall z, (m <= z)%nat -> l' !! z = l !! z) /\
  (heap s !! b = None -> heap s' !! b = None).

#[local] Instance block_frame_refl b m : Reflexive (block_frame b m).
Proof. intros s. repeat split; eauto. Qed.

#[local] Instance block_frame_trans b m : Transitive (block_frame b m).
Proof.
  intros s1 s2 s3 (Hv1 & Ho1 & Hb1 & Hn1) (Hv2 & Ho2 & Hb2 & Hn2).
  split; [congruence|]. split; [|split].
  - intros c Hc. rewrite Ho2, Ho1; auto.
  - intros l Hl. destruct (Hb1 l Hl) as (l1 & Hl1 & Hlen1 & Hz1).
    destruct (Hb2 l1 Hl1) as (l2 & Hl2 & Hlen2 & Hz2).
    exists l2. split; [auto|]. split; [congruence|].
    intros z Hz. rewrite Hz2, Hz1; auto.
  - auto.
Qed.

Lemma block_frame_set_world b m w s : block_frame b m s (set_world w s).
Proof. repeat split; eauto. Qed.

Lemma block_frame_set_slot b m p x s :
  blk p = Some b -> (Z.to_nat (off p) < m)%nat ->
  block_frame b m s (set_slot p x s).
Proof.
  intros Hb Hm. unfold set_slot. rewrite Hb.
  destruct (heap s !! b) as [l|] eqn:Hl; [|reflexivity].
  split; [reflexivity|]. simpl. split; [|split].
  - intros c Hc. now rewrite lookup_insert_ne by congruence.
  - intros l0 ?. simplify_eq. eexists. split; [apply lookup_insert_eq|].
    split; [apply length_insert|].
    intros z Hz. apply list_lookup_insert_ne. lia.
  - intros ?. simplify_eq.
Qed.

Lemma frame_load R p : Reflexive R -> frame_of R (load p).
Proof. intros HR s. unfold load. destruct (slot_at s p) as [[v|]|]; auto. Qed.

Lemma frame_elem_copy_construct b m v : frame_of (block_frame b m) (elem_copy_construct v).
Proof.
  intros s. unfold elem_copy_construct.
  destruct (copy_construct v (world s)) as [[x|] w]; apply block_frame_set_world.
Qed.

Lemma frame_elem_construct b m a : frame_of (block_frame b m) (elem_construct a).
Proof.
  intros s. unfold elem_construct.
  destruct (construct a (world s)) as [[x|] w]; apply block_frame_set_world.
Qed.

Lemma frame_construct_at b m p x :
  blk p = Some b -> (Z.to_nat (off p) < m)%nat ->
  frame_of (block_frame b m) (construct_at p x).
Proof.
  intros Hb Hm s. unfold construct_at. destruct (slot_at s p); auto.
  now apply block_frame_set_slot.
Qed.

Lemma frame_destroy_at b m p :
  blk p = Some b -> (Z.to_nat (off p) < m)%nat ->
  frame_of (block_frame b m) (destroy_at p).
Proof.
  intros Hb Hm s. unfold destroy_at. destruct (slot_at s p) as [[v|]|]; auto.
  etransitivity; [apply (block_frame_set_world b m (destroy v (world s)))|].
  now apply block_frame_set_slot.
Qed.

Lemma frame_destroy_loop b m (n : nat) :
  forall p, blk p = Some b -> 0 <= off p -> (Z.to_nat (off p) + n <= m)%nat ->
    frame_of (block_frame b m) (destroy_loop p n).
Proof.
  induction n; intros p Hb Hoff Hm; simpl.
  - apply frame_of_ret. apply _.
  - apply frame_of_bind; [apply _| |intros _].
    + apply frame_destroy_at; auto. lia.
    + apply IHn; simpl; auto; lia.
Qed.

Lemma frame_copy_construct_at b m dst src :
  blk dst = Some b -> (Z.to_nat (off dst) < m)%nat ->
  frame_of (block_frame b m) (copy_construct_at dst src).
Proof.
  intros Hb Hm. unfold copy_construct_at.
  apply frame_of_bind; [apply _|apply frame_load; apply _|intros v].
  apply frame_of_bind; [apply _|apply frame_elem_copy_construct|intros x].
  now apply frame_construct_at.
Qed.

(** Copying into a block changes nothing but the slots copied into. *)
Lemma frame_uninitialized_copy_loop b m first (count : nat) :
  forall i, 0 <= i -> (Z.to_nat i + count <= m)%nat ->
    frame_of (block_frame b m)
      (uninitialized_loop copy_construct_at first {| blk := Some b; off := 0 |} i count).
Proof.
  induction count; intros i Hi Hm; simpl.
  - apply frame_of_ret. apply _.
  - apply frame_of_bind; [apply _| |intros _].
    + apply frame_of_on_throw; [apply _| |].
      * apply frame_copy_construct_at; simpl; auto. lia.
      * apply frame_destroy_loop; simpl; auto; lia.
    + apply IHcount; lia.
Qed.

(** ** Moves that cannot throw *)

Lemma no_throw_load p : no_throw (load p).
Proof. intros s e s'. unfold load. destruct (slot_at s p) as [[v|]|]; discriminate. Qed.

Lemma no_throw_store p v : no_throw (store p v).
Proof. intros s e s'. unfold store. destruct (slot_at s p) as [[v0|]|]; discriminate. Qed.

Lemma no_throw_construct_at p v : no_throw (construct_at p v).
Proof. intros s e s'. unfold construct_at. destruct (slot_at s p); discriminate. Qed.

Lemma no_throw_on_throw {A} (m : M A) h : no_throw m -> no_throw (on_throw m h).
Proof.
  intros Hm s e s' H. apply on_throw_throw_inv in H as (e0 & s1 & H & _).
  now apply Hm in H.
Qed.

Lemma no_throw_move_construct_at dst src :
  (forall v w, snd (fst (move_construct v w)) <> None) ->
  no_throw (move_construct_at dst src).
Proof.
  intros Hmove. unfold move_construct_at.
  apply no_throw_bind; [apply no_throw_load|intros v s e s'].
  specialize (Hmove v (world s)).
  destruct (move_construct v (world s)) as [[v' [x|]] w]; [|now contradiction Hmove].
  apply no_throw_bind; [apply no_throw_store|intros _; apply no_throw_construct_at].
Qed.

Lemma no_throw_uninitialized_loop step first d_first :
  (forall p q, no_throw (step p q)) ->
  forall count i, no_throw (uninitialized_loop step first d_first i count).
Proof.
  intros Hstep. induction count; intros i; simpl.
  - apply no_throw_ret.
  - apply no_throw_bind; [|intros _; apply IHcount].
    apply no_throw_on_throw, Hstep.
Qed.

Lemma no_throw_get_vec this : no_throw (get_vec this).
Proof. intros s e s'. unfold get_vec. destruct (vecs s !! this); discriminate. Qed.

Lemma no_throw_put_vec this v : no_throw (put_vec this v).
Proof. intros s e s'. discriminate. Qed.

Lemma no_throw_get_data this : no_throw (get_data this).
Proof.
  apply no_throw_bind; [apply no_throw_get_vec|intros v; apply no_throw_ret].
Qed.

Lemma no_throw_get_size this : no_throw (get_size this).
Proof.
  apply no_throw_bind; [apply no_throw_get_vec|intros v; apply no_throw_ret].
Qed.

Lemma no_throw_set_data this d : no_throw (set_data this d).
Proof.
  apply no_throw_bind; [apply no_throw_get_vec|intros v; apply no_throw_put_vec].
Qed.

Lemma no_throw_set_size this n : no_throw (set_size this n).
Proof.
  apply no_throw_bind; [apply no_throw_get_vec|intros v; apply no_throw_put_vec].
Qed.

Lemma no_throw_begin this : no_throw (begin this).
Proof.
  apply no_throw_bind; [apply no_throw_get_data|intros v; apply no_throw_ret].
Qed.

Lemma no_throw_end this : no_throw (end_ this).
Proof.
  apply no_throw_bind; [apply no_throw_get_data|intros d].
  apply no_throw_bind; [apply no_throw_get_size|intros n; apply no_throw_ret].
Qed.

Lemma no_throw_adopt this rm : no_throw (adopt this rm).
Proof.
  unfold adopt. apply no_throw_bind; [apply no_throw_get_data|intros d]. simpl.
  apply no_throw_bind; [apply no_throw_set_data|intros _].
  apply no_throw_operator_delete.
Qed.

End Frames.

Section EmplaceBackSteps.
Context `{E : ElemType}.

Lemma emplace_at_throw_inv p a (s s' : state) e :
  emplace_at p a s = Throw e s' ->
  exists w, construct a (world s) = (None, w) /\ s' = set_world w s /\
            e = ElementException.
Proof.
  unfold emplace_at. intros H.
  apply bind_throw_inv in H as [H|(x & s1 & _ & H)].
  - unfold elem_construct in H.
    destruct (construct a (world s)) as [[x|] w]; [discriminate|].
    injection H as <- <-. eauto.
  - now apply no_throw_construct_at in H.
Qed.

Lemma emplace_at_normal_inv p a (s s' : state) :
  emplace_at p a s = Normal tt s' ->
  exists x w o, construct a (world s) = (Some x, w) /\
    slot_at s p = Some o /\ s' = set_slot p (Some x) (set_world w s).
Proof.
  unfold emplace_at. intros H.
  apply bind_normal_inv in H as (x & s1 & Hc & H).
  unfold elem_construct in Hc.
  destruct (construct a (world s)) as [[x'|] w]; [|discriminate].
  injection Hc as <- <-. unfold construct_at in H.
  rewrite slot_at_set_world in H.
  destruct (slot_at s p) as [o|]; [|discriminate].
  injection H as <-. eauto 6.
Qed.

End EmplaceBackSteps.

(** * Slot-wise reasoning *)

Section Cells.
Context `{E : ElemType}.

Lemma ptr_add_at (b k : nat) (z : Z) :
  0 <= Z.of_nat k + z -> ptr_add (at_ b k) z = at_ b (Z.to_nat (Z.of_nat k + z)).
Proof. intros H. unfold ptr_add, at_. simpl. f_equal. lia. Qed.

Lemma ptr_add_at_nat (b k j : nat) : ptr_add (at_ b k) (Z.of_nat j) = at_ b (k + j).
Proof. unfold ptr_add, at_. simpl. f_equal. lia. Qed.

Lemma ptr_add_at_1 (b k : nat) : ptr_add (at_ b k) 1 = at_ b (S k).
Proof. unfold ptr_add, at_. simpl. f_equal. lia. Qed.

Lemma ptr_add_at_pred (b k : nat) : ptr_add (at_ b (S k)) (-1) = at_ b k.
Proof. unfold ptr_add, at_. simpl. f_equal. lia. Qed.

Lemma slot_at_cell (s : state) b k : slot_at s (at_ b k) = cell s b k.
Proof.
  unfold slot_at, cell, at_. simpl. destruct (heap s !! b); auto.
  replace (0 <=? Z.of_nat k) with true by (symmetry; apply Z.leb_le; lia).
  now rewrite Nat2Z.id.
Qed.

Lemma cell_set_world w (s : state) b k : cell (set_world w s) b k = cell s b k.
Proof. reflexivity. Qed.

Lemma cell_set_vecs m (s : state) b k : cell (set_vecs m s) b k = cell s b k.
Proof. reflexivity. Qed.

Lemma cell_set_slot (s : state) b k x c j :
  is_Some (cell s b k) ->
  cell (set_slot (at_ b k) x s) c j =
  if decide (c = b /\ j = k) then Some x else cell s c j.
Proof.
  unfold cell, set_slot, at_. simpl. rewrite Nat2Z.id.
  destruct (heap s !! b) as [l|] eqn:Hl; [|intros [? ?]; discriminate].
  intros Hk. simpl. destruct (decide (c = b /\ j = k)) as [[-> ->]|Hne].
  - rewrite lookup_insert_eq. apply list_lookup_insert_eq.
    apply lookup_lt_is_Some. exact Hk.
  - destruct (decide (c = b)) as [->|Hc].
    + rewrite lookup_insert_eq, Hl. apply list_lookup_insert_ne. intros ->. auto.
    + now rewrite lookup_insert_ne by congruence.
Qed.

Lemma cell_set_slot_same (s : state) b k x :
  is_Some (cell s b k) -> cell (set_slot (at_ b k) x s) b k = Some x.
Proof.
  intros H. rewrite cell_set_slot by auto. now rewrite decide_True by auto.
Qed.

Lemma shape_set_slot (s : state) p x : shape (set_slot p x s) = shape s.
Proof.
  unfold shape, set_slot. destruct (blk p) as [b|]; auto.
  destruct (heap s !! b) as [l|] eqn:Hl; auto. simpl.
  rewrite fmap_insert, length_insert. apply insert_id.
  now rewrite lookup_fmap, Hl.
Qed.

Lemma shape_set_world w (s : state) : shape (set_world w s) = shape s.
Proof. reflexivity. Qed.

#[export] Instance same_frame_refl : Reflexive same_frame.
Proof. intros s. now split. Qed.

#[export] Instance same_frame_trans : Transitive same_frame.
Proof. intros s1 s2 s3 [H1 H1'] [H2 H2']. split; congruence. Qed.

Lemma same_frame_set_slot (s : state) p x : same_frame s (set_slot p x s).
Proof. split; [apply shape_set_slot|apply set_slot_vecs]. Qed.

Lemma same_frame_set_world (s : state) w : same_frame s (set_world w s).
Proof. now split. Qed.

(** With the blocks unchanged in number and length, a block is determined
    by its cells. *)
Lemma same_frame_block (s s' : state) b l :
  same_frame s s' -> heap s !! b = Some l ->
  exists l', heap s' !! b = Some l' /\ length l' = length l /\
             forall k, l' !! k = cell s' b k.
Proof.
  intros [Hshape _] Hl.
  assert (H : shape s' !! b = Some (length l)).
  { rewrite Hshape. unfold shape. now rewrite lookup_fmap, Hl. }
  unfold shape in H. rewrite lookup_fmap in H.
  destruct (heap s' !! b) as [l'|] eqn:Hl'; [|discriminate].
  injection H as H. exists l'. repeat split; auto.
  intros k. unfold cell. now rewrite Hl'.
Qed.

Lemma same_frame_free (s s' : state) b :
  same_frame s s' -> heap s !! b = None -> heap s' !! b = None.
Proof.
  intros [Hshape _] Hl.
  assert (H : shape s' !! b = None).
  { rewrite Hshape. unfold shape. now rewrite lookup_fmap, Hl. }
  unfold shape in H. rewrite lookup_fmap in H.
  now destruct (heap s' !! b).
Qed.

(** ** The primitives on cells *)

Lemma load_cell (s : state) b k v :
  cell s b k = Some (Some v) -> load (at_ b k) s = Normal v s.
Proof. intros H. unfold load. now rewrite slot_at_cell, H. Qed.

Lemma store_cell (s : state) b k v0 v :
  cell s b k = Some (Some v0) ->
  store (at_ b k) v s = Normal tt (set_slot (at_ b k) (Some v) s).
Proof. intros H. unfold store. now rewrite slot_at_cell, H. Qed.

Lemma construct_at_cell (s : state) b k o v :
  cell s b k = Some o ->
  construct_at (at_ b k) v s = Normal tt (set_slot (at_ b k) (Some v) s).
Proof. intros H. unfold construct_at. now rewrite slot_at_cell, H. Qed.

Lemma destroy_at_cell (s : state) b k v :
  cell s b k = Some (Some v) ->
  destroy_at (at_ b k) s =
  Normal tt (set_slot (at_ b k) None (set_world (destroy v (world s)) s)).
Proof. intros H. unfold destroy_at. now rewrite slot_at_cell, H. Qed.

(** [std::destroy_n] on [n] live elements leaves [n] raw slots. *)
Lemma destroy_loop_spec b (n : nat) :
  forall j (s : state),
    (forall k, (j <= k < j + n)%nat -> exists v, cell s b k = Some (Some v)) ->
    exists s', destroy_loop (at_ b j) n s = Normal tt s' /\ same_frame s s' /\
      forall c k, cell s' c k =
        if decide (c = b /\ (j <= k < j + n)%nat) then Some None else cell s c k.
Proof.
  induction n as [|n IH]; intros j s Hlive; simpl.
  - exists s. split; [reflexivity|]. split; [reflexivity|].
    intros c k. rewrite decide_False by lia. reflexivity.
  - destruct (Hlive j) as [v Hv]; [lia|].
    rewrite (bind_normal _ _ _ _ _ (destroy_at_cell _ _ _ _ Hv)).
    set (s1 := set_slot _ _ _).
    assert (Hcell1 : forall c k, cell s1 c k =
              if decide (c = b /\ k = j) then Some None else cell s c k).
    { intros c k. subst s1. rewrite cell_set_slot; [reflexivity|].
      rewrite cell_set_world, Hv. eauto. }
    rewrite ptr_add_at_1.
    destruct (IH (S j) s1) as (s' & Hrun & Hframe & Hcells).
    { intros k Hk. rewrite Hcell1, decide_False by lia. apply Hlive. lia. }
    exists s'. split; [exact Hrun|]. split.
    + etransitivity; [|exact Hframe]. subst s1.
      etransitivity; [apply same_frame_set_world|apply same_frame_set_slot].
    + intros c k. rewrite Hcells, Hcell1.
      repeat case_decide; try reflexivity; lia.
Qed.

End Cells.

(** * Transfer of elements into a new block *)

Section Transfer.
Context `{E : ElemType}.

Lemma set_slot_id (s : state) b k x :
  cell s b k = Some x -> set_slot (at_ b k) x s = s.
Proof.
  unfold cell, set_slot, at_. simpl. rewrite Nat2Z.id.
  destruct (heap s !! b) as [l|] eqn:Hl; [|discriminate].
  intros Hk. rewrite list_insert_id by exact Hk. rewrite insert_id by exact Hl.
  now destruct s.
Qed.

Lemma copy_construct_at_transfer : transfer_spec copy_construct_at.
Proof.
  intros s bd kd bs ks v o Hsrc Hdst. unfold copy_construct_at.
  rewrite (bind_normal _ _ _ _ _ (load_cell _ _ _ _ Hsrc)).
  unfold bind at 1. unfold elem_copy_construct.
  destruct (copy_construct v (world s)) as [[x|] w] eqn:Hc.
  - assert (Hdst' : cell (set_world w s) bd kd = Some o) by exact Hdst.
    rewrite (construct_at_cell _ _ _ _ _ Hdst').
    exists x, v, w. split.
    + rewrite (set_slot_id (set_world w s) bs ks (Some v)) by exact Hsrc.
      reflexivity.
    + intros HR. eapply copy_construct_value. exact Hc.
  - exists v, w.
    rewrite (set_slot_id (set_world w s) bs ks (Some v)) by exact Hsrc.
    reflexivity.
Qed.

Lemma move_construct_at_transfer : transfer_spec move_construct_at.
Proof.
  intros s bd kd bs ks v o Hsrc Hdst. unfold move_construct_at.
  rewrite (bind_normal _ _ _ _ _ (load_cell _ _ _ _ Hsrc)).
  destruct (move_construct v (world s)) as [[v' [x|]] w] eqn:Hc.
  - assert (Hsrc' : cell (set_world w s) bs ks = Some (Some v)) by exact Hsrc.
    rewrite (bind_normal _ _ _ _ _ (store_cell _ _ _ _ v' Hsrc')).
    assert (Hdst' : is_Some (cell (set_slot (at_ bs ks) (Some v') (set_world w s)) bd kd)).
    { rewrite cell_set_slot by (rewrite Hsrc'; eauto).
      case_decide; [eauto|]. rewrite cell_set_world, Hdst. eauto. }
    destruct Hdst' as [o' Hdst'].
    rewrite (construct_at_cell _ _ _ _ _ Hdst').
    exists x, v', w. split; [reflexivity|].
    intros HR. eapply move_construct_value. exact Hc.
  - assert (Hsrc' : cell (set_world w s) bs ks = Some (Some v)) by exact Hsrc.
    rewrite (bind_normal _ _ _ _ _ (store_cell _ _ _ _ v' Hsrc')).
    exists v', w. reflexivity.
Qed.

Lemma InitializeRawMemory_transfer :
  exists step, transfer_spec step /\
    forall first count d_first,
      InitializeRawMemory first count d_first =
      uninitialized_loop step first d_first 0 (Z.to_nat count).
Proof.
  unfold InitializeRawMemory, uninitialized_move_n, uninitialized_copy_n.
  destruct (_ || _).
  - exists move_construct_at. split; [apply move_construct_at_transfer|reflexivity].
  - exists copy_construct_at. split; [apply copy_construct_at_transfer|reflexivity].
Qed.

(** The loop of [std::uninitialized_copy_n] and [std::uninitialized_move_n],
    from block [bs] to another block [bd], after [i] elements are done:
    [vs] are the elements still to transfer, the slots they go to are raw. *)
Lemma uninitialized_loop_spec step bs bd i0 j0 :
  transfer_spec step -> bs <> bd ->
  forall (vs : list T) (i : nat) (s : state),
    (forall k v, vs !! k = Some v -> cell s bs (i0 + i + k) = Some (Some v)) ->
    (forall k, (k < length vs)%nat -> cell s bd (j0 + i + k) = Some None) ->
    (forall k, (k < i)%nat -> exists x, cell s bd (j0 + k) = Some (Some x)) ->
    match uninitialized_loop step (at_ bs i0) (at_ bd j0) (Z.of_nat i) (length vs) s with
    | Normal _ s' =>
        same_frame s s' /\
        (forall k, (k < length vs)%nat ->
           exists x, cell s' bd (j0 + i + k) = Some (Some x) /\
                     (Regular -> vs !! k = Some x)) /\
        (forall k, (k < length vs)%nat ->
           exists v', cell s' bs (i0 + i + k) = Some (Some v')) /\
        (forall c k, ~ (c = bd /\ (j0 + i <= k < j0 + i + length vs)%nat) ->
                     ~ (c = bs /\ (i0 + i <= k < i0 + i + length vs)%nat) ->
                     cell s' c k = cell s c k)
    | Throw _ s' =>
        same_frame s s' /\
        (forall k, (k < i + length vs)%nat -> cell s' bd (j0 + k) = Some None) /\
        (forall k, (k < length vs)%nat ->
           exists v', cell s' bs (i0 + i + k) = Some (Some v')) /\
        (forall c k, ~ (c = bd /\ (j0 <= k < j0 + i + length vs)%nat) ->
                     ~ (c = bs /\ (i0 + i <= k < i0 + i + length vs)%nat) ->
                     cell s' c k = cell s c k)
    | _ => False
    end.
Proof.
  intros Hstep Hne. induction vs as [|v vs IH]; intros i s Hsrc Hraw Hdone; simpl.
  - split; [reflexivity|]. repeat split; intros; lia.
  - rewrite !ptr_add_at_nat.
    assert (Hv : cell s bs (i0 + i) = Some (Some v)).
    { specialize (Hsrc 0%nat v eq_refl). now rewrite Nat.add_0_r in Hsrc. }
    assert (Hd : cell s bd (j0 + i) = Some None).
    { specialize (Hraw 0%nat ltac:(simpl; lia)). now rewrite Nat.add_0_r in Hraw. }
    specialize (Hstep s bd (j0 + i)%nat bs (i0 + i)%nat v None Hv Hd).
    unfold bind at 1. unfold on_throw at 1.
    destruct (step (at_ bd (j0 + i)) (at_ bs (i0 + i)) s) as [[] s1|e s1| |];
      try contradiction.
    + (* this element is transferred *)
      destruct Hstep as (x & v' & w & -> & Hx).
      set (s0 := set_slot (at_ bs (i0 + i)) (Some v') (set_world w s)).
      assert (Hs0 : forall c k, cell s0 c k =
                if decide (c = bs /\ k = (i0 + i)%nat) then Some (Some v') else cell s c k).
      { intros c k. subst s0. rewrite cell_set_slot; [reflexivity|].
        rewrite cell_set_world, Hv. eauto. }
      set (s1 := set_slot (at_ bd (j0 + i)) (Some x) s0).
      assert (Hs1 : forall c k, cell s1 c k =
                if decide (c = bd /\ k = (j0 + i)%nat) then Some (Some x) else cell s0 c k).
      { intros c k. subst s1. rewrite cell_set_slot; [reflexivity|].
        rewrite Hs0, decide_False by (intros [? ?]; congruence). rewrite Hd. eauto. }
      assert (Hframe : same_frame s s1).
      { subst s1 s0. etransitivity; [apply same_frame_set_world|].
        etransitivity; apply same_frame_set_slot. }
      replace (Z.of_nat i + 1) with (Z.of_nat (S i)) by lia.
      assert (Hsrc1 : forall k u, vs !! k = Some u ->
                cell s1 bs (i0 + S i + k) = Some (Some u)).
      { intros k u Hu. rewrite Hs1, Hs0, !decide_False by lia.
        replace (i0 + S i + k)%nat with (i0 + i + S k)%nat by lia.
        apply Hsrc. exact Hu. }
      assert (Hraw1 : forall k, (k < length vs)%nat ->
                cell s1 bd (j0 + S i + k) = Some None).
      { intros k Hk. rewrite Hs1, Hs0, !decide_False by lia.
        replace (j0 + S i + k)%nat with (j0 + i + S k)%nat by lia.
        apply Hraw. simpl. lia. }
      assert (Hdone1 : forall k, (k < S i)%nat ->
                exists y, cell s1 bd (j0 + k) = Some (Some y)).
      { intros k Hk. rewrite Hs1. case_decide; [eauto|].
        rewrite Hs0, decide_False by (intros [? ?]; congruence).
        apply Hdone. lia. }
      specialize (IH (S i) s1 Hsrc1 Hraw1 Hdone1).
      destruct (uninitialized_loop step (at_ bs i0) (at_ bd j0) (Z.of_nat (S i))
                  (length vs) s1) as [[] s'|e s'| |]; [| |exact IH|exact IH].
      * destruct IH as (Hfr & Hdst & Hlive & Hrest).
        split; [etransitivity; eauto|]. split; [|split].
        -- intros [|k] Hk.
           ++ exists x. rewrite Hrest by lia.
              rewrite Hs1, decide_True by (split; [auto|lia]).
              split; [reflexivity|]. intros HR. simpl. now rewrite (Hx HR).
           ++ destruct (Hdst k) as (y & Hy & Hy'); [simpl in Hk; lia|].
              exists y. replace (j0 + i + S k)%nat with (j0 + S i + k)%nat by lia.
              auto.
        -- intros [|k] Hk.
           ++ exists v'. rewrite Hrest by lia.
              rewrite Hs1, decide_False by (intros [? ?]; congruence).
              rewrite Hs0, decide_True by (split; [auto|lia]). reflexivity.
           ++ destruct (Hlive k) as (y & Hy); [simpl in Hk; lia|].
              exists y. replace (i0 + i + S k)%nat with (i0 + S i + k)%nat by lia.
              auto.
        -- intros c k Hnd Hns. simpl in Hnd, Hns. rewrite Hrest by lia.
           rewrite Hs1, Hs0, !decide_False by lia. reflexivity.
      * destruct IH as (Hfr & Hdst & Hlive & Hrest).
        split; [etransitivity; eauto|]. split; [|split].
        -- intros k Hk. apply Hdst. simpl in Hk. lia.
        -- intros [|k] Hk.
           ++ exists v'. rewrite Hrest by lia.
              rewrite Hs1, decide_False by (intros [? ?]; congruence).
              rewrite Hs0, decide_True by (split; [auto|lia]). reflexivity.
           ++ destruct (Hlive k) as (y & Hy); [simpl in Hk; lia|].
              exists y. replace (i0 + i + S k)%nat with (i0 + S i + k)%nat by lia.
              auto.
        -- intros c k Hnd Hns. simpl in Hnd, Hns. rewrite Hrest by lia.
           rewrite Hs1, Hs0, !decide_False by lia. reflexivity.
    + (* this element fails: the elements built so far are destroyed *)
      destruct Hstep as (v' & w & ->).
      set (s0 := set_slot (at_ bs (i0 + i)) (Some v') (set_world w s)).
      assert (Hs0 : forall c k, cell s0 c k =
                if decide (c = bs /\ k = (i0 + i)%nat) then Some (Some v') else cell s c k).
      { intros c k. subst s0. rewrite cell_set_slot; [reflexivity|].
        rewrite cell_set_world, Hv. eauto. }
      unfold destroy_n. rewrite Nat2Z.id.
      destruct (destroy_loop_spec bd i j0 s0) as (s' & -> & Hfr & Hcells).
      { intros k Hk. rewrite Hs0, decide_False by (intros [? ?]; congruence).
        destruct (Hdone (k - j0)%nat) as [y Hy]; [lia|].
        exists y. now replace (j0 + (k - j0))%nat with k in Hy by lia. }
      split.
      { etransitivity; [|exact Hfr]. subst s0.
        etransitivity; [apply same_frame_set_world|apply same_frame_set_slot]. }
      split; [|split].
      * intros k Hk. rewrite Hcells. case_decide; [reflexivity|].
        rewrite Hs0, decide_False by (intros [? ?]; congruence).
        replace (j0 + k)%nat with (j0 + i + (k - i))%nat by lia.
        apply Hraw. simpl in Hk |- *. lia.
      * intros k Hk. rewrite Hcells, decide_False by (intros [? ?]; congruence).
        rewrite Hs0. case_decide; [eauto|].
        destruct (lookup_lt_is_Some_2 (v :: vs) k Hk) as [u Hu].
        exists u. apply Hsrc. exact Hu.
      * intros c k Hnd Hns. simpl in Hnd, Hns.
        rewrite Hcells, decide_False by lia.
        rewrite Hs0, decide_False by lia. reflexivity.
Qed.

End Transfer.

(** * Vectors described by their elements *)

Section Holds.
Context `{E : ElemType}.

Lemma wrap_small (z : Z) : 0 <= z < SIZE_MODULUS -> wrap z = z.
Proof. intros H. unfold wrap. now apply Z.mod_small. Qed.

Lemma PTRDIFF_MAX_lt : PTRDIFF_MAX < SIZE_MODULUS.
Proof. reflexivity. Qed.

(** A capacity that [operator new] could serve is a [size_t]. *)
Lemma capacity_small (cap : Z) :
  0 <= cap -> cap * sizeof_T <= PTRDIFF_MAX -> cap < 2 ^ 63.
Proof.
  intros H0 H. pose proof sizeof_T_range as [Hpos _].
  unfold PTRDIFF_MAX in H. nia.
Qed.

Lemma holds_inv (s : state) (this : nat) (xs : list T) (cap : Z) :
  holds s this xs cap ->
  exists buf,
    vecs s !! this = Some {| data_ := {| buffer_ := buf; capacity_ := cap |};
                             size_ := Z.of_nat (length xs) |} /\
    (length xs <= Z.to_nat cap)%nat /\ 0 <= cap /\
    cap * sizeof_T <= PTRDIFF_MAX /\
    ((buf = nullptr /\ cap = 0) \/
     (exists b, buf = at_ b 0 /\ 0 < cap /\
        heap s !! b = Some ((Some <$> xs) ++
                            replicate (Z.to_nat cap - length xs)%nat None) /\
        (forall k x, xs !! k = Some x -> cell s b k = Some (Some x)) /\
        (forall k, (length xs <= k < Z.to_nat cap)%nat -> cell s b k = Some None))).
Proof.
  intros ([[buf c] n] & Hv & Hn & Hc & Hlen & Hfit & Hbuf). simpl in *. subst c n.
  rewrite length_app, length_fmap, length_replicate in Hlen.
  exists buf. split; [exact Hv|]. split; [lia|]. split; [lia|]. split; [exact Hfit|].
  destruct buf as [[b|] o]; simpl in Hbuf.
  - right. destruct Hbuf as (-> & Hl & Hpos). exists b.
    split; [reflexivity|]. split; [exact Hpos|]. split; [exact Hl|]. split.
    + intros k x Hx. unfold cell. rewrite Hl.
      rewrite lookup_app_l by (rewrite length_fmap; now apply lookup_lt_Some in Hx).
      now rewrite list_lookup_fmap, Hx.
    + intros k Hk. unfold cell. rewrite Hl.
      rewrite lookup_app_r by (rewrite length_fmap; lia).
      apply lookup_replicate_2. rewrite length_fmap. lia.
  - left. destruct Hbuf as (-> & ->). auto.
Qed.

Lemma holds_intro (s : state) (this : nat) (ys : list T) (cap : Z) b l :
  vecs s !! this = Some {| data_ := {| buffer_ := at_ b 0; capacity_ := cap |};
                           size_ := Z.of_nat (length ys) |} ->
  0 < cap -> cap * sizeof_T <= PTRDIFF_MAX ->
  heap s !! b = Some l -> length l = Z.to_nat cap ->
  (length ys <= Z.to_nat cap)%nat ->
  (forall k y, ys !! k = Some y -> cell s b k = Some (Some y)) ->
  (forall k, (length ys <= k < Z.to_nat cap)%nat -> cell s b k = Some None) ->
  holds s this ys cap.
Proof.
  intros Hv Hpos Hfit Hl Hlen Hle Hlive Hraw. eexists. split; [exact Hv|]. simpl.
  split; [reflexivity|]. split; [reflexivity|].
  assert (Heq : l = (Some <$> ys) ++ replicate (Z.to_nat cap - length ys)%nat None).
  { apply list_eq. intros k.
    assert (Hk : l !! k = cell s b k) by (unfold cell; now rewrite Hl).
    destruct (decide (k < length ys)%nat) as [Hlt|Hge].
    - rewrite lookup_app_l by (now rewrite length_fmap).
      rewrite list_lookup_fmap.
      destruct (lookup_lt_is_Some_2 ys k Hlt) as [y Hy].
      rewrite Hy, Hk. now apply Hlive.
    - rewrite lookup_app_r by (rewrite length_fmap; lia). rewrite length_fmap.
      destruct (decide (k < Z.to_nat cap)%nat) as [Hlt|Hge'].
      + rewrite Hk, Hraw by lia. symmetry. apply lookup_replicate_2. lia.
      + rewrite lookup_ge_None_2 by lia. symmetry.
        apply lookup_ge_None_2. rewrite length_replicate. lia. }
  unfold owns. simpl. rewrite <- Heq. split; [lia|]. auto.
Qed.

(** What a vector holds is what [elements] observes. *)
Lemma holds_elements (s : state) (this : nat) (xs : list T) (cap : Z) :
  holds s this xs cap -> elements s this = Some xs.
Proof.
  intros H. apply holds_inv in H as (buf & Hv & Hle & _ & _ & Hbuf).
  unfold elements. rewrite Hv. simpl. rewrite Nat2Z.id.
  destruct Hbuf as [[-> ->]|(b & -> & _ & _ & Hlive & _)].
  - destruct xs; [reflexivity|simpl in Hle; lia].
  - apply mapM_Some. apply Forall2_same_length_lookup.
    split; [now rewrite length_seq|].
    intros k j x Hj Hx. apply lookup_seq in Hj as [-> _]. simpl.
    unfold element_at. simpl. rewrite ptr_add_at_nat, slot_at_cell. simpl.
    now rewrite (Hlive _ _ Hx).
Qed.

End Holds.

(** * Moving elements within a block *)

Section Shift.
Context `{E : ElemType}.

Lemma move_assign_at_spec (s : state) bd kd bs ks d v :
  cell s bd kd = Some (Some d) -> cell s bs ks = Some (Some v) ->
  (bd, kd) <> (bs, ks) ->
  exists d' v' ok w,
    move_assign d v (world s) = (d', v', ok, w) /\
    move_assign_at (at_ bd kd) (at_ bs ks) s =
    (if ok then Normal tt else Throw ElementException)
      (set_slot (at_ bd kd) (Some d') (set_slot (at_ bs ks) (Some v') (set_world w s))).
Proof.
  intros Hd Hv Hne. unfold move_assign_at.
  rewrite (bind_normal _ _ _ _ _ (load_cell _ _ _ _ Hd)).
  rewrite (bind_normal _ _ _ _ _ (load_cell _ _ _ _ Hv)).
  destruct (move_assign d v (world s)) as [[[d' v'] ok] w] eqn:Hm.
  exists d', v', ok, w. split; [reflexivity|].
  assert (Hv' : cell (set_world w s) bs ks = Some (Some v)) by exact Hv.
  assert (Hd' : cell (set_slot (at_ bs ks) (Some v') (set_world w s)) bd kd
                = Some (Some d)).
  { rewrite cell_set_slot by (rewrite Hv'; eauto).
    rewrite decide_False by (intros [-> ->]; now apply Hne). exact Hd. }
  destruct ok.
  - rewrite (bind_normal _ _ _ _ _ (store_cell _ _ _ _ v' Hv')).
    now rewrite (store_cell _ _ _ _ d' Hd').
  - rewrite (bind_normal _ _ _ _ _ (store_cell _ _ _ _ v' Hv')).
    now rewrite (bind_normal _ _ _ _ _ (store_cell _ _ _ _ d' Hd')).
Qed.

Lemma copy_assign_at_spec (s : state) bd kd bs ks d v :
  cell s bd kd = Some (Some d) -> cell s bs ks = Some (Some v) ->
  exists d' ok w,
    copy_assign d v (world s) = (d', ok, w) /\
    copy_assign_at (at_ bd kd) (at_ bs ks) s =
    (if ok then Normal tt else Throw ElementException)
      (set_slot (at_ bd kd) (Some d') (set_world w s)).
Proof.
  intros Hd Hv. unfold copy_assign_at.
  rewrite (bind_normal _ _ _ _ _ (load_cell _ _ _ _ Hd)).
  rewrite (bind_normal _ _ _ _ _ (load_cell _ _ _ _ Hv)).
  destruct (copy_assign d v (world s)) as [[d' ok] w] eqn:Hm.
  exists d', ok, w. split; [reflexivity|].
  assert (Hd' : cell (set_world w s) bd kd = Some (Some d)) by exact Hd.
  destruct ok.
  - now rewrite (store_cell _ _ _ _ d' Hd').
  - now rewrite (bind_normal _ _ _ _ _ (store_cell _ _ _ _ d' Hd')).
Qed.

Context {HR : Regular}.

(** [std::move_backward] of the [length ys] elements from slot [j] on, one
    slot to the right: the slot after them holds a live element that is
    assigned to. *)
Lemma move_backward_loop_spec b j :
  forall (ys : list T) (s : state),
    (forall k y, ys !! k = Some y -> cell s b (j + k) = Some (Some y)) ->
    (exists m, cell s b (j + length ys) = Some (Some m)) ->
    match move_backward_loop (at_ b (j + length ys)) (at_ b (S (j + length ys)))
            (length ys) s with
    | Normal _ s' =>
        same_frame s s' /\
        (forall k y, ys !! k = Some y -> cell s' b (S (j + k)) = Some (Some y)) /\
        (exists m, cell s' b j = Some (Some m)) /\
        (forall c k, ~ (c = b /\ (j <= k <= j + length ys)%nat) ->
                     cell s' c k = cell s c k)
    | Throw _ _ => True
    | _ => False
    end.
Proof.
  intros ys. induction ys as [|y ys IH] using rev_ind; intros s Hlive Hlast.
  - simpl. rewrite Nat.add_0_r in Hlast. split; [reflexivity|].
    split; [intros k y Hy; discriminate|]. split; [exact Hlast|]. reflexivity.
  - rewrite length_app in *. simpl in *.
    replace (length ys + 1)%nat with (S (length ys)) in * by lia.
    simpl. rewrite ptr_add_at_pred.
    replace (j + S (length ys))%nat with (S (j + length ys)) in * by lia.
    rewrite ptr_add_at_pred.
    destruct Hlast as [m Hm].
    assert (Hy : cell s b (j + length ys) = Some (Some y)).
    { apply Hlive. rewrite lookup_app_r by lia.
      now rewrite Nat.sub_diag. }
    destruct (move_assign_at_spec s b (S (j + length ys)) b (j + length ys) m y Hm Hy)
      as (d' & v' & ok & w & Hma & Hrun); [intros [=]; lia|].
    unfold bind at 1. rewrite Hrun.
    set (s0 := set_slot (at_ b (j + length ys)) (Some v') (set_world w s)).
    assert (Hs0 : forall c k, cell s0 c k =
              if decide (c = b /\ k = (j + length ys)%nat)
              then Some (Some v') else cell s c k).
    { intros c k. subst s0. rewrite cell_set_slot; [reflexivity|].
      rewrite cell_set_world, Hy. eauto. }
    set (s1 := set_slot (at_ b (S (j + length ys))) (Some d') s0).
    assert (Hs1 : forall c k, cell s1 c k =
              if decide (c = b /\ k = S (j + length ys))
              then Some (Some d') else cell s0 c k).
    { intros c k. subst s1. rewrite cell_set_slot; [reflexivity|].
      rewrite Hs0, decide_False by lia. rewrite Hm. eauto. }
    destruct ok; [|exact I].
    assert (Hd' : d' = y) by (eapply move_assign_value; exact Hma).
    subst d'.
    specialize (IH s1).
    destruct (move_backward_loop _ _ (length ys) s1) as [[] s'|e s'| |].
    + destruct IH as (Hfr & Hshift & Hj & Hrest).
      { intros k u Hu. rewrite Hs1, Hs0, !decide_False
          by (apply lookup_lt_Some in Hu; lia).
        apply Hlive. rewrite lookup_app_l by (now apply lookup_lt_Some in Hu).
        exact Hu. }
      { exists v'. rewrite Hs1, decide_False by lia.
        rewrite Hs0, decide_True by auto. reflexivity. }
      split.
      { etransitivity; [|exact Hfr]. subst s1 s0.
        etransitivity; [apply same_frame_set_world|].
        etransitivity; apply same_frame_set_slot. }
      split; [|split; [exact Hj|]].
      * intros k u Hu. destruct (decide (k = length ys)) as [->|Hk].
        -- rewrite lookup_app_r, Nat.sub_diag in Hu by lia. injection Hu as <-.
           rewrite Hrest by lia. rewrite Hs1, decide_True by auto. reflexivity.
        -- apply Hshift. apply lookup_lt_Some in Hu as Hlt.
           rewrite length_app in Hlt. simpl in Hlt.
           rewrite lookup_app_l in Hu by lia. exact Hu.
      * intros c k Hout. rewrite Hrest by lia.
        rewrite Hs1, Hs0, !decide_False by lia. reflexivity.
    + exact I.
    + apply IH.
      * intros k u Hu. rewrite Hs1, Hs0, !decide_False
          by (apply lookup_lt_Some in Hu; lia).
        apply Hlive. rewrite lookup_app_l by (now apply lookup_lt_Some in Hu).
        exact Hu.
      * exists v'. rewrite Hs1, decide_False by lia.
        rewrite Hs0, decide_True by auto. reflexivity.
    + apply IH.
      * intros k u Hu. rewrite Hs1, Hs0, !decide_False
          by (apply lookup_lt_Some in Hu; lia).
        apply Hlive. rewrite lookup_app_l by (now apply lookup_lt_Some in Hu).
        exact Hu.
      * exists v'. rewrite Hs1, decide_False by lia.
        rewrite Hs0, decide_True by auto. reflexivity.
Qed.

(** [std::move] of the [length ys] elements after slot [j], one slot to the
    left: slot [j] holds a live element that is assigned to. *)
Lemma shift_left_loop_spec b :
  forall (ys : list T) j (s : state),
    (exists d, cell s b j = Some (Some d)) ->
    (forall k y, ys !! k = Some y -> cell s b (S (j + k)) = Some (Some y)) ->
    match assign_loop move_assign_at (at_ b (S j)) (at_ b j) (length ys) s with
    | Normal _ s' =>
        same_frame s s' /\
        (forall k y, ys !! k = Some y -> cell s' b (j + k) = Some (Some y)) /\
        (exists m, cell s' b (j + length ys) = Some (Some m)) /\
        (forall c k, ~ (c = b /\ (j <= k <= j + length ys)%nat) ->
                     cell s' c k = cell s c k)
    | Throw _ _ => exists d v w, snd (fst (move_assign d v w)) = false
    | _ => False
    end.
Proof.
  induction ys as [|y ys IH]; intros j s Hj Hlive.
  - simpl. rewrite Nat.add_0_r. split; [reflexivity|].
    split; [intros k y Hy; discriminate|]. split; [exact Hj|]. reflexivity.
  - simpl. destruct Hj as [d Hd].
    assert (Hy : cell s b (S j) = Some (Some y)).
    { specialize (Hlive 0%nat y eq_refl). now rewrite Nat.add_0_r in Hlive. }
    destruct (move_assign_at_spec s b j b (S j) d y Hd Hy)
      as (d' & v' & ok & w & Hma & Hrun); [intros [=]; lia|].
    unfold bind at 1. rewrite Hrun.
    set (s0 := set_slot (at_ b (S j)) (Some v') (set_world w s)).
    assert (Hs0 : forall c k, cell s0 c k =
              if decide (c = b /\ k = S j) then Some (Some v') else cell s c k).
    { intros c k. subst s0. rewrite cell_set_slot; [reflexivity|].
      rewrite cell_set_world, Hy. eauto. }
    set (s1 := set_slot (at_ b j) (Some d') s0).
    assert (Hs1 : forall c k, cell s1 c k =
              if decide (c = b /\ k = j) then Some (Some d') else cell s0 c k).
    { intros c k. subst s1. rewrite cell_set_slot; [reflexivity|].
      rewrite Hs0, decide_False by lia. rewrite Hd. eauto. }
    destruct ok; cycle 1.
    { exists d, y, (world s). now rewrite Hma. }
    assert (Hd' : d' = y) by (eapply move_assign_value; exact Hma).
    subst d'. rewrite !ptr_add_at_1.
    assert (Hj1 : exists d0, cell s1 b (S j) = Some (Some d0)).
    { exists v'. rewrite Hs1, decide_False by lia.
      rewrite Hs0, decide_True by auto. reflexivity. }
    assert (Hlive1 : forall k u, ys !! k = Some u ->
              cell s1 b (S (S j + k)) = Some (Some u)).
    { intros k u Hu. rewrite Hs1, Hs0, !decide_False by lia.
      replace (S (S j + k)) with (S (j + S k)) by lia. apply Hlive. exact Hu. }
    specialize (IH (S j) s1 Hj1 Hlive1).
    destruct (assign_loop move_assign_at (at_ b (S (S j))) (at_ b (S j))
                (length ys) s1) as [[] s'|e s'| |]; try exact IH.
    destruct IH as (Hfr & Hshift & Hlast & Hrest).
    split.
    { etransitivity; [|exact Hfr]. subst s1 s0.
      etransitivity; [apply same_frame_set_world|].
      etransitivity; apply same_frame_set_slot. }
    split; [|split].
    + intros [|k] u Hu.
      * injection Hu as <-. rewrite Nat.add_0_r, Hrest by lia.
        rewrite Hs1, decide_True by auto. reflexivity.
      * replace (j + S k)%nat with (S j + k)%nat by lia. apply Hshift. exact Hu.
    + destruct Hlast as [m Hm]. exists m.
      now replace (j + S (length ys))%nat with (S j + length ys)%nat by lia.
    + intros c k Hout. rewrite Hrest by lia.
      rewrite Hs1, Hs0, !decide_False by lia. reflexivity.
Qed.

(** [data_[index] = T(args...)] on a live element. *)
Lemma assign_temporary_at_spec (s : state) (rm : RawMemory) b k (args : Args) d :
  buffer_ rm = at_ b 0 -> Z.of_nat k < capacity_ rm ->
  cell s b k = Some (Some d) ->
  match assign_temporary_at (RawMemory_at rm (Z.of_nat k)) args s with
  | Normal _ s' =>
      same_frame s s' /\
      (exists x w w', construct args w = (Some x, w') /\
                      cell s' b k = Some (Some x)) /\
      (forall c j, ~ (c = b /\ j = k) -> cell s' c j = cell s c j)
  | Throw _ _ => True
  | _ => False
  end.
Proof.
  intros Hbuf Hk Hd. unfold assign_temporary_at.
  unfold bind at 1. unfold elem_construct.
  destruct (construct args (world s)) as [[x|] w] eqn:Hc; [|exact I].
  unfold bind at 1. unfold RawMemory_at, bind at 1, assert_.
  apply Z.ltb_lt in Hk. rewrite Hk. unfold ret. rewrite Hbuf, ptr_add_at_nat. simpl.
  assert (Hd' : cell (set_world w s) b k = Some (Some d)) by exact Hd.
  rewrite (bind_normal _ _ _ _ _ (load_cell _ _ _ _ Hd')). simpl.
  destruct (move_assign d x w) as [[[d' t'] ok] w2] eqn:Hma.
  destruct ok;
    rewrite (bind_normal _ _ _ _ _
               (store_cell (set_world w2 (set_world w s)) _ _ _ d' Hd'));
    [|exact I].
  unfold elem_destroy. split; [|split].
  - etransitivity; [|apply same_frame_set_world].
    etransitivity; [|apply same_frame_set_slot]. now split.
  - exists x, (world s), w. split; [exact Hc|].
    rewrite cell_set_world, cell_set_slot_same by (eexists; exact Hd).
    do 2 f_equal. eapply move_assign_value. exact Hma.
  - intros c j Hout. rewrite cell_set_world.
    rewrite cell_set_slot by (eexists; exact Hd).
    now rewrite decide_False by exact Hout.
Qed.

End Shift.

(** * The steps of a reallocation *)

Section ReallocationSteps.
Context `{E : ElemType} {HR : Regular}.

Lemma assert_true (c : bool) (s : state) : c = true -> assert_ c s = Normal tt s.
Proof. now intros ->. Qed.

(** [InitializeRawMemory] of the elements [vs] into raw slots of another
    block. *)
Lemma InitializeRawMemory_spec (s : state) buf bd j0 (vs : list T) :
  (vs = [] \/
   exists bs i0, buf = at_ bs i0 /\ bs <> bd /\
     forall k v, vs !! k = Some v -> cell s bs (i0 + k) = Some (Some v)) ->
  (forall k, (k < length vs)%nat -> cell s bd (j0 + k) = Some None) ->
  match InitializeRawMemory buf (Z.of_nat (length vs)) (at_ bd j0) s with
  | Normal _ s' =>
      same_frame s s' /\
      (forall k v, vs !! k = Some v -> cell s' bd (j0 + k) = Some (Some v)) /\
      (forall k, ~ (j0 <= k < j0 + length vs)%nat -> cell s' bd k = cell s bd k) /\
      (forall c k v, c <> bd -> cell s c k = Some (Some v) ->
                     exists v', cell s' c k = Some (Some v')) /\
      (forall c k, c <> bd ->
         ~ (Some c = blk buf /\ off buf <= Z.of_nat k < off buf + Z.of_nat (length vs)) ->
         cell s' c k = cell s c k)
  | Throw _ s' =>
      same_frame s s' /\
      (forall k, cell s' bd k = cell s bd k) /\
      (forall c k v, c <> bd -> cell s c k = Some (Some v) ->
                     exists v', cell s' c k = Some (Some v'))
  | _ => False
  end.
Proof.
  intros Hsrc Hraw.
  destruct InitializeRawMemory_transfer as (step & Hstep & ->).
  rewrite Nat2Z.id.
  destruct Hsrc as [->|(bs & i0 & -> & Hne & Hsrc)].
  - simpl. split; [reflexivity|]. split; [intros k v Hv; discriminate|].
    split; [reflexivity|]. split; [eauto|reflexivity].
  - pose proof (uninitialized_loop_spec step bs bd i0 j0 Hstep Hne vs 0%nat s) as Hloop.
    simpl in Hloop. rewrite !Nat.add_0_r in Hloop.
    assert (Hnone : forall k, (k < 0)%nat -> exists x, cell s bd (j0 + k) = Some (Some x))
      by (intros; lia).
    specialize (Hloop Hsrc Hraw Hnone). change (Z.of_nat 0) with 0 in Hloop.
    destruct (uninitialized_loop step (at_ bs i0) (at_ bd j0) 0 (length vs) s)
      as [[] s'|e s'| |].
    + destruct Hloop as (Hfr & Hdst & Hlive & Hrest).
      split; [exact Hfr|]. split; [|split].
      * intros k v Hv. destruct (Hdst k) as (x & Hx & Hx').
        { now apply lookup_lt_Some in Hv. }
        rewrite Hx. specialize (Hx' _). congruence.
      * intros k Hk. apply Hrest; [lia|intros [? _]; congruence].
      * split.
        -- intros c k v Hc Hv.
           destruct (decide (c = bs /\ (i0 <= k < i0 + length vs)%nat)) as [[-> Hk]|Hout].
           ++ destruct (Hlive (k - i0)%nat) as [v' Hv']; [lia|].
              exists v'. now replace (i0 + (k - i0))%nat with k in Hv' by lia.
           ++ exists v. rewrite Hrest; [exact Hv|intros [? _]; congruence|exact Hout].
        -- intros c k Hc Hout. apply Hrest; [intros [? _]; congruence|].
           intros [-> Hk]. apply Hout. simpl. split; [reflexivity|lia].
    + destruct Hloop as (Hfr & Hdst & Hlive & Hrest).
      split; [exact Hfr|]. split.
      * intros k. destruct (decide (j0 <= k < j0 + length vs)%nat) as [Hk|Hk].
        -- replace k with (j0 + (k - j0))%nat by lia.
           rewrite Hdst, Hraw by lia. reflexivity.
        -- apply Hrest; [lia|intros [? _]; congruence].
      * intros c k v Hc Hv.
        destruct (decide (c = bs /\ (i0 <= k < i0 + length vs)%nat)) as [[-> Hk]|Hout].
        -- destruct (Hlive (k - i0)%nat) as [v' Hv']; [lia|].
           exists v'. now replace (i0 + (k - i0))%nat with k in Hv' by lia.
        -- exists v. rewrite Hrest; [exact Hv|intros [? _]; congruence|exact Hout].
    + exact Hloop.
    + exact Hloop.
Qed.

(** [std::destroy_n] on the live elements of the old block. *)
Lemma destroy_n_live (s : state) buf (n : nat) :
  (n = 0%nat \/
   exists b j, buf = at_ b j /\
     forall k, (j <= k < j + n)%nat -> exists v, cell s b k = Some (Some v)) ->
  exists s', destroy_n buf (Z.of_nat n) s = Normal tt s' /\ same_frame s s' /\
    (forall c k, Some c <> blk buf -> cell s' c k = cell s c k) /\
    (forall c k, (n <= k)%nat -> off buf = 0 -> cell s' c k = cell s c k).
Proof.
  unfold destroy_n. rewrite Nat2Z.id. intros [->|(b & j & -> & Hlive)].
  - exists s. simpl. split; [reflexivity|]. split; [reflexivity|]. auto.
  - destruct (destroy_loop_spec b n j s Hlive) as (s' & Hrun & Hfr & Hcells).
    exists s'. split; [exact Hrun|]. split; [exact Hfr|]. split.
    + intros c k Hc. rewrite Hcells, decide_False; [reflexivity|].
      intros [-> _]. now apply Hc.
    + intros c k Hk Hoff. simpl in Hoff. rewrite Hcells, decide_False; [reflexivity|].
      lia.
Qed.

(** [~RawMemory()] on an empty object or on one whose block is allocated. *)
Lemma RawMemory_dtor_spec (s : state) (rm : RawMemory) :
  (buffer_ rm = nullptr \/ exists b, buffer_ rm = at_ b 0 /\ is_Some (heap s !! b)) ->
  exists s', RawMemory_dtor rm s = Normal tt s' /\
    vecs s' = vecs s /\ world s' = world s /\
    (forall c, Some c <> blk (buffer_ rm) -> heap s' !! c = heap s !! c).
Proof.
  unfold RawMemory_dtor, Deallocate, operator_delete.
  intros [->|(b & -> & [l Hl])]; simpl.
  - exists s. auto.
  - rewrite Hl. eexists. split; [reflexivity|]. simpl. repeat split.
    intros c Hc. apply lookup_delete_ne. congruence.
Qed.

(** A fresh block of [c] raw slots. *)
Lemma RawMemory_ctor_spec (s : state) (c : Z) :
  0 < c -> c * sizeof_T < SIZE_MODULUS ->
  match RawMemory_ctor c s with
  | Normal rm s' =>
      exists b, rm = {| buffer_ := at_ b 0; capacity_ := c |} /\
        heap s !! b = None /\
        s' = set_heap (<[b := replicate (Z.to_nat c) None]> (heap s)) s /\
        c * sizeof_T <= PTRDIFF_MAX
  | Throw _ s' => s' = s
  | _ => False
  end.
Proof.
  intros Hc Hfit. unfold RawMemory_ctor, Allocate, bind.
  replace (c =? 0) with false by (symmetry; apply Z.eqb_neq; lia).
  unfold operator_new. rewrite (wrap_small (c * sizeof_T)).
  2:{ pose proof sizeof_T_range. nia. }
  destruct (operator_new_ok (world s) (c * sizeof_T)) eqn:Hok; [|reflexivity].
  exists (fresh (dom (heap s))). split; [reflexivity|].
  split; [apply not_elem_of_dom, is_fresh|]. split.
  - rewrite Z.div_mul by (pose proof sizeof_T_range; lia). reflexivity.
  - eapply operator_new_limit. exact Hok.
Qed.

Lemma cell_fresh_block (s : state) b (n : nat) c k :
  cell (set_heap (<[b := replicate n None]> (heap s)) s) c k =
  if decide (c = b) then (if decide (k < n)%nat then Some None else None)
  else cell s c k.
Proof.
  unfold cell. simpl. destruct (decide (c = b)) as [->|Hc].
  - rewrite lookup_insert_eq. destruct (decide (k < n)%nat).
    + now apply lookup_replicate_2.
    + apply lookup_ge_None_2. rewrite length_replicate. lia.
  - now rewrite lookup_insert_ne by congruence.
Qed.

End ReallocationSteps.

(** * Insertion at a position *)

Section EmplaceProof.
Context `{E : ElemType} {HR : Regular}.

Lemma lookup_inserted (xs : list T) (i : nat) (x : T) (k : nat) :
  (i <= length xs)%nat ->
  (take i xs ++ x :: drop i xs) !! k =
  if decide (k < i)%nat then xs !! k
  else if decide (k = i) then Some x else xs !! (k - 1)%nat.
Proof.
  intros Hi. destruct (decide (k < i)%nat) as [Hlt|Hge].
  - rewrite lookup_app_l by (rewrite length_take; lia).
    now apply lookup_take_lt.
  - rewrite lookup_app_r by (rewrite length_take; lia).
    rewrite length_take, Nat.min_l by lia.
    destruct (decide (k = i)) as [->|Hne].
    + now rewrite Nat.sub_diag.
    + replace (k - i)%nat with (S (k - i - 1)) by lia. simpl.
      rewrite lookup_drop. f_equal. lia.
Qed.

(** The path of [Emplace] that does not reallocate. *)
Lemma Emplace_in_place (s : state) (this : nat) (xs : list T) (cap : Z) (i : nat)
    (args : Args) b :
  vecs s !! this = Some {| data_ := {| buffer_ := at_ b 0; capacity_ := cap |};
                           size_ := Z.of_nat (length xs) |} ->
  Z.of_nat (length xs) < cap -> (i <= length xs)%nat ->
  (forall k x, xs !! k = Some x -> cell s b k = Some (Some x)) ->
  (forall k, (length xs <= k < Z.to_nat cap)%nat -> cell s b k = Some None) ->
  match
    (if negb (Z.of_nat (length xs) =? Z.of_nat i) then
       move_construct_at (ptr_add (at_ b 0) (Z.of_nat (length xs)))
         (ptr_add (ptr_add (at_ b 0) (Z.of_nat (length xs))) (-1)) ;;
       move_backward (ptr_add (at_ b 0) (Z.of_nat i))
         (ptr_add (ptr_add (at_ b 0) (Z.of_nat (length xs))) (-1))
         (ptr_add (at_ b 0) (Z.of_nat (length xs))) ;;
       let* d := get_data this in
       assign_temporary_at (RawMemory_at d (Z.of_nat i)) args
     else emplace_at (ptr_add (at_ b 0) (Z.of_nat i)) args) s
  with
  | Normal _ s' =>
      same_frame s s' /\
      exists x, (exists w w', construct args w = (Some x, w')) /\
        (forall k y, (take i xs ++ x :: drop i xs) !! k = Some y ->
                     cell s' b k = Some (Some y)) /\
        (forall k, (length xs < k)%nat -> cell s' b k = cell s b k)
  | Throw _ _ => True
  | _ => False
  end.
Proof.
  intros Hv Hroom Hi Hlive Hraw. rewrite !ptr_add_at_nat. simpl (0 + _)%nat.
  destruct (decide (i = length xs)) as [->|Hne].
  - (* at the end *)
    rewrite Z.eqb_refl. change (negb true) with false. cbv iota.
    unfold emplace_at, bind, elem_construct.
    destruct (construct args (world s)) as [[x|] w] eqn:Hc; [|exact I].
    assert (Hd : cell (set_world w s) b (length xs) = Some None).
    { apply Hraw. lia. }
    rewrite (construct_at_cell _ _ _ _ _ Hd). split.
    { etransitivity; [apply same_frame_set_world|apply same_frame_set_slot]. }
    exists x. split; [eauto|]. split.
    + intros k y Hy. rewrite cell_set_slot by (rewrite Hd; eauto).
      rewrite lookup_inserted in Hy by lia.
      destruct (decide (k < length xs)%nat).
      * rewrite decide_False by lia. now apply Hlive.
      * destruct (decide (k = length xs)) as [->|].
        -- rewrite decide_True by auto. congruence.
        -- apply lookup_lt_Some in Hy. lia.
    + intros k Hk. rewrite cell_set_slot by (rewrite Hd; eauto).
      now rewrite decide_False by lia.
  - (* in the middle: make room *)
    replace (Z.of_nat (length xs) =? Z.of_nat i) with false
      by (symmetry; apply Z.eqb_neq; lia).
    change (negb false) with true. cbv iota.
    destruct (length xs) as [|m] eqn:Hlen; [lia|].
    rewrite ptr_add_at_pred.
    assert (Hm : exists v, xs !! m = Some v) by (apply lookup_lt_is_Some_2; lia).
    destruct Hm as [v Hxm].
    assert (Hsrc : cell s b m = Some (Some v)) by now apply Hlive.
    assert (Hdst : cell s b (S m) = Some None) by (apply Hraw; lia).
    pose proof (move_construct_at_transfer s b (S m) b m v None Hsrc Hdst) as Hstep.
    unfold bind at 1.
    destruct (move_construct_at (at_ b (S m)) (at_ b m) s) as [[] s1|e s1| |];
      [|exact I|contradiction|contradiction].
    destruct Hstep as (x0 & v' & w & -> & Hx0). specialize (Hx0 HR). subst x0.
    set (s0 := set_slot (at_ b m) (Some v') (set_world w s)).
    assert (Hs0 : forall c k, cell s0 c k =
              if decide (c = b /\ k = m) then Some (Some v') else cell s c k).
    { intros c k. subst s0. rewrite cell_set_slot; [reflexivity|].
      rewrite cell_set_world, Hsrc. eauto. }
    set (s1 := set_slot (at_ b (S m)) (Some v) s0).
    assert (Hs1 : forall c k, cell s1 c k =
              if decide (c = b /\ k = S m) then Some (Some v) else cell s0 c k).
    { intros c k. subst s1. rewrite cell_set_slot; [reflexivity|].
      rewrite Hs0, decide_False by lia. rewrite Hdst. eauto. }
    assert (Hfr1 : same_frame s s1).
    { subst s1 s0. etransitivity; [apply same_frame_set_world|].
      etransitivity; apply same_frame_set_slot. }
    (* shift the elements from [i] on *)
    set (ys := take (m - i) (drop i xs)).
    assert (Hys : length ys = (m - i)%nat).
    { subst ys. rewrite length_take, length_drop. lia. }
    unfold move_backward, distance. simpl off.
    replace (Z.to_nat (Z.of_nat m - Z.of_nat i)) with (length ys) by lia.
    pose proof (move_backward_loop_spec b i ys s1) as Hshift.
    assert (Hpre1 : forall k y, ys !! k = Some y -> cell s1 b (i + k) = Some (Some y)).
    { intros k y Hy. subst ys. apply lookup_take_Some in Hy as [Hy Hk].
      rewrite lookup_drop in Hy. rewrite Hs1, Hs0, !decide_False by lia.
      now apply Hlive. }
    assert (Hpre2 : exists m1, cell s1 b (i + length ys) = Some (Some m1)).
    { exists v'. rewrite Hs1, decide_False by lia.
      rewrite Hs0, decide_True by (split; [auto|lia]). reflexivity. }
    specialize (Hshift Hpre1 Hpre2).
    replace (i + length ys)%nat with m in Hshift by lia.
    unfold bind at 1.
    destruct (move_backward_loop (at_ b m) (at_ b (S m)) (length ys) s1)
      as [[] s2|e s2| |]; [|exact I|contradiction|contradiction].
    destruct Hshift as (Hfr2 & Hshifted & [m0 Hm0] & Hrest2).
    (* assign the new element *)
    assert (Hv2 : vecs s2 !! this =
              Some {| data_ := {| buffer_ := at_ b 0; capacity_ := cap |};
                      size_ := Z.of_nat (S m) |}).
    { destruct Hfr2 as [_ ->]. destruct Hfr1 as [_ ->]. exact Hv. }
    rewrite (bind_normal _ _ _ _ _ (get_data_eq _ _ _ Hv2)). simpl data_.
    pose proof (assign_temporary_at_spec s2 {| buffer_ := at_ b 0; capacity_ := cap |}
                  b i args m0 eq_refl ltac:(simpl; lia) Hm0) as Hassign.
    destruct (assign_temporary_at _ args s2) as [[] s3|e s3| |];
      [|exact I|contradiction|contradiction].
    destruct Hassign as (Hfr3 & (x & w1 & w2 & Hc & Hx) & Hrest3).
    split; [etransitivity; [exact Hfr1|etransitivity; eauto]|].
    exists x. split; [eauto|]. split.
    + intros k y Hy. rewrite lookup_inserted in Hy by lia.
      destruct (decide (k < i)%nat) as [Hlt|Hge].
      * rewrite Hrest3, Hrest2 by lia. rewrite Hs1, Hs0, !decide_False by lia.
        now apply Hlive.
      * destruct (decide (k = i)) as [->|Hki]; [congruence|].
        rewrite Hrest3 by lia.
        assert (Hk : (k <= S m)%nat) by (apply lookup_lt_Some in Hy; lia).
        destruct (decide (k = S m)) as [->|Hkm].
        -- rewrite Hrest2 by lia. rewrite Hs1, decide_True by auto.
           replace (S m - 1)%nat with m in Hy by lia. congruence.
        -- replace k with (S (i + (k - 1 - i)))%nat by lia.
           apply Hshifted. subst ys. apply lookup_take_Some. split; [|lia].
           rewrite lookup_drop. now replace (i + (k - 1 - i))%nat with (k - 1)%nat by lia.
    + intros k Hk. rewrite Hrest3, Hrest2 by lia.
      rewrite Hs1, Hs0, !decide_False by lia. reflexivity.
Qed.

(** The fallible part of the reallocating path of [Emplace]: the new
    element, then the elements before it, then the elements after it, all
    into the raw slots of the new block [b']. *)
Lemma Emplace_transfer (s : state) (xs : list T) (i : nat) (args : Args) buf b'
    (c : nat) :
  (i <= length xs)%nat -> (length xs < c)%nat ->
  Z.of_nat (length xs) < SIZE_MODULUS - 1 ->
  (forall k, (k < c)%nat -> cell s b' k = Some None) ->
  (buf = nullptr /\ xs = [] \/
   exists b, buf = at_ b 0 /\ b <> b' /\
     forall k x, xs !! k = Some x -> cell s b k = Some (Some x)) ->
  match
    (emplace_at (ptr_add (at_ b' 0) (Z.of_nat i)) args ;;
     on_throw (InitializeRawMemory buf (Z.of_nat i) (at_ b' 0))
              (destroy_at (ptr_add (at_ b' 0) (Z.of_nat i))) ;;
     on_throw (InitializeRawMemory (ptr_add buf (Z.of_nat i))
                 (wrap (Z.of_nat (length xs) - Z.of_nat i))
                 (ptr_add (ptr_add (at_ b' 0) (Z.of_nat i)) 1))
              (destroy_n (at_ b' 0) (wrap (Z.of_nat i + 1)))) s
  with
  | Normal _ s' =>
      same_frame s s' /\
      (exists x, (exists w w', construct args w = (Some x, w')) /\
         forall k y, (take i xs ++ x :: drop i xs) !! k = Some y ->
                     cell s' b' k = Some (Some y)) /\
      (forall k, (length xs < k)%nat -> cell s' b' k = cell s b' k) /\
      (forall d k v, d <> b' -> cell s d k = Some (Some v) ->
                     exists v', cell s' d k = Some (Some v'))
  | Throw _ s' => same_frame s s'
  | _ => False
  end.
Proof.
  intros Hi Hc Hn Hraw Hsrc.
  rewrite !ptr_add_at_nat, ptr_add_at_1. simpl (0 + _)%nat.
  rewrite (wrap_small (Z.of_nat i + 1)) by lia.
  rewrite (wrap_small (Z.of_nat (length xs) - Z.of_nat i)) by lia.
  unfold bind at 1. unfold emplace_at, bind at 1, elem_construct.
  destruct (construct args (world s)) as [[x|] w] eqn:Hx;
    [|apply same_frame_set_world].
  assert (Hd : cell (set_world w s) b' i = Some None) by (apply Hraw; lia).
  rewrite (construct_at_cell _ _ _ _ _ Hd).
  set (s2 := set_slot (at_ b' i) (Some x) (set_world w s)).
  assert (Hs2 : forall d k, cell s2 d k =
            if decide (d = b' /\ k = i) then Some (Some x) else cell s d k).
  { intros d k. subst s2. rewrite cell_set_slot; [reflexivity|].
    rewrite Hd. eauto. }
  assert (Hfr2 : same_frame s s2).
  { subst s2. etransitivity; [apply same_frame_set_world|apply same_frame_set_slot]. }
  (* the elements before the new one *)
  assert (Hlen_head : length (take i xs) = i) by (rewrite length_take; lia).
  pose proof (InitializeRawMemory_spec s2 buf b' 0 (take i xs)) as Hhead.
  rewrite Hlen_head in Hhead. simpl (0 + _)%nat in Hhead.
  assert (Hsrc_head : take i xs = [] \/
            exists bs i0, buf = at_ bs i0 /\ bs <> b' /\
              forall k v, take i xs !! k = Some v ->
                          cell s2 bs (i0 + k) = Some (Some v)).
  { destruct Hsrc as [[_ ->]|(b & -> & Hne & Hlive)]; [left; now destruct i|].
    right. exists b, 0%nat. split; [reflexivity|]. split; [exact Hne|].
    intros k v Hv. apply lookup_take_Some in Hv as [Hv _]. simpl.
    rewrite Hs2, decide_False by (intros [? _]; congruence). now apply Hlive. }
  assert (Hraw_head : forall k, (k < i)%nat -> cell s2 b' k = Some None).
  { intros k Hk. rewrite Hs2, decide_False by lia. apply Hraw. lia. }
  specialize (Hhead Hsrc_head Hraw_head).
  unfold bind at 1. unfold on_throw at 1.
  destruct (InitializeRawMemory buf (Z.of_nat i) (at_ b' 0) s2)
    as [[] s3|e s3| |]; [| |contradiction|contradiction].
  2:{ (* the transfer failed: the new element is destroyed *)
    destruct Hhead as (Hfr3 & Hsame & _).
    assert (Hnew : cell s3 b' i = Some (Some x)).
    { rewrite Hsame, Hs2, decide_True by auto. reflexivity. }
    rewrite (destroy_at_cell _ _ _ _ Hnew).
    etransitivity; [exact Hfr2|]. etransitivity; [exact Hfr3|].
    etransitivity; [apply same_frame_set_world|apply same_frame_set_slot]. }
  destruct Hhead as (Hfr3 & Hhead & Hout3 & Hlive3 & Hkeep3).
  (* the elements after the new one *)
  assert (Hlen_tail : length (drop i xs) = (length xs - i)%nat) by apply length_drop.
  pose proof (InitializeRawMemory_spec s3 (ptr_add buf (Z.of_nat i)) b' (S i)
                (drop i xs)) as Htail.
  rewrite Hlen_tail in Htail.
  replace (Z.of_nat (length xs - i)) with (Z.of_nat (length xs) - Z.of_nat i)
    in Htail by lia.
  assert (Hsrc_tail : drop i xs = [] \/
            exists bs i0, ptr_add buf (Z.of_nat i) = at_ bs i0 /\ bs <> b' /\
              forall k v, drop i xs !! k = Some v ->
                          cell s3 bs (i0 + k) = Some (Some v)).
  { destruct Hsrc as [[_ ->]|(b & -> & Hne & Hlive)]; [left; now destruct i|].
    right. exists b, i. split; [now rewrite ptr_add_at_nat|]. split; [exact Hne|].
    intros k v Hv. rewrite lookup_drop in Hv.
    rewrite Hkeep3; [|exact Hne|intros [_ Hk]; simpl in Hk; lia].
    rewrite Hs2, decide_False by (intros [? _]; congruence). now apply Hlive. }
  assert (Hraw_tail : forall k, (k < length xs - i)%nat ->
            cell s3 b' (S i + k) = Some None).
  { intros k Hk. rewrite Hout3 by lia. rewrite Hs2, decide_False by lia.
    apply Hraw. lia. }
  specialize (Htail Hsrc_tail Hraw_tail).
  unfold on_throw.
  destruct (InitializeRawMemory (ptr_add buf (Z.of_nat i))
              (Z.of_nat (length xs) - Z.of_nat i) (at_ b' (S i)) s3)
    as [[] s4|e s4| |]; [| |contradiction|contradiction].
  2:{ (* the transfer failed: what the new block holds is destroyed *)
    destruct Htail as (Hfr4 & Hsame & _).
    replace (Z.of_nat i + 1) with (Z.of_nat (S i)) by lia.
    destruct (destroy_n_live s4 (at_ b' 0) (S i)) as (s5 & -> & Hfr5 & _).
    { right. exists b', 0%nat. split; [reflexivity|]. intros k Hk. rewrite Hsame.
      destruct (decide (k = i)) as [->|Hki].
      - exists x. rewrite Hout3 by lia. rewrite Hs2, decide_True by auto. reflexivity.
      - destruct (lookup_lt_is_Some_2 (take i xs) k) as [y Hy]; [lia|].
        exists y. now apply (Hhead k y). }
    etransitivity; [exact Hfr2|]. etransitivity; [exact Hfr3|].
    etransitivity; eauto. }
  destruct Htail as (Hfr4 & Htail & Hout4 & Hlive4 & _).
  split; [etransitivity; [exact Hfr2|etransitivity; eauto]|]. split; [|split].
  - exists x. split; [eauto|]. intros k y Hy.
    rewrite lookup_inserted in Hy by lia.
    destruct (decide (k < i)%nat) as [Hlt|Hge].
    + rewrite Hout4 by lia. apply (Hhead k y). now apply lookup_take_Some.
    + destruct (decide (k = i)) as [->|Hki].
      * rewrite Hout4, Hout3 by lia. rewrite Hs2, decide_True by auto. congruence.
      * replace k with (S i + (k - 1 - i))%nat by lia. apply Htail.
        rewrite lookup_drop. now replace (i + (k - 1 - i))%nat with (k - 1)%nat by lia.
  - intros k Hk. rewrite Hout4, Hout3 by lia.
    rewrite Hs2, decide_False by lia. reflexivity.
  - intros d k v Hd0 Hv.
    assert (Hv2 : cell s2 d k = Some (Some v)).
    { rewrite Hs2, decide_False by (intros [? _]; congruence). exact Hv. }
    destruct (Hlive3 d k v Hd0 Hv2) as [v3 Hv3].
    exact (Hlive4 d k v3 Hd0 Hv3).
Qed.

Lemma finish_insertion (s : state) (this : nat) (rm : RawMemory) (n idx : Z) :
  vecs s !! this = Some {| data_ := rm; size_ := n |} ->
  0 <= n < SIZE_MODULUS - 1 ->
  (set_size this (wrap (n + 1)) ;;
   let* b := begin this in ret (ptr_add b idx)) s =
  Normal (ptr_add (buffer_ rm) idx)
    (set_vecs (<[this := {| data_ := rm; size_ := n + 1 |}]> (vecs s)) s).
Proof.
  intros Hv Hn. rewrite (bind_normal _ _ _ _ _ (set_size_eq _ _ _ _ Hv)).
  rewrite wrap_small by lia. simpl data_.
  set (s' := set_vecs _ s).
  assert (Hv' : vecs s' !! this = Some {| data_ := rm; size_ := n + 1 |}).
  { subst s'. simpl. apply lookup_insert_eq. }
  now rewrite (bind_normal _ _ _ _ _ (begin_eq _ _ _ Hv')).
Qed.

Lemma full_block_length (xs : list T) (cap : Z) :
  (length xs <= Z.to_nat cap)%nat ->
  length ((Some <$> xs) ++ replicate (Z.to_nat cap - length xs)%nat (@None T))
  = Z.to_nat cap.
Proof. intros H. rewrite length_app, length_fmap, length_replicate. lia. Qed.

(** [Emplace] at index [i <= size] of a valid vector either lets an
    exception out or returns normally; it never runs into undefined
    behaviour or a failed assertion.  When it returns, the vector holds the
    old elements in their order with the newly constructed element at
    index [i], its size is one more, and the iterator returned is
    [begin() + i].  When size equals capacity the elements are in a new
    block of capacity [max(1, 2 * capacity)], otherwise they stay in place
    and the capacity is unchanged. *)
Lemma Emplace_spec (s : state) (this : nat) (xs : list T) (cap : Z)
    (i : nat) (args : Args) (b : ptr) :
  holds s this xs cap -> (i <= length xs)%nat -> begin this s = Normal b s ->
  match Emplace this (ptr_add b (Z.of_nat i)) args s with
  | Normal p s' =>
      exists x b',
        (exists w w', construct args w = (Some x, w')) /\
        holds s' this (take i xs ++ x :: drop i xs)
          (if decide (Z.of_nat (length xs) = cap) then Z.max 1 (2 * cap) else cap) /\
        Size this s' = Normal (Z.of_nat (length xs) + 1) s' /\
        begin this s' = Normal b' s' /\ p = ptr_add b' (Z.of_nat i)
  | Throw _ _ => True
  | _ => False
  end.
Proof.
  intros Hholds Hi Hb.
  apply holds_inv in Hholds as (buf & Hv & Hle & Hcap0 & Hfit & Hbuf).
  rewrite (begin_eq _ _ _ Hv) in Hb. injection Hb as <-. simpl buffer_.
  pose proof (capacity_small cap Hcap0 Hfit) as Hsmall.
  assert (Hmod : SIZE_MODULUS = 2 ^ 64) by reflexivity.
  assert (Hinsert_len : forall x, length (take i xs ++ x :: drop i xs) = S (length xs)).
  { intros x. rewrite length_app, length_take. simpl. rewrite length_drop. lia. }
  unfold Emplace.
  rewrite (bind_normal _ _ _ _ _ (begin_eq _ _ _ Hv)).
  rewrite (bind_normal _ _ _ _ _ (end_eq _ _ _ Hv)).
  simpl data_. simpl buffer_. simpl size_.
  assert (Hassert : ptr_ge (ptr_add buf (Z.of_nat i)) buf
                    && ptr_le (ptr_add buf (Z.of_nat i))
                         (ptr_add buf (Z.of_nat (length xs))) = true).
  { apply ptr_between. simpl. split; [reflexivity|lia]. }
  rewrite (bind_normal _ _ _ _ _ (assert_true _ s Hassert)).
  unfold cbegin. rewrite (bind_normal _ _ _ _ _ (begin_eq _ _ _ Hv)).
  simpl data_. simpl buffer_. cbv zeta.
  assert (Hidx : wrap (distance buf (ptr_add buf (Z.of_nat i))) = Z.of_nat i).
  { unfold distance. simpl. rewrite wrap_small by lia. lia. }
  rewrite !Hidx.
  rewrite (bind_normal _ _ _ _ _ (get_size_eq _ _ _ Hv)).
  rewrite (bind_normal _ _ _ _ _ (Capacity_eq _ _ _ Hv)).
  simpl size_. simpl data_. simpl capacity_.
  destruct (decide (Z.of_nat (length xs) = cap)) as [Hfull|Hroom].
  - (* size == capacity: reallocate *)
    subst cap. rewrite Z.eqb_refl.
    set (n := Z.of_nat (length xs)) in *.
    set (c := Z.max 1 (2 * n)).
    assert (Hc : (if n =? 0 then 1 else wrap (n * 2)) = c).
    { subst c. destruct (n =? 0) eqn:H0.
      - apply Z.eqb_eq in H0. lia.
      - apply Z.eqb_neq in H0. rewrite wrap_small by lia. lia. }
    rewrite Hc.
    assert (Hcfit : c * sizeof_T < SIZE_MODULUS).
    { pose proof sizeof_T_range as [Hpos Hlt]. unfold PTRDIFF_MAX in Hfit.
      subst c. destruct (Z.max_spec 1 (2 * n)) as [[_ ->]|[_ ->]]; nia. }
    pose proof (RawMemory_ctor_spec s c ltac:(subst c; lia) Hcfit) as Hctor.
    unfold bind at 1. unfold bind at 1.
    destruct (RawMemory_ctor c s) as [rm s1|e s1| |];
      [|exact I|contradiction|contradiction].
    destruct Hctor as (b' & -> & Hfresh & -> & Hcfit').
    set (s1 := set_heap _ s). unfold GetAddress. simpl buffer_.
    assert (Hs1 : forall d k, cell s1 d k =
              if decide (d = b')
              then (if decide (k < Z.to_nat c)%nat then Some None else None)
              else cell s d k).
    { intros d k. subst s1. apply cell_fresh_block. }
    assert (Hsrc : buf = nullptr /\ xs = [] \/
              exists b, buf = at_ b 0 /\ b <> b' /\
                forall k x, xs !! k = Some x -> cell s1 b k = Some (Some x)).
    { destruct Hbuf as [[-> H0]|(b & -> & _ & Hl & Hlive & _)].
      - left. split; [reflexivity|]. destruct xs; [reflexivity|]. subst n.
        simpl in H0. lia.
      - right. exists b. split; [reflexivity|].
        assert (Hne : b <> b') by (intros ->; congruence).
        split; [exact Hne|]. intros k x Hx.
        rewrite Hs1, decide_False by exact Hne. now apply Hlive. }
    pose proof (Emplace_transfer s1 xs i args buf b' (Z.to_nat c) Hi
                  ltac:(subst c n; lia) ltac:(fold n; lia)) as Htransfer.
    assert (Hraw1 : forall k, (k < Z.to_nat c)%nat -> cell s1 b' k = Some None).
    { intros k Hk. rewrite Hs1, decide_True by reflexivity.
      now rewrite decide_True by exact Hk. }
    specialize (Htransfer Hraw1 Hsrc). fold n in Htransfer.
    assert (Hb1 : heap s1 !! b' = Some (replicate (Z.to_nat c) None)).
    { subst s1. simpl. apply lookup_insert_eq. }
    unfold bind at 1. unfold on_throw at 1.
    match goal with
    | |- context [match ?m s1 with _ => _ end] => destruct (m s1) as [[] s4|e s4| |]
    end; [| |contradiction|contradiction].
    2:{ (* the new block is released *)
      destruct (same_frame_block s1 s4 b' _ Htransfer Hb1) as (l4 & Hl4 & _).
      destruct (RawMemory_dtor_spec s4 {| buffer_ := at_ b' 0; capacity_ := c |})
        as (s5 & -> & _); [right; eauto|exact I]. }
    destruct Htransfer as (Hfr4 & (x & Hx & Hys) & Hrest4 & Hlive4).
    (* the old elements are destroyed *)
    destruct (destroy_n_live s4 buf (length xs)) as (s5 & Hdes & Hfr5 & Hother5 & _).
    { destruct Hsrc as [[_ ->]|(b & -> & Hne & Hlive)]; [now left|].
      right. exists b, 0%nat. split; [reflexivity|]. intros k Hk.
      destruct (lookup_lt_is_Some_2 xs k) as [y Hy]; [lia|].
      apply (Hlive4 b k y Hne). now apply Hlive. }
    fold n in Hdes. rewrite (bind_normal _ _ _ _ _ Hdes).
    assert (Hv5 : vecs s5 !! this =
              Some {| data_ := {| buffer_ := buf; capacity_ := n |}; size_ := n |}).
    { destruct Hfr5 as [_ ->]. destruct Hfr4 as [_ ->]. exact Hv. }
    (* the new block is adopted, the old one released *)
    unfold adopt. rewrite (bind_normal _ _ _ _ _ (get_data_eq _ _ _ Hv5)).
    simpl data_. unfold RawMemory_Swap. simpl buffer_. simpl capacity_.
    rewrite (bind_normal _ _ _ _ _ (set_data_eq _ _ _ _ Hv5)). simpl size_.
    set (s6 := set_vecs _ s5).
    assert (Hb5 : exists l5, heap s5 !! b' = Some l5 /\ length l5 = Z.to_nat c /\
              forall k, l5 !! k = cell s5 b' k).
    { destruct (same_frame_block s1 s5 b' _ ltac:(etransitivity; eauto) Hb1)
        as (l5 & Hl5 & Hlen5 & Hcells5).
      exists l5. rewrite length_replicate in Hlen5. auto. }
    destruct Hb5 as (l5 & Hl5 & Hlen5 & Hcells5).
    destruct (RawMemory_dtor_spec s6 {| buffer_ := buf; capacity_ := n |})
      as (s7 & Hdtor & Hvecs7 & _ & Hheap7).
    { simpl. destruct Hbuf as [[-> _]|(b & -> & _ & Hl & _)]; [now left|].
      right. exists b. split; [reflexivity|].
      assert (Hne : b <> b') by (intros ->; congruence).
      assert (Hl1 : heap s1 !! b = Some ((Some <$> xs) ++
                      replicate (Z.to_nat n - length xs)%nat None)).
      { subst s1. simpl. rewrite lookup_insert_ne by congruence. exact Hl. }
      destruct (same_frame_block s1 s5 b _ ltac:(etransitivity; eauto) Hl1)
        as (l & Hl' & _). subst s6. simpl. eauto. }
    rewrite Hdtor.
    assert (Hv7 : vecs s7 !! this =
              Some {| data_ := {| buffer_ := at_ b' 0; capacity_ := c |}; size_ := n |}).
    { rewrite Hvecs7. subst s6. simpl. apply lookup_insert_eq. }
    rewrite (finish_insertion _ _ _ _ _ Hv7) by lia.
    simpl buffer_.
    assert (Hl7 : heap s7 !! b' = Some l5).
    { rewrite Hheap7; [exact Hl5|]. simpl.
      destruct Hbuf as [[-> _]|(b & -> & _ & Hl & _)]; [discriminate|].
      simpl. intros [= ->]. congruence. }
    set (s8 := set_vecs _ s7).
    assert (Hcell8 : forall k, cell s8 b' k = cell s4 b' k).
    { intros k. subst s8. rewrite cell_set_vecs. unfold cell at 1.
      rewrite Hl7, Hcells5. apply Hother5. simpl.
      destruct Hbuf as [[-> _]|(b & -> & _ & Hl & _)]; [discriminate|].
      simpl. intros [= ->]. congruence. }
    assert (Hv8 : vecs s8 !! this =
              Some {| data_ := {| buffer_ := at_ b' 0; capacity_ := c |};
                      size_ := n + 1 |}).
    { subst s8. simpl. apply lookup_insert_eq. }
    exists x, (at_ b' 0). split; [exact Hx|]. split; [|split; [|split]].
    + apply (holds_intro s8 this _ c b' l5).
      * rewrite Hv8, Hinsert_len. do 3 f_equal. subst n. lia.
      * subst c. lia.
      * exact Hcfit'.
      * exact Hl7.
      * exact Hlen5.
      * rewrite Hinsert_len. subst c n. lia.
      * intros k y Hy. rewrite Hcell8. now apply Hys.
      * intros k Hk. rewrite Hinsert_len in Hk. rewrite Hcell8, Hrest4 by lia.
        apply Hraw1. lia.
    + unfold Size. now rewrite (get_size_eq _ _ _ Hv8).
    + now rewrite (begin_eq _ _ _ Hv8).
    + reflexivity.
  - (* size < capacity: in place *)
    replace (Z.of_nat (length xs) =? cap) with false
      by (symmetry; apply Z.eqb_neq; exact Hroom).
    destruct Hbuf as [[_ ->]|(b0 & -> & Hpos & Hl & Hlive & Hraw)]; [lia|].
    pose proof (Emplace_in_place s this xs cap i args b0 Hv ltac:(lia) Hi Hlive Hraw)
      as Hbody.
    unfold bind at 1.
    match goal with
    | |- context [match ?m s with _ => _ end] => destruct (m s) as [[] s1|e s1| |]
    end; [|exact I|contradiction|contradiction].
    destruct Hbody as (Hfr & x & Hx & Hys & Hrest).
    assert (Hv1 : vecs s1 !! this =
              Some {| data_ := {| buffer_ := at_ b0 0; capacity_ := cap |};
                      size_ := Z.of_nat (length xs) |}).
    { destruct Hfr as [_ ->]. exact Hv. }
    rewrite (finish_insertion _ _ _ _ _ Hv1) by lia.
    simpl buffer_. set (s2 := set_vecs _ s1).
    destruct (same_frame_block s s1 b0 _ Hfr Hl) as (l1 & Hl1 & Hlen1 & Hcells1).
    rewrite full_block_length in Hlen1 by exact Hle.
    assert (Hv2 : vecs s2 !! this =
              Some {| data_ := {| buffer_ := at_ b0 0; capacity_ := cap |};
                      size_ := Z.of_nat (length xs) + 1 |}).
    { subst s2. simpl. apply lookup_insert_eq. }
    exists x, (at_ b0 0). split; [exact Hx|]. split; [|split; [|split]].
    + apply (holds_intro s2 this _ cap b0 l1).
      * rewrite Hv2, Hinsert_len. do 3 f_equal. lia.
      * exact Hpos.
      * exact Hfit.
      * exact Hl1.
      * exact Hlen1.
      * rewrite Hinsert_len. lia.
      * intros k y Hy. subst s2. rewrite cell_set_vecs. now apply Hys.
      * intros k Hk. rewrite Hinsert_len in Hk. subst s2.
        rewrite cell_set_vecs, Hrest by lia. apply Hraw. lia.
    + unfold Size. now rewrite (get_size_eq _ _ _ Hv2).
    + now rewrite (begin_eq _ _ _ Hv2).
    + reflexivity.
Qed.

End EmplaceProof.

(** * Removal at a position *)

Section EraseProof.
Context `{E : ElemType} {HR : Regular}.

(** C7.  [Erase] at index [i < size] of a valid vector never runs into
    undefined behaviour or a failed assertion.  When it returns, exactly
    the element at [i] is gone, every later element is one position
    earlier in the same order, the size is one less and the capacity
    unchanged.  An exception gets out only if a move assignment threw;
    [Erase] is declared [noexcept] exactly when the trait says move
    assignment cannot throw, and then nothing is thrown. *)
Theorem Erase_removes_at_position (s : state) (this : nat) (xs : list T) (cap : Z)
    (i : nat) (b : ptr) :
  holds s this xs cap -> (i < length xs)%nat -> begin this s = Normal b s ->
  Erase_noexcept = is_nothrow_move_assignable /\
  match Erase this (ptr_add b (Z.of_nat i)) s with
  | Normal p s' =>
      holds s' this (delete i xs) cap /\
      Size this s' = Normal (Z.of_nat (length xs) - 1) s' /\
      exists b', begin this s' = Normal b' s' /\ p = ptr_add b' (Z.of_nat i)
  | Throw _ _ =>
      (exists d v w, snd (fst (move_assign d v w)) = false) /\
      (nothrow_move_assignable_sound -> Erase_noexcept = false)
  | _ => False
  end.
Proof.
  intros Hholds Hi Hb. split; [reflexivity|].
  apply holds_inv in Hholds as (buf & Hv & Hle & Hcap0 & Hfit & Hbuf).
  rewrite (begin_eq _ _ _ Hv) in Hb. injection Hb as <-. simpl buffer_.
  pose proof (capacity_small cap Hcap0 Hfit) as Hsmall.
  assert (Hmod : SIZE_MODULUS = 2 ^ 64) by reflexivity.
  destruct Hbuf as [[_ ->]|(b0 & -> & Hpos & Hl & Hlive & Hraw)]; [simpl in Hle; lia|].
  unfold Erase.
  rewrite (bind_normal _ _ _ _ _ (begin_eq _ _ _ Hv)).
  rewrite (bind_normal _ _ _ _ _ (end_eq _ _ _ Hv)).
  simpl data_. simpl buffer_. simpl size_.
  assert (Hassert : ptr_ge (ptr_add (at_ b0 0) (Z.of_nat i)) (at_ b0 0)
                    && ptr_lt (ptr_add (at_ b0 0) (Z.of_nat i))
                         (ptr_add (at_ b0 0) (Z.of_nat (length xs))) = true).
  { apply ptr_within. simpl. split; [reflexivity|lia]. }
  rewrite (bind_normal _ _ _ _ _ (assert_true _ s Hassert)).
  unfold cbegin. rewrite (bind_normal _ _ _ _ _ (begin_eq _ _ _ Hv)).
  simpl data_. simpl buffer_. cbv zeta.
  assert (Hidx : wrap (distance (at_ b0 0) (ptr_add (at_ b0 0) (Z.of_nat i)))
                 = Z.of_nat i).
  { unfold distance. simpl. rewrite wrap_small by lia. lia. }
  rewrite !Hidx. rewrite !ptr_add_at_nat, ptr_add_at_1. simpl (0 + _)%nat.
  (* close the gap *)
  set (ys := drop (S i) xs).
  assert (Hys : length ys = (length xs - S i)%nat) by apply length_drop.
  unfold std_move, distance. simpl off.
  replace (Z.to_nat (Z.of_nat (length xs) - Z.of_nat (S i))) with (length ys) by lia.
  pose proof (shift_left_loop_spec b0 ys i s) as Hshift.
  assert (Hpre1 : exists d, cell s b0 i = Some (Some d)).
  { destruct (lookup_lt_is_Some_2 xs i Hi) as [d Hd]. exists d. now apply Hlive. }
  assert (Hpre2 : forall k y, ys !! k = Some y -> cell s b0 (S (i + k)) = Some (Some y)).
  { intros k y Hy. subst ys. rewrite lookup_drop in Hy. now apply Hlive. }
  specialize (Hshift Hpre1 Hpre2).
  unfold bind at 1.
  destruct (assign_loop move_assign_at (at_ b0 (S i)) (at_ b0 i) (length ys) s)
    as [[] s1|e s1| |]; [| |contradiction|contradiction].
  2:{ split; [exact Hshift|]. intros Hsound. unfold Erase_noexcept.
      destruct is_nothrow_move_assignable eqn:Hflag; [|reflexivity].
      destruct Hshift as (d & v & w & Hthrew).
      rewrite (Hsound Hflag d v w) in Hthrew. discriminate. }
  destruct Hshift as (Hfr1 & Hshifted & [m Hm] & Hrest1).
  replace (i + length ys)%nat with (length xs - 1)%nat in Hm, Hrest1 by lia.
  (* drop the last element *)
  assert (Hv1 : vecs s1 !! this =
            Some {| data_ := {| buffer_ := at_ b0 0; capacity_ := cap |};
                    size_ := Z.of_nat (length xs) |}).
  { destruct Hfr1 as [_ ->]. exact Hv. }
  unfold bind at 1. unfold PopBack.
  rewrite (bind_normal _ _ _ _ _ (begin_eq _ _ _ Hv1)).
  rewrite (bind_normal _ _ _ _ _ (get_size_eq _ _ _ Hv1)).
  simpl data_. simpl buffer_. simpl size_.
  rewrite ptr_add_at_nat. simpl (0 + _)%nat.
  assert (Hlast : ptr_add (at_ b0 (length xs)) (-1) = at_ b0 (length xs - 1)).
  { rewrite ptr_add_at by lia. f_equal. lia. }
  rewrite Hlast.
  rewrite (bind_normal _ _ _ _ _ (destroy_at_cell _ _ _ _ Hm)).
  set (s2 := set_slot _ None _).
  assert (Hs2 : forall c k, cell s2 c k =
            if decide (c = b0 /\ k = (length xs - 1)%nat) then Some None
            else cell s1 c k).
  { intros c k. subst s2. rewrite cell_set_slot; [reflexivity|].
    rewrite cell_set_world, Hm. eauto. }
  assert (Hfr2 : same_frame s s2).
  { etransitivity; [exact Hfr1|]. subst s2.
    etransitivity; [apply same_frame_set_world|apply same_frame_set_slot]. }
  assert (Hv2 : vecs s2 !! this =
            Some {| data_ := {| buffer_ := at_ b0 0; capacity_ := cap |};
                    size_ := Z.of_nat (length xs) |}).
  { destruct Hfr2 as [_ ->]. exact Hv. }
  rewrite (set_size_eq _ _ _ _ Hv2).
  rewrite wrap_small by lia. simpl data_.
  set (s3 := set_vecs _ s2).
  assert (Hv3 : vecs s3 !! this =
            Some {| data_ := {| buffer_ := at_ b0 0; capacity_ := cap |};
                    size_ := Z.of_nat (length xs) - 1 |}).
  { subst s3. simpl. apply lookup_insert_eq. }
  rewrite (bind_normal _ _ _ _ _ (begin_eq _ _ _ Hv3)). simpl buffer_.
  rewrite ptr_add_at_nat. simpl (0 + _)%nat.
  destruct (same_frame_block s s2 b0 _ Hfr2 Hl) as (l2 & Hl2 & Hlen2 & Hcells2).
  rewrite full_block_length in Hlen2 by exact Hle.
  assert (Hdel_len : length (delete i xs) = (length xs - 1)%nat).
  { rewrite length_delete by (now apply lookup_lt_is_Some_2). lia. }
  split; [|split].
  - apply (holds_intro s3 this _ cap b0 l2).
    + rewrite Hv3, Hdel_len. do 3 f_equal. lia.
    + exact Hpos.
    + exact Hfit.
    + exact Hl2.
    + exact Hlen2.
    + rewrite Hdel_len. lia.
    + intros k y Hy. subst s3. rewrite cell_set_vecs.
      assert (Hk : (k < length xs - 1)%nat).
      { apply lookup_lt_Some in Hy. now rewrite Hdel_len in Hy. }
      rewrite Hs2, decide_False by lia.
      destruct (decide (k < i)%nat) as [Hlt|Hge].
      * rewrite list_lookup_delete_lt in Hy by exact Hlt.
        rewrite Hrest1 by lia. now apply Hlive.
      * rewrite list_lookup_delete_ge in Hy by lia.
        replace k with (i + (k - i))%nat by lia. apply Hshifted.
        subst ys. rewrite lookup_drop.
        now replace (S i + (k - i))%nat with (S k) by lia.
    + intros k Hk. rewrite Hdel_len in Hk. subst s3. rewrite cell_set_vecs, Hs2.
      case_decide; [reflexivity|]. rewrite Hrest1 by lia. apply Hraw. lia.
  - unfold Size. now rewrite (get_size_eq _ _ _ Hv3).
  - exists (at_ b0 0). rewrite (begin_eq _ _ _ Hv3). simpl.
    now rewrite ptr_add_at_nat.
Qed.

End EraseProof.

Module PositionWitnesses.
Import Samples.

Lemma roomy_vector_holds : holds roomy_vector 0%nat [1; 2] 4.
Proof.
  exists (vec (Some 0%nat) 4 2). split; [reflexivity|].
  split; [reflexivity|]. split; [reflexivity|].
  split; [reflexivity|]. split; [discriminate|]. simpl.
  split; [reflexivity|]. split; reflexivity.
Qed.

Lemma full_vector_holds nm cp : holds (full_vector nm cp) 0%nat [5; 13] 2.
Proof.
  exists (vec (Some 0%nat) 2 2). split; [reflexivity|].
  split; [reflexivity|]. split; [reflexivity|].
  split; [reflexivity|]. split; [discriminate|]. simpl.
  split; [reflexivity|]. split; reflexivity.
Qed.

(** Erasing index 0 of [5; 13]. *)
Lemma Erase_removes_at_position_witness :
  exists p s', @Erase Plain 0%nat (ptr_add (at_ 0 0) (Z.of_nat 0)) (full_vector true true)
               = Normal p s' /\
    elements s' 0%nat = Some [13] /\ Size 0%nat s' = Normal 1 s'.
Proof.
  destruct (@Erase_removes_at_position Plain _ (full_vector true true) 0%nat
              [5; 13] 2 0%nat (at_ 0 0) (full_vector_holds true true)) as [_ H].
  - simpl. lia.
  - reflexivity.
  - destruct (@Erase Plain 0%nat (ptr_add (at_ 0 0) (Z.of_nat 0)) (full_vector true true))
      as [p s'|e s'| |] eqn:Hrun; try (vm_compute in Hrun; discriminate).
    destruct H as (Hholds & Hsize & _).
    exists p, s'. split; [reflexivity|]. split.
    + exact (holds_elements _ _ _ _ Hholds).
    + exact Hsize.
Defined.

(** C3.  A vector of size 2 and capacity 4 holding [1; 2] satisfies the
    invariant.  [Emplace] at index 0 with an argument the constructor
    rejects moves the last element into slot 2, shifts, and then lets the
    exception out: the size is still 2 while slot 2 holds a live element,
    so the slots from [size] on are no longer all raw. *)
Theorem Emplace_in_place_throw_breaks_invariant :
  vector_inv roomy_vector (vec (Some 0%nat) 4 2) /\
  exists e s',
    @Emplace Plain 0%nat (ptr_add (at_ 0 0) (Z.of_nat 0)) (-1) roomy_vector = Throw e s' /\
    vecs s' !! 0%nat = Some (vec (Some 0%nat) 4 2) /\
    cell s' 0 2 = Some (Some 2) /\
    ~ vector_inv s' (vec (Some 0%nat) 4 2).
Proof.
  split.
  - exists [Some 1; Some 2; None; None]. split; [|split; [simpl; lia|split]].
    + split; [reflexivity|]. split; [discriminate|]. simpl.
      split; [reflexivity|]. split; reflexivity.
    + intros i Hi. simpl in Hi.
      assert (Hcase : i = 0 \/ i = 1) by lia. destruct Hcase as [-> | ->]; simpl; eauto.
    + intros i Hi. simpl in Hi.
      assert (Hcase : i = 2 \/ i = 3) by lia. destruct Hcase as [-> | ->]; reflexivity.
  - eexists _, _. split; [vm_compute; reflexivity|].
    split; [reflexivity|]. split; [reflexivity|].
    intros (l & (_ & _ & Hbuf) & _ & _ & Hraw). simpl in Hbuf, Hraw.
    destruct Hbuf as (_ & Hl & _). vm_compute in Hl. injection Hl as <-.
    specialize (Hraw 2 ltac:(lia)). discriminate Hraw.
Qed.

End PositionWitnesses.

(** * Copy assignment in place *)

Section CopyLoops.
Context `{E : ElemType}.

(** [std::destroy_n] on the elements [vs]. *)
Lemma destroy_loop_exact b :
  forall (vs : list T) j (s : state),
    (forall k v, vs !! k = Some v -> cell s b (j + k) = Some (Some v)) ->
    exists s', destroy_loop (at_ b j) (length vs) s = Normal tt s' /\
      same_frame s s' /\ world s' = spec_destroy_all vs (world s) /\
      forall c k, cell s' c k =
        if decide (c = b /\ (j <= k < j + length vs)%nat) then Some None
        else cell s c k.
Proof.
  induction vs as [|v vs IH]; intros j s Hlive; simpl.
  - exists s. split; [reflexivity|]. split; [reflexivity|]. split; [reflexivity|].
    intros c k. rewrite decide_False by lia. reflexivity.
  - assert (Hv : cell s b j = Some (Some v)).
    { specialize (Hlive 0%nat v eq_refl). now rewrite Nat.add_0_r in Hlive. }
    rewrite (bind_normal _ _ _ _ _ (destroy_at_cell _ _ _ _ Hv)).
    set (s1 := set_slot _ _ _).
    assert (Hcell1 : forall c k, cell s1 c k =
              if decide (c = b /\ k = j) then Some None else cell s c k).
    { intros c k. subst s1. rewrite cell_set_slot; [reflexivity|].
      rewrite cell_set_world, Hv. eauto. }
    rewrite ptr_add_at_1.
    destruct (IH (S j) s1) as (s' & Hrun & Hframe & Hworld & Hcells).
    { intros k u Hu. rewrite Hcell1, decide_False by lia.
      replace (S j + k)%nat with (j + S k)%nat by lia. now apply Hlive. }
    exists s'. split; [exact Hrun|]. split; [|split].
    + etransitivity; [|exact Hframe]. subst s1.
      etransitivity; [apply same_frame_set_world|apply same_frame_set_slot].
    + rewrite Hworld. subst s1. now rewrite set_slot_world.
    + intros c k. rewrite Hcells, Hcell1.
      repeat case_decide; try reflexivity; lia.
Qed.

(** [std::copy_n] of the elements [vs] of one block over the elements [ds]
    of another. *)
Lemma copy_loop_exact br bd (Hne : br <> bd) :
  forall (ds vs : list T) j0 i0 (s : state),
    length ds = length vs ->
    (forall k d, ds !! k = Some d -> cell s bd (i0 + k) = Some (Some d)) ->
    (forall k v, vs !! k = Some v -> cell s br (j0 + k) = Some (Some v)) ->
    forall ys ok w, spec_assign_prefix ds vs (world s) = (ys, ok, w) ->
    exists s',
      assign_loop copy_assign_at (at_ br j0) (at_ bd i0) (length ds) s =
      (if ok then Normal tt else Throw ElementException) s' /\
      same_frame s s' /\ world s' = w /\ length ys = length ds /\
      (forall k y, ys !! k = Some y -> cell s' bd (i0 + k) = Some (Some y)) /\
      (forall c k, ~ (c = bd /\ (i0 <= k < i0 + length ds)%nat) ->
                   cell s' c k = cell s c k).
Proof.
  induction ds as [|d ds IH]; intros [|v vs] j0 i0 s Hlen Hds Hvs ys ok w Hspec;
    try discriminate.
  - simpl in Hspec. injection Hspec as <- <- <-. exists s. simpl.
    split; [reflexivity|]. split; [reflexivity|]. repeat split.
    intros k y Hy. discriminate.
  - simpl in Hlen. injection Hlen as Hlen. simpl.
    assert (Hd : cell s bd i0 = Some (Some d)).
    { specialize (Hds 0%nat d eq_refl). now rewrite Nat.add_0_r in Hds. }
    assert (Hv : cell s br j0 = Some (Some v)).
    { specialize (Hvs 0%nat v eq_refl). now rewrite Nat.add_0_r in Hvs. }
    destruct (copy_assign_at_spec s bd i0 br j0 d v Hd Hv)
      as (d' & ok1 & w1 & Hca & Hrun).
    simpl in Hspec. rewrite Hca in Hspec. unfold bind at 1. rewrite Hrun.
    set (s1 := set_slot (at_ bd i0) (Some d') (set_world w1 s)).
    assert (Hs1 : forall c k, cell s1 c k =
              if decide (c = bd /\ k = i0) then Some (Some d') else cell s c k).
    { intros c k. subst s1. rewrite cell_set_slot; [reflexivity|].
      rewrite cell_set_world, Hd. eauto. }
    assert (Hfr1 : same_frame s s1).
    { subst s1. etransitivity; [apply same_frame_set_world|apply same_frame_set_slot]. }
    destruct ok1.
    + destruct (spec_assign_prefix ds vs w1) as [[ys1 ok2] w2] eqn:Hrest.
      injection Hspec as <- <- <-. rewrite !ptr_add_at_1.
      destruct (IH vs (S j0) (S i0) s1 Hlen) with (ys := ys1) (ok := ok2) (w := w2)
        as (s' & Hrun' & Hfr & Hw & Hlen' & Hys & Hout).
      { intros k u Hu. rewrite Hs1, decide_False by lia.
        replace (S i0 + k)%nat with (i0 + S k)%nat by lia. now apply Hds. }
      { intros k u Hu. rewrite Hs1, decide_False by (intros [? _]; congruence).
        replace (S j0 + k)%nat with (j0 + S k)%nat by lia. now apply Hvs. }
      { subst s1. rewrite set_slot_world. exact Hrest. }
      exists s'. split; [exact Hrun'|]. split; [etransitivity; eauto|].
      split; [exact Hw|]. split; [simpl; lia|]. split.
      * intros [|k] y Hy.
        -- injection Hy as <-. rewrite Nat.add_0_r, Hout by lia.
           rewrite Hs1, decide_True by auto. reflexivity.
        -- replace (i0 + S k)%nat with (S i0 + k)%nat by lia. now apply Hys.
      * intros c k Hk. simpl in Hk. rewrite Hout by lia.
        rewrite Hs1, decide_False by lia. reflexivity.
    + injection Hspec as <- <- <-. exists s1. split; [reflexivity|].
      split; [exact Hfr1|]. split; [subst s1; now rewrite set_slot_world|].
      split; [reflexivity|]. split.
      * intros [|k] y Hy.
        -- injection Hy as <-. rewrite Nat.add_0_r, Hs1, decide_True by auto.
           reflexivity.
        -- rewrite Hs1, decide_False by lia. now apply Hds.
      * intros c k Hk. simpl in Hk. rewrite Hs1, decide_False by lia. reflexivity.
Qed.

Lemma spec_destroy_all_app (xs ys : list T) (w : World) :
  spec_destroy_all (xs ++ ys) w = spec_destroy_all ys (spec_destroy_all xs w).
Proof. apply foldl_app. Qed.

(** [std::uninitialized_copy_n] of the elements [vs] of one block into raw
    slots of another, after the elements [acc] have been constructed. *)
Lemma uninitialized_copy_loop_exact br bd j0 i0 (Hne : br <> bd) :
  forall (vs acc : list T) (s : state),
    (forall k v, vs !! k = Some v -> cell s br (j0 + length acc + k) = Some (Some v)) ->
    (forall k, (k < length vs)%nat -> cell s bd (i0 + length acc + k) = Some None) ->
    (forall k a, acc !! k = Some a -> cell s bd (i0 + k) = Some (Some a)) ->
    forall zs ok w, spec_construct_tail vs (world s) = (zs, ok, w) ->
    exists s',
      uninitialized_loop copy_construct_at (at_ br j0) (at_ bd i0)
        (Z.of_nat (length acc)) (length vs) s =
      (if ok then Normal tt else Throw ElementException) s' /\
      same_frame s s' /\
      (forall c k, ~ (c = bd /\ (i0 <= k < i0 + length acc + length vs)%nat) ->
                   cell s' c k = cell s c k) /\
      if ok then
        world s' = w /\ length zs = length vs /\
        (forall k z, zs !! k = Some z ->
                     cell s' bd (i0 + length acc + k) = Some (Some z)) /\
        (forall k, (k < length acc)%nat -> cell s' bd (i0 + k) = cell s bd (i0 + k))
      else
        world s' = spec_destroy_all (acc ++ zs) w /\
        (forall k, (k < length acc + length vs)%nat -> cell s' bd (i0 + k) = Some None).
Proof.
  induction vs as [|v vs IH]; intros acc s Hsrc Hraw Hacc zs ok w Hspec.
  - simpl in Hspec. injection Hspec as <- <- <-. exists s. simpl.
    split; [reflexivity|]. split; [reflexivity|]. split; [reflexivity|].
    repeat split. intros k z Hz. discriminate.
  - simpl. rewrite !ptr_add_at_nat.
    assert (Hv : cell s br (j0 + length acc) = Some (Some v)).
    { specialize (Hsrc 0%nat v eq_refl). now rewrite Nat.add_0_r in Hsrc. }
    assert (Hd : cell s bd (i0 + length acc) = Some None).
    { specialize (Hraw 0%nat ltac:(simpl; lia)). now rewrite Nat.add_0_r in Hraw. }
    simpl in Hspec. unfold bind at 1. unfold on_throw at 1.
    unfold copy_construct_at at 1.
    rewrite (bind_normal _ _ _ _ _ (load_cell _ _ _ _ Hv)).
    unfold bind at 1. unfold elem_copy_construct.
    destruct (copy_construct v (world s)) as [[x|] w1] eqn:Hcc.
    + assert (Hd' : cell (set_world w1 s) bd (i0 + length acc) = Some None) by exact Hd.
      rewrite (construct_at_cell _ _ _ _ _ Hd').
      set (s1 := set_slot (at_ bd (i0 + length acc)) (Some x) (set_world w1 s)).
      assert (Hs1 : forall c k, cell s1 c k =
                if decide (c = bd /\ k = (i0 + length acc)%nat)
                then Some (Some x) else cell s c k).
      { intros c k. subst s1. rewrite cell_set_slot; [reflexivity|].
        rewrite Hd'. eauto. }
      assert (Hfr1 : same_frame s s1).
      { subst s1. etransitivity; [apply same_frame_set_world|apply same_frame_set_slot]. }
      destruct (spec_construct_tail vs w1) as [[zs1 ok1] w2] eqn:Hrest.
      injection Hspec as <- <- <-.
      replace (Z.of_nat (length acc) + 1) with (Z.of_nat (length (acc ++ [x])))
        by (rewrite length_app; simpl; lia).
      destruct (IH (acc ++ [x]) s1) with (zs := zs1) (ok := ok1) (w := w2)
        as (s' & Hrun & Hfr & Hout & Hres).
      { intros k u Hu. rewrite length_app. simpl.
        rewrite Hs1, decide_False by (intros [? _]; congruence).
        replace (j0 + (length acc + 1) + k)%nat with (j0 + length acc + S k)%nat by lia.
        now apply Hsrc. }
      { intros k Hk. rewrite length_app. simpl. rewrite Hs1, decide_False by lia.
        replace (i0 + (length acc + 1) + k)%nat with (i0 + length acc + S k)%nat by lia.
        apply Hraw. simpl. lia. }
      { intros k a Ha. rewrite Hs1.
        destruct (decide (k < length acc)%nat) as [Hk|Hk].
        - rewrite decide_False by lia. rewrite lookup_app_l in Ha by exact Hk.
          now apply Hacc.
        - rewrite lookup_app_r in Ha by lia.
          destruct (k - length acc)%nat as [|k'] eqn:Hk'; [|destruct k'; discriminate].
          injection Ha as <-. rewrite decide_True by (split; [auto|lia]). reflexivity. }
      { subst s1. rewrite set_slot_world. exact Hrest. }
      rewrite length_app in Hout, Hres. simpl in Hout, Hres.
      exists s'. split; [exact Hrun|]. split; [etransitivity; eauto|]. split.
      { intros c k Hk. simpl in Hk. rewrite Hout by lia.
        rewrite Hs1, decide_False by lia. reflexivity. }
      destruct ok1.
      * destruct Hres as (Hw & Hlen & Hzs & Hkeep). split; [exact Hw|].
        split; [simpl; lia|]. split.
        -- intros [|k] z Hz.
           ++ injection Hz as <-. rewrite Nat.add_0_r.
              rewrite (Hkeep (length acc)) by lia.
              rewrite Hs1, decide_True by auto. reflexivity.
           ++ replace (i0 + length acc + S k)%nat
                with (i0 + (length acc + 1) + k)%nat by lia.
              now apply Hzs.
        -- intros k Hk. rewrite Hkeep by lia. rewrite Hs1, decide_False by lia.
           reflexivity.
      * destruct Hres as (Hw & Hnone). split.
        -- rewrite Hw. now rewrite <- app_assoc.
        -- intros k Hk. apply Hnone. simpl in Hk. lia.
    + (* this copy throws: the elements built so far are destroyed *)
      injection Hspec as <- <- <-. unfold destroy_n. rewrite Nat2Z.id.
      destruct (destroy_loop_exact bd acc i0 (set_world w1 s))
        as (s' & Hrun & Hfr & Hw & Hcells).
      { intros k a Ha. now apply Hacc. }
      rewrite Hrun. exists s'. split; [reflexivity|]. split.
      { etransitivity; [apply same_frame_set_world|exact Hfr]. }
      split; [|split].
      * intros c k Hk. simpl in Hk. rewrite Hcells, decide_False by lia. reflexivity.
      * rewrite app_nil_r. exact Hw.
      * intros k Hk. rewrite Hcells. case_decide; [reflexivity|].
        rewrite cell_set_world.
        replace (i0 + k)%nat with (i0 + length acc + (k - length acc))%nat by lia.
        apply Hraw. simpl in Hk |- *. lia.
Qed.

End CopyLoops.

Section CopySteps.
Context `{E : ElemType}.

Lemma spec_assign_prefix_length (ds vs : list T) :
  forall w ys ok w', spec_assign_prefix ds vs w = (ys, ok, w') -> length ys = length ds.
Proof.
  revert vs. induction ds as [|d ds IH]; intros [|v vs] w ys ok w' H; simpl in H;
    try (injection H as <- <- <-; reflexivity).
  destruct (copy_assign d v w) as [[d' []] w1].
  - destruct (spec_assign_prefix ds vs w1) as [[ys1 ok1] w2] eqn:Hrest.
    injection H as <- <- <-. simpl. f_equal. eapply IH. exact Hrest.
  - injection H as <- <- <-. reflexivity.
Qed.

Lemma spec_assign_prefix_regular {HR : Regular} (ds vs : list T) :
  length ds = length vs ->
  forall w ys w', spec_assign_prefix ds vs w = (ys, true, w') -> ys = vs.
Proof.
  revert vs. induction ds as [|d ds IH]; intros [|v vs] Hlen w ys w' H;
    try discriminate; simpl in H.
  - now injection H as <- <-.
  - destruct (copy_assign d v w) as [[d' []] w1] eqn:Hca; [|discriminate].
    destruct (spec_assign_prefix ds vs w1) as [[ys1 ok1] w2] eqn:Hrest.
    injection H as <- -> <-. f_equal.
    + eapply copy_assign_value. exact Hca.
    + eapply IH; [|exact Hrest]. simpl in Hlen. lia.
Qed.

Lemma spec_construct_tail_regular {HR : Regular} (vs : list T) :
  forall w zs w', spec_construct_tail vs w = (zs, true, w') -> zs = vs.
Proof.
  induction vs as [|v vs IH]; intros w zs w' H; simpl in H.
  - now injection H as <- <-.
  - destruct (copy_construct v w) as [[x|] w1] eqn:Hcc; [|discriminate].
    destruct (spec_construct_tail vs w1) as [[zs1 ok1] w2] eqn:Hrest.
    injection H as <- -> <-. f_equal.
    + eapply copy_construct_value. exact Hcc.
    + eapply IH. exact Hrest.
Qed.

(** What the specification's function returns: on failure as many elements
    as before, on success the elements of the source. *)
Lemma spec_copy_assign_in_place_result (xs rs : list T) (w : World) ys ok w' :
  spec_copy_assign_in_place xs rs w = (ys, ok, w') ->
  (ok = false -> length ys = length xs) /\
  (ok = true -> Regular -> ys = rs).
Proof.
  unfold spec_copy_assign_in_place.
  set (m := Nat.min (length xs) (length rs)).
  assert (Hlen : length (take m xs) = length (take m rs)).
  { rewrite !length_take. lia. }
  destruct (spec_assign_prefix (take m xs) (take m rs) w) as [[ys1 ok1] w1] eqn:Hpre.
  pose proof (spec_assign_prefix_length _ _ _ _ _ _ Hpre) as Hlen1.
  rewrite length_take in Hlen1.
  destruct ok1.
  - destruct (length rs <? length xs)%nat eqn:Hcmp.
    + apply Nat.ltb_lt in Hcmp. intros [= <- <- <-]. split; [discriminate|].
      intros _ HR. rewrite (spec_assign_prefix_regular _ _ Hlen _ _ _ Hpre).
      apply firstn_all2. lia.
    + apply Nat.ltb_ge in Hcmp.
      destruct (spec_construct_tail (drop m rs) w1) as [[zs ok2] w2] eqn:Htail.
      destruct ok2; intros [= <- <- <-].
      * split; [discriminate|]. intros _ HR.
        rewrite (spec_assign_prefix_regular _ _ Hlen _ _ _ Hpre).
        rewrite (spec_construct_tail_regular _ _ _ _ Htail).
        apply take_drop.
      * split; [|discriminate]. intros _. lia.
  - intros [= <- <- <-]. split; [|discriminate]. intros _.
    rewrite length_app, length_drop. lia.
Qed.

(** A block is unchanged when its cells are. *)
Lemma block_unchanged (s s' : state) b :
  same_frame s s' -> (forall k, cell s' b k = cell s b k) ->
  heap s' !! b = heap s !! b.
Proof.
  intros Hfr Hcells. destruct (heap s !! b) as [l|] eqn:Hl.
  - destruct (same_frame_block s s' b l Hfr Hl) as (l' & Hl' & Hlen & Hc).
    rewrite Hl'. f_equal. apply list_eq. intros k.
    rewrite Hc, Hcells. unfold cell. now rewrite Hl.
  - now apply (same_frame_free s s').
Qed.

(** A vector keeps what it holds when its object and its block are
    unchanged. *)
Lemma holds_unchanged (s s' : state) (this : nat) (xs : list T) (cap : Z) :
  holds s this xs cap ->
  vecs s' !! this = vecs s !! this ->
  (forall v b, vecs s !! this = Some v -> blk (buffer_ (data_ v)) = Some b ->
               heap s' !! b = heap s !! b) ->
  holds s' this xs cap.
Proof.
  intros (v & Hv & Hn & Hc & Hlen & Hfit & Hbuf) Hvecs Hheap.
  exists v. split; [congruence|]. split; [exact Hn|]. split; [exact Hc|].
  split; [exact Hlen|]. split; [exact Hfit|].
  destruct (blk (buffer_ (data_ v))) as [b|] eqn:Hb; [|exact Hbuf].
  destruct Hbuf as (Hoff & Hl & Hpos). rewrite (Hheap v b Hv Hb). auto.
Qed.

(** [std::copy_n]: nothing happens for no elements, whatever the
    pointers; otherwise source and destination are in different blocks. *)
Lemma copy_n_exact (s : state) src dst (ds vs : list T) :
  length ds = length vs ->
  (ds = [] \/
   exists br j0 bd i0, src = at_ br j0 /\ dst = at_ bd i0 /\ br <> bd /\
     (forall k d, ds !! k = Some d -> cell s bd (i0 + k) = Some (Some d)) /\
     (forall k v, vs !! k = Some v -> cell s br (j0 + k) = Some (Some v))) ->
  forall ys ok w, spec_assign_prefix ds vs (world s) = (ys, ok, w) ->
  exists s',
    copy_n src (Z.of_nat (length ds)) dst s =
    (if ok then Normal tt else Throw ElementException) s' /\
    same_frame s s' /\ world s' = w /\
    (forall bd i0, dst = at_ bd i0 ->
       (forall k y, ys !! k = Some y -> cell s' bd (i0 + k) = Some (Some y)) /\
       (forall c k, ~ (c = bd /\ (i0 <= k < i0 + length ds)%nat) ->
                    cell s' c k = cell s c k)) /\
    (ds = [] -> s' = s /\ ok = true).
Proof.
  intros Hlen Hcase ys ok w Hspec. unfold copy_n. rewrite Nat2Z.id.
  destruct Hcase as [->|(br & j0 & bd & i0 & -> & -> & Hne & Hds & Hvs)].
  - simpl in Hspec. injection Hspec as <- <- <-. exists s. simpl.
    split; [reflexivity|]. split; [reflexivity|]. split; [reflexivity|].
    split; [|auto]. intros bd i0 _. split; [intros k y Hy; discriminate|reflexivity].
  - destruct (copy_loop_exact br bd Hne ds vs j0 i0 s Hlen Hds Hvs ys ok w Hspec)
      as (s' & Hrun & Hfr & Hw & _ & Hys & Hout).
    exists s'. split; [exact Hrun|]. split; [exact Hfr|]. split; [exact Hw|]. split.
    + intros bd' i0' [= <- Hi0]. apply Nat2Z.inj in Hi0. subst i0'. auto.
    + intros ->. simpl in Hrun, Hspec. injection Hspec as <- <- <-.
      injection Hrun as <-. auto.
Qed.

(** [std::uninitialized_copy_n], likewise. *)
Lemma uninitialized_copy_n_exact (s : state) src dst (vs : list T) :
  (vs = [] \/
   exists br j0 bd i0, src = at_ br j0 /\ dst = at_ bd i0 /\ br <> bd /\
     (forall k v, vs !! k = Some v -> cell s br (j0 + k) = Some (Some v)) /\
     (forall k, (k < length vs)%nat -> cell s bd (i0 + k) = Some None)) ->
  forall zs ok w, spec_construct_tail vs (world s) = (zs, ok, w) ->
  exists s',
    uninitialized_copy_n src (Z.of_nat (length vs)) dst s =
    (if ok then Normal tt else Throw ElementException) s' /\
    same_frame s s' /\
    (vs = [] -> s' = s /\ ok = true /\ zs = []) /\
    if ok then
      world s' = w /\ length zs = length vs /\
      forall bd i0, dst = at_ bd i0 ->
        (forall k z, zs !! k = Some z -> cell s' bd (i0 + k) = Some (Some z)) /\
        (forall c k, ~ (c = bd /\ (i0 <= k < i0 + length vs)%nat) ->
                     cell s' c k = cell s c k)
    else
      world s' = spec_destroy_all zs w /\
      forall c k, cell s' c k = cell s c k.
Proof.
  intros Hcase zs ok w Hspec. unfold uninitialized_copy_n. rewrite Nat2Z.id.
  destruct Hcase as [->|(br & j0 & bd & i0 & -> & -> & Hne & Hvs & Hraw)].
  - simpl in Hspec. injection Hspec as <- <- <-. exists s. simpl.
    split; [reflexivity|]. split; [reflexivity|]. split; [auto|].
    split; [reflexivity|]. split; [reflexivity|]. intros bd i0 _.
    split; [intros k z Hz; discriminate|reflexivity].
  - destruct (uninitialized_copy_loop_exact br bd j0 i0 Hne vs [] s)
      with (zs := zs) (ok := ok) (w := w) as (s' & Hrun & Hfr & Hout & Hres).
    { intros k v Hv. simpl. rewrite Nat.add_0_r. now apply Hvs. }
    { intros k Hk. simpl. rewrite Nat.add_0_r. now apply Hraw. }
    { intros k a Ha. discriminate. }
    { exact Hspec. }
    simpl in Hrun, Hout, Hres. exists s'. split; [exact Hrun|]. split; [exact Hfr|].
    split.
    { intros ->. simpl in Hrun, Hspec. injection Hspec as <- <- <-.
      injection Hrun as <-. auto. }
    destruct ok.
    + destruct Hres as (Hw & Hlen & Hzs & _). split; [exact Hw|]. split; [exact Hlen|].
      intros bd' i0' [= <- Hi0]. apply Nat2Z.inj in Hi0. subst i0'. split.
      * intros k z Hz. specialize (Hzs k z Hz). now rewrite Nat.add_0_r in Hzs.
      * intros c k Hk. apply Hout. lia.
    + destruct Hres as (Hw & Hnone). split; [exact Hw|]. intros c k.
      destruct (decide (c = bd /\ (i0 <= k < i0 + length vs)%nat)) as [[-> Hk]|Hk].
      * replace k with (i0 + (k - i0))%nat by lia.
        rewrite Hnone by lia. symmetry.
        replace (i0 + (k - i0))%nat with (i0 + (k - i0))%nat by lia.
        apply Hraw. lia.
      * apply Hout. lia.
Qed.

(** [std::destroy_n] on the elements [vs], likewise. *)
Lemma destroy_n_exact (s : state) p (vs : list T) :
  (vs = [] \/
   exists b j, p = at_ b j /\
     forall k v, vs !! k = Some v -> cell s b (j + k) = Some (Some v)) ->
  exists s',
    destroy_n p (Z.of_nat (length vs)) s = Normal tt s' /\
    same_frame s s' /\ world s' = spec_destroy_all vs (world s) /\
    (vs = [] -> s' = s) /\
    forall b j, p = at_ b j -> forall c k,
      cell s' c k =
      if decide (c = b /\ (j <= k < j + length vs)%nat) then Some None
      else cell s c k.
Proof.
  unfold destroy_n. rewrite Nat2Z.id. intros [->|(b & j & -> & Hlive)].
  - exists s. simpl. split; [reflexivity|]. split; [reflexivity|].
    split; [reflexivity|]. split; [reflexivity|]. intros b j _ c k.
    rewrite decide_False by lia. reflexivity.
  - destruct (destroy_loop_exact b vs j s Hlive) as (s' & Hrun & Hfr & Hw & Hcells).
    exists s'. split; [exact Hrun|]. split; [exact Hfr|]. split; [exact Hw|]. split.
    + intros ->. simpl in Hrun. now injection Hrun as <-.
    + intros b' j' [= <- Hj]. apply Nat2Z.inj in Hj. subst j'. exact Hcells.
Qed.

End CopySteps.

Section CopyAssign.
Context `{E : ElemType}.

(** The vector [this], whose block is [b], after its cells were rewritten:
    with a new size, or with the size it had. *)
Lemma holds_rebuilt (s s1 s' : state) (this : nat) (ys : list T) (cap : Z) b l :
  heap s !! b = Some l -> length l = Z.to_nat cap ->
  0 < cap -> cap * sizeof_T <= PTRDIFF_MAX ->
  same_frame s s1 -> heap s' = heap s1 ->
  vecs s' !! this = Some {| data_ := {| buffer_ := at_ b 0; capacity_ := cap |};
                            size_ := Z.of_nat (length ys) |} ->
  (length ys <= Z.to_nat cap)%nat ->
  (forall k y, ys !! k = Some y -> cell s1 b k = Some (Some y)) ->
  (forall k, (length ys <= k < Z.to_nat cap)%nat -> cell s1 b k = Some None) ->
  holds s' this ys cap.
Proof.
  intros Hl Hlen Hpos Hfit Hfr Hheap Hv Hle Hlive Hraw.
  destruct (same_frame_block s s1 b l Hfr Hl) as (l1 & Hl1 & Hlen1 & _).
  assert (Hcell : forall k, cell s' b k = cell s1 b k).
  { intros k. unfold cell. now rewrite Hheap. }
  apply (holds_intro s' this ys cap b l1); auto.
  - now rewrite Hheap.
  - congruence.
  - intros k y Hy. rewrite Hcell. now apply Hlive.
  - intros k Hk. rewrite Hcell. now apply Hraw.
Qed.

(** The vector [rhs] is untouched when its object and the cells outside
    the block of [this] are. *)
Lemma holds_kept (s s1 s' : state) (rhs : nat) (rs : list T) (rcap : Z) (buf : ptr) :
  holds s rhs rs rcap ->
  (forall r, vecs s !! rhs = Some r ->
             blk buf = None \/ blk buf <> blk (buffer_ (data_ r))) ->
  same_frame s s1 -> heap s' = heap s1 ->
  vecs s' !! rhs = vecs s !! rhs ->
  (forall c k, Some c <> blk buf -> cell s1 c k = cell s c k) ->
  holds s' rhs rs rcap.
Proof.
  intros Hrhs Hsep Hfr Hheap Hvecs Hcells.
  apply (holds_unchanged s s'); [exact Hrhs|exact Hvecs|].
  intros r br Hr Hbr. rewrite Hheap. apply block_unchanged; [exact Hfr|].
  intros k. apply Hcells. destruct (Hsep r Hr) as [Hnull|Hdiff]; congruence.
Qed.

(** A vector that satisfies its invariant can be destroyed: every live
    element is destroyed, the block released, and no slot is destroyed
    twice or read raw. *)
Lemma valid_vector_is_destructible (s : state) (this : nat) (xs : list T) (cap : Z) :
  holds s this xs cap ->
  exists s', Vector_dtor this s = Normal tt s' /\ vecs s' = delete this (vecs s).
Proof.
  intros Hthis.
  apply holds_inv in Hthis as (buf & Hv & Hle & Hcap0 & Hfit & Hbuf).
  unfold Vector_dtor.
  rewrite (bind_normal _ _ _ _ _ (begin_eq _ _ _ Hv)).
  rewrite (bind_normal _ _ _ _ _ (get_size_eq _ _ _ Hv)).
  cbn [size_ data_ capacity_ buffer_].
  destruct (destroy_n_live s buf (length xs)) as (s1 & Hrun1 & Hfr1 & _).
  { destruct Hbuf as [[-> ->]|(b & -> & _ & _ & Hlive & _)].
    - left. simpl in Hle. lia.
    - right. exists b, 0%nat. split; [reflexivity|]. intros k Hk.
      destruct (lookup_lt_is_Some_2 xs k) as [x Hx]; [lia|].
      exists x. now apply Hlive. }
  rewrite (bind_normal _ _ _ _ _ Hrun1).
  assert (Hv1 : vecs s1 !! this =
            Some {| data_ := {| buffer_ := buf; capacity_ := cap |};
                    size_ := Z.of_nat (length xs) |}).
  { destruct Hfr1 as [_ ->]. exact Hv. }
  rewrite (bind_normal _ _ _ _ _ (get_data_eq _ _ _ Hv1)).
  cbn [size_ data_ capacity_ buffer_].
  destruct (RawMemory_dtor_spec s1 {| buffer_ := buf; capacity_ := cap |})
    as (s2 & Hrun2 & Hvecs2 & _).
  { simpl. destruct Hbuf as [[-> _]|(b & -> & _ & Hl & _)]; [now left|right].
    exists b. split; [reflexivity|].
    destruct (same_frame_block s s1 b _ Hfr1 Hl) as (l1 & -> & _). eauto. }
  rewrite (bind_normal _ _ _ _ _ Hrun2).
  eexists. split; [reflexivity|]. simpl. rewrite Hvecs2.
  destruct Hfr1 as [_ ->]. reflexivity.
Qed.

(** C5.  Copy assignment from another vector whose size does not exceed
    the capacity does what the specification says of the in-place path:
    the leading [min (size, source size)] elements are copy-assigned, then
    the trailing elements are destroyed or the extra elements
    copy-constructed into raw slots, and the size is set last.  When an
    element operation throws, the exception propagates, the vector still
    satisfies its invariant with the size it had, holds the partially
    overwritten elements, and its destructor runs to completion; the
    source vector is untouched either way. *)
Theorem copy_assign_in_place_follows_the_specification
    (s : state) (this rhs : nat) (xs rs : list T) (cap rcap : Z)
    (ys : list T) (ok : bool) (w : World) :
  this <> rhs ->
  holds s this xs cap -> holds s rhs rs rcap -> separate s this rhs ->
  Z.of_nat (length rs) <= cap ->
  spec_copy_assign_in_place xs rs (world s) = (ys, ok, w) ->
  exists s',
    Vector_copy_assign this rhs s =
      (if ok then Normal tt else Throw ElementException) s' /\
    holds s' this ys cap /\ holds s' rhs rs rcap /\ world s' = w /\
    (ok = false -> length ys = length xs) /\
    (ok = true -> Regular -> ys = rs) /\
    (exists s'', Vector_dtor this s' = Normal tt s'').
Proof.
  intros Hne Hthis Hrhs Hsep Hfits Hspec.
  cut (exists s',
    Vector_copy_assign this rhs s =
      (if ok then Normal tt else Throw ElementException) s' /\
    holds s' this ys cap /\ holds s' rhs rs rcap /\ world s' = w /\
    (ok = false -> length ys = length xs) /\
    (ok = true -> Regular -> ys = rs)).
  { intros (s' & Hrun & Hthis' & Hrest). exists s'.
    split; [exact Hrun|]. split; [exact Hthis'|].
    destruct Hrest as (Hrhs' & Hw & Hlen & Heq).
    split; [exact Hrhs'|]. split; [exact Hw|]. split; [exact Hlen|].
    split; [exact Heq|].
    destruct (valid_vector_is_destructible _ _ _ _ Hthis') as (s'' & Hd & _).
    now exists s''. }
  pose proof (spec_copy_assign_in_place_result _ _ _ _ _ _ Hspec) as [Hfail Hsucc].
  pose proof Hthis as Hthis0. pose proof Hrhs as Hrhs0.
  apply holds_inv in Hthis as (buf & Hv & Hle & Hcap0 & Hfit & Hbuf).
  apply holds_inv in Hrhs as (rbuf & Hr & Hrle & Hrcap0 & Hrfit & Hrbuf).
  pose proof (capacity_small cap Hcap0 Hfit) as Hsmall.
  assert (Hmod : SIZE_MODULUS = 2 ^ 64) by reflexivity.
  assert (Hsep' : forall r, vecs s !! rhs = Some r ->
            blk buf = None \/ blk buf <> blk (buffer_ (data_ r))).
  { intros r Hr'. exact (Hsep _ _ Hv Hr'). }
  specialize (Hsep _ _ Hv Hr). simpl in Hsep.
  unfold Vector_copy_assign.
  destruct (decide (this <> rhs)) as [_|Heq]; [|contradiction].
  rewrite (bind_normal _ _ _ _ _ (get_size_eq _ _ _ Hr)).
  rewrite (bind_normal _ _ _ _ _ (Capacity_eq _ _ _ Hv)).
  cbn [size_ data_ capacity_ buffer_].
  replace (cap <? Z.of_nat (length rs)) with false by (symmetry; apply Z.ltb_ge; lia).
  rewrite (bind_normal _ _ _ _ _ (get_size_eq _ _ _ Hv)).
  rewrite (bind_normal _ _ _ _ _ (begin_eq _ _ _ Hr)).
  rewrite (bind_normal _ _ _ _ _ (begin_eq _ _ _ Hv)).
  cbn [size_ data_ capacity_ buffer_].
  unfold spec_copy_assign_in_place in Hspec.
  set (m := Nat.min (length xs) (length rs)) in *.
  assert (Hlen_take : length (take m xs) = length (take m rs)).
  { rewrite !length_take. lia. }
  destruct (spec_assign_prefix (take m xs) (take m rs) (world s))
    as [[ys1 ok1] w1] eqn:Hpre.
  pose proof (spec_assign_prefix_length _ _ _ _ _ _ Hpre) as Hlen1.
  rewrite length_take in Hlen1.
  (* the copy-assigned prefix *)
  destruct (copy_n_exact s rbuf buf (take m xs) (take m rs) Hlen_take)
    with (ys := ys1) (ok := ok1) (w := w1)
    as (s1 & Hrun1 & Hfr1 & Hw1 & Hcells1 & Hempty1).
  { destruct (decide (m = 0%nat)) as [Hm0|Hm0]; [left; now rewrite Hm0|right].
    destruct Hbuf as [[_ ->]|(b & -> & _ & _ & Hlive & _)]; [lia|].
    destruct Hrbuf as [[_ ->]|(br & -> & _ & _ & Hrlive & _)]; [lia|].
    exists br, 0%nat, b, 0%nat. split; [reflexivity|]. split; [reflexivity|].
    split; [destruct Hsep as [Hs|Hs]; [discriminate|congruence]|]. split.
    - intros k d Hd. apply lookup_take_Some in Hd as [Hd _]. now apply Hlive.
    - intros k v Hv'. apply lookup_take_Some in Hv' as [Hv' _]. now apply Hrlive. }
  { exact Hpre. }
  replace (length (take m xs)) with m in Hrun1, Hcells1 by (rewrite length_take; lia).
  assert (Hv1 : vecs s1 !! this = vecs s !! this) by (destruct Hfr1 as [_ ->]; auto).
  assert (Hr1 : vecs s1 !! rhs = vecs s !! rhs) by (destruct Hfr1 as [_ ->]; auto).
  assert (Hout1 : forall c k, Some c <> blk buf -> cell s1 c k = cell s c k).
  { intros c k Hc. destruct (decide (m = 0%nat)) as [Hm0|Hm0].
    - destruct Hempty1 as [-> _]; [now rewrite Hm0|reflexivity].
    - destruct Hbuf as [[_ ->]|(b & -> & _)]; [lia|].
      destruct (Hcells1 b 0%nat eq_refl) as [_ Hout]. apply Hout.
      intros [-> _]. now apply Hc. }
  destruct ok1; cycle 1.
  { (* an assignment threw *)
    assert (Hm0 : m <> 0%nat).
    { intros Hm0. destruct Hempty1 as [_ Hok]; [now rewrite Hm0|discriminate]. }
    destruct Hbuf as [[_ ->]|(b & -> & Hpos & Hl & Hlive & Hraw)]; [lia|].
    destruct (Hcells1 b 0%nat eq_refl) as [Hys1 Hkeep1].
    assert (Hresult : (ys1 ++ drop m xs, false, w1) = (ys, ok, w)) by exact Hspec.
    injection Hresult as <- <- <-.
    assert (Hsame_len : length (ys1 ++ drop m xs) = length xs).
    { rewrite length_app, length_drop. lia. }
    exists s1. split.
    { destruct (Z.of_nat (length rs) <? Z.of_nat (length xs)) eqn:Hcmp.
      - assert (Hm : m = length rs) by lia.
    replace (Z.of_nat (length rs)) with (Z.of_nat m) in * by lia.
        unfold bind at 1. unfold bind at 1. now rewrite Hrun1.
      - assert (Hm : m = length xs) by lia.
    replace (Z.of_nat (length xs)) with (Z.of_nat m) in * by lia.
        unfold bind at 1. unfold bind at 1. now rewrite Hrun1. }
    split; [|split; [|auto]].
    - apply (holds_rebuilt s s1 s1 this _ cap b _ Hl); auto.
      + apply full_block_length. exact Hle.
      + rewrite Hv1, Hv, Hsame_len. reflexivity.
      + rewrite Hsame_len. exact Hle.
      + intros k y Hy. destruct (decide (k < m)%nat) as [Hk|Hk].
        * rewrite lookup_app_l in Hy by lia. exact (Hys1 k y Hy).
        * rewrite lookup_app_r in Hy by lia. rewrite lookup_drop in Hy.
          rewrite Hkeep1 by lia. apply Hlive.
          now replace (m + (k - length ys1))%nat with k in Hy by lia.
      + intros k Hk. rewrite Hsame_len in Hk. rewrite Hkeep1 by lia. now apply Hraw.
    - apply (holds_kept s s1 s1 rhs rs rcap (at_ b 0)); auto. }
  destruct (Z.of_nat (length rs) <? Z.of_nat (length xs)) eqn:Hcmp.
  - (* the source is smaller: destroy the trailing elements *)
    apply Z.ltb_lt in Hcmp.
    replace (length rs <? length xs)%nat with true in Hspec
      by (symmetry; apply Nat.ltb_lt; lia).
    injection Hspec as <- <- <-.
    destruct Hbuf as [[_ ->]|(b & -> & Hpos & Hl & Hlive & Hraw)]; [lia|].
    destruct (Hcells1 b 0%nat eq_refl) as [Hys1 Hkeep1].
    assert (Hm : m = length rs) by lia.
    replace (Z.of_nat (length rs)) with (Z.of_nat m) in * by lia.
    unfold bind at 1. unfold bind at 1. rewrite Hrun1.
    rewrite ptr_add_at_nat. simpl (0 + _)%nat.
    rewrite wrap_small by lia.
    destruct (destroy_n_exact s1 (at_ b m) (drop m xs))
      as (s2 & Hrun2 & Hfr2 & Hw2 & _ & Hcells2).
    { right. exists b, m. split; [reflexivity|]. intros k v Hv'.
      rewrite lookup_drop in Hv'. rewrite Hkeep1 by lia. now apply Hlive. }
    rewrite length_drop in Hrun2, Hcells2.
    replace (Z.of_nat (length xs - m)) with (Z.of_nat (length xs) - Z.of_nat m)
      in Hrun2 by lia.
    rewrite Hrun2. specialize (Hcells2 b m eq_refl).
    assert (Hv2 : vecs s2 !! this =
              Some {| data_ := {| buffer_ := at_ b 0; capacity_ := cap |};
                      size_ := Z.of_nat (length xs) |}).
    { destruct Hfr2 as [_ ->]. now rewrite Hv1. }
    rewrite (set_size_eq _ _ _ _ Hv2). simpl data_.
    eexists. split; [reflexivity|]. split; [|split; [|split; auto]].
    + apply (holds_rebuilt s s2 _ this ys1 cap b _ Hl); auto.
      * apply full_block_length. exact Hle.
      * etransitivity; eauto.
      * simpl. rewrite lookup_insert_eq. do 3 f_equal. lia.
      * lia.
      * intros k y Hy. apply lookup_lt_Some in Hy as Hk.
        rewrite Hcells2, decide_False by lia. exact (Hys1 k y Hy).
      * intros k Hk. rewrite Hcells2. case_decide; [reflexivity|].
        rewrite Hkeep1 by lia. apply Hraw. lia.
    + apply (holds_kept s s2 _ rhs rs rcap (at_ b 0)); auto.
      * etransitivity; eauto.
      * simpl. rewrite lookup_insert_ne by congruence.
        destruct Hfr2 as [_ ->]. exact Hr1.
      * intros c k Hc. rewrite Hcells2, decide_False.
        -- now apply Hout1.
        -- intros [-> _]. now apply Hc.
    + simpl. rewrite Hw2. now rewrite Hw1.
  - (* the source is not smaller: copy-construct the extra elements *)
    apply Z.ltb_ge in Hcmp.
    replace (length rs <? length xs)%nat with false in Hspec
      by (symmetry; apply Nat.ltb_ge; lia).
    assert (Hm : m = length xs) by lia.
    replace (Z.of_nat (length xs)) with (Z.of_nat m) in * by lia.
    unfold bind at 1. unfold bind at 1. rewrite Hrun1.
    rewrite wrap_small by lia.
    destruct (spec_construct_tail (drop m rs) w1) as [[zs ok2] w2] eqn:Htail.
    destruct (uninitialized_copy_n_exact s1 (ptr_add rbuf (Z.of_nat m))
                (ptr_add buf (Z.of_nat m)) (drop m rs))
      with (zs := zs) (ok := ok2) (w := w2)
      as (s2 & Hrun2 & Hfr2 & Hempty2 & Hres2).
    { destruct (decide (length rs = m)) as [Hrm|Hrm].
      { left. apply nil_length_inv. rewrite length_drop. lia. }
      right.
      destruct Hbuf as [[_ ->]|(b & -> & _ & _ & Hlive & Hraw)]; [lia|].
      destruct Hrbuf as [[_ ->]|(br & -> & _ & _ & Hrlive & _)]; [lia|].
      exists br, m, b, m. rewrite !ptr_add_at_nat.
      split; [reflexivity|]. split; [reflexivity|].
      assert (Hbr : br <> b) by (destruct Hsep as [Hs|Hs]; [discriminate|congruence]).
      split; [exact Hbr|]. split.
      - intros k v Hv'. rewrite lookup_drop in Hv'.
        rewrite Hout1 by (simpl; congruence). now apply Hrlive.
      - intros k Hk. rewrite length_drop in Hk.
        destruct (decide (m = 0%nat)) as [Hm0|Hm0].
        + destruct Hempty1 as [-> _]; [now rewrite Hm0|]. apply Hraw. lia.
        + destruct (Hcells1 b 0%nat eq_refl) as [_ Hkeep1].
          rewrite Hkeep1 by lia. apply Hraw. lia. }
    { rewrite Hw1. exact Htail. }
    rewrite length_drop in Hrun2, Hres2.
    replace (Z.of_nat (length rs - m)) with (Z.of_nat (length rs) - Z.of_nat m)
      in Hrun2 by lia.
    rewrite Hrun2.
    assert (Hv2 : vecs s2 !! this =
              Some {| data_ := {| buffer_ := buf; capacity_ := cap |};
                      size_ := Z.of_nat m |}).
    { destruct Hfr2 as [_ ->]. now rewrite Hv1. }
    destruct ok2.
    + (* completed: the size is set last *)
      injection Hspec as <- <- <-.
      destruct Hres2 as (Hw2 & Hlen2 & Hcells2).
      rewrite (set_size_eq _ _ _ _ Hv2). simpl data_.
      eexists. split; [reflexivity|].
      split; [|split; [|split; [exact Hw2|auto]]].
      * destruct Hbuf as [[-> Hcap]|(b & -> & Hpos & Hl & Hlive & Hraw)].
        -- (* no block at all: both vectors are empty *)
           assert (Hrs : rs = []) by (apply nil_length_inv; lia).
           assert (Hxs : xs = []) by (apply nil_length_inv; lia).
           assert (Hys1 : ys1 = []) by (apply nil_length_inv; lia).
           assert (Hzs : zs = []).
           { apply nil_length_inv. rewrite Hlen2, Hrs. reflexivity. }
           subst rs xs ys1 zs cap. simpl.
           eexists. split; [simpl; apply lookup_insert_eq|]. simpl.
           split; [reflexivity|]. split; [reflexivity|].
           split; [reflexivity|]. split; [discriminate|]. simpl. auto.
        -- destruct (decide (length rs = m)) as [Hrm|Hrm].
           ++ (* nothing to construct *)
              assert (Hdrop : drop m rs = []).
              { apply nil_length_inv. rewrite length_drop. lia. }
              destruct (Hempty2 Hdrop) as (-> & _ & ->). rewrite app_nil_r.
              apply (holds_rebuilt s s1 _ this ys1 cap b _ Hl); auto.
              ** apply full_block_length. exact Hle.
              ** simpl. rewrite lookup_insert_eq. do 3 f_equal. lia.
              ** lia.
              ** intros k y Hy. destruct (decide (m = 0%nat)) as [Hm0|Hm0].
                 --- apply lookup_lt_Some in Hy. lia.
                 --- destruct (Hcells1 b 0%nat eq_refl) as [Hys1 _].
                     exact (Hys1 k y Hy).
              ** intros k Hk. destruct (decide (m = 0%nat)) as [Hm0|Hm0].
                 --- destruct Hempty1 as [-> _]; [now rewrite Hm0|]. apply Hraw. lia.
                 --- destruct (Hcells1 b 0%nat eq_refl) as [_ Hkeep1].
                     rewrite Hkeep1 by lia. apply Hraw. lia.
           ++ rewrite ptr_add_at_nat in Hcells2. simpl (0 + _)%nat in Hcells2.
              destruct (Hcells2 b m eq_refl) as [Hzs Hkeep2].
              apply (holds_rebuilt s s2 _ this (ys1 ++ zs) cap b _ Hl); auto.
              ** apply full_block_length. exact Hle.
              ** etransitivity; eauto.
              ** simpl. rewrite lookup_insert_eq. do 3 f_equal.
                 rewrite length_app. lia.
              ** rewrite length_app. lia.
              ** intros k y Hy. destruct (decide (k < m)%nat) as [Hk|Hk].
                 --- rewrite lookup_app_l in Hy by lia. rewrite Hkeep2 by lia.
                     destruct (decide (m = 0%nat)) as [Hm0|Hm0]; [lia|].
                     destruct (Hcells1 b 0%nat eq_refl) as [Hys1 _].
                     exact (Hys1 k y Hy).
                 --- rewrite lookup_app_r in Hy by lia.
                     replace k with (m + (k - length ys1))%nat by lia.
                     now apply Hzs.
              ** intros k Hk. rewrite length_app in Hk. rewrite Hkeep2 by lia.
                 destruct (decide (m = 0%nat)) as [Hm0|Hm0].
                 --- destruct Hempty1 as [-> _]; [now rewrite Hm0|]. apply Hraw. lia.
                 --- destruct (Hcells1 b 0%nat eq_refl) as [_ Hkeep1].
                     rewrite Hkeep1 by lia. apply Hraw. lia.
      * apply (holds_kept s s2 _ rhs rs rcap buf); auto.
        -- etransitivity; eauto.
        -- simpl. rewrite lookup_insert_ne by congruence.
           destruct Hfr2 as [_ ->]. exact Hr1.
        -- intros c k Hc. destruct (decide (length rs = m)) as [Hrm|Hrm].
           ++ assert (Hdrop : drop m rs = []).
              { apply nil_length_inv. rewrite length_drop. lia. }
              destruct (Hempty2 Hdrop) as (-> & _). now apply Hout1.
           ++ destruct Hbuf as [[_ ->]|(b & -> & _)]; [lia|].
              rewrite ptr_add_at_nat in Hcells2.
              destruct (Hcells2 b (0 + m)%nat eq_refl) as [_ Hkeep2].
              rewrite Hkeep2 by (intros [-> _]; now apply Hc). now apply Hout1.
    + (* a construction threw: the prefix stays assigned, the size as it was *)
      injection Hspec as <- <- <-.
      destruct Hres2 as (Hw2 & Hcells2).
      assert (Hrm : length rs <> m).
      { intros Hrm. assert (Hdrop : drop m rs = []).
        { apply nil_length_inv. rewrite length_drop. lia. }
        destruct (Hempty2 Hdrop) as (_ & Hok & _). discriminate. }
      destruct Hbuf as [[_ ->]|(b & -> & Hpos & Hl & Hlive & Hraw)]; [lia|].
      exists s2. split; [reflexivity|]. split; [|split; [|split; auto]].
      * apply (holds_rebuilt s s2 s2 this ys1 cap b _ Hl); auto.
        -- apply full_block_length. exact Hle.
        -- etransitivity; eauto.
        -- rewrite Hv2. do 3 f_equal. lia.
        -- lia.
        -- intros k y Hy. rewrite Hcells2.
           destruct (decide (m = 0%nat)) as [Hm0|Hm0].
           ++ apply lookup_lt_Some in Hy. lia.
           ++ destruct (Hcells1 b 0%nat eq_refl) as [Hys1 _]. exact (Hys1 k y Hy).
        -- intros k Hk. rewrite Hcells2.
           destruct (decide (m = 0%nat)) as [Hm0|Hm0].
           ++ destruct Hempty1 as [-> _]; [now rewrite Hm0|]. apply Hraw. lia.
           ++ destruct (Hcells1 b 0%nat eq_refl) as [_ Hkeep1].
              rewrite Hkeep1 by lia. apply Hraw. lia.
      * apply (holds_kept s s2 s2 rhs rs rcap (at_ b 0)); auto.
        -- etransitivity; eauto.
        -- destruct Hfr2 as [_ ->]. exact Hr1.
        -- intros c k Hc. rewrite Hcells2. now apply Hout1.
Qed.

End CopyAssign.

Module CopyAssignWitnesses.
Import Samples.

Ltac holds_by_computation v :=
  exists v; split; [reflexivity|];
  split; [reflexivity|]; split; [reflexivity|];
  split; [reflexivity|]; split; [discriminate|]; simpl;
  split; [reflexivity|]; split; reflexivity.

Lemma two_vectors_hold :
  holds two_vectors 0%nat [1; 2; 3] 4 /\ holds two_vectors 1%nat [7; 13] 2.
Proof.
  split.
  - holds_by_computation (vec (Some 0%nat) 4 3).
  - holds_by_computation (vec (Some 1%nat) 2 2).
Qed.

Lemma short_and_long_hold :
  holds short_and_long 0%nat [1] 4 /\ holds short_and_long 1%nat [7; 8] 2.
Proof.
  split.
  - holds_by_computation (vec (Some 0%nat) 4 1).
  - holds_by_computation (vec (Some 1%nat) 2 2).
Qed.

Lemma sample_states_separate :
  separate two_vectors 0%nat 1%nat /\ separate short_and_long 0%nat 1%nat.
Proof.
  split; intros v r Hv Hr; vm_compute in Hv, Hr;
    injection Hv as <-; injection Hr as <-; right; discriminate.
Qed.

(** Assigning [7; 13] over [1; 2; 3]: the first assignment succeeds, the
    second throws, and the vector is left holding [7; 2; 3].  Assigning
    [7; 8] over [1] with capacity 4: one assignment, one construction. *)
Lemma copy_assign_in_place_follows_the_specification_witness :
  (exists s', @Vector_copy_assign Fragile 0%nat 1%nat two_vectors
                = Throw ElementException s' /\
     elements s' 0%nat = Some [7; 2; 3] /\ elements s' 1%nat = Some [7; 13]) /\
  (exists s', @Vector_copy_assign Plain 0%nat 1%nat short_and_long = Normal tt s' /\
     elements s' 0%nat = Some [7; 8] /\ elements s' 1%nat = Some [7; 8] /\
     Capacity 0%nat s' = Normal 4 s').
Proof.
  split.
  - destruct (@copy_assign_in_place_follows_the_specification Fragile
                two_vectors 0%nat 1%nat [1; 2; 3] [7; 13] 4 2 [7; 2; 3] false tt)
      as (s' & Hrun & Hthis & Hrhs & _).
    + discriminate.
    + exact (proj1 two_vectors_hold).
    + exact (proj2 two_vectors_hold).
    + exact (proj1 sample_states_separate).
    + simpl. lia.
    + reflexivity.
    + exists s'. split; [exact Hrun|]. split.
      * exact (holds_elements _ _ _ _ Hthis).
      * exact (holds_elements _ _ _ _ Hrhs).
  - destruct (@copy_assign_in_place_follows_the_specification Plain
                short_and_long 0%nat 1%nat [1] [7; 8] 4 2 [7; 8] true tt)
      as (s' & Hrun & Hthis & Hrhs & _).
    + discriminate.
    + exact (proj1 short_and_long_hold).
    + exact (proj2 short_and_long_hold).
    + exact (proj2 sample_states_separate).
    + simpl. lia.
    + reflexivity.
    + exists s'. split; [exact Hrun|]. split; [|split].
      * exact (holds_elements _ _ _ _ Hthis).
      * exact (holds_elements _ _ _ _ Hrhs).
      * destruct Hthis as (v & Hv & _ & Hcap & _).
        rewrite (Capacity_eq _ _ _ Hv), Hcap. reflexivity.
Defined.

End CopyAssignWitnesses.

(** * Blocks: release, adoption, and lists read off cells *)

Section Blocks.
Context `{E : ElemType}.

Lemma bind_bind_normal {A B C} (m : M A) (k1 : A -> M B) (k2 : B -> M C) s a s1 :
  m s = Normal a s1 -> bind (bind m k1) k2 s = bind (k1 a) k2 s1.
Proof. intros H. unfold bind. now rewrite H. Qed.

Lemma bind_cong {A B} (m1 m2 : M A) (k1 k2 : A -> M B) s :
  m1 s = m2 s -> (forall a s', m2 s = Normal a s' -> k1 a s' = k2 a s') ->
  bind m1 k1 s = bind m2 k2 s.
Proof.
  intros Hm Hk. unfold bind. rewrite Hm.
  destruct (m2 s) as [a s'| | |]; auto.
Qed.

Lemma on_throw_cong {A} (m1 m2 : M A) h s :
  m1 s = m2 s -> on_throw m1 h s = on_throw m2 h s.
Proof. intros Hm. unfold on_throw. now rewrite Hm. Qed.

Lemma bind_nothing (m : M unit) (k : unit -> M unit) s :
  (forall s', k tt s' = Normal tt s') -> bind m k s = m s.
Proof.
  intros Hk. unfold bind. destruct (m s) as [[] s'| | |]; auto.
Qed.

Lemma RawMemory_dtor_block (s : state) b c l :
  heap s !! b = Some l ->
  RawMemory_dtor {| buffer_ := at_ b 0; capacity_ := c |} s =
  Normal tt (set_heap (delete b (heap s)) s).
Proof.
  intros Hl. unfold RawMemory_dtor, Deallocate, operator_delete. simpl.
  now rewrite Hl.
Qed.

(** Two states of one frame that agree outside the block [b] have the same
    heap once [b] is released. *)
Lemma delete_block_same (s s' : state) b :
  same_frame s s' -> (forall c k, c <> b -> cell s' c k = cell s c k) ->
  delete b (heap s') = delete b (heap s).
Proof.
  intros Hfr Hcells. apply map_eq. intros c.
  destruct (decide (c = b)) as [->|Hne].
  - now rewrite !lookup_delete_eq.
  - rewrite !lookup_delete_ne by congruence.
    apply block_unchanged; [exact Hfr|]. intros k. now apply Hcells.
Qed.

(** Releasing a block that was allocated fresh and is raw again gives the
    heap back. *)
Lemma release_fresh_block (s s1 : state) b' (n : nat) :
  heap s !! b' = None ->
  same_frame (set_heap (<[b' := replicate n None]> (heap s)) s) s1 ->
  (forall c k, c <> b' -> cell s1 c k = cell s c k) ->
  exists l1, heap s1 !! b' = Some l1 /\ delete b' (heap s1) = heap s.
Proof.
  intros Hfresh Hfr Hcells.
  set (s0 := set_heap (<[b' := replicate n None]> (heap s)) s) in *.
  assert (Hb0 : heap s0 !! b' = Some (replicate n None)).
  { subst s0. simpl. apply lookup_insert_eq. }
  destruct (same_frame_block s0 s1 b' _ Hfr Hb0) as (l1 & Hl1 & _).
  exists l1. split; [exact Hl1|].
  rewrite (delete_block_same s0 s1 b' Hfr).
  - subst s0. simpl. now apply delete_insert_id.
  - intros c k Hc. rewrite Hcells by exact Hc. subst s0.
    rewrite cell_fresh_block. now rewrite decide_False by exact Hc.
Qed.

(** [adopt] on a vector whose block, if it has one, is allocated. *)
Lemma adopt_spec (s : state) (this : nat) buf cap n (rm : RawMemory) :
  vecs s !! this = Some {| data_ := {| buffer_ := buf; capacity_ := cap |}; size_ := n |} ->
  (buf = nullptr \/ exists b, buf = at_ b 0 /\ is_Some (heap s !! b)) ->
  adopt this rm s =
  Normal tt {| heap := match blk buf with
                       | Some b => delete b (heap s)
                       | None => heap s
                       end;
               vecs := <[this := {| data_ := {| buffer_ := buffer_ rm;
                                                capacity_ := capacity_ rm |};
                                    size_ := n |}]> (vecs s);
               world := world s |}.
Proof.
  intros Hv Hbuf. unfold adopt.
  rewrite (bind_normal _ _ _ _ _ (get_data_eq _ _ _ Hv)).
  cbn [data_ size_ buffer_ capacity_ RawMemory_Swap].
  rewrite (bind_normal _ _ _ _ _ (set_data_eq _ _ _ _ Hv)).
  cbn [data_ size_ buffer_ capacity_].
  destruct Hbuf as [->|(b & -> & [l Hl])].
  - reflexivity.
  - erewrite RawMemory_dtor_block by (simpl; exact Hl). reflexivity.
Qed.

(** The list of the live elements in the first [n] cells of a block. *)
Lemma collect_cells (f : nat -> option (option T)) (P : T -> Prop) (n : nat) :
  (forall k, (k < n)%nat -> exists x, f k = Some (Some x) /\ P x) ->
  exists xs, length xs = n /\
    (forall k x, xs !! k = Some x -> f k = Some (Some x)) /\ Forall P xs.
Proof.
  induction n as [|n IH]; intros H.
  - exists []. split; [reflexivity|]. split; [intros k x Hx; discriminate|constructor].
  - destruct IH as (xs & Hlen & Hxs & HP); [intros k Hk; apply H; lia|].
    destruct (H n) as (x & Hx & Px); [lia|].
    exists (xs ++ [x]). split; [rewrite length_app; simpl; lia|]. split.
    + intros k y Hy. destruct (decide (k < n)%nat) as [Hk|Hk].
      * rewrite lookup_app_l in Hy by lia. now apply Hxs.
      * rewrite lookup_app_r in Hy by lia. rewrite Hlen in Hy.
        destruct (k - n)%nat as [|j] eqn:Hj; [|destruct j; discriminate].
        injection Hy as <-. now replace k with n by lia.
    + apply Forall_app. split; [exact HP|]. constructor; [exact Px|constructor].
Qed.

End Blocks.

(** * The strong guarantee of a growing EmplaceBack *)

Section EmplaceBackGuarantee.
Context `{E : ElemType}.

(** C1, amended.  An exception that leaves a growing [EmplaceBack] (size
    equal to capacity) of a valid vector leaves the object as it was, with
    its size, capacity and buffer, and the heap with the blocks it had: the
    new block has been released.  This holds for every element type.
    When the allocation throws, nothing has happened.  When the
    constructor of the new element throws, nothing but that constructor
    has run, so no element was transferred before it, and the heap is
    as before.  When the constructor succeeds and the transfer throws, the
    new element has been destroyed and the vector still has as many live
    elements as before; they are the elements it had, with the heap as
    before, when the elements are transferred by copy or by a move that
    does not throw. *)
Theorem EmplaceBack_growing_strong_guarantee
    (s s' : state) (this : nat) (xs : list T) (args : Args) (e : exn) :
  holds s this xs (Z.of_nat (length xs)) ->
  EmplaceBack this args s = Throw e s' ->
  vecs s' = vecs s /\ shape s' = shape s /\
  ((e = BadAlloc /\ world s' = world s /\ heap s' = heap s) \/
   match construct args (world s) with
   | (None, w) => e = ElementException /\ world s' = w /\ heap s' = heap s
   | (Some x, w) =>
       (exists w', world s' = destroy x w') /\
       (exists ys, length ys = length xs /\
                   holds s' this ys (Z.of_nat (length xs))) /\
       (transfer_cannot_throw_by_move -> heap s' = heap s)
   end).
Proof.
  intros Hholds H.
  apply holds_inv in Hholds as (buf & Hv & Hle & Hcap0 & Hfit & Hbuf).
  pose proof (capacity_small _ Hcap0 Hfit) as Hsmall.
  assert (Hmod : SIZE_MODULUS = 2 ^ 64) by reflexivity.
  unfold EmplaceBack in H.
  rewrite (bind_normal _ _ _ _ _ (get_size_eq _ _ _ Hv)) in H.
  rewrite (bind_normal _ _ _ _ _ (Capacity_eq _ _ _ Hv)) in H.
  cbn [data_ size_ buffer_ capacity_] in H.
  rewrite Z.eqb_refl in H.
  set (n := Z.of_nat (length xs)) in *.
  set (c := Z.max 1 (2 * n)).
  assert (Hc : (if n =? 0 then 1 else wrap (n * 2)) = c).
  { subst c. destruct (n =? 0) eqn:H0.
    - apply Z.eqb_eq in H0. lia.
    - apply Z.eqb_neq in H0. rewrite wrap_small by lia. lia. }
  rewrite Hc in H.
  assert (Hcfit : c * sizeof_T < SIZE_MODULUS).
  { pose proof sizeof_T_range as [Hpos Hlt]. unfold PTRDIFF_MAX in Hfit.
    subst c. destruct (Z.max_spec 1 (2 * n)) as [[_ ->]|[_ ->]]; nia. }
  apply bind_throw_inv in H as [H|([] & s1 & _ & H)]; cycle 1.
  { exfalso. revert H. apply no_throw_bind; [apply no_throw_set_size|intros _].
    apply no_throw_bind; [apply no_throw_end|intros ?; apply no_throw_ret]. }
  apply bind_throw_inv in H as [H|(rm & s0 & Hctor & H)].
  { apply RawMemory_ctor_throw_inv in H as [-> ->].
    split; [reflexivity|]. split; [reflexivity|]. left. auto. }
  pose proof (RawMemory_ctor_spec s c ltac:(subst c; lia) Hcfit) as Hspec.
  rewrite Hctor in Hspec. destruct Hspec as (b' & -> & Hfresh & -> & _).
  set (s0 := set_heap _ s) in *.
  unfold GetAddress in H. cbn [buffer_] in H.
  apply bind_throw_inv in H as [H|([] & s2 & _ & H)]; cycle 1.
  { exfalso. revert H. apply no_throw_bind; [apply no_throw_begin|intros b].
    apply no_throw_bind; [apply no_throw_destroy_n|intros _; apply no_throw_adopt]. }
  apply on_throw_throw_inv in H as (e0 & s2 & Hbody & [[Hdtor ->]|Hdtor]); cycle 1.
  { now apply no_throw_operator_delete in Hdtor. }
  change (ptr_add (at_ b' 0) n) with (at_ b' (length xs)) in Hbody.
  assert (Hs0 : forall d k, cell s0 d k =
            if decide (d = b')
            then (if decide (k < Z.to_nat c)%nat then Some None else None)
            else cell s d k).
  { intros d k. subst s0. apply cell_fresh_block. }
  assert (Hb0 : heap s0 !! b' = Some (replicate (Z.to_nat c) None)).
  { subst s0. simpl. apply lookup_insert_eq. }
  assert (Hp : cell s0 b' (length xs) = Some None).
  { rewrite Hs0, decide_True by reflexivity. apply decide_True. subst c n. lia. }
  (* what the release of the new block leaves *)
  assert (Hrelease : forall s3, same_frame s0 s3 ->
            RawMemory_dtor {| buffer_ := at_ b' 0; capacity_ := c |} s3 = Normal tt s' ->
            vecs s' = vecs s /\ shape s' = shape s /\ world s' = world s3 /\
            (forall d k, d <> b' -> cell s' d k = cell s3 d k) /\
            ((forall d k, d <> b' -> cell s3 d k = cell s d k) -> heap s' = heap s)).
  { intros s3 Hfr Hd.
    destruct (same_frame_block s0 s3 b' _ Hfr Hb0) as (l3 & Hl3 & _).
    rewrite (RawMemory_dtor_block s3 b' c l3 Hl3) in Hd. injection Hd as <-. simpl.
    split; [now destruct Hfr as [_ ->]|]. split; [|split; [reflexivity|split]].
    - unfold shape. simpl. rewrite fmap_delete.
      destruct Hfr as [Hshape _]. unfold shape in Hshape. rewrite Hshape.
      subst s0. simpl. rewrite fmap_insert. apply delete_insert_id.
      now rewrite lookup_fmap, Hfresh.
    - intros d k Hd. unfold cell. simpl. now rewrite lookup_delete_ne by congruence.
    - intros Hcells.
      destruct (release_fresh_block s s3 b' (Z.to_nat c) Hfresh Hfr Hcells)
        as (l & _ & Hheap).
      exact Hheap. }
  apply bind_throw_inv in Hbody as [Hnew|([] & s3 & Hnew & Hrest)].
  - (* the constructor of the new element throws *)
    apply emplace_at_throw_inv in Hnew as (w & Hcons & -> & ->).
    change (world s0) with (world s) in Hcons.
    destruct (Hrelease (set_world w s0)) as (Hvs & Hsh & Hw & _ & Hheap);
      [apply same_frame_set_world|exact Hdtor|].
    split; [exact Hvs|]. split; [exact Hsh|]. right. rewrite Hcons.
    split; [reflexivity|]. split; [exact Hw|].
    apply Hheap. intros d k Hd. rewrite cell_set_world, Hs0.
    now rewrite decide_False by exact Hd.
  - (* the transfer of the existing elements throws *)
    apply emplace_at_normal_inv in Hnew as (x & w & o & Hcons & _ & ->).
    change (world s0) with (world s) in Hcons.
    set (s3 := set_slot (at_ b' (length xs)) (Some x) (set_world w s0)) in *.
    assert (Hs3 : forall d k, cell s3 d k =
              if decide (d = b' /\ k = length xs) then Some (Some x) else cell s0 d k).
    { intros d k. subst s3. rewrite cell_set_slot; [now rewrite cell_set_world|].
      rewrite cell_set_world, Hp. eauto. }
    assert (Hfr3 : same_frame s0 s3).
    { subst s3. etransitivity; [apply same_frame_set_world|apply same_frame_set_slot]. }
    assert (Hv3 : vecs s3 !! this =
              Some {| data_ := {| buffer_ := buf; capacity_ := n |}; size_ := n |}).
    { destruct Hfr3 as [_ ->]. exact Hv. }
    rewrite (bind_normal _ _ _ _ _ (begin_eq _ _ _ Hv3)) in Hrest.
    cbn [data_ size_ buffer_ capacity_] in Hrest.
    apply on_throw_throw_inv in Hrest as (e1 & s4 & Hinit & [[Hdes ->]|Hdes]); cycle 1.
    { now apply no_throw_destroy_at in Hdes. }
    destruct Hbuf as [[-> Hn0]|(b & -> & Hpos & Hl & Hlive & _)].
    { (* no element to transfer *)
      exfalso. unfold InitializeRawMemory, uninitialized_move_n, uninitialized_copy_n in Hinit.
      rewrite Hn0 in Hinit. simpl in Hinit. now destruct (_ || _). }
    assert (Hne : b <> b') by (intros ->; congruence).
    (* what the failed transfer leaves *)
    assert (Hleft : same_frame s3 s4 /\
              cell s4 b' (length xs) = Some (Some x) /\
              (forall k, (k < length xs)%nat -> exists v', cell s4 b k = Some (Some v')) /\
              (forall d k, d <> b' -> d <> b -> cell s4 d k = cell s3 d k) /\
              (forall k, (length xs <= k)%nat -> cell s4 b k = cell s3 b k) /\
              (transfer_cannot_throw_by_move ->
               forall d k, d <> b' -> cell s4 d k = cell s3 d k)).
    { destruct InitializeRawMemory_transfer as (step & Hstep & Heq).
      pose proof (uninitialized_loop_spec step b b' 0 0 Hstep Hne xs 0%nat s3) as Hloop.
      pose proof Hinit as Hinit0.
      rewrite Heq in Hinit. subst n. rewrite Nat2Z.id in Hinit.
      change (Z.of_nat 0) with 0 in Hloop. rewrite Hinit in Hloop.
      destruct Hloop as (Hfr4 & _ & Hsrc4 & Hout4).
      { intros k v Hk. simpl. rewrite Hs3, decide_False by (intros [? _]; congruence).
        rewrite Hs0, decide_False by exact Hne. now apply Hlive. }
      { intros k Hk. simpl. rewrite Hs3, decide_False by lia.
        rewrite Hs0, decide_True by reflexivity. apply decide_True. subst c. lia. }
      { intros k Hk. lia. }
      simpl in Hsrc4, Hout4.
      split; [exact Hfr4|]. split; [|split; [exact Hsrc4|split; [|split]]].
      - rewrite Hout4 by lia. rewrite Hs3. now apply decide_True.
      - intros d k Hd Hd'. apply Hout4; intros [? _]; congruence.
      - intros k Hk. apply Hout4; [intros [? _]; congruence|lia].
      - intros Hsafe d k Hd. revert Hinit0. unfold InitializeRawMemory.
        destruct (is_nothrow_move_constructible || negb is_copy_constructible) eqn:Hmode.
        + intros Hinit0. exfalso. revert Hinit0.
          unfold uninitialized_move_n. apply no_throw_uninitialized_loop.
          intros ? ?. apply no_throw_move_construct_at. now apply Hsafe.
        + unfold uninitialized_copy_n. rewrite Nat2Z.id. intros Hinit0.
          apply (frame_of_thrown (block_frame b' (length xs))) in Hinit0; cycle 1.
          { apply frame_uninitialized_copy_loop; lia. }
          destruct Hinit0 as (_ & Hother & _). unfold cell. now rewrite Hother. }
    destruct Hleft as (Hfr4 & Hnew4 & Hsrc4 & Hother4 & Htail4 & Hsafe4).
    rewrite (destroy_at_cell _ _ _ _ Hnew4) in Hdes. injection Hdes as <-.
    set (s5 := set_slot _ None _) in *.
    assert (Hs5 : forall d k, d <> b' -> cell s5 d k = cell s4 d k).
    { intros d k Hd. subst s5. rewrite cell_set_slot.
      - rewrite decide_False by (intros [? _]; congruence). apply cell_set_world.
      - rewrite cell_set_world, Hnew4. eauto. }
    destruct (Hrelease s5) as (Hvs & Hsh & Hw & Hcells & Hheap); [|exact Hdtor|].
    { etransitivity; [exact Hfr3|]. etransitivity; [exact Hfr4|]. subst s5.
      etransitivity; [apply same_frame_set_world|apply same_frame_set_slot]. }
    split; [exact Hvs|]. split; [exact Hsh|]. right. rewrite Hcons.
    split; [|split].
    + eexists. rewrite Hw. subst s5. rewrite set_slot_world. reflexivity.
    + destruct (collect_cells (cell s' b) (fun _ => True) (length xs))
        as (ys & Hlen & Hys & _).
      { intros k Hk. destruct (Hsrc4 k Hk) as [v' Hv'].
        exists v'. split; [|exact I]. now rewrite Hcells, Hs5 by exact Hne. }
      exists ys. split; [exact Hlen|].
      destruct (same_frame_block s s' b _ (conj Hsh Hvs) Hl) as (l' & Hl' & Hlen' & _).
      apply (holds_intro s' this ys n b l').
      * rewrite Hvs, Hlen. exact Hv.
      * exact Hpos.
      * exact Hfit.
      * exact Hl'.
      * rewrite Hlen', length_app, length_fmap, length_replicate. lia.
      * subst n. lia.
      * exact Hys.
      * intros k Hk. subst n. lia.
    + intros Hsafe. apply Hheap. intros d k Hd.
      rewrite Hs5, (Hsafe4 Hsafe), Hs3 by exact Hd.
      rewrite decide_False by (intros [? _]; congruence).
      rewrite Hs0. now rewrite decide_False by exact Hd.
Qed.

End EmplaceBackGuarantee.

Module EmplaceBackWitnesses.
Import Samples.

(** With a copyable type whose move may throw, the elements are copied:
    copying the second element throws, and the vector is as before.  With
    any type, a constructor of the new element that throws leaves the
    vector as before. *)
Lemma EmplaceBack_growing_strong_guarantee_witness :
  (exists e s', @EmplaceBack Fragile 0%nat 7 (full_vector false true) = Throw e s' /\
     heap s' = heap (full_vector false true) /\
     vecs s' = vecs (full_vector false true)) /\
  (exists e s', @EmplaceBack MoveOnly 0%nat (-1) (full_vector false false) = Throw e s' /\
     heap s' = heap (full_vector false false) /\
     vecs s' = vecs (full_vector false false)).
Proof.
  split.
  - destruct (@EmplaceBack Fragile 0%nat 7 (full_vector false true))
      as [p s'|e s'| |] eqn:Hrun; try (vm_compute in Hrun; discriminate).
    exists e, s'. split; [reflexivity|].
    destruct (@EmplaceBack_growing_strong_guarantee Fragile
                (full_vector false true) s' 0%nat [5; 13] 7 e
                (PositionWitnesses.full_vector_holds false true) Hrun)
      as (Hv & _ & [(He & _)|H]).
    + exfalso. subst e. vm_compute in Hrun. discriminate.
    + simpl in H. destruct H as (_ & _ & Hh). split; [|exact Hv].
      apply Hh. intros Hmode. discriminate Hmode.
  - destruct (@EmplaceBack MoveOnly 0%nat (-1) (full_vector false false))
      as [p s'|e s'| |] eqn:Hrun; try (vm_compute in Hrun; discriminate).
    exists e, s'. split; [reflexivity|].
    destruct (@EmplaceBack_growing_strong_guarantee MoveOnly
                (full_vector false false) s' 0%nat [5; 13] (-1) e
                (PositionWitnesses.full_vector_holds false false) Hrun)
      as (Hv & _ & [(He & _)|H]).
    + exfalso. subst e. vm_compute in Hrun. discriminate.
    + simpl in H. destruct H as (_ & _ & Hh). split; [exact Hh|exact Hv].
Defined.

(** With a move-only type whose move may throw, the elements are moved:
    the first element has been moved from when moving the second throws,
    and the vector is left holding [0; 13] instead of [5; 13]. *)
Lemma EmplaceBack_move_only_loses_elements :
  exists e s', @EmplaceBack MoveOnly 0%nat 7 (full_vector false false) = Throw e s' /\
    elements (full_vector false false) 0%nat = Some [5; 13] /\
    elements s' 0%nat = Some [0; 13].
Proof.
  eexists _, _. split; [vm_compute; reflexivity|]. split; reflexivity.
Qed.

End EmplaceBackWitnesses.

(** * Construction and destruction *)

Section Lifecycle.
Context `{E : ElemType}.

(** [~Vector()] destroys the [size] live elements front to back and
    releases the block of the vector; no other block changes and the
    object is gone. *)
Lemma Vector_dtor_spec (s : state) (this : nat) (xs : list T) (cap : Z) :
  holds s this xs cap ->
  exists v s', vecs s !! this = Some v /\
    Vector_dtor this s = Normal tt s' /\
    vecs s' = delete this (vecs s) /\
    world s' = spec_destroy_all xs (world s) /\
    heap s' = match blk (buffer_ (data_ v)) with
              | Some b => delete b (heap s)
              | None => heap s
              end.
Proof.
  intros Hthis.
  apply holds_inv in Hthis as (buf & Hv & Hle & Hcap0 & Hfit & Hbuf).
  exists {| data_ := {| buffer_ := buf; capacity_ := cap |};
            size_ := Z.of_nat (length xs) |}.
  unfold Vector_dtor.
  rewrite (bind_normal _ _ _ _ _ (begin_eq _ _ _ Hv)).
  rewrite (bind_normal _ _ _ _ _ (get_size_eq _ _ _ Hv)).
  cbn [size_ data_ capacity_ buffer_].
  destruct (destroy_n_exact s buf xs) as (s1 & Hrun1 & Hfr1 & Hw1 & Hnil & Hcells1).
  { destruct Hbuf as [[-> ->]|(b & -> & _ & _ & Hlive & _)].
    - left. apply nil_length_inv. simpl in Hle. lia.
    - right. exists b, 0%nat. split; [reflexivity|]. exact Hlive. }
  rewrite (bind_normal _ _ _ _ _ Hrun1).
  assert (Hv1 : vecs s1 !! this =
            Some {| data_ := {| buffer_ := buf; capacity_ := cap |};
                    size_ := Z.of_nat (length xs) |}).
  { destruct Hfr1 as [_ ->]. exact Hv. }
  rewrite (bind_normal _ _ _ _ _ (get_data_eq _ _ _ Hv1)).
  cbn [size_ data_ capacity_ buffer_].
  destruct Hbuf as [[-> ->]|(b & -> & _ & Hl & _)].
  - assert (Hxs : xs = []) by (apply nil_length_inv; simpl in Hle; lia).
    rewrite (Hnil Hxs) in *. subst xs.
    eexists. split; [exact Hv|]. split; [reflexivity|]. simpl. auto.
  - destruct (same_frame_block s s1 b _ Hfr1 Hl) as (l1 & Hl1 & _).
    rewrite (bind_normal _ _ _ _ _ (RawMemory_dtor_block s1 b cap l1 Hl1)).
    eexists. split; [exact Hv|]. split; [reflexivity|]. simpl.
    split; [now destruct Hfr1 as [_ ->]|]. split; [exact Hw1|].
    apply (delete_block_same s s1 b Hfr1). intros c k Hc.
    rewrite (Hcells1 b 0%nat eq_refl), decide_False; [reflexivity|].
    intros [-> _]. now apply Hc.
Qed.

(** [std::uninitialized_value_construct_n] on raw cells: all constructed, or
    all raw again. *)
Lemma value_construct_loop_spec first bd j0 :
  forall (count i : nat) (s : state),
    (forall k, (k < count)%nat -> cell s bd (j0 + i + k) = Some None) ->
    (forall k, (k < i)%nat -> exists x, cell s bd (j0 + k) = Some (Some x)) ->
    match uninitialized_loop (fun dst _ => value_construct_at dst) first (at_ bd j0)
            (Z.of_nat i) count s with
    | Normal _ s' =>
        same_frame s s' /\
        (forall k, (k < count)%nat ->
           exists x, cell s' bd (j0 + i + k) = Some (Some x) /\
                     exists w w', value_construct w = (Some x, w')) /\
        (forall c k, ~ (c = bd /\ (j0 + i <= k < j0 + i + count)%nat) ->
                     cell s' c k = cell s c k)
    | Throw e s' =>
        e = ElementException /\ same_frame s s' /\
        (forall k, (k < i + count)%nat -> cell s' bd (j0 + k) = Some None) /\
        (forall c k, ~ (c = bd /\ (j0 <= k < j0 + i + count)%nat) ->
                     cell s' c k = cell s c k)
    | _ => False
    end.
Proof.
  induction count as [|count IH]; intros i s Hraw Hdone; simpl.
  - split; [reflexivity|]. split; [intros k Hk; lia|reflexivity].
  - rewrite !ptr_add_at_nat.
    assert (Hd : cell s bd (j0 + i) = Some None).
    { specialize (Hraw 0%nat ltac:(lia)). now rewrite Nat.add_0_r in Hraw. }
    unfold bind at 1. unfold on_throw at 1.
    unfold value_construct_at at 1. unfold bind at 1.
    unfold elem_value_construct at 1.
    destruct (value_construct (world s)) as [[x|] w] eqn:Hx.
    + (* this element is constructed *)
      rewrite (construct_at_cell _ bd (j0 + i) None x)
        by (rewrite cell_set_world; exact Hd).
      set (s1 := set_slot (at_ bd (j0 + i)) (Some x) (set_world w s)).
      assert (Hs1 : forall c k, cell s1 c k =
                if decide (c = bd /\ k = (j0 + i)%nat) then Some (Some x) else cell s c k).
      { intros c k. subst s1. rewrite cell_set_slot.
        - now rewrite cell_set_world.
        - rewrite cell_set_world, Hd. eauto. }
      assert (Hframe : same_frame s s1).
      { subst s1. etransitivity; [apply same_frame_set_world|apply same_frame_set_slot]. }
      replace (Z.of_nat i + 1) with (Z.of_nat (S i)) by lia.
      specialize (IH (S i) s1).
      destruct (uninitialized_loop (fun dst _ => value_construct_at dst) first (at_ bd j0)
                  (Z.of_nat (S i)) count s1) as [[] s'|e s'| |].
      * destruct IH as (Hfr & Hdst & Hrest).
        { intros k Hk. rewrite Hs1, decide_False by lia.
          replace (j0 + S i + k)%nat with (j0 + i + S k)%nat by lia. apply Hraw. lia. }
        { intros k Hk. rewrite Hs1. case_decide; [eauto|]. apply Hdone. lia. }
        split; [etransitivity; eauto|]. split.
        -- intros [|k] Hk.
           ++ exists x. rewrite Hrest by lia.
              rewrite Hs1, decide_True by (split; [auto|lia]). eauto.
           ++ destruct (Hdst k) as (y & Hy & Hy'); [lia|].
              exists y. replace (j0 + i + S k)%nat with (j0 + S i + k)%nat by lia. auto.
        -- intros c k Hk. rewrite Hrest by lia. rewrite Hs1, decide_False by lia.
           reflexivity.
      * destruct IH as (-> & Hfr & Hdst & Hrest).
        { intros k Hk. rewrite Hs1, decide_False by lia.
          replace (j0 + S i + k)%nat with (j0 + i + S k)%nat by lia. apply Hraw. lia. }
        { intros k Hk. rewrite Hs1. case_decide; [eauto|]. apply Hdone. lia. }
        split; [reflexivity|]. split; [etransitivity; eauto|]. split.
        -- intros k Hk. apply Hdst. lia.
        -- intros c k Hk. rewrite Hrest by lia. rewrite Hs1, decide_False by lia.
           reflexivity.
      * apply IH.
        { intros k Hk. rewrite Hs1, decide_False by lia.
          replace (j0 + S i + k)%nat with (j0 + i + S k)%nat by lia. apply Hraw. lia. }
        { intros k Hk. rewrite Hs1. case_decide; [eauto|]. apply Hdone. lia. }
      * apply IH.
        { intros k Hk. rewrite Hs1, decide_False by lia.
          replace (j0 + S i + k)%nat with (j0 + i + S k)%nat by lia. apply Hraw. lia. }
        { intros k Hk. rewrite Hs1. case_decide; [eauto|]. apply Hdone. lia. }
    + (* the constructor throws: the elements built so far are destroyed *)
      unfold destroy_n. rewrite Nat2Z.id.
      destruct (destroy_loop_spec bd i j0 (set_world w s)) as (s' & -> & Hfr & Hcells).
      { intros k Hk. rewrite cell_set_world.
        destruct (Hdone (k - j0)%nat) as [y Hy]; [lia|].
        exists y. now replace (j0 + (k - j0))%nat with k in Hy by lia. }
      split; [reflexivity|]. split.
      { etransitivity; [apply same_frame_set_world|exact Hfr]. }
      split.
      * intros k Hk. rewrite Hcells. case_decide; [reflexivity|].
        rewrite cell_set_world.
        replace (j0 + k)%nat with (j0 + i + (k - i))%nat by lia. apply Hraw. lia.
      * intros c k Hk. rewrite Hcells, decide_False by lia.
        now rewrite cell_set_world.
Qed.

(** [std::uninitialized_value_construct_n] on raw cells, with the elements
    [acc] already built: the constructors run in order as
    [spec_value_construct] says, and when one throws the elements built so
    far are destroyed front to back. *)
Lemma value_construct_loop_exact first bd i0 :
  forall (count : nat) (acc : list T) (s : state),
    (forall k, (k < count)%nat -> cell s bd (i0 + length acc + k) = Some None) ->
    (forall k a, acc !! k = Some a -> cell s bd (i0 + k) = Some (Some a)) ->
    forall zs ok w, spec_value_construct count (world s) = (zs, ok, w) ->
    exists s',
      uninitialized_loop (fun dst _ => value_construct_at dst) first (at_ bd i0)
        (Z.of_nat (length acc)) count s =
      (if ok then Normal tt else Throw ElementException) s' /\
      same_frame s s' /\
      (forall c k, ~ (c = bd /\ (i0 <= k < i0 + length acc + count)%nat) ->
                   cell s' c k = cell s c k) /\
      if ok then
        world s' = w /\ length zs = count /\
        (forall k z, zs !! k = Some z ->
                     cell s' bd (i0 + length acc + k) = Some (Some z)) /\
        (forall k, (k < length acc)%nat -> cell s' bd (i0 + k) = cell s bd (i0 + k))
      else
        world s' = spec_destroy_all (acc ++ zs) w /\ (length zs < count)%nat /\
        (forall k, (k < length acc + count)%nat -> cell s' bd (i0 + k) = Some None).
Proof.
  induction count as [|count IH]; intros acc s Hraw Hacc zs ok w Hspec.
  - simpl in Hspec. injection Hspec as <- <- <-. exists s. simpl.
    split; [reflexivity|]. split; [reflexivity|]. split; [reflexivity|].
    repeat split. intros k z Hz. discriminate.
  - simpl. rewrite !ptr_add_at_nat.
    assert (Hd : cell s bd (i0 + length acc) = Some None).
    { specialize (Hraw 0%nat ltac:(lia)). now rewrite Nat.add_0_r in Hraw. }
    simpl in Hspec. unfold bind at 1. unfold on_throw at 1.
    unfold value_construct_at at 1. unfold bind at 1.
    unfold elem_value_construct at 1.
    destruct (value_construct (world s)) as [[x|] w1] eqn:Hx.
    + assert (Hd' : cell (set_world w1 s) bd (i0 + length acc) = Some None) by exact Hd.
      rewrite (construct_at_cell _ _ _ _ _ Hd').
      set (s1 := set_slot (at_ bd (i0 + length acc)) (Some x) (set_world w1 s)).
      assert (Hs1 : forall c k, cell s1 c k =
                if decide (c = bd /\ k = (i0 + length acc)%nat)
                then Some (Some x) else cell s c k).
      { intros c k. subst s1. rewrite cell_set_slot; [reflexivity|].
        rewrite Hd'. eauto. }
      assert (Hfr1 : same_frame s s1).
      { subst s1. etransitivity; [apply same_frame_set_world|apply same_frame_set_slot]. }
      destruct (spec_value_construct count w1) as [[zs1 ok1] w2] eqn:Hrest.
      injection Hspec as <- <- <-.
      replace (Z.of_nat (length acc) + 1) with (Z.of_nat (length (acc ++ [x])))
        by (rewrite length_app; simpl; lia).
      destruct (IH (acc ++ [x]) s1) with (zs := zs1) (ok := ok1) (w := w2)
        as (s' & Hrun & Hfr & Hout & Hres).
      { intros k Hk. rewrite length_app. simpl. rewrite Hs1, decide_False by lia.
        replace (i0 + (length acc + 1) + k)%nat with (i0 + length acc + S k)%nat by lia.
        apply Hraw. lia. }
      { intros k a Ha. rewrite Hs1.
        destruct (decide (k < length acc)%nat) as [Hk|Hk].
        - rewrite decide_False by lia. rewrite lookup_app_l in Ha by exact Hk.
          now apply Hacc.
        - rewrite lookup_app_r in Ha by lia.
          destruct (k - length acc)%nat as [|k'] eqn:Hk'; [|destruct k'; discriminate].
          injection Ha as <-. rewrite decide_True by (split; [auto|lia]). reflexivity. }
      { subst s1. rewrite set_slot_world. exact Hrest. }
      rewrite length_app in Hout, Hres. simpl in Hout, Hres.
      exists s'. split; [exact Hrun|]. split; [etransitivity; eauto|]. split.
      { intros c k Hk. rewrite Hout by lia.
        rewrite Hs1, decide_False by lia. reflexivity. }
      destruct ok1.
      * destruct Hres as (Hw & Hlen & Hzs & Hkeep). split; [exact Hw|].
        split; [simpl; lia|]. split.
        -- intros [|k] z Hz.
           ++ injection Hz as <-. rewrite Nat.add_0_r.
              rewrite (Hkeep (length acc)) by lia.
              rewrite Hs1, decide_True by auto. reflexivity.
           ++ replace (i0 + length acc + S k)%nat
                with (i0 + (length acc + 1) + k)%nat by lia.
              now apply Hzs.
        -- intros k Hk. rewrite Hkeep by lia. rewrite Hs1, decide_False by lia.
           reflexivity.
      * destruct Hres as (Hw & Hlt & Hnone). split; [|split].
        -- rewrite Hw. now rewrite <- app_assoc.
        -- simpl. lia.
        -- intros k Hk. apply Hnone. lia.
    + (* this constructor throws: the elements built so far are destroyed *)
      injection Hspec as <- <- <-. unfold destroy_n. rewrite Nat2Z.id.
      destruct (destroy_loop_exact bd acc i0 (set_world w1 s))
        as (s' & Hrun & Hfr & Hw & Hcells).
      { intros k a Ha. now apply Hacc. }
      rewrite Hrun. exists s'. split; [reflexivity|]. split.
      { etransitivity; [apply same_frame_set_world|exact Hfr]. }
      split; [|split; [|split]].
      * intros c k Hk. rewrite Hcells, decide_False by lia. reflexivity.
      * rewrite app_nil_r. exact Hw.
      * simpl. lia.
      * intros k Hk. rewrite Hcells. case_decide; [reflexivity|].
        rewrite cell_set_world.
        replace (i0 + k)%nat with (i0 + length acc + (k - length acc))%nat by lia.
        apply Hraw. lia.
Qed.

(** The elements [spec_value_construct] yields are results of the value
    constructor. *)
Lemma spec_value_construct_values (n : nat) :
  forall w zs ok w', spec_value_construct n w = (zs, ok, w') ->
    Forall (fun x => exists w0 w1, value_construct w0 = (Some x, w1)) zs.
Proof.
  induction n as [|n IH]; intros w zs ok w' H; simpl in H.
  - injection H as <- _ _. constructor.
  - destruct (value_construct w) as [[x|] w1] eqn:Hx.
    + destruct (spec_value_construct n w1) as [[zs1 ok1] w2] eqn:Hrest.
      injection H as <- _ _. constructor; [eauto|]. eapply IH. exact Hrest.
    + injection H as <- _ _. constructor.
Qed.

(** [Vector(size)] allocates exactly [size] slots and value-initialises
    each, the constructors running one after the other.  When the
    allocation throws nothing has happened.  When the constructor of an
    element throws, the elements built before it are destroyed, front to
    back, and the block is released: heap and objects are as before, the
    object does not exist, and every constructor that completed has been
    matched by a destructor.  Nothing is allocated for size 0. *)
Theorem sized_constructor_value_initialises (s : state) (this : nat) (n : Z) :
  0 <= n -> n * sizeof_T < SIZE_MODULUS ->
  match Vector_sized this n s with
  | Normal _ s' =>
      exists xs, Z.of_nat (length xs) = n /\ holds s' this xs n /\
        spec_value_construct (Z.to_nat n) (world s) = (xs, true, world s') /\
        Forall (fun x => exists w w', value_construct w = (Some x, w')) xs /\
        (forall o, o <> this -> vecs s' !! o = vecs s !! o) /\
        (forall c, is_Some (heap s !! c) -> heap s' !! c = heap s !! c) /\
        (n = 0 -> heap s' = heap s)
  | Throw e s' =>
      heap s' = heap s /\ vecs s' = vecs s /\
      ((e = BadAlloc /\ world s' = world s) \/
       (e = ElementException /\
        exists zs w, spec_value_construct (Z.to_nat n) (world s) = (zs, false, w) /\
          (length zs < Z.to_nat n)%nat /\
          world s' = spec_destroy_all zs w))
  | _ => False
  end.
Proof.
  intros Hn Hfit. unfold Vector_sized.
  destruct (decide (n = 0)) as [->|Hn0].
  - (* no allocation *)
    simpl. exists []. split; [reflexivity|]. split.
    + eexists. split; [simpl; apply lookup_insert_eq|]. simpl.
      split; [reflexivity|]. split; [reflexivity|]. split; [reflexivity|].
      split; [discriminate|]. simpl. auto.
    + split; [reflexivity|]. split; [constructor|]. split; [|auto].
      intros o Ho. simpl. now rewrite lookup_insert_ne by congruence.
  - pose proof (RawMemory_ctor_spec s n ltac:(lia) Hfit) as Hctor.
    unfold bind at 1.
    destruct (RawMemory_ctor n s) as [rm s0|e s0| |] eqn:Hrun0;
      [| |contradiction|contradiction].
    2:{ subst s0. apply RawMemory_ctor_throw_inv in Hrun0 as [-> _]. auto. }
    destruct Hctor as (b' & -> & Hfresh & -> & Hfit').
    set (s0 := set_heap _ s). unfold GetAddress. simpl buffer_.
    assert (Hs0 : forall d k, cell s0 d k =
              if decide (d = b')
              then (if decide (k < Z.to_nat n)%nat then Some None else None)
              else cell s d k).
    { intros d k. subst s0. apply cell_fresh_block. }
    unfold uninitialized_value_construct_n.
    destruct (spec_value_construct (Z.to_nat n) (world s)) as [[zs ok] w] eqn:Hspec.
    destruct (value_construct_loop_exact (at_ b' 0) b' 0 (Z.to_nat n) [] s0)
      with (zs := zs) (ok := ok) (w := w) as (s1 & Hloop & Hfr & Hrest & Hres).
    { intros k Hk. simpl. rewrite Hs0, decide_True by reflexivity.
      now rewrite decide_True by lia. }
    { intros k a Ha. discriminate. }
    { exact Hspec. }
    simpl in Hrest, Hres. change (Z.of_nat (length [])) with 0 in Hloop.
    unfold bind at 1. unfold on_throw at 1. rewrite Hloop.
    destruct ok.
    + destruct Hres as (Hw & Hlen & Hzs & _).
      assert (Hb0 : heap s0 !! b' = Some (replicate (Z.to_nat n) None)).
      { subst s0. simpl. apply lookup_insert_eq. }
      destruct (same_frame_block s0 s1 b' _ Hfr Hb0) as (l1 & Hl1 & Hlen1 & _).
      rewrite length_replicate in Hlen1.
      exists zs. split; [lia|]. split; [|split; [|split; [|split; [|split]]]].
      * apply (holds_intro _ this zs n b' l1).
        -- simpl. rewrite lookup_insert_eq. do 2 f_equal. lia.
        -- lia.
        -- exact Hfit'.
        -- exact Hl1.
        -- exact Hlen1.
        -- lia.
        -- intros k y Hy. rewrite cell_set_vecs. now apply Hzs.
        -- intros k Hk. lia.
      * simpl. now rewrite Hw.
      * eapply spec_value_construct_values. exact Hspec.
      * intros o Ho. simpl. rewrite lookup_insert_ne by congruence.
        destruct Hfr as [_ ->]. reflexivity.
      * intros c [l Hl]. simpl.
        assert (Hc : c <> b') by (intros ->; congruence).
        transitivity (heap s0 !! c).
        -- apply block_unchanged; [exact Hfr|]. intros k. apply Hrest.
           intros [-> _]. now apply Hc.
        -- subst s0. simpl. now rewrite lookup_insert_ne by congruence.
      * intros ->. lia.
    + destruct Hres as (Hw & Hlt & Hnone).
      destruct (release_fresh_block s s1 b' (Z.to_nat n) Hfresh Hfr) as (l1 & Hl1 & Hheap).
      { intros c k Hc. rewrite Hrest by (intros [-> _]; now apply Hc).
        rewrite Hs0. now rewrite decide_False by exact Hc. }
      rewrite (RawMemory_dtor_block s1 b' n l1 Hl1). simpl.
      split; [exact Hheap|]. split; [now destruct Hfr as [_ ->]|].
      right. split; [reflexivity|]. exists zs, w. auto.
Qed.

(** [Vector(const Vector&)] allocates as many slots as the source has
    elements and copy-constructs them in order into a fresh block.  When
    the allocation or a copy throws, the copies made are destroyed and the
    block is released. *)
Lemma Vector_copy_spec (s : state) (this other : nat) (xs : list T) (cap : Z) :
  holds s other xs cap -> this <> other ->
  match Vector_copy this other s with
  | Normal _ s' =>
      exists ys w, spec_construct_tail xs (world s) = (ys, true, w) /\ world s' = w /\
        holds s' this ys (Z.of_nat (length xs)) /\ length ys = length xs /\
        (Regular -> ys = xs) /\
        holds s' other xs cap /\ separate s' this other /\
        (forall c, is_Some (heap s !! c) -> heap s' !! c = heap s !! c) /\
        (forall o, o <> this -> vecs s' !! o = vecs s !! o) /\
        (forall v b', vecs s' !! this = Some v -> blk (buffer_ (data_ v)) = Some b' ->
                      heap s !! b' = None)
  | Throw e s' => heap s' = heap s /\ vecs s' = vecs s
  | _ => False
  end.
Proof.
  intros Hother Hne. pose proof Hother as Hother0.
  apply holds_inv in Hother as (buf & Hv & Hle & Hcap0 & Hfit & Hbuf).
  unfold Vector_copy.
  rewrite (bind_normal _ _ _ _ _ (get_vec_eq _ _ _ Hv)).
  cbn [size_ data_ capacity_ buffer_ GetAddress].
  destruct (decide (xs = [])) as [->|Hxs].
  - (* nothing to copy, nothing allocated *)
    simpl. exists [], (world s). split; [reflexivity|]. split; [reflexivity|].
    split; [|split; [reflexivity|split; [reflexivity|split; [|split]]]].
    + eexists. split; [simpl; apply lookup_insert_eq|]. simpl.
      split; [reflexivity|]. split; [reflexivity|]. split; [reflexivity|].
      split; [discriminate|]. simpl. auto.
    + apply (holds_unchanged s); [exact Hother0| |auto].
      simpl. now rewrite lookup_insert_ne by congruence.
    + intros v r Hv' _. simpl in Hv'. rewrite lookup_insert_eq in Hv'.
      injection Hv' as <-. now left.
    + split; [auto|]. split.
      * intros o Ho. simpl. now rewrite lookup_insert_ne by congruence.
      * intros v b' Hv' Hb'. simpl in Hv'. rewrite lookup_insert_eq in Hv'.
        injection Hv' as <-. discriminate.
  - assert (Hlen : (0 < length xs)%nat) by (destruct xs; [congruence|simpl; lia]).
    destruct Hbuf as [[_ ->]|(b & -> & Hpos & Hl & Hlive & Hraw)]; [simpl in Hle; lia|].
    set (n := Z.of_nat (length xs)) in *.
    assert (Hnfit : n * sizeof_T < SIZE_MODULUS).
    { pose proof sizeof_T_range as [Hs _]. pose proof PTRDIFF_MAX_lt. subst n. nia. }
    pose proof (RawMemory_ctor_spec s n ltac:(lia) Hnfit) as Hctor.
    unfold bind at 1.
    destruct (RawMemory_ctor n s) as [rm s0|e s0| |]; [| |contradiction|contradiction].
    2:{ subst s0. auto. }
    destruct Hctor as (b' & -> & Hfresh & -> & Hfit').
    set (s0 := set_heap _ s). unfold GetAddress. cbn [buffer_].
    assert (Hbb : b <> b') by (intros ->; congruence).
    assert (Hs0 : forall d k, cell s0 d k =
              if decide (d = b')
              then (if decide (k < Z.to_nat n)%nat then Some None else None)
              else cell s d k).
    { intros d k. subst s0. apply cell_fresh_block. }
    destruct (spec_construct_tail xs (world s)) as [[zs ok] w] eqn:Hspec.
    destruct (uninitialized_copy_n_exact s0 (at_ b 0) (at_ b' 0) xs)
      with (zs := zs) (ok := ok) (w := w) as (s1 & Hrun & Hfr & _ & Hres).
    { right. exists b, 0%nat, b', 0%nat. split; [reflexivity|]. split; [reflexivity|].
      split; [exact Hbb|]. split.
      - intros k v Hk. rewrite Hs0, decide_False by exact Hbb. now apply Hlive.
      - intros k Hk. rewrite Hs0, decide_True by reflexivity.
        rewrite decide_True; [reflexivity|]. subst n. simpl. lia. }
    { exact Hspec. }
    fold n in Hrun. unfold bind at 1. unfold on_throw at 1. rewrite Hrun.
    destruct ok.
    + destruct Hres as (Hw & Hzlen & Hcells).
      destruct (Hcells b' 0%nat eq_refl) as [Hzs Hkeep].
      assert (Hb0 : heap s0 !! b' = Some (replicate (Z.to_nat n) None)).
      { subst s0. simpl. apply lookup_insert_eq. }
      destruct (same_frame_block s0 s1 b' _ Hfr Hb0) as (l1 & Hl1 & Hlen1 & _).
      rewrite length_replicate in Hlen1.
      assert (Hold : forall c, c <> b' -> heap s1 !! c = heap s !! c).
      { intros c Hc. transitivity (heap s0 !! c).
        - apply block_unchanged; [exact Hfr|]. intros k. apply Hkeep.
          intros [-> _]. now apply Hc.
        - subst s0. simpl. now rewrite lookup_insert_ne by congruence. }
      exists zs, w. split; [reflexivity|]. split; [exact Hw|].
      split; [|split; [exact Hzlen|split; [|split; [|split]]]].
      * apply (holds_intro _ this zs n b' l1).
        -- simpl. rewrite lookup_insert_eq. do 2 f_equal. subst n. lia.
        -- subst n. lia.
        -- exact Hfit'.
        -- exact Hl1.
        -- exact Hlen1.
        -- subst n. lia.
        -- intros k y Hy. rewrite cell_set_vecs. exact (Hzs k y Hy).
        -- intros k Hk. subst n. lia.
      * intros HR. exact (spec_construct_tail_regular _ _ _ _ Hspec).
      * apply (holds_unchanged s); [exact Hother0| |].
        -- simpl. rewrite lookup_insert_ne by congruence. now destruct Hfr as [_ ->].
        -- intros v c Hv' Hc. simpl. rewrite Hv in Hv'. injection Hv' as <-.
           simpl in Hc. injection Hc as <-. now apply Hold.
      * intros v r Hv' Hr'. simpl in Hv', Hr'.
        rewrite lookup_insert_eq in Hv'. injection Hv' as <-.
        rewrite lookup_insert_ne in Hr' by congruence.
        destruct Hfr as [_ Hvecs]. rewrite Hvecs in Hr'. simpl in Hr'.
        rewrite Hv in Hr'. injection Hr' as <-. right. simpl. congruence.
      * split; [|split].
        -- intros c [l Hc]. simpl. apply Hold. intros ->. congruence.
        -- intros o Ho. simpl. rewrite lookup_insert_ne by congruence.
           now destruct Hfr as [_ ->].
        -- intros v c Hv' Hc. simpl in Hv'. rewrite lookup_insert_eq in Hv'.
           injection Hv' as <-. simpl in Hc. injection Hc as <-. exact Hfresh.
    + destruct Hres as (_ & Hcells).
      destruct (release_fresh_block s s1 b' (Z.to_nat n) Hfresh Hfr) as (l1 & Hl1 & Hheap).
      { intros c k Hc. rewrite Hcells, Hs0. now rewrite decide_False by exact Hc. }
      rewrite (RawMemory_dtor_block s1 b' n l1 Hl1). simpl.
      split; [exact Hheap|]. now destruct Hfr as [_ ->].
Qed.

End Lifecycle.

(** * Exchange, and what construction and destruction mean for other vectors *)

Section Exchange.
Context `{E : ElemType}.

(** A vector is described by its object and its block alone. *)
Lemma holds_transfer (s s' : state) (a a' : nat) (xs : list T) (cap : Z) :
  holds s a xs cap ->
  vecs s' !! a' = vecs s !! a ->
  (forall v b, vecs s !! a = Some v -> blk (buffer_ (data_ v)) = Some b ->
               heap s' !! b = heap s !! b) ->
  holds s' a' xs cap.
Proof.
  intros (v & Hv & Hn & Hc & Hlen & Hfit & Hbuf) Hvecs Hheap.
  exists v. split; [congruence|]. split; [exact Hn|]. split; [exact Hc|].
  split; [exact Hlen|]. split; [exact Hfit|].
  destruct (blk (buffer_ (data_ v))) as [b|] eqn:Hb; [|exact Hbuf].
  destruct Hbuf as (Hoff & Hl & Hpos). rewrite (Hheap v b Hv Hb). auto.
Qed.

(** [Swap] exchanges the two objects and touches nothing else. *)
Lemma Swap_spec (s : state) (a b : nat) (va vb : Vector) :
  vecs s !! a = Some va -> vecs s !! b = Some vb ->
  Swap a b s = Normal tt (set_vecs (<[b := va]> (<[a := vb]> (vecs s))) s).
Proof.
  intros Ha Hb. destruct va as [[bufa capa] na]. destruct vb as [[bufb capb] nb].
  unfold Swap, swap_data, swap_size.
  unfold bind at 1.
  rewrite (bind_normal _ _ _ _ _ (get_data_eq _ _ _ Ha)).
  cbn [data_ size_ buffer_ capacity_ RawMemory_move_ctor].
  rewrite (bind_normal _ _ _ _ _ (set_data_eq _ _ _ _ Ha)).
  cbn [data_ size_ buffer_ capacity_].
  set (s1 := set_vecs _ s).
  assert (Ha1 : vecs s1 !! a = Some {| data_ := {| buffer_ := nullptr; capacity_ := 0 |};
                                       size_ := na |}).
  { subst s1. simpl. apply lookup_insert_eq. }
  destruct (decide (a = b)) as [<-|Hne].
  - (* one object: the self-move-assignment is skipped *)
    rewrite Hb in Ha. injection Ha as -> -> ->.
    rewrite (bind_normal (ret tt) _ s1 tt s1 eq_refl).
    rewrite (bind_normal _ _ _ _ _ (get_data_eq _ _ _ Ha1)).
    cbn [data_ size_ buffer_ capacity_ RawMemory_move_assign].
    rewrite (bind_normal _ _ _ _ _ (set_data_eq _ _ _ _ Ha1)).
    cbn [data_ size_ buffer_ capacity_].
    set (s2 := set_vecs _ s1).
    assert (Ha2 : vecs s2 !! a = Some {| data_ := {| buffer_ := bufa; capacity_ := capa |};
                                         size_ := na |}).
    { subst s2. simpl. apply lookup_insert_eq. }
    assert (Hdel : RawMemory_dtor {| buffer_ := nullptr; capacity_ := 0 |} s2
                   = Normal tt s2) by reflexivity.
    rewrite Hdel.
    rewrite (bind_normal _ _ _ _ _ (get_size_eq _ _ _ Ha2)).
    rewrite (bind_normal _ _ _ _ _ (get_size_eq _ _ _ Ha2)).
    rewrite (bind_normal _ _ _ _ _ (set_size_eq _ _ _ _ Ha2)).
    cbn [data_ size_ buffer_ capacity_].
    set (s3 := set_vecs _ s2).
    assert (Ha3 : vecs s3 !! a = Some {| data_ := {| buffer_ := bufa; capacity_ := capa |};
                                         size_ := na |}).
    { subst s3. simpl. apply lookup_insert_eq. }
    rewrite (set_size_eq _ _ _ _ Ha3). cbn [data_ size_ buffer_ capacity_].
    f_equal. subst s3 s2 s1. unfold set_vecs. simpl. f_equal.
    apply map_eq. intros i. destruct (decide (i = a)) as [->|Hi]; by simplify_map_eq.
  - assert (Hb1 : vecs s1 !! b = Some {| data_ := {| buffer_ := bufb; capacity_ := capb |};
                                         size_ := nb |}).
    { subst s1. simpl. now rewrite lookup_insert_ne by congruence. }
    unfold bind at 1.
    rewrite (bind_normal _ _ _ _ _ (get_data_eq _ _ _ Hb1)).
    cbn [data_ size_ buffer_ capacity_ RawMemory_move_assign].
    rewrite (bind_normal _ _ _ _ _ (set_data_eq _ _ _ _ Hb1)).
    cbn [data_ size_ buffer_ capacity_].
    set (s2 := set_vecs _ s1).
    assert (Ha2 : vecs s2 !! a = Some {| data_ := {| buffer_ := nullptr; capacity_ := 0 |};
                                         size_ := na |}).
    { subst s2. simpl. now rewrite lookup_insert_ne by congruence. }
    rewrite (set_data_eq _ _ _ _ Ha2). cbn [data_ size_ buffer_ capacity_].
    set (s3 := set_vecs _ s2).
    assert (Hb3 : vecs s3 !! b = Some {| data_ := {| buffer_ := nullptr; capacity_ := 0 |};
                                         size_ := nb |}).
    { subst s3 s2. simpl. rewrite lookup_insert_ne by congruence.
      apply lookup_insert_eq. }
    rewrite (bind_normal _ _ _ _ _ (get_data_eq _ _ _ Hb3)).
    cbn [data_ size_ buffer_ capacity_].
    rewrite (bind_normal _ _ _ _ _ (set_data_eq _ _ _ _ Hb3)).
    cbn [data_ size_ buffer_ capacity_].
    set (s4 := set_vecs _ s3).
    assert (Hdel : RawMemory_dtor {| buffer_ := nullptr; capacity_ := 0 |} s4
                   = Normal tt s4) by reflexivity.
    rewrite Hdel.
    assert (Ha4 : vecs s4 !! a = Some {| data_ := {| buffer_ := bufb; capacity_ := capb |};
                                         size_ := na |}).
    { subst s4 s3. simpl. rewrite lookup_insert_ne by congruence.
      apply lookup_insert_eq. }
    assert (Hb4 : vecs s4 !! b = Some {| data_ := {| buffer_ := bufa; capacity_ := capa |};
                                         size_ := nb |}).
    { subst s4. simpl. apply lookup_insert_eq. }
    rewrite (bind_normal _ _ _ _ _ (get_size_eq _ _ _ Ha4)).
    rewrite (bind_normal _ _ _ _ _ (get_size_eq _ _ _ Hb4)).
    rewrite (bind_normal _ _ _ _ _ (set_size_eq _ _ _ _ Ha4)).
    cbn [data_ size_ buffer_ capacity_].
    set (s5 := set_vecs _ s4).
    assert (Hb5 : vecs s5 !! b = Some {| data_ := {| buffer_ := bufa; capacity_ := capa |};
                                         size_ := nb |}).
    { subst s5. simpl. now rewrite lookup_insert_ne by congruence. }
    rewrite (set_size_eq _ _ _ _ Hb5). cbn [data_ size_ buffer_ capacity_].
    f_equal. subst s5 s4 s3 s2 s1. unfold set_vecs. simpl. f_equal.
    apply map_eq. intros i.
    destruct (decide (i = b)) as [->|Hi]; [by simplify_map_eq|].
    destruct (decide (i = a)) as [->|Hi']; by simplify_map_eq.
Qed.

(** [Swap] exchanges contents, sizes and capacities of two vectors (or
    leaves a vector swapped with itself as it is) without moving, copying
    or destroying an element and without touching the heap; swapping
    again restores the state. *)
Theorem Swap_exchanges_the_vectors
    (s : state) (a b : nat) (xs ys : list T) (ca cb : Z) :
  holds s a xs ca -> holds s b ys cb ->
  exists s', Swap a b s = Normal tt s' /\
    heap s' = heap s /\ world s' = world s /\
    holds s' a ys cb /\ holds s' b xs ca /\
    (forall o, o <> a -> o <> b -> vecs s' !! o = vecs s !! o) /\
    Swap a b s' = Normal tt s.
Proof.
  intros Ha Hb.
  destruct Ha as (va & Hva & Ha). destruct Hb as (vb & Hvb & Hb).
  rewrite (Swap_spec s a b va vb Hva Hvb).
  eexists. split; [reflexivity|]. split; [reflexivity|]. split; [reflexivity|].
  assert (Ha' : vecs (set_vecs (<[b := va]> (<[a := vb]> (vecs s))) s) !! a = Some vb).
  { simpl. destruct (decide (a = b)) as [<-|Hne].
    - rewrite lookup_insert_eq. congruence.
    - rewrite lookup_insert_ne by congruence. apply lookup_insert_eq. }
  assert (Hb' : vecs (set_vecs (<[b := va]> (<[a := vb]> (vecs s))) s) !! b = Some va).
  { simpl. apply lookup_insert_eq. }
  split; [|split; [|split]].
  - exists vb. split; [exact Ha'|exact Hb].
  - exists va. split; [exact Hb'|exact Ha].
  - intros o Hoa Hob. simpl. now rewrite !lookup_insert_ne by congruence.
  - rewrite (Swap_spec _ a b vb va Ha' Hb'). f_equal.
    destruct s as [h m w]. unfold set_vecs. simpl in *. f_equal.
    apply map_eq. intros i.
    destruct (decide (i = b)) as [->|Hi]; [by simplify_map_eq|].
    destruct (decide (i = a)) as [->|Hi']; by simplify_map_eq.
Qed.

(** Destroying a vector destroys its elements front to back, releases its
    block and nothing else: every other vector with a block of its own is
    as before. *)
Theorem destructor_releases_only_its_own_block
    (s : state) (this : nat) (xs : list T) (cap : Z) :
  holds s this xs cap ->
  exists s', Vector_dtor this s = Normal tt s' /\
    vecs s' = delete this (vecs s) /\
    world s' = spec_destroy_all xs (world s) /\
    (forall b, begin this s = Normal (at_ b 0) s -> heap s' = delete b (heap s)) /\
    (begin this s = Normal nullptr s -> heap s' = heap s) /\
    (forall other ys c, other <> this -> holds s other ys c -> separate s other this ->
                        holds s' other ys c).
Proof.
  intros Hthis.
  destruct (Vector_dtor_spec s this xs cap Hthis) as (v & s' & Hv & Hrun & Hvecs & Hw & Hheap).
  exists s'. split; [exact Hrun|]. split; [exact Hvecs|]. split; [exact Hw|].
  rewrite (begin_eq _ _ _ Hv). split; [|split].
  - intros b [= Hb]. now rewrite Hb in Hheap.
  - intros [= Hb]. now rewrite Hb in Hheap.
  - intros other ys c Hne Hother Hsep.
    apply (holds_transfer s s' other other ys c Hother).
    + rewrite Hvecs. now rewrite lookup_delete_ne by congruence.
    + intros r b Hr Hb. specialize (Hsep r v Hr Hv).
      destruct Hsep as [Hnull|Hdiff]; [congruence|].
      rewrite Hheap. destruct (blk (buffer_ (data_ v))) as [b0|]; [|reflexivity].
      rewrite lookup_delete_ne; [reflexivity|]. congruence.
Qed.

(** For an element type with value semantics, the copy constructor gives a
    vector with the same elements, with capacity equal to the size of the
    source, in a block of its own; the source and all other blocks are
    untouched.  When it throws, heap and objects are exactly as before. *)
Theorem copy_constructor_makes_an_independent_copy {HR : Regular}
    (s : state) (this other : nat) (xs : list T) (cap : Z) :
  holds s other xs cap -> this <> other ->
  match Vector_copy this other s with
  | Normal _ s' =>
      holds s' this xs (Z.of_nat (length xs)) /\ holds s' other xs cap /\
      separate s' this other /\
      (forall c, is_Some (heap s !! c) -> heap s' !! c = heap s !! c)
  | Throw e s' => heap s' = heap s /\ vecs s' = vecs s
  | _ => False
  end.
Proof.
  intros Hother Hne. pose proof (Vector_copy_spec s this other xs cap Hother Hne) as H.
  destruct (Vector_copy this other s) as [[] s'|e s'| |]; try exact H.
  destruct H as (ys & w & _ & _ & Hthis & _ & Heq & Hother' & Hsep & Hold & _).
  rewrite (Heq HR) in Hthis. auto.
Qed.

End Exchange.

(** * Copy assignment from a larger vector *)

Section CopyAssignRealloc.
Context `{E : ElemType}.

Lemma holds_block_allocated (s : state) (a : nat) (xs : list T) (cap : Z) v b :
  holds s a xs cap -> vecs s !! a = Some v -> blk (buffer_ (data_ v)) = Some b ->
  is_Some (heap s !! b).
Proof.
  intros (v' & Hv' & _ & _ & _ & _ & Hbuf) Hv Hb.
  rewrite Hv in Hv'. injection Hv' as <-. rewrite Hb in Hbuf.
  destruct Hbuf as (_ & Hl & _). eauto.
Qed.

(** Copy assignment from a vector with more elements than the capacity
    copies the source into a temporary vector, swaps with it and destroys
    it: the vector ends with the copied elements and capacity equal to
    their number, its old elements destroyed and its old block released;
    the temporary is gone.  When the copy throws, heap and objects are
    exactly as before. *)
Theorem copy_assign_reallocating_is_all_or_nothing
    (s : state) (this rhs : nat) (xs rs : list T) (cap rcap : Z) :
  this <> rhs ->
  holds s this xs cap -> holds s rhs rs rcap -> separate s this rhs ->
  cap < Z.of_nat (length rs) ->
  match Vector_copy_assign this rhs s with
  | Normal _ s' =>
      exists ys w, spec_construct_tail rs (world s) = (ys, true, w) /\
        world s' = spec_destroy_all xs w /\
        holds s' this ys (Z.of_nat (length rs)) /\ (Regular -> ys = rs) /\
        holds s' rhs rs rcap /\
        (forall o, o <> this -> vecs s' !! o = vecs s !! o) /\
        (forall b, begin this s = Normal (at_ b 0) s -> heap s' !! b = None)
  | Throw e s' => heap s' = heap s /\ vecs s' = vecs s
  | _ => False
  end.
Proof.
  intros Hne Hthis Hrhs Hsep Hbig.
  destruct Hthis as (va & Hva & Hthis). destruct Hrhs as (vr & Hvr & Hrhs).
  assert (Hthis0 : holds s this xs cap) by (exists va; auto).
  assert (Hrhs0 : holds s rhs rs rcap) by (exists vr; auto).
  unfold Vector_copy_assign.
  destruct (decide (this <> rhs)) as [_|Heq]; [|contradiction].
  rewrite (bind_normal _ _ _ _ _ (get_size_eq _ _ _ Hvr)).
  rewrite (bind_normal _ _ _ _ _ (Capacity_eq _ _ _ Hva)).
  replace (size_ vr) with (Z.of_nat (length rs)) by (symmetry; apply Hrhs).
  replace (capacity_ (data_ va)) with cap by (symmetry; apply Hthis).
  replace (cap <? Z.of_nat (length rs)) with true by (symmetry; apply Z.ltb_lt; lia).
  unfold bind at 1. unfold new_object at 1.
  set (t := fresh (dom (vecs s))).
  assert (Ht : vecs s !! t = None) by (apply not_elem_of_dom, is_fresh).
  assert (Htthis : t <> this) by (intros Heq; rewrite Heq in Ht; congruence).
  assert (Htrhs : t <> rhs) by (intros Heq; rewrite Heq in Ht; congruence).
  pose proof (Vector_copy_spec s t rhs rs rcap Hrhs0 Htrhs) as Hcopy.
  unfold bind at 1.
  destruct (Vector_copy t rhs s) as [[] s1|e s1| |]; try exact Hcopy.
  destruct Hcopy as (ys & w & Hspec & Hw1 & Ht1 & Hylen & Hreg & Hrhs1 & _ & Hold1 & Hvecs1 & Hfresh1).
  assert (Hva1 : vecs s1 !! this = Some va) by (rewrite Hvecs1 by congruence; exact Hva).
  assert (Hthis1 : holds s1 this xs cap).
  { apply (holds_transfer s s1 this this xs cap Hthis0); [now rewrite Hva1|].
    intros v b Hv Hb. apply Hold1. exact (holds_block_allocated _ _ _ _ _ _ Hthis0 Hv Hb). }
  destruct Ht1 as (vt & Hvt & Ht1).
  assert (Ht1' : holds s1 t ys (Z.of_nat (length rs))) by (exists vt; auto).
  (* the swap *)
  unfold bind at 1. rewrite (Swap_spec s1 this t va vt Hva1 Hvt).
  set (s2 := set_vecs _ s1).
  assert (Hvt2 : vecs s2 !! t = Some va) by (subst s2; simpl; apply lookup_insert_eq).
  assert (Hva2 : vecs s2 !! this = Some vt).
  { subst s2. simpl. rewrite lookup_insert_ne by congruence. apply lookup_insert_eq. }
  assert (Ht2 : holds s2 t xs cap).
  { apply (holds_transfer s1 s2 this t xs cap Hthis1); [congruence|auto]. }
  (* the temporary is destroyed *)
  destruct (Vector_dtor_spec s2 t xs cap Ht2) as (v & s3 & Hv & Hrun & Hvecs3 & Hw3 & Hheap3).
  rewrite Hvt2 in Hv. injection Hv as <-. rewrite Hrun.
  assert (Hkeep : forall c, heap s !! c = None \/
            (is_Some (heap s !! c) /\ Some c <> blk (buffer_ (data_ va))) ->
            heap s3 !! c = heap s1 !! c).
  { intros c Hc. rewrite Hheap3. subst s2. simpl.
    destruct (blk (buffer_ (data_ va))) as [b|] eqn:Hb; [|reflexivity].
    rewrite lookup_delete_ne; [reflexivity|]. intros <-.
    destruct Hc as [Hc|[_ Hc]]; [|congruence].
    destruct (holds_block_allocated _ _ _ _ _ _ Hthis0 Hva Hb) as [l Hl]. congruence. }
  exists ys, w. split; [exact Hspec|]. split; [|split; [|split; [exact Hreg|split; [|split]]]].
  - rewrite Hw3. subst s2. simpl. now rewrite Hw1.
  - apply (holds_transfer s1 s3 t this _ _ Ht1').
    + rewrite Hvecs3, lookup_delete_ne by congruence. congruence.
    + intros v b Hv Hb. apply Hkeep. left. exact (Hfresh1 v b Hv Hb).
  - apply (holds_transfer s1 s3 rhs rhs _ _ Hrhs1).
    + rewrite Hvecs3, lookup_delete_ne by congruence. subst s2. simpl.
      now rewrite !lookup_insert_ne by congruence.
    + intros v b Hv Hb. apply Hkeep. right.
      rewrite Hvecs1 in Hv by congruence. split.
      * exact (holds_block_allocated _ _ _ _ _ _ Hrhs0 Hv Hb).
      * destruct (Hsep va v Hva Hv) as [Hnull|Hdiff]; congruence.
  - intros o Ho. rewrite Hvecs3. destruct (decide (o = t)) as [->|Hot].
    + now rewrite lookup_delete_eq.
    + rewrite lookup_delete_ne by congruence. subst s2. simpl.
      rewrite !lookup_insert_ne by congruence. now apply Hvecs1.
  - intros b. rewrite (begin_eq _ _ _ Hva). intros [= Hb].
    rewrite Hheap3, Hb. simpl. apply lookup_delete_eq.
Qed.

End CopyAssignRealloc.

(** * Reserve, Resize, PopBack *)

Section Capacity.
Context `{E : ElemType} {HR : Regular}.

(** [InitializeRawMemory] into raw cells of another block; when it throws
    and the transfer either copies or moves without throwing, no cell has
    changed. *)
Lemma InitializeRawMemory_guarded (s : state) buf bd j0 (vs : list T) :
  (vs = [] \/
   exists bs i0, buf = at_ bs i0 /\ bs <> bd /\
     forall k v, vs !! k = Some v -> cell s bs (i0 + k) = Some (Some v)) ->
  (forall k, (k < length vs)%nat -> cell s bd (j0 + k) = Some None) ->
  match InitializeRawMemory buf (Z.of_nat (length vs)) (at_ bd j0) s with
  | Normal _ s' =>
      same_frame s s' /\
      (forall k v, vs !! k = Some v -> cell s' bd (j0 + k) = Some (Some v)) /\
      (forall k, ~ (j0 <= k < j0 + length vs)%nat -> cell s' bd k = cell s bd k) /\
      (forall c k v, c <> bd -> cell s c k = Some (Some v) ->
                     exists v', cell s' c k = Some (Some v')) /\
      (forall c k, c <> bd ->
         ~ (Some c = blk buf /\ off buf <= Z.of_nat k < off buf + Z.of_nat (length vs)) ->
         cell s' c k = cell s c k) /\
      (is_nothrow_move_constructible || negb is_copy_constructible = false ->
       forall c k, c <> bd -> cell s' c k = cell s c k)
  | Throw _ s' =>
      same_frame s s' /\
      (forall k, cell s' bd k = cell s bd k) /\
      (transfer_cannot_throw_by_move ->
       is_nothrow_move_constructible || negb is_copy_constructible = false /\
       forall c k, cell s' c k = cell s c k)
  | _ => False
  end.
Proof.
  intros Hsrc Hraw.
  pose proof (InitializeRawMemory_spec s buf bd j0 vs Hsrc Hraw) as Hspec.
  assert (Hcopy : is_nothrow_move_constructible || negb is_copy_constructible = false ->
            forall zs ok w, spec_construct_tail vs (world s) = (zs, ok, w) ->
            exists s'', InitializeRawMemory buf (Z.of_nat (length vs)) (at_ bd j0) s =
                (if ok then Normal tt else Throw ElementException) s'' /\
              forall c k, (ok = true -> c <> bd) -> cell s'' c k = cell s c k).
  { intros Hmode zs ok w Htail. unfold InitializeRawMemory. rewrite Hmode.
    destruct (uninitialized_copy_n_exact s buf (at_ bd j0) vs)
      with (zs := zs) (ok := ok) (w := w) as (s'' & Hrun' & _ & Hnil & Hres).
    { destruct Hsrc as [->|(bs & i0 & -> & Hne & Hsrc)]; [now left|right].
      exists bs, i0, bd, j0. auto. }
    { exact Htail. }
    exists s''. split; [exact Hrun'|]. intros c k Hc. destruct ok.
    - destruct Hres as (_ & _ & Hcells).
      destruct (Hcells bd j0 eq_refl) as [_ Hkeep]. apply Hkeep.
      intros [-> _]. now apply Hc.
    - apply Hres. }
  destruct (InitializeRawMemory buf (Z.of_nat (length vs)) (at_ bd j0) s)
    as [[] s'|e s'| |] eqn:Hrun; try exact Hspec.
  - destruct Hspec as (H1 & H2 & H3 & H4 & H5).
    split; [exact H1|]. split; [exact H2|]. split; [exact H3|].
    split; [exact H4|]. split; [exact H5|].
    intros Hmode c k Hc.
    destruct (spec_construct_tail vs (world s)) as [[zs ok] w] eqn:Htail.
    destruct (Hcopy Hmode zs ok w eq_refl) as (s'' & Hrun' & Hcells).
    destruct ok; [|discriminate]. injection Hrun' as <-. now apply Hcells.
  - split; [apply Hspec|]. split; [apply Hspec|]. intros Hsafe.
    destruct (is_nothrow_move_constructible || negb is_copy_constructible) eqn:Hmode.
    + exfalso. unfold InitializeRawMemory in Hrun. rewrite Hmode in Hrun.
      revert Hrun. apply no_throw_uninitialized_loop.
      intros ? ?. apply no_throw_move_construct_at. now apply Hsafe.
    + split; [reflexivity|].
      destruct (spec_construct_tail vs (world s)) as [[zs ok] w] eqn:Htail.
      destruct (Hcopy eq_refl zs ok w eq_refl) as (s'' & Hrun' & Hcells).
      destruct ok; [discriminate|]. injection Hrun' as _ <-.
      intros c k. apply Hcells. discriminate.
Qed.

(** [Reserve] beyond the capacity. *)
Lemma Reserve_spec (s : state) (this : nat) (xs : list T) (cap k : Z) :
  holds s this xs cap -> cap < k -> k * sizeof_T < SIZE_MODULUS ->
  match Reserve this k s with
  | Normal _ s' =>
      exists b', heap s !! b' = None /\
        begin this s' = Normal (at_ b' 0) s' /\
        holds s' this xs k /\
        (forall o, o <> this -> vecs s' !! o = vecs s !! o) /\
        (forall b, begin this s = Normal (at_ b 0) s -> heap s' !! b = None) /\
        (forall c, c <> b' -> begin this s <> Normal (at_ c 0) s ->
                   heap s' !! c = heap s !! c)
  | Throw e s' =>
      vecs s' = vecs s /\ shape s' = shape s /\
      (transfer_cannot_throw_by_move -> heap s' = heap s)
  | _ => False
  end.
Proof.
  intros Hholds Hk Hkfit.
  apply holds_inv in Hholds as (buf & Hv & Hle & Hcap0 & Hfit & Hbuf).
  unfold Reserve.
  rewrite (bind_normal _ _ _ _ _ (Capacity_eq _ _ _ Hv)).
  cbn [data_ size_ buffer_ capacity_].
  replace (k <=? cap) with false by (symmetry; apply Z.leb_gt; lia).
  pose proof (RawMemory_ctor_spec s k ltac:(lia) Hkfit) as Hctor.
  unfold bind at 1.
  destruct (RawMemory_ctor k s) as [rm s0|e s0| |]; [| |contradiction|contradiction].
  2:{ subst s0. auto. }
  destruct Hctor as (b' & -> & Hfresh & -> & Hkfit').
  set (s0 := set_heap _ s). unfold GetAddress. cbn [buffer_].
  assert (Hv0 : vecs s0 !! this =
            Some {| data_ := {| buffer_ := buf; capacity_ := cap |};
                    size_ := Z.of_nat (length xs) |}) by exact Hv.
  rewrite (bind_normal _ _ _ _ _ (begin_eq _ _ _ Hv0)).
  rewrite (bind_normal _ _ _ _ _ (get_size_eq _ _ _ Hv0)).
  cbn [data_ size_ buffer_ capacity_].
  assert (Hs0 : forall d j, cell s0 d j =
            if decide (d = b')
            then (if decide (j < Z.to_nat k)%nat then Some None else None)
            else cell s d j).
  { intros d j. subst s0. apply cell_fresh_block. }
  assert (Hb0 : heap s0 !! b' = Some (replicate (Z.to_nat k) None)).
  { subst s0. simpl. apply lookup_insert_eq. }
  assert (Hsrc : xs = [] \/
            exists bs i0, buf = at_ bs i0 /\ bs <> b' /\
              forall j x, xs !! j = Some x -> cell s0 bs (i0 + j) = Some (Some x)).
  { destruct Hbuf as [[-> H0]|(b & -> & _ & Hl & Hlive & _)].
    - left. apply nil_length_inv. lia.
    - right. exists b, 0%nat. split; [reflexivity|].
      assert (Hne : b <> b') by (intros ->; congruence).
      split; [exact Hne|]. intros j x Hx.
      rewrite Hs0, decide_False by exact Hne. now apply Hlive. }
  assert (Hraw0 : forall j, (j < Z.to_nat k)%nat -> cell s0 b' (0 + j) = Some None).
  { intros j Hj. simpl. rewrite Hs0, decide_True by reflexivity.
    now rewrite decide_True by exact Hj. }
  pose proof (InitializeRawMemory_guarded s0 buf b' 0 xs Hsrc
                ltac:(intros j Hj; apply Hraw0; lia)) as Hinit.
  unfold bind at 1. unfold on_throw at 1.
  destruct (InitializeRawMemory buf (Z.of_nat (length xs)) (at_ b' 0) s0)
    as [[] s1|e s1| |]; [| |contradiction|contradiction].
  2:{ (* the transfer throws: the new block is released *)
    destruct Hinit as (Hfr & _ & Hsame).
    destruct (same_frame_block s0 s1 b' _ Hfr Hb0) as (l1 & Hl1 & _).
    rewrite (RawMemory_dtor_block s1 b' k l1 Hl1). simpl.
    split; [now destruct Hfr as [_ ->]|]. split.
    - unfold shape. simpl. rewrite fmap_delete.
      destruct Hfr as [Hshape _]. unfold shape in Hshape. rewrite Hshape.
      subst s0. simpl. rewrite fmap_insert. apply delete_insert_id.
      now rewrite lookup_fmap, Hfresh.
    - intros Hsafe.
      destruct (release_fresh_block s s1 b' (Z.to_nat k) Hfresh Hfr) as (l & _ & Hheap).
      + intros c j Hc. rewrite (proj2 (Hsame Hsafe)), Hs0.
        now rewrite decide_False by exact Hc.
      + exact Hheap. }
  destruct Hinit as (Hfr1 & Hnew & Hrest1 & Hlive1 & Hother1 & _).
  (* the old elements are destroyed *)
  destruct (destroy_n_live s1 buf (length xs)) as (s2 & Hdes & Hfr2 & Hother2 & _).
  { destruct Hsrc as [->|(b & i0 & -> & Hne & Hlive)]; [now left|].
    right. exists b, i0. split; [reflexivity|]. intros j Hj.
    destruct (lookup_lt_is_Some_2 xs (j - i0)) as [y Hy]; [lia|].
    apply (Hlive1 b j y Hne). replace j with (i0 + (j - i0))%nat by lia.
    now apply Hlive. }
  rewrite (bind_normal _ _ _ _ _ Hdes).
  assert (Hfr02 : same_frame s0 s2) by (etransitivity; eauto).
  assert (Hv2 : vecs s2 !! this =
            Some {| data_ := {| buffer_ := buf; capacity_ := cap |};
                    size_ := Z.of_nat (length xs) |}).
  { destruct Hfr02 as [_ ->]. exact Hv. }
  (* the new block is adopted, the old one released *)
  rewrite (adopt_spec s2 this buf cap _ _ Hv2); cycle 1.
  { destruct Hbuf as [[-> _]|(b & -> & _ & Hl & _)]; [now left|right].
    exists b. split; [reflexivity|].
    assert (Hne : b <> b') by (intros ->; congruence).
    assert (Hl0 : heap s0 !! b = Some ((Some <$> xs) ++
                    replicate (Z.to_nat cap - length xs)%nat None)).
    { subst s0. simpl. now rewrite lookup_insert_ne by congruence. }
    destruct (same_frame_block s0 s2 b _ Hfr02 Hl0) as (l & Hl' & _). eauto. }
  cbn [buffer_ capacity_].
  set (s3 := Build_state _ _ _).
  assert (Hbb : Some b' <> blk buf).
  { destruct Hbuf as [[-> _]|(b & -> & _ & Hl & _)]; [discriminate|].
    simpl. intros [= ->]. congruence. }
  destruct (same_frame_block s0 s2 b' _ Hfr02 Hb0) as (l2 & Hl2 & Hlen2 & Hcells2).
  rewrite length_replicate in Hlen2.
  assert (Hl3 : heap s3 !! b' = Some l2).
  { subst s3. simpl. destruct (blk buf) as [b|] eqn:Hb; [|exact Hl2].
    rewrite lookup_delete_ne by congruence. exact Hl2. }
  assert (Hcell3 : forall j, cell s3 b' j = cell s1 b' j).
  { intros j. unfold cell at 1. rewrite Hl3, Hcells2. now apply Hother2. }
  assert (Hv3 : vecs s3 !! this =
            Some {| data_ := {| buffer_ := at_ b' 0; capacity_ := k |};
                    size_ := Z.of_nat (length xs) |}).
  { subst s3. simpl. apply lookup_insert_eq. }
  exists b'. split; [exact Hfresh|]. split; [now rewrite (begin_eq _ _ _ Hv3)|].
  split; [|split; [|split]].
  - apply (holds_intro s3 this xs k b' l2); auto; try lia.
    + intros j y Hy. rewrite Hcell3. now apply (Hnew j y).
    + intros j Hj. rewrite Hcell3, Hrest1 by lia. apply (Hraw0 j). lia.
  - intros o Ho. subst s3. simpl. rewrite lookup_insert_ne by congruence.
    now destruct Hfr02 as [_ ->].
  - intros b. rewrite (begin_eq _ _ _ Hv). cbn [data_ buffer_]. intros [= ->].
    subst s3. simpl. apply lookup_delete_eq.
  - intros c Hc Hold. rewrite (begin_eq _ _ _ Hv) in Hold. cbn [data_ buffer_] in Hold.
    assert (Hcb : Some c <> blk buf).
    { destruct Hbuf as [[-> _]|(b0 & -> & _)]; [discriminate|].
      simpl. intros [= ->]. now apply Hold. }
    transitivity (heap s2 !! c).
    { subst s3. simpl. destruct (blk buf) as [b|] eqn:Hb; [|reflexivity].
      apply lookup_delete_ne. congruence. }
    transitivity (heap s0 !! c).
    { apply block_unchanged; [exact Hfr02|]. intros j.
      rewrite Hother2 by exact Hcb. apply Hother1; [exact Hc|].
      intros [Heq _]. now apply Hcb. }
    subst s0. simpl. now rewrite lookup_insert_ne by congruence.
Qed.

(** [Reserve(k)] beyond the capacity moves the vector into a fresh block of
    exactly [k] slots with the same elements in the same order, releases
    the old block and leaves every other vector alone.  When it throws, no
    object has changed and no block was leaked or lost; if the elements are
    transferred by copy or by a move that cannot throw, the heap is
    exactly as before. *)
Theorem Reserve_reallocates_and_keeps_the_elements
    (s : state) (this : nat) (xs : list T) (cap k : Z) :
  holds s this xs cap -> cap < k -> k * sizeof_T < SIZE_MODULUS ->
  match Reserve this k s with
  | Normal _ s' =>
      holds s' this xs k /\
      (forall b, begin this s = Normal (at_ b 0) s -> heap s' !! b = None) /\
      (forall other ys c, other <> this -> holds s other ys c ->
                          separate s other this -> holds s' other ys c)
  | Throw e s' =>
      vecs s' = vecs s /\ shape s' = shape s /\
      (transfer_cannot_throw_by_move -> heap s' = heap s)
  | _ => False
  end.
Proof.
  intros Hholds Hk Hkfit.
  pose proof (Reserve_spec s this xs cap k Hholds Hk Hkfit) as H.
  destruct (Reserve this k s) as [[] s'|e s'| |]; try exact H.
  destruct H as (b' & Hfresh & _ & Hthis & Hvecs & Hold & Hrest).
  split; [exact Hthis|]. split; [exact Hold|].
  intros other ys c Hne Hother Hsep.
  apply (holds_transfer s s' other other ys c Hother); [now apply Hvecs|].
  intros r b Hr Hb.
  destruct Hholds as (v & Hv & _).
  apply Hrest.
  - intros ->. destruct (holds_block_allocated _ _ _ _ _ _ Hother Hr Hb). congruence.
  - rewrite (begin_eq _ _ _ Hv). intros [= Heq].
    destruct (Hsep r v Hr Hv) as [Hnull|Hdiff]; [congruence|].
    apply Hdiff. rewrite Hb, Heq. reflexivity.
Qed.

(** [Resize(n)] below the size destroys exactly the trailing elements,
    front to back, and keeps block and capacity; it cannot throw. *)
Theorem Resize_shrinks_by_destroying_the_tail
    (s : state) (this : nat) (xs : list T) (cap : Z) (n : nat) :
  holds s this xs cap -> (n < length xs)%nat ->
  exists s', Resize this (Z.of_nat n) s = Normal tt s' /\
    holds s' this (take n xs) cap /\
    world s' = spec_destroy_all (drop n xs) (world s) /\
    begin this s' = match begin this s with Normal b _ => Normal b s' | r => r end.
Proof.
  intros Hholds Hn.
  apply holds_inv in Hholds as (buf & Hv & Hle & Hcap0 & Hfit & Hbuf).
  pose proof (capacity_small cap Hcap0 Hfit) as Hsmall.
  assert (Hmod : SIZE_MODULUS = 2 ^ 64) by reflexivity.
  destruct Hbuf as [[_ ->]|(b & -> & Hpos & Hl & Hlive & Hraw)]; [simpl in Hle; lia|].
  unfold Resize.
  rewrite (bind_normal _ _ _ _ _ (get_size_eq _ _ _ Hv)).
  cbn [data_ size_ buffer_ capacity_].
  replace (Z.of_nat n <? Z.of_nat (length xs)) with true
    by (symmetry; apply Z.ltb_lt; lia).
  unfold bind at 1.
  rewrite (bind_normal _ _ _ _ _ (begin_eq _ _ _ Hv)).
  cbn [data_ size_ buffer_ capacity_].
  rewrite ptr_add_at_nat. simpl (0 + n)%nat.
  rewrite wrap_small by lia.
  destruct (destroy_n_exact s (at_ b n) (drop n xs)) as (s1 & Hrun & Hfr & Hw & _ & Hcells).
  { right. exists b, n. split; [reflexivity|]. intros j v Hj.
    rewrite lookup_drop in Hj. now apply Hlive. }
  rewrite length_drop in Hrun, Hcells.
  replace (Z.of_nat (length xs - n)) with (Z.of_nat (length xs) - Z.of_nat n)
    in Hrun by lia.
  rewrite Hrun. specialize (Hcells b n eq_refl).
  assert (Hv1 : vecs s1 !! this =
            Some {| data_ := {| buffer_ := at_ b 0; capacity_ := cap |};
                    size_ := Z.of_nat (length xs) |}).
  { destruct Hfr as [_ ->]. exact Hv. }
  rewrite (set_size_eq _ _ _ _ Hv1). cbn [data_ size_ buffer_ capacity_].
  eexists. split; [reflexivity|]. split; [|split].
  - apply (holds_rebuilt s s1 _ this (take n xs) cap b _ Hl); auto.
    + apply full_block_length. exact Hle.
    + simpl. rewrite lookup_insert_eq. do 3 f_equal. rewrite length_take. lia.
    + rewrite length_take. lia.
    + intros j y Hj. apply lookup_take_Some in Hj as [Hj Hlt].
      rewrite Hcells, decide_False by lia. now apply Hlive.
    + intros j Hj. rewrite length_take in Hj. rewrite Hcells.
      case_decide; [reflexivity|]. apply Hraw. lia.
  - exact Hw.
  - rewrite (begin_eq _ _ _ Hv). erewrite begin_eq by (simpl; apply lookup_insert_eq).
    reflexivity.
Qed.

(** The tail of [Resize] when the capacity suffices: value-initialise the
    new elements, then set the size. *)
Lemma Resize_tail (s : state) (this : nat) (xs : list T) (cap n : Z) :
  holds s this xs cap -> Z.of_nat (length xs) <= n <= cap ->
  match ((let* b := begin this in
          uninitialized_value_construct_n (ptr_add b (Z.of_nat (length xs)))
            (wrap (n - Z.of_nat (length xs)))) ;;
         set_size this n) s with
  | Normal _ s' =>
      exists zs, Z.of_nat (length xs + length zs) = n /\
        Forall (fun x => exists w w', value_construct w = (Some x, w')) zs /\
        holds s' this (xs ++ zs) cap
  | Throw e s' => holds s' this xs cap
  | _ => False
  end.
Proof.
  intros Hholds Hn. pose proof Hholds as Hholds0.
  apply holds_inv in Hholds as (buf & Hv & Hle & Hcap0 & Hfit & Hbuf).
  pose proof (capacity_small cap Hcap0 Hfit) as Hsmall.
  assert (Hmod : SIZE_MODULUS = 2 ^ 64) by reflexivity.
  unfold bind at 1.
  rewrite (bind_normal _ _ _ _ _ (begin_eq _ _ _ Hv)).
  cbn [data_ size_ buffer_ capacity_].
  rewrite wrap_small by lia. unfold uninitialized_value_construct_n.
  destruct (decide (n = Z.of_nat (length xs))) as [->|Hgrow].
  - (* nothing to construct *)
    rewrite Z.sub_diag. simpl uninitialized_loop. unfold ret at 1.
    rewrite (set_size_eq _ _ _ _ Hv). cbn [data_ size_ buffer_ capacity_].
    exists []. split; [simpl; lia|]. split; [constructor|]. rewrite app_nil_r.
    apply (holds_transfer s _ this this xs cap Hholds0); [|auto].
    simpl. rewrite lookup_insert_eq. now rewrite Hv.
  - destruct Hbuf as [[_ ->]|(b & -> & Hpos & Hl & Hlive & Hraw)]; [lia|].
    rewrite ptr_add_at_nat. simpl (0 + length xs)%nat.
    set (m := Z.to_nat (n - Z.of_nat (length xs))).
    pose proof (value_construct_loop_spec (at_ b (length xs)) b (length xs) m 0 s) as Hloop.
    change (Z.of_nat 0) with 0 in Hloop.
    assert (Hraw' : forall j, (j < m)%nat -> cell s b (length xs + 0 + j) = Some None).
    { intros j Hj. apply Hraw. subst m. lia. }
    assert (Hnone : forall j, (j < 0)%nat ->
              exists x, cell s b (length xs + j) = Some (Some x)) by (intros; lia).
    specialize (Hloop Hraw' Hnone).
    destruct (uninitialized_loop (fun dst _ => value_construct_at dst) (at_ b (length xs))
                (at_ b (length xs)) 0 m s) as [[] s1|e s1| |];
      [| |contradiction|contradiction].
    + destruct Hloop as (Hfr & Hdst & Hrest).
      destruct (collect_cells (fun j => cell s1 b (length xs + j))
                  (fun x => exists w w', value_construct w = (Some x, w')) m)
        as (zs & Hzlen & Hzs & HP).
      { intros j Hj. destruct (Hdst j Hj) as (x & Hx & Px).
        exists x. split; [|exact Px]. now rewrite Nat.add_0_r in Hx. }
      assert (Hv1 : vecs s1 !! this =
                Some {| data_ := {| buffer_ := at_ b 0; capacity_ := cap |};
                        size_ := Z.of_nat (length xs) |}).
      { destruct Hfr as [_ ->]. exact Hv. }
      rewrite (set_size_eq _ _ _ _ Hv1). cbn [data_ size_ buffer_ capacity_].
      exists zs. split; [subst m; lia|]. split; [exact HP|].
      apply (holds_rebuilt s s1 _ this (xs ++ zs) cap b _ Hl); auto.
      * apply full_block_length. exact Hle.
      * simpl. rewrite lookup_insert_eq. do 3 f_equal. rewrite length_app. subst m. lia.
      * rewrite length_app. subst m. lia.
      * intros j y Hj. destruct (decide (j < length xs)%nat) as [Hlt|Hge].
        -- rewrite lookup_app_l in Hj by lia. rewrite Hrest by lia. now apply Hlive.
        -- rewrite lookup_app_r in Hj by lia.
           replace j with (length xs + (j - length xs))%nat by lia. now apply Hzs.
      * intros j Hj. rewrite length_app in Hj. rewrite Hrest by lia. apply Hraw. lia.
    + destruct Hloop as (_ & Hfr & Hdst & Hrest).
      apply (holds_rebuilt s s1 s1 this xs cap b _ Hl); auto.
      * apply full_block_length. exact Hle.
      * destruct Hfr as [_ ->]. exact Hv.
      * intros j y Hj. apply lookup_lt_Some in Hj as Hlt.
        rewrite Hrest by lia. now apply Hlive.
      * intros j Hj. destruct (decide (j < length xs + m)%nat) as [Hlt|Hge].
        -- replace j with (length xs + (j - length xs))%nat by lia.
           apply Hdst. lia.
        -- rewrite Hrest by lia. apply Hraw. lia.
Qed.

(** [Resize(n)] at or above the size reserves [n] slots if the capacity is
    smaller and appends value-initialised elements up to size [n].  When it
    throws and the elements are transferred by copy or by a move that
    cannot throw, the vector still holds its elements with its size; if
    the failure came after the reallocation, the capacity is the new one. *)
Theorem Resize_grows_with_value_initialised_elements
    (s : state) (this : nat) (xs : list T) (cap n : Z) :
  holds s this xs cap -> Z.of_nat (length xs) <= n -> n * sizeof_T < SIZE_MODULUS ->
  match Resize this n s with
  | Normal _ s' =>
      exists zs, Z.of_nat (length xs + length zs) = n /\
        Forall (fun x => exists w w', value_construct w = (Some x, w')) zs /\
        holds s' this (xs ++ zs) (Z.max cap n)
  | Throw e s' =>
      transfer_cannot_throw_by_move ->
      (heap s' = heap s /\ vecs s' = vecs s) \/ holds s' this xs (Z.max cap n)
  | _ => False
  end.
Proof.
  intros Hholds Hn Hnfit.
  destruct (Hholds) as (v & Hv & Hsize & Hcap & _).
  unfold Resize.
  rewrite (bind_normal _ _ _ _ _ (get_size_eq _ _ _ Hv)). rewrite Hsize.
  replace (n <? Z.of_nat (length xs)) with false by (symmetry; apply Z.ltb_ge; lia).
  destruct (decide (n <= cap)) as [Hfits|Hmore].
  - (* the capacity suffices *)
    assert (Hres : Reserve this n s = Normal tt s).
    { unfold Reserve. rewrite (bind_normal _ _ _ _ _ (Capacity_eq _ _ _ Hv)).
      rewrite Hcap. now replace (n <=? cap) with true by (symmetry; apply Z.leb_le; lia). }
    pose proof (Resize_tail s this xs cap n Hholds ltac:(lia)) as Htail.
    replace (Z.max cap n) with cap by lia.
    rewrite (bind_bind_normal _ _ _ _ _ _ Hres). cbv beta.
    match type of Htail with
    | match ?r with _ => _ end => destruct r as [[] s1|e s1| |]
    end; try exact Htail. intros _. now right.
  - pose proof (Reserve_spec s this xs cap n Hholds ltac:(lia) Hnfit) as Hres.
    replace (Z.max cap n) with n by lia.
    destruct (Reserve this n s) as [[] s1|e s1| |] eqn:Hrun;
      [| |contradiction|contradiction].
    2:{ unfold bind at 1. unfold bind at 1. rewrite Hrun.
        intros Hsafe. left. destruct Hres as (Hvecs & _ & Hheap). auto. }
    destruct Hres as (b' & _ & _ & Hholds1 & _).
    pose proof (Resize_tail s1 this xs n n Hholds1 ltac:(lia)) as Htail.
    rewrite (bind_bind_normal _ _ _ _ _ _ Hrun). cbv beta.
    match type of Htail with
    | match ?r with _ => _ end => destruct r as [[] s2|e s2| |]
    end; try exact Htail. intros _. now right.
Qed.

(** [PopBack] on a non-empty vector. *)
Lemma PopBack_spec (s : state) (this : nat) (ys : list T) (x : T) (cap : Z) :
  holds s this (ys ++ [x]) cap ->
  exists s', PopBack this s = Normal tt s' /\
    holds s' this ys cap /\ world s' = destroy x (world s) /\
    begin this s' = match begin this s with Normal b _ => Normal b s' | r => r end /\
    (forall o, o <> this -> vecs s' !! o = vecs s !! o) /\
    (forall c, begin this s <> Normal (at_ c 0) s -> heap s' !! c = heap s !! c).
Proof.
  intros Hholds.
  apply holds_inv in Hholds as (buf & Hv & Hle & Hcap0 & Hfit & Hbuf).
  pose proof (capacity_small cap Hcap0 Hfit) as Hsmall.
  assert (Hmod : SIZE_MODULUS = 2 ^ 64) by reflexivity.
  rewrite length_app in *. simpl length in *.
  destruct Hbuf as [[_ ->]|(b & -> & Hpos & Hl & Hlive & Hraw)]; [simpl in Hle; lia|].
  unfold PopBack.
  rewrite (bind_normal _ _ _ _ _ (begin_eq _ _ _ Hv)).
  rewrite (bind_normal _ _ _ _ _ (get_size_eq _ _ _ Hv)).
  cbn [data_ size_ buffer_ capacity_].
  replace (ptr_add (ptr_add (at_ b 0) (Z.of_nat (length ys + 1))) (-1))
    with (at_ b (length ys)) by (unfold ptr_add, at_; simpl; f_equal; lia).
  assert (Hx : cell s b (length ys) = Some (Some x)).
  { apply Hlive. rewrite lookup_app_r by lia. now rewrite Nat.sub_diag. }
  rewrite (bind_normal _ _ _ _ _ (destroy_at_cell s b (length ys) x Hx)).
  set (s1 := set_slot _ _ _).
  assert (Hs1 : forall c j, cell s1 c j =
            if decide (c = b /\ j = length ys) then Some None else cell s c j).
  { intros c j. subst s1. rewrite cell_set_slot.
    - now rewrite cell_set_world.
    - rewrite cell_set_world, Hx. eauto. }
  assert (Hfr : same_frame s s1).
  { subst s1. etransitivity; [apply same_frame_set_world|apply same_frame_set_slot]. }
  assert (Hv1 : vecs s1 !! this =
            Some {| data_ := {| buffer_ := at_ b 0; capacity_ := cap |};
                    size_ := Z.of_nat (length ys + 1) |}).
  { destruct Hfr as [_ ->]. exact Hv. }
  rewrite (set_size_eq _ _ _ _ Hv1). cbn [data_ size_ buffer_ capacity_].
  rewrite wrap_small by lia.
  eexists. split; [reflexivity|]. split; [|split; [|split; [|split]]].
  - apply (holds_rebuilt s s1 _ this ys cap b _ Hl); auto.
    + rewrite length_app, length_fmap, length_replicate, length_app. simpl. lia.
    + simpl. rewrite lookup_insert_eq. do 3 f_equal. lia.
    + lia.
    + intros j y Hj. apply lookup_lt_Some in Hj as Hlt.
      rewrite Hs1, decide_False by lia. apply Hlive. now rewrite lookup_app_l by lia.
    + intros j Hj. rewrite Hs1. case_decide; [reflexivity|]. apply Hraw. lia.
  - subst s1. simpl. now rewrite set_slot_world.
  - rewrite (begin_eq _ _ _ Hv). erewrite begin_eq by (simpl; apply lookup_insert_eq).
    reflexivity.
  - intros o Ho. simpl. rewrite lookup_insert_ne by congruence.
    now destruct Hfr as [_ ->].
  - intros c Hc. rewrite (begin_eq _ _ _ Hv) in Hc. simpl in Hc. simpl.
    apply block_unchanged; [exact Hfr|]. intros j. rewrite Hs1.
    rewrite decide_False; [reflexivity|]. intros [-> _]. now apply Hc.
Qed.

(** [PopBack] on a non-empty vector destroys the last element and nothing
    else: the other elements, the block and the capacity stay, and so does
    every other vector. *)
Theorem PopBack_destroys_the_last_element
    (s : state) (this : nat) (ys : list T) (x : T) (cap : Z) :
  holds s this (ys ++ [x]) cap ->
  exists s', PopBack this s = Normal tt s' /\
    holds s' this ys cap /\ world s' = destroy x (world s) /\
    Size this s' = Normal (Z.of_nat (length ys)) s' /\
    Capacity this s' = Normal cap s' /\
    (forall other zs c, other <> this -> holds s other zs c ->
                        separate s other this -> holds s' other zs c).
Proof.
  intros Hholds.
  destruct (PopBack_spec s this ys x cap Hholds)
    as (s' & Hrun & Hthis & Hw & _ & Hvecs & Hheap).
  exists s'. split; [exact Hrun|]. split; [exact Hthis|]. split; [exact Hw|].
  destruct (Hthis) as (v' & Hv' & Hsize & Hcap & _).
  split; [unfold Size; now rewrite (get_size_eq _ _ _ Hv'), Hsize|].
  split; [now rewrite (Capacity_eq _ _ _ Hv'), Hcap|].
  intros other zs c Hne Hother Hsep.
  apply (holds_transfer s s' other other zs c Hother); [now apply Hvecs|].
  intros r b Hr Hb. apply Hheap.
  destruct Hholds as (v & Hv & _). rewrite (begin_eq _ _ _ Hv). intros [= Heq].
  destruct (Hsep r v Hr Hv) as [Hnull|Hdiff]; [congruence|].
  apply Hdiff. rewrite Hb, Heq. reflexivity.
Qed.

End Capacity.

(** * Checked and unchecked preconditions *)

Section Checks.
Context `{E : ElemType}.

(** [operator[]] checks the index against the size, not the capacity: an
    index below the size yields a reference to that element and changes
    nothing; any other index trips the assertion, also when the slot
    exists in the block. *)
Theorem subscript_is_checked_against_the_size
    (s : state) (this : nat) (xs : list T) (cap : Z) (index : nat) :
  holds s this xs cap ->
  match xs !! index with
  | Some x => exists p, Vector_at this (Z.of_nat index) s = Normal p s /\
                        load p s = Normal x s
  | None => Vector_at this (Z.of_nat index) s = AssertFail
  end.
Proof.
  intros Hholds.
  apply holds_inv in Hholds as (buf & Hv & Hle & Hcap0 & Hfit & Hbuf).
  destruct (xs !! index) as [x|] eqn:Hx.
  - apply lookup_lt_Some in Hx as Hlt.
    destruct Hbuf as [[_ ->]|(b & -> & _ & _ & Hlive & _)]; [simpl in Hle; lia|].
    exists (at_ b index). split.
    + unfold Vector_at.
      rewrite (bind_normal _ _ _ _ _ (get_size_eq _ _ _ Hv)).
      cbn [data_ size_ buffer_ capacity_].
      assert (H1 : (Z.of_nat index <? Z.of_nat (length xs)) = true)
        by (apply Z.ltb_lt; lia).
      assert (H2 : (Z.of_nat index <? cap) = true) by (apply Z.ltb_lt; lia).
      rewrite (bind_normal _ _ _ _ _ (assert_true _ s H1)).
      rewrite (bind_normal _ _ _ _ _ (get_data_eq _ _ _ Hv)).
      cbn [data_ size_ buffer_ capacity_]. unfold RawMemory_at.
      cbn [data_ size_ buffer_ capacity_].
      rewrite (bind_normal _ _ _ _ _ (assert_true _ s H2)).
      now rewrite ptr_add_at_nat.
    + apply load_cell. now apply Hlive.
  - apply lookup_ge_None in Hx.
    apply (Vector_at_out_of_range_asserts s this _ _ Hv). simpl. lia.
Qed.

(** [Erase] and [Emplace] assert their position: [Erase] at or past
    [end()] (so every [Erase] on an empty vector), [Emplace] past [end()],
    and both before [begin()], stop at the assertion before anything is
    changed. *)
Theorem positions_outside_the_range_assert
    (s : state) (this : nat) (xs : list T) (cap : Z) (i : Z) (b : ptr) :
  holds s this xs cap -> begin this s = Normal b s ->
  (i < 0 \/ Z.of_nat (length xs) <= i -> Erase this (ptr_add b i) s = AssertFail) /\
  (i < 0 \/ Z.of_nat (length xs) < i ->
   forall args, Emplace this (ptr_add b i) args s = AssertFail).
Proof.
  intros (v & Hv & Hsize & _) Hb.
  rewrite (begin_eq _ _ _ Hv) in Hb. injection Hb as <-. split.
  - intros Hi. unfold Erase.
    rewrite (bind_normal _ _ _ _ _ (begin_eq _ _ _ Hv)).
    rewrite (bind_normal _ _ _ _ _ (end_eq _ _ _ Hv)).
    destruct (ptr_ge _ _ && ptr_lt _ _) eqn:Hc; [|reflexivity].
    apply ptr_within in Hc. simpl in Hc. lia.
  - intros Hi args. unfold Emplace.
    rewrite (bind_normal _ _ _ _ _ (begin_eq _ _ _ Hv)).
    rewrite (bind_normal _ _ _ _ _ (end_eq _ _ _ Hv)).
    destruct (ptr_ge _ _ && ptr_le _ _) eqn:Hc; [|reflexivity].
    apply ptr_between in Hc. simpl in Hc. lia.
Qed.

(** Move assignment onto a vector that owns a block neither destroys its
    elements nor releases the block: afterwards the block is still
    allocated with the old elements alive in it, no destructor has run,
    and neither vector refers to it. *)
Theorem move_assignment_abandons_the_old_block
    (s : state) (this rhs : nat) (xs rs : list T) (cap rcap : Z) (b : nat) :
  this <> rhs ->
  holds s this xs cap -> holds s rhs rs rcap -> separate s this rhs ->
  begin this s = Normal (at_ b 0) s ->
  exists s', Vector_move_assign this rhs s = Normal tt s' /\
    heap s' = heap s /\ world s' = world s /\
    holds s' this rs rcap /\ holds s' rhs [] 0 /\
    is_Some (heap s' !! b) /\
    (forall k x, xs !! k = Some x -> cell s' b k = Some (Some x)) /\
    begin this s' <> Normal (at_ b 0) s' /\ begin rhs s' <> Normal (at_ b 0) s'.
Proof.
  intros Hne Hthis Hrhs Hsep Hb.
  destruct Hthis as (va & Hva & Hthis). destruct Hrhs as (vr & Hvr & Hrhs).
  rewrite (begin_eq _ _ _ Hva) in Hb. injection Hb as Hb.
  rewrite (Vector_move_assign_spec s this rhs va vr Hva Hvr Hne).
  set (s' := set_vecs _ s).
  assert (Hva' : vecs s' !! this = Some vr) by (subst s'; simpl; apply lookup_insert_eq).
  assert (Hvr' : vecs s' !! rhs = Some {| data_ := RawMemory_default; size_ := 0 |}).
  { subst s'. simpl. rewrite lookup_insert_ne by congruence. apply lookup_insert_eq. }
  exists s'. split; [reflexivity|]. split; [reflexivity|]. split; [reflexivity|].
  split; [|split; [|split; [|split; [|split]]]].
  - exists vr. split; [exact Hva'|exact Hrhs].
  - eexists. split; [exact Hvr'|]. simpl. split; [reflexivity|].
    split; [reflexivity|]. split; [reflexivity|]. split; [discriminate|]. simpl. auto.
  - destruct Hthis as (_ & _ & _ & _ & Hown). rewrite Hb in Hown. simpl in Hown.
    destruct Hown as (_ & Hl & _). subst s'. simpl. eauto.
  - intros k x Hx.
    assert (Hh : holds s this xs cap) by (exists va; auto).
    apply holds_inv in Hh as (buf & Hv & _ & _ & _ & Hbuf).
    rewrite Hva in Hv. injection Hv as ->. simpl in Hb. subst buf.
    destruct Hbuf as [[Hnull _]|(b0 & Hb0 & _ & _ & Hlive & _)]; [discriminate|].
    injection Hb0 as <-. subst s'. rewrite cell_set_vecs. now apply Hlive.
  - rewrite (begin_eq _ _ _ Hva'). intros [= Heq].
    destruct (Hsep va vr Hva Hvr) as [Hnull|Hdiff].
    + rewrite Hb in Hnull. discriminate.
    + apply Hdiff. now rewrite Hb, Heq.
  - rewrite (begin_eq _ _ _ Hvr'). discriminate.
Qed.

(** The slots [operator new] is asked for: [RawMemory(capacity)] multiplies
    in [size_t], so when [capacity * sizeof(T)] does not fit the block is
    shorter than the capacity recorded for it. *)
Theorem allocation_size_wraps_around (s s' : state) (c : Z) (rm : RawMemory) :
  0 < c -> SIZE_MODULUS <= c * sizeof_T ->
  RawMemory_ctor c s = Normal rm s' ->
  capacity_ rm = c /\
  exists b l, buffer_ rm = at_ b 0 /\ heap s' !! b = Some l /\ Z.of_nat (length l) < c.
Proof.
  intros Hc Hbig Hrun.
  apply RawMemory_ctor_normal_inv in Hrun as (Hcap & _ & _ & Hbuf).
  split; [exact Hcap|].
  destruct Hbuf as [(H0 & _)|(_ & Hb & Hheap)]; [lia|].
  eexists _, _. split; [exact Hb|]. split; [rewrite Hheap; apply lookup_insert_eq|].
  rewrite length_replicate.
  pose proof sizeof_T_range as [Hpos _].
  assert (Hw : 0 <= wrap (c * sizeof_T) < SIZE_MODULUS).
  { unfold wrap. apply Z.mod_pos_bound. reflexivity. }
  assert (Hdiv : wrap (c * sizeof_T) / sizeof_T < c).
  { apply Z.div_lt_upper_bound; [lia|]. lia. }
  assert (0 <= wrap (c * sizeof_T) / sizeof_T) by (apply Z.div_pos; lia).
  lia.
Qed.

Lemma cell_exists_same_frame (s s' : state) b k :
  same_frame s s' -> is_Some (cell s' b k) -> is_Some (cell s b k).
Proof.
  intros [Hshape Hvecs] [o Ho]. unfold cell in *.
  destruct (heap s' !! b) as [l'|] eqn:Hl'; [|discriminate].
  assert (Hfr : same_frame s' s) by (split; congruence).
  destruct (same_frame_block s' s b l' Hfr Hl') as (l & -> & Hlen & _).
  apply lookup_lt_is_Some_2. rewrite Hlen. now apply lookup_lt_Some in Ho.
Qed.

Lemma value_construct_at_normal_inv p (s s' : state) :
  value_construct_at p s = Normal tt s' -> is_Some (slot_at s p) /\ same_frame s s'.
Proof.
  unfold value_construct_at, bind, elem_value_construct.
  destruct (value_construct (world s)) as [[x|] w]; [|discriminate].
  unfold construct_at. rewrite slot_at_set_world.
  destruct (slot_at s p) as [o|]; [|discriminate].
  intros [= <-]. split; [eauto|].
  etransitivity; [apply same_frame_set_world|apply same_frame_set_slot].
Qed.

(** [std::uninitialized_value_construct_n] completes only if every
    destination slot exists. *)
Lemma value_loop_needs_cells first bd j0 :
  forall (count i : nat) (s s' : state),
    uninitialized_loop (fun dst _ => value_construct_at dst) first (at_ bd j0)
      (Z.of_nat i) count s = Normal tt s' ->
    forall k, (k < count)%nat -> is_Some (cell s bd (j0 + i + k)).
Proof.
  induction count as [|count IH]; intros i s s' Hrun k Hk; [lia|].
  simpl in Hrun. apply bind_normal_inv in Hrun as ([] & s1 & Hstep & Hrest).
  apply on_throw_normal_inv in Hstep. rewrite ptr_add_at_nat in Hstep.
  apply value_construct_at_normal_inv in Hstep as [Hslot Hfr].
  rewrite slot_at_cell in Hslot.
  destruct k as [|k]; [now rewrite Nat.add_0_r|].
  replace (Z.of_nat i + 1) with (Z.of_nat (S i)) in Hrest by lia.
  apply (cell_exists_same_frame s s1 _ _ Hfr).
  replace (j0 + i + S k)%nat with (j0 + S i + k)%nat by lia.
  apply (IH (S i) s1 s' Hrest). lia.
Qed.

(** [Vector(size)] with [size * sizeof(T)] beyond [size_t] never completes:
    the block is shorter than [size] slots, so the constructor either
    stops with an exception or constructs an element outside the block. *)
Theorem sized_constructor_overruns_a_wrapped_allocation
    (s : state) (this : nat) (n : Z) :
  0 < n -> SIZE_MODULUS <= n * sizeof_T ->
  forall s', Vector_sized this n s <> Normal tt s'.
Proof.
  intros Hn Hbig s' Hrun. unfold Vector_sized in Hrun.
  apply bind_normal_inv in Hrun as (rm & s0 & Hctor & Hrun).
  apply bind_normal_inv in Hrun as ([] & s1 & Hloop & _).
  apply on_throw_normal_inv in Hloop.
  apply RawMemory_ctor_normal_inv in Hctor as (_ & _ & _ & Hbuf).
  destruct Hbuf as [(H0 & _)|(_ & Hb & Hheap)]; [lia|].
  unfold uninitialized_value_construct_n, GetAddress in Hloop. rewrite Hb in Hloop.
  set (b' := fresh (dom (heap s))) in *.
  change {| blk := Some b'; off := 0 |} with (at_ b' 0) in Hloop.
  pose proof (value_loop_needs_cells (at_ b' 0) b' 0 (Z.to_nat n) 0 s0 s1 Hloop
                (Z.to_nat n - 1) ltac:(lia)) as [o Hcell].
  unfold cell in Hcell. rewrite Hheap, lookup_insert_eq in Hcell.
  apply lookup_lt_Some in Hcell. rewrite length_replicate in Hcell.
  pose proof sizeof_T_range as [Hpos _].
  assert (Hw : 0 <= wrap (n * sizeof_T) < SIZE_MODULUS).
  { unfold wrap. apply Z.mod_pos_bound. reflexivity. }
  assert (Hdiv : wrap (n * sizeof_T) / sizeof_T < n).
  { apply Z.div_lt_upper_bound; [lia|]. lia. }
  assert (0 <= wrap (n * sizeof_T) / sizeof_T) by (apply Z.div_pos; lia).
  lia.
Qed.

End Checks.

(** * Construction from a forwarded argument *)

Section ForwardingSteps.
Context `{E : ElemType} {HR : Regular}.

Lemma copy_construct_at_exact (s : state) bd kd bs ks v o :
  cell s bs ks = Some (Some v) -> cell s bd kd = Some o ->
  copy_construct_at (at_ bd kd) (at_ bs ks) s =
  match copy_construct v (world s) with
  | (Some x, w) => Normal tt (set_slot (at_ bd kd) (Some x) (set_world w s))
  | (None, w) => Throw ElementException (set_world w s)
  end.
Proof.
  intros Hv Hd. unfold copy_construct_at.
  rewrite (bind_normal _ _ _ _ _ (load_cell _ _ _ _ Hv)).
  unfold bind, elem_copy_construct.
  destruct (copy_construct v (world s)) as [[x|] w]; [|reflexivity].
  apply (construct_at_cell _ _ _ o). now rewrite cell_set_world.
Qed.

(** The new element is placed into a raw slot. *)
Lemma construct_forwarded_at_spec (s : state) (a : forwarded) bd kd :
  cell s bd kd = Some None -> readable s a ->
  match construct_forwarded_at (at_ bd kd) a s with
  | Normal _ s' =>
      exists x w, forwarded_from s a x /\
        s' = set_slot (at_ bd kd) (Some x) (set_world w s)
  | Throw _ s' => exists w, s' = set_world w s
  | _ => False
  end.
Proof.
  intros Hd Hread. destruct a as [args|value]; simpl.
  - unfold emplace_at, bind, elem_construct.
    destruct (construct args (world s)) as [[x|] w] eqn:Hc; [|eauto].
    rewrite (construct_at_cell _ _ _ None) by (now rewrite cell_set_world).
    exists x, w. split; [eauto|reflexivity].
  - destruct Hread as (bv & kv & v & -> & Hv).
    rewrite (copy_construct_at_exact s bd kd bv kv v None Hv Hd).
    destruct (copy_construct v (world s)) as [[x|] w] eqn:Hc; [|eauto].
    exists x, w. split; [|reflexivity].
    exists bv, kv. split; [reflexivity|].
    now rewrite (copy_construct_value _ _ _ _ Hc).
Qed.

(** The temporary built from the argument. *)
Lemma elem_construct_forwarded_spec (s : state) (a : forwarded) :
  readable s a ->
  match elem_construct_forwarded a s with
  | Normal x s' => forwarded_from s a x /\ exists w, s' = set_world w s
  | Throw _ s' => exists w, s' = set_world w s
  | _ => False
  end.
Proof.
  intros Hread. destruct a as [args|value]; simpl.
  - unfold elem_construct.
    destruct (construct args (world s)) as [[x|] w] eqn:Hc; eauto.
  - destruct Hread as (bv & kv & v & -> & Hv).
    rewrite (bind_normal _ _ _ _ _ (load_cell _ _ _ _ Hv)).
    unfold elem_copy_construct.
    destruct (copy_construct v (world s)) as [[x|] w] eqn:Hc; [|eauto].
    split; [|eauto]. exists bv, kv. split; [reflexivity|].
    now rewrite (copy_construct_value _ _ _ _ Hc).
Qed.

(** Assignment of the temporary to a live element. *)
Lemma assign_forwarded_at_spec (s : state) (rm : RawMemory) b k (a : forwarded) d :
  buffer_ rm = at_ b 0 -> Z.of_nat k < capacity_ rm ->
  cell s b k = Some (Some d) -> readable s a ->
  match assign_forwarded_at (RawMemory_at rm (Z.of_nat k)) a s with
  | Normal _ s' =>
      same_frame s s' /\
      (exists x, forwarded_from s a x /\ cell s' b k = Some (Some x)) /\
      (forall c j, ~ (c = b /\ j = k) -> cell s' c j = cell s c j)
  | Throw _ _ => True
  | _ => False
  end.
Proof.
  intros Hbuf Hk Hd Hread. unfold assign_forwarded_at.
  pose proof (elem_construct_forwarded_spec s a Hread) as Htemp.
  unfold bind at 1.
  destruct (elem_construct_forwarded a s) as [x s0|e s0| |];
    [|exact I|contradiction|contradiction].
  destruct Htemp as (Hx & w & ->).
  unfold bind at 1. unfold RawMemory_at, bind at 1, assert_.
  apply Z.ltb_lt in Hk. rewrite Hk. unfold ret. rewrite Hbuf, ptr_add_at_nat. simpl.
  assert (Hd' : cell (set_world w s) b k = Some (Some d)) by exact Hd.
  rewrite (bind_normal _ _ _ _ _ (load_cell _ _ _ _ Hd')). simpl.
  destruct (move_assign d x w) as [[[d' t'] ok] w2] eqn:Hma.
  destruct ok;
    rewrite (bind_normal _ _ _ _ _
               (store_cell (set_world w2 (set_world w s)) _ _ _ d' Hd'));
    [|exact I].
  unfold elem_destroy. split; [|split].
  - etransitivity; [|apply same_frame_set_world].
    etransitivity; [|apply same_frame_set_slot]. now split.
  - exists x. split; [exact Hx|].
    rewrite cell_set_world, cell_set_slot_same by (eexists; exact Hd).
    do 2 f_equal. eapply move_assign_value. exact Hma.
  - intros c j Hout. rewrite cell_set_world.
    rewrite cell_set_slot by (eexists; exact Hd).
    now rewrite decide_False by exact Hout.
Qed.

End ForwardingSteps.

(** * Insertion without reallocation, for any forwarded argument *)

Section InsertInPlace.
Context `{E : ElemType} {HR : Regular}.

Lemma Emplace_forwarded_in_place (s : state) (this : nat) (xs : list T) (cap : Z)
    (i : nat) (a : forwarded) b :
  vecs s !! this = Some {| data_ := {| buffer_ := at_ b 0; capacity_ := cap |};
                           size_ := Z.of_nat (length xs) |} ->
  Z.of_nat (length xs) < cap -> (i <= length xs)%nat ->
  (forall k x, xs !! k = Some x -> cell s b k = Some (Some x)) ->
  (forall k, (length xs <= k < Z.to_nat cap)%nat -> cell s b k = Some None) ->
  (forall k x, cell s b k = Some (Some x) -> (k < length xs)%nat) ->
  readable s a ->
  match
    (if negb (Z.of_nat (length xs) =? Z.of_nat i) then
       move_construct_at (ptr_add (at_ b 0) (Z.of_nat (length xs)))
         (ptr_add (ptr_add (at_ b 0) (Z.of_nat (length xs))) (-1)) ;;
       move_backward (ptr_add (at_ b 0) (Z.of_nat i))
         (ptr_add (ptr_add (at_ b 0) (Z.of_nat (length xs))) (-1))
         (ptr_add (at_ b 0) (Z.of_nat (length xs))) ;;
       let* d := get_data this in
       assign_forwarded_at (RawMemory_at d (Z.of_nat i)) a
     else construct_forwarded_at (ptr_add (at_ b 0) (Z.of_nat i)) a) s
  with
  | Normal _ s' =>
      same_frame s s' /\
      exists x, inserted_in_place s b i xs a x /\
        (forall k y, (take i xs ++ x :: drop i xs) !! k = Some y ->
                     cell s' b k = Some (Some y)) /\
        (forall k, (length xs < k)%nat -> cell s' b k = cell s b k) /\
        (forall c k, c <> b -> cell s' c k = cell s c k)
  | Throw _ _ => True
  | _ => False
  end.
Proof.
  intros Hv Hroom Hi Hlive Hraw Hdead Hread. rewrite !ptr_add_at_nat. simpl (0 + _)%nat.
  destruct (decide (i = length xs)) as [->|Hne].
  - (* at the end *)
    rewrite Z.eqb_refl. change (negb true) with false. cbv iota.
    assert (Hd : cell s b (length xs) = Some None) by (apply Hraw; lia).
    pose proof (construct_forwarded_at_spec s a b (length xs) Hd Hread) as Hnew.
    destruct (construct_forwarded_at (at_ b (length xs)) a s) as [[] s1|e s1| |];
      [|exact I|contradiction|contradiction].
    destruct Hnew as (x & w & Hx & ->).
    assert (Hd' : is_Some (cell (set_world w s) b (length xs))).
    { rewrite cell_set_world, Hd. eauto. }
    split.
    { etransitivity; [apply same_frame_set_world|apply same_frame_set_slot]. }
    exists x. split; [|split; [|split]].
    + destruct a as [args|value]; [exact Hx|].
      destruct Hx as (bv & kv & -> & Hx). exists bv, kv. split; [reflexivity|].
      destruct (decide (bv = b /\ (length xs < kv)%nat)) as [[-> Hk]|Hk1].
      { apply Hdead in Hx. lia. }
      destruct (decide (bv = b /\ kv = length xs)); [exact I|exact Hx].
    + intros k y Hy. rewrite cell_set_slot by exact Hd'. rewrite cell_set_world.
      rewrite lookup_inserted in Hy by lia.
      destruct (decide (k < length xs)%nat).
      * rewrite decide_False by lia. now apply Hlive.
      * destruct (decide (k = length xs)) as [->|].
        -- rewrite decide_True by auto. congruence.
        -- apply lookup_lt_Some in Hy. lia.
    + intros k Hk. rewrite cell_set_slot by exact Hd'. rewrite cell_set_world.
      now rewrite decide_False by lia.
    + intros c k Hc. rewrite cell_set_slot by exact Hd'. rewrite cell_set_world.
      now rewrite decide_False by (intros [? _]; congruence).
  - (* in the middle: make room *)
    replace (Z.of_nat (length xs) =? Z.of_nat i) with false
      by (symmetry; apply Z.eqb_neq; lia).
    change (negb false) with true. cbv iota.
    destruct (length xs) as [|m] eqn:Hlen; [lia|].
    rewrite ptr_add_at_pred.
    assert (Hm : exists v, xs !! m = Some v) by (apply lookup_lt_is_Some_2; lia).
    destruct Hm as [v Hxm].
    assert (Hsrc : cell s b m = Some (Some v)) by now apply Hlive.
    assert (Hdst : cell s b (S m) = Some None) by (apply Hraw; lia).
    pose proof (move_construct_at_transfer s b (S m) b m v None Hsrc Hdst) as Hstep.
    unfold bind at 1.
    destruct (move_construct_at (at_ b (S m)) (at_ b m) s) as [[] s1|e s1| |];
      [|exact I|contradiction|contradiction].
    destruct Hstep as (x0 & v' & w & -> & Hx0). specialize (Hx0 HR). subst x0.
    set (s0 := set_slot (at_ b m) (Some v') (set_world w s)).
    assert (Hs0 : forall c k, cell s0 c k =
              if decide (c = b /\ k = m) then Some (Some v') else cell s c k).
    { intros c k. subst s0. rewrite cell_set_slot; [reflexivity|].
      rewrite cell_set_world, Hsrc. eauto. }
    set (s1 := set_slot (at_ b (S m)) (Some v) s0).
    assert (Hs1 : forall c k, cell s1 c k =
              if decide (c = b /\ k = S m) then Some (Some v) else cell s0 c k).
    { intros c k. subst s1. rewrite cell_set_slot; [reflexivity|].
      rewrite Hs0, decide_False by lia. rewrite Hdst. eauto. }
    assert (Hfr1 : same_frame s s1).
    { subst s1 s0. etransitivity; [apply same_frame_set_world|].
      etransitivity; apply same_frame_set_slot. }
    (* shift the elements from [i] on *)
    set (ys := take (m - i) (drop i xs)).
    assert (Hys : length ys = (m - i)%nat).
    { subst ys. rewrite length_take, length_drop. lia. }
    unfold move_backward, distance. simpl off.
    replace (Z.to_nat (Z.of_nat m - Z.of_nat i)) with (length ys) by lia.
    pose proof (move_backward_loop_spec b i ys s1) as Hshift.
    assert (Hpre1 : forall k y, ys !! k = Some y -> cell s1 b (i + k) = Some (Some y)).
    { intros k y Hy. subst ys. apply lookup_take_Some in Hy as [Hy Hk].
      rewrite lookup_drop in Hy. rewrite Hs1, Hs0, !decide_False by lia.
      now apply Hlive. }
    assert (Hpre2 : exists m1, cell s1 b (i + length ys) = Some (Some m1)).
    { exists v'. rewrite Hs1, decide_False by lia.
      rewrite Hs0, decide_True by (split; [auto|lia]). reflexivity. }
    specialize (Hshift Hpre1 Hpre2).
    replace (i + length ys)%nat with m in Hshift by lia.
    unfold bind at 1.
    destruct (move_backward_loop (at_ b m) (at_ b (S m)) (length ys) s1)
      as [[] s2|e s2| |]; [|exact I|contradiction|contradiction].
    destruct Hshift as (Hfr2 & Hshifted & [m0 Hm0] & Hrest2).
    (* what the cells hold when the argument is evaluated *)
    assert (Hafter : forall k, (i < k <= S m)%nat -> cell s2 b k = (Some <$> xs !! (k - 1)%nat)).
    { intros k Hk. destruct (decide (k = S m)) as [->|Hkm].
      - rewrite Hrest2 by lia. rewrite Hs1, decide_True by auto.
        replace (S m - 1)%nat with m by lia. now rewrite Hxm.
      - destruct (lookup_lt_is_Some_2 xs (k - 1)) as [y Hy]; [lia|]. rewrite Hy. simpl.
        replace k with (S (i + (k - 1 - i)))%nat by lia.
        apply Hshifted. subst ys. apply lookup_take_Some. split; [|lia].
        rewrite lookup_drop. now replace (i + (k - 1 - i))%nat with (k - 1)%nat by lia. }
    assert (Hbefore : forall c k, ~ (c = b /\ (i <= k <= S m)%nat) ->
              cell s2 c k = cell s c k).
    { intros c k Hk. rewrite Hrest2 by lia. rewrite Hs1, Hs0, !decide_False by lia.
      reflexivity. }
    assert (Hread2 : readable s2 a).
    { destruct a as [args|value]; [exact I|].
      destruct Hread as (bv & kv & u & -> & Hu).
      destruct (decide (bv = b /\ (i <= kv <= S m)%nat)) as [[-> Hk]|Hk].
      - destruct (decide (kv = i)) as [->|Hki].
        + exists b, i, m0. auto.
        + destruct (lookup_lt_is_Some_2 xs (kv - 1)) as [y Hy]; [lia|].
          exists b, kv, y. split; [reflexivity|]. rewrite Hafter by lia. now rewrite Hy.
      - exists bv, kv, u. split; [reflexivity|]. now rewrite Hbefore. }
    (* assign the new element *)
    assert (Hv2 : vecs s2 !! this =
              Some {| data_ := {| buffer_ := at_ b 0; capacity_ := cap |};
                      size_ := Z.of_nat (S m) |}).
    { destruct Hfr2 as [_ ->]. destruct Hfr1 as [_ ->]. exact Hv. }
    rewrite (bind_normal _ _ _ _ _ (get_data_eq _ _ _ Hv2)). simpl data_.
    pose proof (assign_forwarded_at_spec s2 {| buffer_ := at_ b 0; capacity_ := cap |}
                  b i a m0 eq_refl ltac:(simpl; lia) Hm0 Hread2) as Hassign.
    destruct (assign_forwarded_at _ a s2) as [[] s3|e s3| |];
      [|exact I|contradiction|contradiction].
    destruct Hassign as (Hfr3 & (x & Hx & Hxi) & Hrest3).
    split; [etransitivity; [exact Hfr1|etransitivity; eauto]|].
    exists x. split; [|split; [|split]].
    + destruct a as [args|value]; [exact Hx|].
      destruct Hx as (bv & kv & -> & Hx). exists bv, kv. split; [reflexivity|].
      destruct (decide (bv = b /\ (i < kv)%nat)) as [[-> Hk]|Hk1].
      { assert (Hkv : (kv <= S m)%nat).
        { destruct (decide (kv <= S m)%nat) as [|Hgt]; [assumption|].
          rewrite Hbefore in Hx by lia. apply Hdead in Hx. lia. }
        rewrite Hafter in Hx by lia.
        destruct (xs !! (kv - 1)%nat); [|discriminate]. simpl in Hx. congruence. }
      destruct (decide (bv = b /\ kv = i)); [exact I|].
      rewrite Hbefore in Hx; [exact Hx|]. intros [-> Hk]. 
      destruct (decide (kv = i)); [tauto|]. apply Hk1. split; [reflexivity|lia].
    + intros k y Hy. rewrite lookup_inserted in Hy by lia.
      destruct (decide (k < i)%nat) as [Hlt|Hge].
      * rewrite Hrest3, Hbefore by lia. now apply Hlive.
      * destruct (decide (k = i)) as [->|Hki]; [congruence|].
        rewrite Hrest3 by lia.
        assert (Hk : (k <= S m)%nat) by (apply lookup_lt_Some in Hy; lia).
        rewrite Hafter by lia. now rewrite Hy.
    + intros k Hk. rewrite Hrest3, Hbefore by lia. reflexivity.
    + intros c k Hc. rewrite Hrest3 by (intros [? _]; congruence).
      apply Hbefore. intros [? _]. congruence.
Qed.

End InsertInPlace.

(** * Insertion with reallocation, for any forwarded argument *)

Section InsertGrowing.
Context `{E : ElemType} {HR : Regular}.

(** The existing elements are transferred around the new element, which is
    already in its slot [i] of the new block [b'].  When a transfer throws,
    the new block is raw again as far as the elements of the old one are
    concerned: under a transfer that copies, or moves without throwing, no
    cell outside the new block has changed. *)
Lemma transfer_around_new_element (s : state) (xs : list T) (i : nat) (x : T) buf b'
    (c : nat) :
  (i <= length xs)%nat -> (length xs < c)%nat ->
  Z.of_nat (length xs) < SIZE_MODULUS - 1 ->
  cell s b' i = Some (Some x) ->
  (forall k, (k < c)%nat -> k <> i -> cell s b' k = Some None) ->
  (buf = nullptr /\ xs = [] \/
   exists b, buf = at_ b 0 /\ b <> b' /\
     forall k y, xs !! k = Some y -> cell s b k = Some (Some y)) ->
  match
    (on_throw (InitializeRawMemory buf (Z.of_nat i) (at_ b' 0))
              (destroy_at (ptr_add (at_ b' 0) (Z.of_nat i))) ;;
     on_throw (InitializeRawMemory (ptr_add buf (Z.of_nat i))
                 (wrap (Z.of_nat (length xs) - Z.of_nat i))
                 (ptr_add (ptr_add (at_ b' 0) (Z.of_nat i)) 1))
              (destroy_n (at_ b' 0) (wrap (Z.of_nat i + 1)))) s
  with
  | Normal _ s' =>
      same_frame s s' /\
      (forall k y, (take i xs ++ x :: drop i xs) !! k = Some y ->
                   cell s' b' k = Some (Some y)) /\
      (forall k, (length xs < k)%nat -> cell s' b' k = cell s b' k) /\
      (forall d k v, d <> b' -> cell s d k = Some (Some v) ->
                     exists v', cell s' d k = Some (Some v')) /\
      (forall d k, d <> b' -> Some d <> blk buf -> cell s' d k = cell s d k)
  | Throw _ s' =>
      same_frame s s' /\
      (transfer_cannot_throw_by_move ->
       forall d k, d <> b' -> cell s' d k = cell s d k)
  | _ => False
  end.
Proof.
  intros Hi Hc Hn Hnew Hraw Hsrc.
  rewrite !ptr_add_at_nat, ptr_add_at_1. simpl (0 + _)%nat.
  rewrite (wrap_small (Z.of_nat i + 1)) by lia.
  rewrite (wrap_small (Z.of_nat (length xs) - Z.of_nat i)) by lia.
  (* the elements before the new one *)
  assert (Hlen_head : length (take i xs) = i) by (rewrite length_take; lia).
  pose proof (InitializeRawMemory_guarded s buf b' 0 (take i xs)) as Hhead.
  rewrite Hlen_head in Hhead. simpl (0 + _)%nat in Hhead.
  assert (Hsrc_head : take i xs = [] \/
            exists bs i0, buf = at_ bs i0 /\ bs <> b' /\
              forall k v, take i xs !! k = Some v ->
                          cell s bs (i0 + k) = Some (Some v)).
  { destruct Hsrc as [[_ ->]|(b & -> & Hne & Hlive)]; [left; now destruct i|].
    right. exists b, 0%nat. split; [reflexivity|]. split; [exact Hne|].
    intros k v Hv. apply lookup_take_Some in Hv as [Hv _]. simpl. now apply Hlive. }
  assert (Hraw_head : forall k, (k < i)%nat -> cell s b' k = Some None).
  { intros k Hk. apply Hraw; lia. }
  specialize (Hhead Hsrc_head Hraw_head).
  unfold bind at 1. unfold on_throw at 1.
  destruct (InitializeRawMemory buf (Z.of_nat i) (at_ b' 0) s)
    as [[] s3|e s3| |]; [| |contradiction|contradiction].
  2:{ (* the transfer failed: the new element is destroyed *)
    destruct Hhead as (Hfr3 & Hsame & Hsafe3).
    assert (Hnew3 : cell s3 b' i = Some (Some x)) by (now rewrite Hsame).
    rewrite (destroy_at_cell _ _ _ _ Hnew3). split.
    - etransitivity; [exact Hfr3|].
      etransitivity; [apply same_frame_set_world|apply same_frame_set_slot].
    - intros Hsafe d k Hd. rewrite cell_set_slot by (rewrite cell_set_world, Hnew3; eauto).
      rewrite decide_False by (intros [? _]; congruence).
      rewrite cell_set_world. apply (proj2 (Hsafe3 Hsafe)). }
  destruct Hhead as (Hfr3 & Hhead & Hout3 & Hlive3 & Hkeep3 & Hcopy3).
  (* the elements after the new one *)
  assert (Hlen_tail : length (drop i xs) = (length xs - i)%nat) by apply length_drop.
  pose proof (InitializeRawMemory_guarded s3 (ptr_add buf (Z.of_nat i)) b' (S i)
                (drop i xs)) as Htail.
  rewrite Hlen_tail in Htail.
  replace (Z.of_nat (length xs - i)) with (Z.of_nat (length xs) - Z.of_nat i)
    in Htail by lia.
  assert (Hsrc_tail : drop i xs = [] \/
            exists bs i0, ptr_add buf (Z.of_nat i) = at_ bs i0 /\ bs <> b' /\
              forall k v, drop i xs !! k = Some v ->
                          cell s3 bs (i0 + k) = Some (Some v)).
  { destruct Hsrc as [[_ ->]|(b & -> & Hne & Hlive)]; [left; now destruct i|].
    right. exists b, i. split; [now rewrite ptr_add_at_nat|]. split; [exact Hne|].
    intros k v Hv. rewrite lookup_drop in Hv.
    rewrite Hkeep3; [|exact Hne|intros [_ Hk]; simpl in Hk; lia].
    now apply Hlive. }
  assert (Hraw_tail : forall k, (k < length xs - i)%nat ->
            cell s3 b' (S i + k) = Some None).
  { intros k Hk. rewrite Hout3 by lia. apply Hraw; lia. }
  specialize (Htail Hsrc_tail Hraw_tail).
  unfold on_throw.
  destruct (InitializeRawMemory (ptr_add buf (Z.of_nat i))
              (Z.of_nat (length xs) - Z.of_nat i) (at_ b' (S i)) s3)
    as [[] s4|e s4| |]; [| |contradiction|contradiction].
  2:{ (* the transfer failed: what the new block holds is destroyed *)
    destruct Htail as (Hfr4 & Hsame & Hsafe4).
    replace (Z.of_nat i + 1) with (Z.of_nat (S i)) by lia.
    destruct (destroy_n_live s4 (at_ b' 0) (S i)) as (s5 & -> & Hfr5 & Hout5 & _).
    { right. exists b', 0%nat. split; [reflexivity|]. intros k Hk. rewrite Hsame.
      destruct (decide (k = i)) as [->|Hki].
      - exists x. rewrite Hout3 by lia. exact Hnew.
      - destruct (lookup_lt_is_Some_2 (take i xs) k) as [y Hy]; [lia|].
        exists y. now apply (Hhead k y). }
    split.
    - etransitivity; [exact Hfr3|]. etransitivity; eauto.
    - intros Hsafe d k Hd. rewrite Hout5 by (simpl; congruence).
      destruct (Hsafe4 Hsafe) as [Hmode Hall]. rewrite Hall.
      now apply Hcopy3. }
  destruct Htail as (Hfr4 & Htail & Hout4 & Hlive4 & Hkeep4 & _).
  split; [etransitivity; eauto|]. split; [|split; [|split]].
  - intros k y Hy.
    rewrite lookup_inserted in Hy by lia.
    destruct (decide (k < i)%nat) as [Hlt|Hge].
    + rewrite Hout4 by lia. apply (Hhead k y). now apply lookup_take_Some.
    + destruct (decide (k = i)) as [->|Hki].
      * rewrite Hout4, Hout3 by lia. congruence.
      * replace k with (S i + (k - 1 - i))%nat by lia. apply Htail.
        rewrite lookup_drop. now replace (i + (k - 1 - i))%nat with (k - 1)%nat by lia.
  - intros k Hk. rewrite Hout4, Hout3 by lia. reflexivity.
  - intros d k v Hd0 Hv.
    destruct (Hlive3 d k v Hd0 Hv) as [v3 Hv3].
    exact (Hlive4 d k v3 Hd0 Hv3).
  - intros d k Hd Hbuf. rewrite Hkeep4, Hkeep3; auto.
    + intros [Heq _]. now apply Hbuf.
    + intros [Heq _]. apply Hbuf. rewrite Heq. reflexivity.
Qed.

(** [Emplace] with any forwarded argument at index [i <= size] of a valid
    vector. *)
Lemma Emplace_forwarded_spec (s : state) (this : nat) (xs : list T) (cap : Z)
    (i : nat) (a : forwarded) (b : ptr) :
  holds s this xs cap -> (i <= length xs)%nat -> begin this s = Normal b s ->
  readable s a ->
  match Emplace_forwarded this (ptr_add b (Z.of_nat i)) a s with
  | Normal p s' =>
      exists x b',
        (if decide (Z.of_nat (length xs) = cap) then forwarded_from s a x
         else exists b0, b = at_ b0 0 /\ inserted_in_place s b0 i xs a x) /\
        holds s' this (take i xs ++ x :: drop i xs)
          (if decide (Z.of_nat (length xs) = cap) then Z.max 1 (2 * cap) else cap) /\
        begin this s' = Normal b' s' /\ p = ptr_add b' (Z.of_nat i) /\
        (Z.of_nat (length xs) <> cap -> b' = b) /\
        (forall o, o <> this -> vecs s' !! o = vecs s !! o) /\
        (forall c, Some c <> blk b -> Some c <> blk b' -> heap s' !! c = heap s !! c)
  | Throw _ s' =>
      Z.of_nat (length xs) = cap -> transfer_cannot_throw_by_move ->
      heap s' = heap s /\ vecs s' = vecs s
  | _ => False
  end.
Proof.
  intros Hholds Hi Hb Hread.
  apply holds_inv in Hholds as (buf & Hv & Hle & Hcap0 & Hfit & Hbuf).
  rewrite (begin_eq _ _ _ Hv) in Hb. injection Hb as <-. simpl buffer_.
  pose proof (capacity_small cap Hcap0 Hfit) as Hsmall.
  assert (Hmod : SIZE_MODULUS = 2 ^ 64) by reflexivity.
  assert (Hinsert_len : forall x, length (take i xs ++ x :: drop i xs) = S (length xs)).
  { intros x. rewrite length_app, length_take. simpl. rewrite length_drop. lia. }
  unfold Emplace_forwarded.
  rewrite (bind_normal _ _ _ _ _ (begin_eq _ _ _ Hv)).
  rewrite (bind_normal _ _ _ _ _ (end_eq _ _ _ Hv)).
  simpl data_. simpl buffer_. simpl size_.
  assert (Hassert : ptr_ge (ptr_add buf (Z.of_nat i)) buf
                    && ptr_le (ptr_add buf (Z.of_nat i))
                         (ptr_add buf (Z.of_nat (length xs))) = true).
  { apply ptr_between. simpl. split; [reflexivity|lia]. }
  rewrite (bind_normal _ _ _ _ _ (assert_true _ s Hassert)).
  unfold cbegin. rewrite (bind_normal _ _ _ _ _ (begin_eq _ _ _ Hv)).
  simpl data_. simpl buffer_. cbv zeta.
  assert (Hidx : wrap (distance buf (ptr_add buf (Z.of_nat i))) = Z.of_nat i).
  { unfold distance. simpl. rewrite wrap_small by lia. lia. }
  rewrite !Hidx.
  rewrite (bind_normal _ _ _ _ _ (get_size_eq _ _ _ Hv)).
  rewrite (bind_normal _ _ _ _ _ (Capacity_eq _ _ _ Hv)).
  simpl size_. simpl data_. simpl capacity_.
  destruct (decide (Z.of_nat (length xs) = cap)) as [Hfull|Hroom].
  - (* size == capacity: reallocate *)
    subst cap. rewrite Z.eqb_refl.
    set (c := Z.max 1 (2 * Z.of_nat (length xs))).
    assert (Hc : (if Z.of_nat (length xs) =? 0 then 1
                  else wrap (Z.of_nat (length xs) * 2)) = c).
    { subst c. destruct (Z.of_nat (length xs) =? 0) eqn:H0.
      - apply Z.eqb_eq in H0. lia.
      - apply Z.eqb_neq in H0. rewrite wrap_small by lia. lia. }
    rewrite Hc.
    assert (Hcfit : c * sizeof_T < SIZE_MODULUS).
    { pose proof sizeof_T_range as [Hpos Hlt]. unfold PTRDIFF_MAX in Hfit.
      subst c. destruct (Z.max_spec 1 (2 * Z.of_nat (length xs))) as [[_ ->]|[_ ->]]; nia. }
    pose proof (RawMemory_ctor_spec s c ltac:(subst c; lia) Hcfit) as Hctor.
    unfold bind at 1. unfold bind at 1.
    destruct (RawMemory_ctor c s) as [rm s1|e s1| |];
      [| |contradiction|contradiction].
    2:{ subst s1. auto. }
    destruct Hctor as (b' & -> & Hfresh & -> & Hcfit').
    set (s1 := set_heap _ s). unfold GetAddress. simpl buffer_.
    assert (Hs1 : forall d k, cell s1 d k =
              if decide (d = b')
              then (if decide (k < Z.to_nat c)%nat then Some None else None)
              else cell s d k).
    { intros d k. subst s1. apply cell_fresh_block. }
    assert (Hb1 : heap s1 !! b' = Some (replicate (Z.to_nat c) None)).
    { subst s1. simpl. apply lookup_insert_eq. }
    assert (Hraw1 : forall k, (k < Z.to_nat c)%nat -> cell s1 b' k = Some None).
    { intros k Hk. rewrite Hs1, decide_True by reflexivity.
      now rewrite decide_True by exact Hk. }
    assert (Hold1 : forall d k, d <> b' -> cell s1 d k = cell s d k).
    { intros d k Hd. rewrite Hs1. now rewrite decide_False by exact Hd. }
    assert (Hread1 : readable s1 a).
    { destruct a as [args|value]; [exact I|].
      destruct Hread as (bv & kv & u & -> & Hu). exists bv, kv, u.
      split; [reflexivity|]. rewrite Hold1; [exact Hu|].
      intros ->. unfold cell in Hu. now rewrite Hfresh in Hu. }
    (* the new element first *)
    rewrite ptr_add_at_nat. simpl (0 + i)%nat.
    pose proof (construct_forwarded_at_spec s1 a b' i
                  ltac:(apply Hraw1; subst c; lia) Hread1) as Hnew.
    unfold bind at 1. unfold on_throw at 1. unfold bind at 1.
    destruct (construct_forwarded_at (at_ b' i) a s1) as [[] s2|e s2| |];
      [| |contradiction|contradiction].
    2:{ (* its constructor throws: the new block is released *)
      destruct Hnew as (w & ->).
      destruct (release_fresh_block s (set_world w s1) b' (Z.to_nat c) Hfresh)
        as (l & Hl & Hheap).
      { apply same_frame_set_world. }
      { intros d k Hd. rewrite cell_set_world. now apply Hold1. }
      rewrite (RawMemory_dtor_block _ b' c l Hl). simpl. auto. }
    destruct Hnew as (x & w & Hx & ->).
    set (s2 := set_slot (at_ b' i) (Some x) (set_world w s1)).
    assert (Hd1 : is_Some (cell (set_world w s1) b' i)).
    { rewrite cell_set_world, Hraw1 by (subst c; lia). eauto. }
    assert (Hs2 : forall d k, cell s2 d k =
              if decide (d = b' /\ k = i) then Some (Some x) else cell s1 d k).
    { intros d k. subst s2. rewrite cell_set_slot by exact Hd1.
      now rewrite cell_set_world. }
    assert (Hfr2 : same_frame s1 s2).
    { subst s2. etransitivity; [apply same_frame_set_world|apply same_frame_set_slot]. }
    assert (Hsrc : buf = nullptr /\ xs = [] \/
              exists b, buf = at_ b 0 /\ b <> b' /\
                forall k y, xs !! k = Some y -> cell s2 b k = Some (Some y)).
    { destruct Hbuf as [[-> H0]|(b & -> & _ & Hl & Hlive & _)].
      - left. split; [reflexivity|]. apply nil_length_inv. lia.
      - right. exists b. split; [reflexivity|].
        assert (Hne : b <> b') by (intros ->; congruence).
        split; [exact Hne|]. intros k y Hy.
        rewrite Hs2, decide_False by (intros [? _]; congruence).
        rewrite Hold1 by exact Hne. now apply Hlive. }
    pose proof (transfer_around_new_element s2 xs i x buf b' (Z.to_nat c) Hi
                  ltac:(subst c; lia) ltac:(lia)) as Htransfer.
    assert (Hnew2 : cell s2 b' i = Some (Some x)).
    { rewrite Hs2, decide_True by auto. reflexivity. }
    assert (Hraw2 : forall k, (k < Z.to_nat c)%nat -> k <> i -> cell s2 b' k = Some None).
    { intros k Hk Hki. rewrite Hs2, decide_False by (intros [_ ?]; congruence).
      now apply Hraw1. }
    specialize (Htransfer Hnew2 Hraw2 Hsrc).
    rewrite ptr_add_at_nat in Htransfer. simpl (0 + i)%nat in Htransfer.
    match type of Htransfer with
    | match ?r with _ => _ end => destruct r as [[] s4|e s4| |]
    end; [| |contradiction|contradiction].
    2:{ (* a transfer throws: the new block is released *)
      destruct Htransfer as (Hfr4 & Hsame).
      assert (Hfr14 : same_frame s1 s4) by (etransitivity; eauto).
      destruct (same_frame_block s1 s4 b' _ Hfr14 Hb1) as (l4 & Hl4 & _).
      rewrite (RawMemory_dtor_block _ b' c l4 Hl4). simpl. intros _ Hsafe.
      destruct (release_fresh_block s s4 b' (Z.to_nat c) Hfresh Hfr14) as (l & _ & Hheap).
      { intros d k Hd. rewrite (Hsame Hsafe) by exact Hd.
        rewrite Hs2, decide_False by (intros [? _]; congruence). now apply Hold1. }
      split; [exact Hheap|]. now destruct Hfr14 as [_ ->]. }
    destruct Htransfer as (Hfr4 & Hys & Hrest4 & Hlive4 & Hother4).
    (* the old elements are destroyed *)
    destruct (destroy_n_live s4 buf (length xs)) as (s5 & Hdes & Hfr5 & Hother5 & _).
    { destruct Hsrc as [[_ ->]|(b & -> & Hne & Hlive)]; [now left|].
      right. exists b, 0%nat. split; [reflexivity|]. intros k Hk.
      destruct (lookup_lt_is_Some_2 xs k) as [y Hy]; [lia|].
      apply (Hlive4 b k y Hne). now apply Hlive. }
    rewrite (bind_normal _ _ _ _ _ Hdes).
    assert (Hfr15 : same_frame s1 s5).
    { etransitivity; [exact Hfr2|]. etransitivity; eauto. }
    assert (Hv5 : vecs s5 !! this =
              Some {| data_ := {| buffer_ := buf; capacity_ := Z.of_nat (length xs) |};
                      size_ := Z.of_nat (length xs) |}).
    { destruct Hfr15 as [_ ->]. exact Hv. }
    (* the new block is adopted, the old one released *)
    assert (Hold5 : buf = nullptr \/ exists b, buf = at_ b 0 /\ is_Some (heap s5 !! b)).
    { destruct Hbuf as [[-> _]|(b & -> & _ & Hl & _)]; [now left|right].
      exists b. split; [reflexivity|].
      assert (Hne : b <> b') by (intros ->; congruence).
      assert (Hl1 : heap s1 !! b = Some ((Some <$> xs) ++
                replicate (Z.to_nat (Z.of_nat (length xs)) - length xs)%nat None)).
      { subst s1. simpl. now rewrite lookup_insert_ne by congruence. }
      destruct (same_frame_block s1 s5 b _ Hfr15 Hl1) as (l & Hl' & _). eauto. }
    rewrite (adopt_spec s5 this buf _ _ {| buffer_ := at_ b' 0; capacity_ := c |} Hv5 Hold5).
    cbn [buffer_ capacity_].
    set (s7 := Build_state _ _ _).
    assert (Hbb : Some b' <> blk buf).
    { destruct Hbuf as [[-> _]|(b & -> & _ & Hl & _)]; [discriminate|].
      simpl. intros [= ->]. congruence. }
    destruct (same_frame_block s1 s5 b' _ Hfr15 Hb1) as (l5 & Hl5 & Hlen5 & Hcells5).
    rewrite length_replicate in Hlen5.
    assert (Hl7 : heap s7 !! b' = Some l5).
    { subst s7. simpl. destruct (blk buf) as [b|] eqn:Hb; [|exact Hl5].
      rewrite lookup_delete_ne by congruence. exact Hl5. }
    assert (Hv7 : vecs s7 !! this =
              Some {| data_ := {| buffer_ := at_ b' 0; capacity_ := c |};
                      size_ := Z.of_nat (length xs) |}).
    { subst s7. simpl. apply lookup_insert_eq. }
    rewrite (finish_insertion _ _ _ _ _ Hv7) by lia.
    simpl buffer_.
    set (s8 := set_vecs _ s7).
    assert (Hcell8 : forall k, cell s8 b' k = cell s4 b' k).
    { intros k. subst s8. rewrite cell_set_vecs. unfold cell at 1.
      rewrite Hl7, Hcells5. now apply Hother5. }
    assert (Hv8 : vecs s8 !! this =
              Some {| data_ := {| buffer_ := at_ b' 0; capacity_ := c |};
                      size_ := Z.of_nat (length xs) + 1 |}).
    { subst s8. simpl. apply lookup_insert_eq. }
    exists x, (at_ b' 0). split; [|split; [|split; [|split; [|split; [|split]]]]].
    + destruct a as [args|value]; [exact Hx|].
      destruct Hx as (bv & kv & -> & Hx). exists bv, kv. split; [reflexivity|].
      rewrite Hs1 in Hx. destruct (decide (bv = b')); [|exact Hx].
      destruct (decide (kv < Z.to_nat c)%nat); discriminate.
    + apply (holds_intro s8 this _ c b' l5).
      * rewrite Hv8, Hinsert_len. do 2 f_equal. lia.
      * subst c. lia.
      * exact Hcfit'.
      * exact Hl7.
      * exact Hlen5.
      * rewrite Hinsert_len. subst c. lia.
      * intros k y Hy. rewrite Hcell8. now apply Hys.
      * intros k Hk. rewrite Hinsert_len in Hk. rewrite Hcell8, Hrest4 by lia.
        apply Hraw2; lia.
    + now rewrite (begin_eq _ _ _ Hv8).
    + reflexivity.
    + intros Hne. congruence.
    + intros o Ho. subst s8 s7. simpl. rewrite !lookup_insert_ne by congruence.
      now destruct Hfr15 as [_ ->].
    + intros d Hd Hd'. simpl in Hd'.
      assert (Hdb : d <> b') by congruence.
      transitivity (heap s5 !! d).
      { subst s8 s7. simpl. destruct (blk buf) as [b|] eqn:Hb; [|reflexivity].
        apply lookup_delete_ne. congruence. }
      transitivity (heap s1 !! d).
      { apply block_unchanged; [exact Hfr15|]. intros k.
        rewrite Hother5 by exact Hd. rewrite Hother4 by auto.
        rewrite Hs2. now rewrite decide_False by (intros [? _]; congruence). }
      subst s1. simpl. now rewrite lookup_insert_ne by congruence.
  - (* size < capacity: in place *)
    replace (Z.of_nat (length xs) =? cap) with false
      by (symmetry; apply Z.eqb_neq; exact Hroom).
    destruct Hbuf as [[_ ->]|(b0 & -> & Hpos & Hl & Hlive & Hraw)]; [lia|].
    assert (Hdead : forall k y, cell s b0 k = Some (Some y) -> (k < length xs)%nat).
    { intros k y Hy. destruct (decide (k < length xs)%nat) as [|Hge]; [assumption|].
      destruct (decide (k < Z.to_nat cap)%nat) as [Hlt|Hout].
      - rewrite Hraw in Hy by lia. discriminate.
      - unfold cell in Hy. rewrite Hl in Hy.
        rewrite lookup_ge_None_2 in Hy; [discriminate|].
        rewrite full_block_length by exact Hle. lia. }
    pose proof (Emplace_forwarded_in_place s this xs cap i a b0 Hv ltac:(lia) Hi
                  Hlive Hraw Hdead Hread) as Hbody.
    unfold bind at 1.
    match type of Hbody with
    | match ?r with _ => _ end => destruct r as [[] s1|e s1| |]
    end; [|intros; lia|contradiction|contradiction].
    destruct Hbody as (Hfr & x & Hx & Hys & Hrest & Hother).
    assert (Hv1 : vecs s1 !! this =
              Some {| data_ := {| buffer_ := at_ b0 0; capacity_ := cap |};
                      size_ := Z.of_nat (length xs) |}).
    { destruct Hfr as [_ ->]. exact Hv. }
    rewrite (finish_insertion _ _ _ _ _ Hv1) by lia.
    simpl buffer_. set (s2 := set_vecs _ s1).
    destruct (same_frame_block s s1 b0 _ Hfr Hl) as (l1 & Hl1 & Hlen1 & Hcells1).
    rewrite full_block_length in Hlen1 by exact Hle.
    assert (Hv2 : vecs s2 !! this =
              Some {| data_ := {| buffer_ := at_ b0 0; capacity_ := cap |};
                      size_ := Z.of_nat (length xs) + 1 |}).
    { subst s2. simpl. apply lookup_insert_eq. }
    exists x, (at_ b0 0). split; [|split; [|split; [|split; [|split; [|split]]]]].
    + exists b0. auto.
    + apply (holds_intro s2 this _ cap b0 l1).
      * rewrite Hv2, Hinsert_len. do 3 f_equal. lia.
      * exact Hpos.
      * exact Hfit.
      * exact Hl1.
      * exact Hlen1.
      * rewrite Hinsert_len. lia.
      * intros k y Hy. subst s2. rewrite cell_set_vecs. now apply Hys.
      * intros k Hk. rewrite Hinsert_len in Hk. subst s2.
        rewrite cell_set_vecs, Hrest by lia. apply Hraw. lia.
    + now rewrite (begin_eq _ _ _ Hv2).
    + reflexivity.
    + reflexivity.
    + intros o Ho. subst s2. simpl. rewrite lookup_insert_ne by congruence.
      now destruct Hfr as [_ ->].
    + intros d Hd _. subst s2. simpl. apply block_unchanged; [exact Hfr|].
      intros k. apply Hother. simpl in Hd. congruence.
Qed.

End InsertGrowing.

(** * Appending is inserting at the end *)

Section Append.
Context `{E : ElemType}.

Lemma heap_only_construct_forwarded_at p a : heap_only (construct_forwarded_at p a).
Proof.
  destruct a; [apply heap_only_emplace_at|apply heap_only_copy_construct_at].
Qed.

Lemma begin_heap_only this : heap_only (begin this).
Proof.
  intros s. unfold begin, get_data, get_vec, bind, ret.
  now destruct (vecs s !! this).
Qed.

(** A transfer of no element does nothing. *)
Lemma InitializeRawMemory_nothing p q (h : M unit) (s : state) :
  on_throw (InitializeRawMemory p 0 q) h s = Normal tt s.
Proof.
  unfold on_throw, InitializeRawMemory.
  now destruct (is_nothrow_move_constructible || negb is_copy_constructible).
Qed.

(** [EmplaceBack] runs as [Emplace] at [end()] does. *)
Lemma EmplaceBack_forwarded_as_Emplace (s : state) (this : nat) (xs : list T) (cap : Z)
    (a : forwarded) (e : ptr) :
  holds s this xs cap -> end_ this s = Normal e s ->
  Emplace_forwarded this e a s = EmplaceBack_forwarded this a s.
Proof.
  intros Hholds He.
  apply holds_inv in Hholds as (buf & Hv & Hle & Hcap0 & Hfit & Hbuf).
  rewrite (end_eq _ _ _ Hv) in He. injection He as <-. cbn [data_ size_ buffer_].
  pose proof (capacity_small cap Hcap0 Hfit) as Hsmall.
  assert (Hmod : SIZE_MODULUS = 2 ^ 64) by reflexivity.
  set (n := Z.of_nat (length xs)) in *.
  unfold Emplace_forwarded, EmplaceBack_forwarded.
  rewrite (bind_normal _ _ _ _ _ (begin_eq _ _ _ Hv)).
  rewrite (bind_normal _ _ _ _ _ (end_eq _ _ _ Hv)).
  cbn [data_ size_ buffer_ capacity_].
  assert (Hassert : ptr_ge (ptr_add buf n) buf && ptr_le (ptr_add buf n) (ptr_add buf n)
                    = true).
  { apply ptr_between. simpl. split; [reflexivity|lia]. }
  rewrite (bind_normal _ _ _ _ _ (assert_true _ s Hassert)).
  unfold cbegin. rewrite (bind_normal _ _ _ _ _ (begin_eq _ _ _ Hv)).
  cbn [data_ size_ buffer_ capacity_]. cbv zeta.
  assert (Hidx : wrap (distance buf (ptr_add buf n)) = n).
  { unfold distance. simpl. rewrite wrap_small by lia. lia. }
  rewrite !Hidx.
  rewrite !(bind_normal _ _ _ _ _ (get_size_eq _ _ _ Hv)).
  rewrite !(bind_normal _ _ _ _ _ (Capacity_eq _ _ _ Hv)).
  cbn [data_ size_ buffer_ capacity_].
  rewrite Z.eqb_refl, Z.sub_diag. change (negb true) with false.
  change (wrap 0) with 0. cbv iota.
  apply bind_cong.
  - (* the two bodies run alike *)
    destruct (n =? cap).
    + apply bind_cong; [reflexivity|]. intros rm s1 Hctor.
      assert (Hv1 : vecs s1 !! this = vecs s !! this).
      { now rewrite (heap_only_normal _ _ _ _ (heap_only_RawMemory_ctor _) Hctor). }
      rewrite Hv in Hv1.
      apply bind_cong.
      * apply on_throw_cong.
        apply bind_cong; [reflexivity|]. intros [] s2 Hnew.
        assert (Hv2 : vecs s2 !! this = vecs s1 !! this).
        { now rewrite (heap_only_normal _ _ _ _ (heap_only_construct_forwarded_at _ _) Hnew). }
        rewrite Hv1 in Hv2.
        rewrite (bind_normal _ _ _ _ _ (begin_eq _ _ _ Hv2)).
        cbn [data_ size_ buffer_ capacity_].
        apply bind_nothing. intros s'. apply InitializeRawMemory_nothing.
      * intros [] s3 Hrun.
        assert (Hv3 : vecs s3 !! this = vecs s1 !! this).
        { apply heap_only_normal in Hrun; [now rewrite Hrun|].
          apply heap_only_on_throw; [|apply heap_only_RawMemory_dtor].
          apply heap_only_bind; [apply heap_only_construct_forwarded_at|intros _].
          apply heap_only_bind; [apply begin_heap_only|intros b].
          apply heap_only_on_throw;
            [apply heap_only_InitializeRawMemory|apply heap_only_destroy_at]. }
        rewrite Hv1 in Hv3.
        now rewrite (bind_normal _ _ _ _ _ (begin_eq _ _ _ Hv3)).
    + now rewrite (bind_normal _ _ _ _ _ (begin_eq _ _ _ Hv)).
  - (* the size is set and the position of the new element returned *)
    intros [] s1 _.
    destruct (vecs s1 !! this) as [v1|] eqn:Hv1.
    + rewrite !(bind_normal _ _ _ _ _ (set_size_eq _ _ _ _ Hv1)).
      set (s2 := set_vecs _ s1).
      assert (Hv2 : vecs s2 !! this =
                Some {| data_ := data_ v1; size_ := wrap (n + 1) |}).
      { subst s2. simpl. apply lookup_insert_eq. }
      rewrite (bind_normal _ _ _ _ _ (begin_eq _ _ _ Hv2)).
      rewrite (bind_normal _ _ _ _ _ (end_eq _ _ _ Hv2)).
      cbn [data_ size_]. unfold ret. f_equal.
      unfold ptr_add. simpl. f_equal. rewrite wrap_small by lia. lia.
    + unfold set_size, bind, get_vec. now rewrite Hv1.
Qed.

End Append.

(** * Appending and inserting: what the vector holds afterwards *)

Section Insertion.
Context `{E : ElemType} {HR : Regular}.

Lemma at_inj b k b' k' : at_ b k = at_ b' k' -> b = b' /\ k = k'.
Proof. intros [= -> Hk]. split; [reflexivity|lia]. Qed.

(** The live cells of the block of a vector are its elements. *)
Lemma holds_live_cells (s : state) (this : nat) (xs : list T) (cap : Z) b0 k v :
  holds s this xs cap -> begin this s = Normal (at_ b0 0) s ->
  cell s b0 k = Some (Some v) -> xs !! k = Some v.
Proof.
  intros Hholds Hb Hk.
  apply holds_inv in Hholds as (buf & Hv & Hle & _ & _ & Hbuf).
  rewrite (begin_eq _ _ _ Hv) in Hb. injection Hb as ->.
  destruct Hbuf as [[Hnull _]|(b & Hb & _ & Hl & _)]; [discriminate|].
  apply at_inj in Hb as [<- _].
  unfold cell in Hk. rewrite Hl in Hk.
  destruct (decide (k < length xs)%nat) as [Hlt|Hge].
  - rewrite lookup_app_l in Hk by (now rewrite length_fmap).
    rewrite list_lookup_fmap in Hk. destruct (xs !! k); simpl in Hk; congruence.
  - rewrite lookup_app_r in Hk by (rewrite length_fmap; lia).
    apply lookup_replicate in Hk as [Hk _]. discriminate.
Qed.

(** A reference to something that the shift does not reach is read as it
    was. *)
Lemma inserted_unshifted (s : state) (this : nat) (xs : list T) (cap : Z) (i : nat)
    b0 bv kv v x :
  holds s this xs cap -> begin this s = Normal (at_ b0 0) s ->
  cell s bv kv = Some (Some v) ->
  bv <> b0 \/ (kv < i)%nat \/ (length xs <= i)%nat ->
  inserted_in_place s b0 i xs (by_const_ref (at_ bv kv)) x -> x = v.
Proof.
  intros Hholds Hb Hv Hout (bv' & kv' & Heq & Hx).
  apply at_inj in Heq as [<- <-].
  destruct (decide (bv = b0 /\ (i < kv)%nat)) as [[-> Hk]|_].
  { pose proof (holds_live_cells _ _ _ _ _ _ _ Hholds Hb Hv) as Hlive.
    apply lookup_lt_Some in Hlive. destruct Hout as [?|[?|?]]; [congruence|lia|lia]. }
  destruct (decide (bv = b0 /\ kv = i)) as [[-> ->]|_]; [|congruence].
  pose proof (holds_live_cells _ _ _ _ _ _ _ Hholds Hb Hv) as Hlive.
  apply lookup_lt_Some in Hlive. destruct Hout as [?|[?|?]]; [congruence|lia|lia].
Qed.

(** [EmplaceBack] with any forwarded argument. *)
Lemma EmplaceBack_forwarded_spec (s : state) (this : nat) (xs : list T) (cap : Z)
    (a : forwarded) :
  holds s this xs cap -> readable s a ->
  match EmplaceBack_forwarded this a s with
  | Normal p s' =>
      exists x b',
        forwarded_from s a x /\
        holds s' this (xs ++ [x])
          (if decide (Z.of_nat (length xs) = cap) then Z.max 1 (2 * cap) else cap) /\
        begin this s' = Normal b' s' /\ p = ptr_add b' (Z.of_nat (length xs)) /\
        (Z.of_nat (length xs) <> cap -> begin this s = Normal b' s) /\
        (forall o, o <> this -> vecs s' !! o = vecs s !! o) /\
        (forall c b, begin this s = Normal b s -> Some c <> blk b -> Some c <> blk b' ->
                     heap s' !! c = heap s !! c)
  | Throw _ s' =>
      Z.of_nat (length xs) = cap -> transfer_cannot_throw_by_move ->
      heap s' = heap s /\ vecs s' = vecs s
  | _ => False
  end.
Proof.
  intros Hholds Hread.
  destruct (Hholds) as (v & Hv & Hsize & _).
  pose proof (end_eq _ _ _ Hv) as He. rewrite Hsize in He.
  rewrite <- (EmplaceBack_forwarded_as_Emplace s this xs cap a _ Hholds He).
  pose proof (Emplace_forwarded_spec s this xs cap (length xs) a _ Hholds
                (le_n _) (begin_eq _ _ _ Hv) Hread) as Hspec.
  destruct (Emplace_forwarded this _ a s) as [p s'|e s'| |]; try exact Hspec.
  destruct Hspec as (x & b' & Hx & Hthis & Hb' & -> & Hsame & Hvecs & Hheap).
  rewrite take_ge, drop_ge in Hthis by lia.
  exists x, b'. split; [|split; [exact Hthis|split; [exact Hb'|split; [reflexivity|]]]].
  - destruct (decide (Z.of_nat (length xs) = cap)) as [Hfull|Hroom]; [exact Hx|].
    destruct Hx as (b0 & Hb0 & Hx).
    destruct a as [args|value]; [exact Hx|].
    destruct Hread as (bv & kv & u & -> & Hu).
    exists bv, kv. split; [reflexivity|].
    assert (Hbegin : begin this s = Normal (at_ b0 0) s).
    { now rewrite (begin_eq _ _ _ Hv), Hb0. }
    rewrite (inserted_unshifted s this xs cap (length xs) b0 bv kv u x Hholds Hbegin Hu
               ltac:(right; right; lia) Hx).
    exact Hu.
  - split; [|split; [exact Hvecs|]].
    + intros Hroom. rewrite (begin_eq _ _ _ Hv). now rewrite (Hsame Hroom).
    + intros c b Hb. rewrite (begin_eq _ _ _ Hv) in Hb. injection Hb as <-.
      apply Hheap.
Qed.

(** [Emplace] at [end()] and [EmplaceBack] are one operation, as are
    [Insert] at [end()] and [PushBack]: same final state, same failure, and
    the position returned is that of the reference returned. *)
Theorem Emplace_at_end_is_EmplaceBack
    (s : state) (this : nat) (xs : list T) (cap : Z) (e : ptr) :
  holds s this xs cap -> end_ this s = Normal e s ->
  (forall args, Emplace this e args s = EmplaceBack this args s) /\
  (forall value, (Insert this e value ;; ret tt) s = PushBack this value s).
Proof.
  intros Hholds He. split.
  - intros args.
    exact (EmplaceBack_forwarded_as_Emplace s this xs cap (by_args args) e Hholds He).
  - intros value. unfold Insert, PushBack, bind.
    now rewrite (EmplaceBack_forwarded_as_Emplace s this xs cap (by_const_ref value) e
                   Hholds He).
Qed.

(** [EmplaceBack] appends: the vector then holds its elements followed by
    the new one, and the reference returned is to the new element.  With
    spare capacity nothing is reallocated, so [begin()] is unchanged;
    otherwise the capacity is [max 1 (2 * capacity)].  No other object
    changes. *)
Theorem EmplaceBack_appends
    (s : state) (this : nat) (xs : list T) (cap : Z) (args : Args) :
  holds s this xs cap ->
  match EmplaceBack this args s with
  | Normal p s' =>
      exists x, (exists w w', construct args w = (Some x, w')) /\
        holds s' this (xs ++ [x])
          (if decide (Z.of_nat (length xs) = cap) then Z.max 1 (2 * cap) else cap) /\
        load p s' = Normal x s' /\
        (Z.of_nat (length xs) <> cap ->
         begin this s' = match begin this s with Normal b _ => Normal b s' | r => r end) /\
        (forall o, o <> this -> vecs s' !! o = vecs s !! o)
  | Throw _ _ => True
  | _ => False
  end.
Proof.
  intros Hholds.
  pose proof (EmplaceBack_forwarded_spec s this xs cap (by_args args) Hholds I) as Hspec.
  rewrite EmplaceBack_forwarded_args in Hspec.
  destruct (EmplaceBack this args s) as [p s'|e s'| |]; [|exact I|exact Hspec|exact Hspec].
  destruct Hspec as (x & b' & Hx & Hthis & Hb' & -> & Hsame & Hvecs & _).
  exists x. split; [exact Hx|]. split; [exact Hthis|]. split; [|split; [|exact Hvecs]].
  - pose proof Hthis as Hthis'.
    apply holds_inv in Hthis' as (buf & Hv' & Hle' & _ & _ & Hbuf').
    rewrite (begin_eq _ _ _ Hv') in Hb'. injection Hb' as <-.
    rewrite length_app in Hle'. simpl in Hle'.
    destruct Hbuf' as [[_ H0]|(b & -> & _ & _ & Hlive & _)];
      [destruct (decide (Z.of_nat (length xs) = cap)); lia|].
    rewrite ptr_add_at_nat. apply load_cell. apply Hlive.
    rewrite lookup_app_r by lia. simpl. now rewrite Nat.sub_diag.
  - intros Hroom. rewrite (Hsame Hroom). exact Hb'.
Qed.

(** [PushBack(const T&)] appends a copy of the element referred to, also
    when that is an element of the vector itself and the vector has to
    grow: the copy is made into the new block before any element is moved
    or destroyed.  When the growing path throws and the transfer copies or
    moves without throwing, heap and objects are as before. *)
Theorem PushBack_appends_a_copy_even_of_an_own_element
    (s : state) (this : nat) (xs : list T) (cap : Z) (bv kv : nat) (v : T) :
  holds s this xs cap -> cell s bv kv = Some (Some v) ->
  match PushBack this (at_ bv kv) s with
  | Normal _ s' =>
      holds s' this (xs ++ [v])
        (if decide (Z.of_nat (length xs) = cap) then Z.max 1 (2 * cap) else cap)
  | Throw _ s' =>
      Z.of_nat (length xs) = cap -> transfer_cannot_throw_by_move ->
      heap s' = heap s /\ vecs s' = vecs s
  | _ => False
  end.
Proof.
  intros Hholds Hv.
  pose proof (EmplaceBack_forwarded_spec s this xs cap (by_const_ref (at_ bv kv)) Hholds
                ltac:(exists bv, kv, v; auto)) as Hspec.
  unfold PushBack, bind.
  destruct (EmplaceBack_forwarded this _ s) as [p s'|e s'| |]; try exact Hspec.
  destruct Hspec as (x & b' & (bv' & kv' & Heq & Hx) & Hthis & _).
  apply at_inj in Heq as [<- <-]. unfold ret. congruence.
Qed.

(** [Insert(pos, const T&)] inserts a copy of the element referred to
    whenever the vector reallocates, or the element is not one of those
    the insertion shifts: it lies in another block or before [pos]. *)
Theorem Insert_copies_the_element_referred_to
    (s : state) (this : nat) (xs : list T) (cap : Z) (i : nat) (b : ptr)
    (bv kv : nat) (v : T) :
  holds s this xs cap -> (i <= length xs)%nat -> begin this s = Normal b s ->
  cell s bv kv = Some (Some v) ->
  Z.of_nat (length xs) = cap \/ blk b <> Some bv \/ (kv < i)%nat ->
  match Insert this (ptr_add b (Z.of_nat i)) (at_ bv kv) s with
  | Normal p s' =>
      holds s' this (take i xs ++ v :: drop i xs)
        (if decide (Z.of_nat (length xs) = cap) then Z.max 1 (2 * cap) else cap) /\
      exists b', begin this s' = Normal b' s' /\ p = ptr_add b' (Z.of_nat i)
  | Throw _ s' =>
      Z.of_nat (length xs) = cap -> transfer_cannot_throw_by_move ->
      heap s' = heap s /\ vecs s' = vecs s
  | _ => False
  end.
Proof.
  intros Hholds Hi Hb Hv Hcase.
  pose proof (Emplace_forwarded_spec s this xs cap i (by_const_ref (at_ bv kv)) b Hholds
                Hi Hb ltac:(exists bv, kv, v; auto)) as Hspec.
  unfold Insert.
  destruct (Emplace_forwarded this _ _ s) as [p s'|e s'| |]; try exact Hspec.
  destruct Hspec as (x & b' & Hx & Hthis & Hb' & -> & _).
  assert (Hxv : x = v).
  { destruct (decide (Z.of_nat (length xs) = cap)) as [Hfull|Hroom].
    - destruct Hx as (bv' & kv' & Heq & Hx). apply at_inj in Heq as [<- <-]. congruence.
    - destruct Hx as (b0 & -> & Hx).
      apply (inserted_unshifted s this xs cap i b0 bv kv v x Hholds Hb Hv); [|exact Hx].
      destruct Hcase as [?|[Hblk|?]]; [contradiction| |auto].
      left. intros ->. now apply Hblk. }
  subst x. split; [exact Hthis|]. exists b'. auto.
Qed.

(** [Insert(pos, const T&)] without reallocation reads its argument only
    after the elements from [pos] on were shifted one slot to the right.
    A reference to an element of the vector after [pos] therefore yields
    the element that preceded it: inserting [v[j]] at index [i < j] inserts
    a copy of [v[j - 1]]. *)
Theorem Insert_of_a_later_own_element_inserts_its_predecessor
    (s : state) (this : nat) (xs : list T) (cap : Z) (i j : nat) (b0 : nat) (y : T) :
  holds s this xs cap -> Z.of_nat (length xs) < cap ->
  begin this s = Normal (at_ b0 0) s ->
  (i < j < length xs)%nat -> xs !! (j - 1)%nat = Some y ->
  match Insert this (at_ b0 i) (at_ b0 j) s with
  | Normal p s' =>
      holds s' this (take i xs ++ y :: drop i xs) cap /\ p = at_ b0 i
  | Throw _ _ => True
  | _ => False
  end.
Proof.
  intros Hholds Hroom Hb Hij Hy.
  assert (Hj : exists v, cell s b0 j = Some (Some v)).
  { pose proof Hholds as Hh.
    apply holds_inv in Hh as (buf & Hv & _ & _ & _ & Hbuf).
    rewrite (begin_eq _ _ _ Hv) in Hb. injection Hb as ->.
    destruct Hbuf as [[Hnull _]|(b & Hb & _ & _ & Hlive & _)]; [discriminate|].
    apply at_inj in Hb as [<- _].
    destruct (lookup_lt_is_Some_2 xs j) as [v Hv']; [lia|]. exists v. now apply Hlive. }
  destruct Hj as [v Hv].
  pose proof (Emplace_forwarded_spec s this xs cap i (by_const_ref (at_ b0 j)) (at_ b0 0)
                Hholds ltac:(lia) Hb ltac:(exists b0, j, v; auto)) as Hspec.
  rewrite ptr_add_at_nat in Hspec. simpl (0 + i)%nat in Hspec.
  unfold Insert.
  destruct (Emplace_forwarded this _ _ s) as [p s'|e s'| |];
    [|exact I|exact Hspec|exact Hspec].
  destruct Hspec as (x & b' & Hx & Hthis & Hb' & -> & Hsame & _).
  rewrite decide_False in Hx by lia. rewrite decide_False in Hthis by lia.
  destruct Hx as (b1 & Hb1 & (bv & kv & Heq & Hx)).
  apply at_inj in Hb1 as [<- _]. apply at_inj in Heq as [<- <-].
  rewrite decide_True in Hx by (split; [reflexivity|lia]).
  assert (x = y) by congruence. subst x.
  split; [exact Hthis|]. rewrite (Hsame ltac:(lia)).
  now rewrite ptr_add_at_nat.
Qed.

(** A reallocating [Emplace] or [Insert] that throws leaves heap and
    objects exactly as they were, provided the existing elements are
    transferred by copy or by a move that cannot throw: the new element
    and whatever was transferred into the new block are destroyed and the
    block is released. *)
Theorem Emplace_growing_strong_guarantee
    (s : state) (this : nat) (xs : list T) (i : nat) (b : ptr) :
  holds s this xs (Z.of_nat (length xs)) -> (i <= length xs)%nat ->
  begin this s = Normal b s -> transfer_cannot_throw_by_move ->
  (forall args e s', Emplace this (ptr_add b (Z.of_nat i)) args s = Throw e s' ->
                     heap s' = heap s /\ vecs s' = vecs s) /\
  (forall bv kv v e s', cell s bv kv = Some (Some v) ->
     Insert this (ptr_add b (Z.of_nat i)) (at_ bv kv) s = Throw e s' ->
     heap s' = heap s /\ vecs s' = vecs s).
Proof.
  intros Hholds Hi Hb Hsafe. split.
  - intros args e s' Hrun.
    pose proof (Emplace_forwarded_spec s this xs _ i (by_args args) b Hholds Hi Hb I)
      as Hspec.
    rewrite Emplace_forwarded_args, Hrun in Hspec. now apply Hspec.
  - intros bv kv v e s' Hv Hrun.
    pose proof (Emplace_forwarded_spec s this xs _ i (by_const_ref (at_ bv kv)) b Hholds
                  Hi Hb ltac:(exists bv, kv, v; auto)) as Hspec.
    unfold Insert in Hrun. rewrite Hrun in Hspec. now apply Hspec.
Qed.

(** [PopBack] undoes [EmplaceBack]: after a completed append, [PopBack]
    leaves the vector with the elements it had before, in the capacity the
    append gave it. *)
Theorem PopBack_undoes_EmplaceBack
    (s s1 : state) (this : nat) (xs : list T) (cap : Z) (args : Args) (p : ptr) :
  holds s this xs cap ->
  EmplaceBack this args s = Normal p s1 ->
  exists s2, PopBack this s1 = Normal tt s2 /\
    holds s2 this xs
      (if decide (Z.of_nat (length xs) = cap) then Z.max 1 (2 * cap) else cap) /\
    (forall o, o <> this -> vecs s2 !! o = vecs s !! o).
Proof.
  intros Hholds Hrun.
  pose proof (EmplaceBack_forwarded_spec s this xs cap (by_args args) Hholds I) as Hspec.
  rewrite EmplaceBack_forwarded_args, Hrun in Hspec.
  destruct Hspec as (x & b' & _ & Hthis & _ & _ & _ & Hvecs & _).
  destruct (PopBack_spec s1 this xs x _ Hthis) as (s2 & Hpop & Hthis2 & _ & _ & Hvecs2 & _).
  exists s2. split; [exact Hpop|]. split; [exact Hthis2|].
  intros o Ho. rewrite Hvecs2 by exact Ho. now apply Hvecs.
Qed.

(** [Erase] as the shift to the left followed by [PopBack]. *)
Lemma Erase_spec (s : state) (this : nat) (xs : list T) (cap : Z) (i : nat) (b : ptr) :
  holds s this xs cap -> (i < length xs)%nat -> begin this s = Normal b s ->
  match Erase this (ptr_add b (Z.of_nat i)) s with
  | Normal p s' =>
      holds s' this (delete i xs) cap /\ begin this s' = Normal b s' /\
      p = ptr_add b (Z.of_nat i) /\
      (forall o, o <> this -> vecs s' !! o = vecs s !! o)
  | Throw _ _ => True
  | _ => False
  end.
Proof.
  intros Hholds Hi Hb.
  apply holds_inv in Hholds as (buf & Hv & Hle & Hcap0 & Hfit & Hbuf).
  rewrite (begin_eq _ _ _ Hv) in Hb. injection Hb as <-. simpl buffer_.
  pose proof (capacity_small cap Hcap0 Hfit) as Hsmall.
  assert (Hmod : SIZE_MODULUS = 2 ^ 64) by reflexivity.
  destruct Hbuf as [[_ ->]|(b0 & -> & Hpos & Hl & Hlive & Hraw)]; [simpl in Hle; lia|].
  unfold Erase.
  rewrite (bind_normal _ _ _ _ _ (begin_eq _ _ _ Hv)).
  rewrite (bind_normal _ _ _ _ _ (end_eq _ _ _ Hv)).
  simpl data_. simpl buffer_. simpl size_.
  assert (Hassert : ptr_ge (ptr_add (at_ b0 0) (Z.of_nat i)) (at_ b0 0)
                    && ptr_lt (ptr_add (at_ b0 0) (Z.of_nat i))
                         (ptr_add (at_ b0 0) (Z.of_nat (length xs))) = true).
  { apply ptr_within. simpl. split; [reflexivity|lia]. }
  rewrite (bind_normal _ _ _ _ _ (assert_true _ s Hassert)).
  unfold cbegin. rewrite (bind_normal _ _ _ _ _ (begin_eq _ _ _ Hv)).
  simpl data_. simpl buffer_. cbv zeta.
  assert (Hidx : wrap (distance (at_ b0 0) (ptr_add (at_ b0 0) (Z.of_nat i)))
                 = Z.of_nat i).
  { unfold distance. simpl. rewrite wrap_small by lia. lia. }
  rewrite !Hidx. rewrite !ptr_add_at_nat, ptr_add_at_1. simpl (0 + _)%nat.
  (* close the gap *)
  set (ys := drop (S i) xs).
  assert (Hys : length ys = (length xs - S i)%nat) by apply length_drop.
  unfold std_move, distance. simpl off.
  replace (Z.to_nat (Z.of_nat (length xs) - Z.of_nat (S i))) with (length ys) by lia.
  pose proof (shift_left_loop_spec b0 ys i s) as Hshift.
  assert (Hpre1 : exists d, cell s b0 i = Some (Some d)).
  { destruct (lookup_lt_is_Some_2 xs i Hi) as [d Hd]. exists d. now apply Hlive. }
  assert (Hpre2 : forall k y, ys !! k = Some y -> cell s b0 (S (i + k)) = Some (Some y)).
  { intros k y Hy. subst ys. rewrite lookup_drop in Hy. now apply Hlive. }
  specialize (Hshift Hpre1 Hpre2).
  unfold bind at 1.
  destruct (assign_loop move_assign_at (at_ b0 (S i)) (at_ b0 i) (length ys) s)
    as [[] s1|e s1| |]; [|exact I|contradiction|contradiction].
  destruct Hshift as (Hfr1 & Hshifted & [m Hm] & Hrest1).
  replace (i + length ys)%nat with (length xs - 1)%nat in Hm, Hrest1 by lia.
  (* the vector now ends with a moved-from element, which [PopBack] drops *)
  assert (Hdel_len : length (delete i xs) = (length xs - 1)%nat).
  { rewrite length_delete by (now apply lookup_lt_is_Some_2). lia. }
  assert (Hv1 : vecs s1 !! this =
            Some {| data_ := {| buffer_ := at_ b0 0; capacity_ := cap |};
                    size_ := Z.of_nat (length xs) |}).
  { destruct Hfr1 as [_ ->]. exact Hv. }
  assert (Hholds1 : holds s1 this (delete i xs ++ [m]) cap).
  { apply (holds_rebuilt s s1 s1 this _ cap b0 _ Hl); auto.
    - apply full_block_length. exact Hle.
    - rewrite Hv1. do 3 f_equal. rewrite length_app, Hdel_len. simpl. lia.
    - rewrite length_app, Hdel_len. simpl. lia.
    - intros k y Hy. destruct (decide (k < length xs - 1)%nat) as [Hk|Hk].
      + rewrite lookup_app_l in Hy by lia.
        destruct (decide (k < i)%nat) as [Hlt|Hge].
        * rewrite list_lookup_delete_lt in Hy by exact Hlt.
          rewrite Hrest1 by lia. now apply Hlive.
        * rewrite list_lookup_delete_ge in Hy by lia.
          replace k with (i + (k - i))%nat by lia. apply Hshifted.
          subst ys. rewrite lookup_drop.
          now replace (S i + (k - i))%nat with (S k) by lia.
      + rewrite lookup_app_r in Hy by lia. rewrite Hdel_len in Hy.
        destruct (k - (length xs - 1))%nat as [|k'] eqn:Hk'; [|destruct k'; discriminate].
        injection Hy as <-. now replace k with (length xs - 1)%nat by lia.
    - intros k Hk. rewrite length_app, Hdel_len in Hk. simpl in Hk.
      rewrite Hrest1 by lia. apply Hraw. lia. }
  destruct (PopBack_spec s1 this (delete i xs) m cap Hholds1)
    as (s2 & Hpop & Hholds2 & _ & Hbegin2 & Hvecs2 & _).
  rewrite (bind_normal _ _ _ _ _ Hpop).
  rewrite (begin_eq _ _ _ Hv1) in Hbegin2. cbn [data_ buffer_] in Hbegin2.
  rewrite (bind_normal _ _ _ _ _ Hbegin2). unfold ret.
  split; [exact Hholds2|]. split; [exact Hbegin2|]. split; [now rewrite ptr_add_at_nat|].
  intros o Ho. rewrite Hvecs2 by exact Ho. now destruct Hfr1 as [_ ->].
Qed.

(** [Erase] undoes [Emplace]: erasing at the position a completed
    [Emplace] returned leaves the vector with the elements it had before,
    in the capacity the insertion gave it, unless a move assignment
    throws. *)
Theorem Erase_undoes_Emplace
    (s s1 : state) (this : nat) (xs : list T) (cap : Z) (i : nat) (b p : ptr)
    (args : Args) :
  holds s this xs cap -> (i <= length xs)%nat -> begin this s = Normal b s ->
  Emplace this (ptr_add b (Z.of_nat i)) args s = Normal p s1 ->
  match Erase this p s1 with
  | Normal q s2 =>
      holds s2 this xs
        (if decide (Z.of_nat (length xs) = cap) then Z.max 1 (2 * cap) else cap) /\
      q = p /\ (forall o, o <> this -> vecs s2 !! o = vecs s !! o)
  | Throw _ _ => True
  | _ => False
  end.
Proof.
  intros Hholds Hi Hb Hrun.
  pose proof (Emplace_forwarded_spec s this xs cap i (by_args args) b Hholds Hi Hb I)
    as Hspec.
  rewrite Emplace_forwarded_args, Hrun in Hspec.
  destruct Hspec as (x & b' & _ & Hthis & Hb' & -> & _ & Hvecs & _).
  pose proof (Erase_spec s1 this _ _ i b' Hthis
                ltac:(rewrite length_app, length_take; simpl; lia) Hb') as Herase.
  destruct (Erase this (ptr_add b' (Z.of_nat i)) s1) as [q s2|e s2| |];
    [|exact I|exact Herase|exact Herase].
  destruct Herase as (Hthis2 & _ & -> & Hvecs2).
  assert (Hdel : delete i (take i xs ++ x :: drop i xs) = xs).
  { pose proof (delete_middle (take i xs) (drop i xs) x) as Hmid.
    rewrite length_take, Nat.min_l in Hmid by lia. rewrite Hmid. apply take_drop. }
  rewrite Hdel in Hthis2. split; [exact Hthis2|]. split; [reflexivity|].
  intros o Ho. rewrite Hvecs2 by exact Ho. now apply Hvecs.
Qed.

End Insertion.

(** * Growth of the capacity under appends *)

Section GrowthSequence.
Context `{E : ElemType}.

Lemma emplace_at_cell (s : state) b k (a : Args) o :
  cell s b k = Some o ->
  emplace_at (at_ b k) a s =
  match construct a (world s) with
  | (Some x, w) => Normal tt (set_slot (at_ b k) (Some x) (set_world w s))
  | (None, w) => Throw ElementException (set_world w s)
  end.
Proof.
  intros H. unfold emplace_at, bind, elem_construct.
  destruct (construct a (world s)) as [[x|] w]; [|reflexivity].
  apply (construct_at_cell _ _ _ o). now rewrite cell_set_world.
Qed.

(** The guarded part of a growing [EmplaceBack]: the new element is built
    in slot [size] of the new block [b'], then the elements [xs] are
    transferred in front of it.  This makes no assumption on what a copy
    or a move yields. *)
Lemma EmplaceBack_transfer (s : state) (this : nat) (xs : list T) (a : Args)
    buf cap b' (m : nat) :
  vecs s !! this = Some {| data_ := {| buffer_ := buf; capacity_ := cap |};
                           size_ := Z.of_nat (length xs) |} ->
  (length xs < m)%nat ->
  (forall k, (k < m)%nat -> cell s b' k = Some None) ->
  (buf = nullptr /\ xs = [] \/
   exists b, buf = at_ b 0 /\ b <> b' /\
     forall k x, xs !! k = Some x -> cell s b k = Some (Some x)) ->
  match (emplace_at (at_ b' (length xs)) a ;;
         let* b := begin this in
         on_throw (InitializeRawMemory b (Z.of_nat (length xs)) (at_ b' 0))
                  (destroy_at (at_ b' (length xs)))) s with
  | Normal _ s' =>
      same_frame s s' /\
      exists x w ys,
        construct a (world s) = (Some x, w) /\
        length ys = length xs /\ (Regular -> ys = xs) /\
        (forall k y, (ys ++ [x]) !! k = Some y -> cell s' b' k = Some (Some y)) /\
        (forall k, (length xs < k)%nat -> cell s' b' k = cell s b' k) /\
        (forall d k v, d <> b' -> cell s d k = Some (Some v) ->
                       exists v', cell s' d k = Some (Some v')) /\
        (forall d k, d <> b' -> Some d <> blk buf -> cell s' d k = cell s d k)
  | Throw _ s' => same_frame s s'
  | _ => False
  end.
Proof.
  intros Hv Hm Hraw Hsrc.
  assert (Hp : cell s b' (length xs) = Some None) by (apply Hraw; lia).
  unfold bind at 1. rewrite (emplace_at_cell s b' (length xs) a None Hp).
  destruct (construct a (world s)) as [[x|] w] eqn:Hcons; [|apply same_frame_set_world].
  set (s1 := set_slot (at_ b' (length xs)) (Some x) (set_world w s)).
  assert (Hs1 : forall d k, cell s1 d k =
            if decide (d = b' /\ k = length xs) then Some (Some x) else cell s d k).
  { intros d k. subst s1. rewrite cell_set_slot; [now rewrite cell_set_world|].
    rewrite cell_set_world, Hp. eauto. }
  assert (Hfr1 : same_frame s s1).
  { subst s1. etransitivity; [apply same_frame_set_world|apply same_frame_set_slot]. }
  assert (Hv1 : vecs s1 !! this =
            Some {| data_ := {| buffer_ := buf; capacity_ := cap |};
                    size_ := Z.of_nat (length xs) |}).
  { destruct Hfr1 as [_ ->]. exact Hv. }
  rewrite (bind_normal _ _ _ _ _ (begin_eq _ _ _ Hv1)). cbn [data_ buffer_].
  unfold on_throw.
  destruct Hsrc as [[-> ->]|(b & -> & Hne & Hlive)].
  - (* no element to transfer *)
    assert (Hnone : InitializeRawMemory nullptr (Z.of_nat (length (@nil T))) (at_ b' 0) s1
                    = Normal tt s1).
    { unfold InitializeRawMemory, uninitialized_move_n, uninitialized_copy_n.
      now destruct (_ || _). }
    rewrite Hnone. split; [exact Hfr1|]. exists x, w, [].
    split; [reflexivity|]. split; [reflexivity|]. split; [reflexivity|].
    split; [|split; [|split]].
    + intros [|k] y Hy; [|discriminate]. injection Hy as <-.
      rewrite Hs1. now apply decide_True.
    + intros k Hk. simpl in Hk. rewrite Hs1. apply decide_False. simpl. lia.
    + intros d k v Hd Hc. exists v. rewrite Hs1, decide_False by (intros [? _]; congruence).
      exact Hc.
    + intros d k Hd _. rewrite Hs1. apply decide_False. intros [? _]. congruence.
  - destruct InitializeRawMemory_transfer as (step & Hstep & ->). rewrite Nat2Z.id.
    pose proof (uninitialized_loop_spec step b b' 0 0 Hstep Hne xs 0%nat s1) as Hloop.
    change (Z.of_nat 0) with 0 in Hloop. simpl in Hloop.
    assert (Hsrc1 : forall k v, xs !! k = Some v -> cell s1 b k = Some (Some v)).
    { intros k v Hk. rewrite Hs1, decide_False by (intros [? _]; congruence).
      now apply Hlive. }
    assert (Hraw1 : forall k, (k < length xs)%nat -> cell s1 b' k = Some None).
    { intros k Hk. rewrite Hs1, decide_False by lia. apply Hraw. lia. }
    specialize (Hloop Hsrc1 Hraw1 ltac:(intros k Hk; lia)).
    destruct (uninitialized_loop step (at_ b 0) (at_ b' 0) 0 (length xs) s1)
      as [[] s2|e s2| |]; [| |contradiction|contradiction].
    + destruct Hloop as (Hfr2 & Hdst & Hsrc2 & Hout).
      destruct (collect_cells (cell s2 b') (fun _ => True) (length xs))
        as (ys & Hlen & Hys & _).
      { intros k Hk. destruct (Hdst k Hk) as (y & Hy & _). eauto. }
      split; [etransitivity; eauto|]. exists x, w, ys.
      split; [reflexivity|]. split; [exact Hlen|]. split; [|split; [|split; [|split]]].
      * intros HR. apply list_eq. intros k.
        destruct (decide (k < length xs)%nat) as [Hk|Hk].
        -- destruct (Hdst k Hk) as (y & Hy & Hreg). specialize (Hreg HR).
           destruct (lookup_lt_is_Some_2 ys k) as [y' Hy']; [lia|].
           rewrite Hy', Hreg. apply Hys in Hy'. congruence.
        -- rewrite !lookup_ge_None_2 by lia. reflexivity.
      * intros k y Hy. destruct (decide (k < length ys)%nat) as [Hk|Hk].
        -- rewrite lookup_app_l in Hy by exact Hk. now apply Hys.
        -- rewrite lookup_app_r in Hy by lia.
           destruct (k - length ys)%nat as [|j] eqn:Hj; [|destruct j; discriminate].
           injection Hy as <-. assert (k = length xs) as -> by lia.
           rewrite Hout by (intros [? ?]; first [congruence|lia]).
           rewrite Hs1. now apply decide_True.
      * intros k Hk. rewrite Hout by (intros [? ?]; first [congruence|lia]).
        rewrite Hs1. apply decide_False. lia.
      * intros d k v Hd Hc.
        destruct (decide (d = b /\ (k < length xs)%nat)) as [[-> Hk]|Hout'].
        -- exact (Hsrc2 k Hk).
        -- exists v. rewrite Hout by (intros [? ?]; first [congruence|tauto]).
           rewrite Hs1, decide_False by (intros [? _]; congruence). exact Hc.
      * intros d k Hd Hd'. simpl in Hd'.
        rewrite Hout by (intros [? ?]; congruence).
        rewrite Hs1. apply decide_False. intros [? _]. congruence.
    + (* the transfer throws: the new element is destroyed *)
      destruct Hloop as (Hfr2 & _ & _ & Hout).
      assert (Hnew2 : cell s2 b' (length xs) = Some (Some x)).
      { rewrite Hout by (intros [? ?]; first [congruence|lia]).
        rewrite Hs1. now apply decide_True. }
      rewrite (destroy_at_cell _ _ _ _ Hnew2).
      etransitivity; [exact Hfr1|]. etransitivity; [exact Hfr2|].
      etransitivity; [apply same_frame_set_world|apply same_frame_set_slot].
Qed.

(** [EmplaceBack] on a valid vector, for every element type: the new
    element is what the constructor makes of the arguments; the elements
    before it are as many as there were, and the very same when nothing
    was reallocated or the type has value semantics. *)
Lemma EmplaceBack_valid (s : state) (this : nat) (xs : list T) (cap : Z) (a : Args) :
  holds s this xs cap ->
  match EmplaceBack this a s with
  | Normal p s' =>
      exists x w ys,
        construct a (world s) = (Some x, w) /\
        length ys = length xs /\ (Regular -> ys = xs) /\
        (Z.of_nat (length xs) <> cap -> ys = xs) /\
        holds s' this (ys ++ [x])
          (if decide (Z.of_nat (length xs) = cap) then Z.max 1 (2 * cap) else cap) /\
        (forall o, o <> this -> vecs s' !! o = vecs s !! o) /\
        (Z.of_nat (length xs) = cap ->
         exists b, heap s !! b = None /\ begin this s' = Normal (at_ b 0) s' /\
           p = at_ b (length xs) /\
           forall b0, begin this s = Normal (at_ b0 0) s -> heap s' !! b0 = None)
  | Throw _ _ => True
  | _ => False
  end.
Proof.
  intros Hholds.
  apply holds_inv in Hholds as (buf & Hv & Hle & Hcap0 & Hfit & Hbuf).
  pose proof (capacity_small cap Hcap0 Hfit) as Hsmall.
  assert (Hmod : SIZE_MODULUS = 2 ^ 64) by reflexivity.
  unfold EmplaceBack.
  rewrite (bind_normal _ _ _ _ _ (get_size_eq _ _ _ Hv)).
  rewrite (bind_normal _ _ _ _ _ (Capacity_eq _ _ _ Hv)).
  cbn [data_ size_ buffer_ capacity_].
  destruct (decide (Z.of_nat (length xs) = cap)) as [Hfull|Hroom].
  - (* size == capacity: reallocate *)
    subst cap. rewrite Z.eqb_refl.
    set (n := Z.of_nat (length xs)) in *.
    set (c := Z.max 1 (2 * n)).
    assert (Hc : (if n =? 0 then 1 else wrap (n * 2)) = c).
    { subst c. destruct (n =? 0) eqn:H0.
      - apply Z.eqb_eq in H0. lia.
      - apply Z.eqb_neq in H0. rewrite wrap_small by lia. lia. }
    rewrite Hc.
    assert (Hcfit : c * sizeof_T < SIZE_MODULUS).
    { pose proof sizeof_T_range as [Hpos Hlt]. unfold PTRDIFF_MAX in Hfit.
      subst c. destruct (Z.max_spec 1 (2 * n)) as [[_ ->]|[_ ->]]; nia. }
    pose proof (RawMemory_ctor_spec s c ltac:(subst c; lia) Hcfit) as Hctor.
    unfold bind at 1. unfold bind at 1.
    destruct (RawMemory_ctor c s) as [rm s1|e s1| |];
      [|exact I|contradiction|contradiction].
    destruct Hctor as (b' & -> & Hfresh & -> & Hcfit').
    set (s1 := set_heap _ s). unfold GetAddress. simpl buffer_.
    change (ptr_add (at_ b' 0) n) with (at_ b' (length xs)).
    assert (Hs1 : forall d k, cell s1 d k =
              if decide (d = b')
              then (if decide (k < Z.to_nat c)%nat then Some None else None)
              else cell s d k).
    { intros d k. subst s1. apply cell_fresh_block. }
    assert (Hsrc : buf = nullptr /\ xs = [] \/
              exists b, buf = at_ b 0 /\ b <> b' /\
                forall k x, xs !! k = Some x -> cell s1 b k = Some (Some x)).
    { destruct Hbuf as [[-> H0]|(b & -> & _ & Hl & Hlive & _)].
      - left. split; [reflexivity|]. destruct xs; [reflexivity|]. subst n.
        simpl in H0. lia.
      - right. exists b. split; [reflexivity|].
        assert (Hne : b <> b') by (intros ->; congruence).
        split; [exact Hne|]. intros k x Hx.
        rewrite Hs1, decide_False by exact Hne. now apply Hlive. }
    assert (Hraw1 : forall k, (k < Z.to_nat c)%nat -> cell s1 b' k = Some None).
    { intros k Hk. rewrite Hs1, decide_True by reflexivity.
      now rewrite decide_True by exact Hk. }
    assert (Hb1 : heap s1 !! b' = Some (replicate (Z.to_nat c) None)).
    { subst s1. simpl. apply lookup_insert_eq. }
    assert (Hv1 : vecs s1 !! this =
              Some {| data_ := {| buffer_ := buf; capacity_ := n |}; size_ := n |})
      by exact Hv.
    pose proof (EmplaceBack_transfer s1 this xs a buf n b' (Z.to_nat c) Hv1
                  ltac:(subst c n; lia) Hraw1 Hsrc) as Htransfer.
    fold n in Htransfer.
    unfold bind at 1. unfold on_throw at 1.
    match goal with
    | |- context [match ?m s1 with _ => _ end] => destruct (m s1) as [[] s4|e s4| |]
    end; [| |contradiction|contradiction].
    2:{ (* the new block is released *)
      destruct (same_frame_block s1 s4 b' _ Htransfer Hb1) as (l4 & Hl4 & _).
      rewrite (RawMemory_dtor_block s4 b' c l4 Hl4). exact I. }
    destruct Htransfer as
      (Hfr4 & x & w & ys & Hcons & Hlen & Hreg & Hys & Hrest4 & Hlive4 & Hother4).
    assert (Hv4 : vecs s4 !! this =
              Some {| data_ := {| buffer_ := buf; capacity_ := n |}; size_ := n |}).
    { destruct Hfr4 as [_ ->]. exact Hv. }
    rewrite (bind_normal _ _ _ _ _ (begin_eq _ _ _ Hv4)).
    cbn [data_ size_ buffer_ capacity_].
    (* the old elements are destroyed *)
    destruct (destroy_n_live s4 buf (length xs)) as (s5 & Hdes & Hfr5 & Hother5 & _).
    { destruct Hsrc as [[_ ->]|(b & -> & Hne & Hlive)]; [now left|].
      right. exists b, 0%nat. split; [reflexivity|]. intros k Hk.
      destruct (lookup_lt_is_Some_2 xs k) as [y Hy]; [lia|].
      apply (Hlive4 b k y Hne). now apply Hlive. }
    fold n in Hdes. rewrite (bind_normal _ _ _ _ _ Hdes).
    assert (Hv5 : vecs s5 !! this =
              Some {| data_ := {| buffer_ := buf; capacity_ := n |}; size_ := n |}).
    { destruct Hfr5 as [_ ->]. exact Hv4. }
    (* the new block is adopted, the old one released *)
    assert (Hfr15 : same_frame s1 s5) by (etransitivity; eauto).
    rewrite (adopt_spec s5 this buf n n _ Hv5); cycle 1.
    { destruct Hbuf as [[-> _]|(b & -> & _ & Hl & _)]; [now left|right].
      exists b. split; [reflexivity|].
      assert (Hne : b <> b') by (intros ->; congruence).
      assert (Hl1 : heap s1 !! b = Some ((Some <$> xs) ++
                      replicate (Z.to_nat n - length xs)%nat None)).
      { subst s1. simpl. now rewrite lookup_insert_ne by congruence. }
      destruct (same_frame_block s1 s5 b _ Hfr15 Hl1) as (l & Hl' & _). eauto. }
    cbn [buffer_ capacity_].
    set (s6 := Build_state _ _ _).
    assert (Hbb : Some b' <> blk buf).
    { destruct Hbuf as [[-> _]|(b & -> & _ & Hl & _)]; [discriminate|].
      simpl. intros [= ->]. congruence. }
    destruct (same_frame_block s1 s5 b' _ Hfr15 Hb1) as (l5 & Hl5 & Hlen5 & Hcells5).
    rewrite length_replicate in Hlen5.
    assert (Hl6 : heap s6 !! b' = Some l5).
    { subst s6. simpl. destruct (blk buf) as [b|] eqn:Hb; [|exact Hl5].
      rewrite lookup_delete_ne by congruence. exact Hl5. }
    assert (Hv6 : vecs s6 !! this =
              Some {| data_ := {| buffer_ := at_ b' 0; capacity_ := c |}; size_ := n |}).
    { subst s6. simpl. apply lookup_insert_eq. }
    rewrite (bind_normal _ _ _ _ _ (set_size_eq _ _ _ _ Hv6)).
    rewrite wrap_small by lia. cbn [data_].
    set (s7 := set_vecs _ s6).
    assert (Hv7 : vecs s7 !! this =
              Some {| data_ := {| buffer_ := at_ b' 0; capacity_ := c |};
                      size_ := n + 1 |}).
    { subst s7. simpl. apply lookup_insert_eq. }
    rewrite (bind_normal _ _ _ _ _ (end_eq _ _ _ Hv7)).
    cbn [data_ size_ buffer_ capacity_]. unfold ret.
    assert (Hcell7 : forall k, cell s7 b' k = cell s4 b' k).
    { intros k. subst s7. rewrite cell_set_vecs. unfold cell at 1.
      rewrite Hl6, Hcells5. apply Hother5. exact Hbb. }
    exists x, w, ys. split; [exact Hcons|]. split; [exact Hlen|]. split; [exact Hreg|].
    split; [intros Hne; now contradiction Hne|]. split; [|split].
    + apply (holds_intro s7 this _ c b' l5).
      * rewrite Hv7, length_app, Hlen. simpl. do 3 f_equal. subst n. lia.
      * subst c. lia.
      * exact Hcfit'.
      * subst s7. exact Hl6.
      * exact Hlen5.
      * rewrite length_app, Hlen. simpl. subst c n. lia.
      * intros k y Hy. rewrite Hcell7. now apply Hys.
      * intros k Hk. rewrite length_app, Hlen in Hk. simpl in Hk.
        rewrite Hcell7, Hrest4 by lia. apply Hraw1. lia.
    + intros o Ho. subst s7 s6. simpl. rewrite !lookup_insert_ne by congruence.
      destruct Hfr15 as [_ ->]. reflexivity.
    + intros _. exists b'. split; [exact Hfresh|].
      split; [now rewrite (begin_eq _ _ _ Hv7)|]. split.
      * unfold ptr_add, at_. simpl. f_equal. subst n. lia.
      * intros b0. rewrite (begin_eq _ _ _ Hv). cbn [data_ buffer_]. intros [= ->].
        subst s7 s6. simpl. apply lookup_delete_eq.
  - (* size < capacity: in place *)
    replace (Z.of_nat (length xs) =? cap) with false
      by (symmetry; apply Z.eqb_neq; exact Hroom).
    destruct Hbuf as [[_ ->]|(b0 & -> & Hpos & Hl & Hlive & Hraw)]; [lia|].
    rewrite (bind_bind_normal _ _ _ _ _ _ (begin_eq _ _ _ Hv)).
    cbn [data_ size_ buffer_ capacity_].
    rewrite ptr_add_at_nat. simpl Nat.add.
    assert (Hp : cell s b0 (length xs) = Some None) by (apply Hraw; lia).
    unfold bind at 1. rewrite (emplace_at_cell s b0 (length xs) a None Hp).
    destruct (construct a (world s)) as [[x|] w] eqn:Hcons; [|exact I].
    set (s1 := set_slot (at_ b0 (length xs)) (Some x) (set_world w s)).
    assert (Hs1 : forall d k, cell s1 d k =
              if decide (d = b0 /\ k = length xs) then Some (Some x) else cell s d k).
    { intros d k. subst s1. rewrite cell_set_slot; [now rewrite cell_set_world|].
      rewrite cell_set_world, Hp. eauto. }
    assert (Hfr1 : same_frame s s1).
    { subst s1. etransitivity; [apply same_frame_set_world|apply same_frame_set_slot]. }
    assert (Hv1 : vecs s1 !! this =
              Some {| data_ := {| buffer_ := at_ b0 0; capacity_ := cap |};
                      size_ := Z.of_nat (length xs) |}).
    { destruct Hfr1 as [_ ->]. exact Hv. }
    rewrite (bind_normal _ _ _ _ _ (set_size_eq _ _ _ _ Hv1)).
    rewrite wrap_small by lia. cbn [data_].
    set (s2 := set_vecs _ s1).
    assert (Hv2 : vecs s2 !! this =
              Some {| data_ := {| buffer_ := at_ b0 0; capacity_ := cap |};
                      size_ := Z.of_nat (length xs) + 1 |}).
    { subst s2. simpl. apply lookup_insert_eq. }
    rewrite (bind_normal _ _ _ _ _ (end_eq _ _ _ Hv2)). unfold ret.
    destruct (same_frame_block s s1 b0 _ Hfr1 Hl) as (l1 & Hl1 & Hlen1 & _).
    rewrite full_block_length in Hlen1 by exact Hle.
    exists x, w, xs. split; [reflexivity|]. split; [reflexivity|]. split; [reflexivity|].
    split; [reflexivity|]. split; [|split].
    + apply (holds_intro s2 this _ cap b0 l1).
      * rewrite Hv2, length_app. simpl. do 3 f_equal. lia.
      * exact Hpos.
      * exact Hfit.
      * exact Hl1.
      * exact Hlen1.
      * rewrite length_app. simpl. lia.
      * intros k y Hy. subst s2. rewrite cell_set_vecs, Hs1.
        destruct (decide (k < length xs)%nat) as [Hk|Hk].
        -- rewrite lookup_app_l in Hy by exact Hk.
           rewrite decide_False by lia. now apply Hlive.
        -- rewrite lookup_app_r in Hy by lia.
           destruct (k - length xs)%nat as [|j] eqn:Hj; [|destruct j; discriminate].
           injection Hy as <-. apply decide_True. split; [reflexivity|lia].
      * intros k Hk. rewrite length_app in Hk. simpl in Hk.
        subst s2. rewrite cell_set_vecs, Hs1, decide_False by lia. apply Hraw. lia.
    + intros o Ho. subst s2. simpl. rewrite lookup_insert_ne by congruence.
      destruct Hfr1 as [_ ->]. reflexivity.
    + intros Hfull. now contradiction Hroom.
Qed.

(** [k] appends to a vector whose capacity is on the doubling sequence. *)
Lemma append_all_valid (this : nat) (args : list Args) :
  forall (s : state) (xs : list T),
    holds s this xs (capacity_after (Z.of_nat (length xs))) ->
    match append_all this args s with
    | Normal _ s' =>
        exists ys, length ys = (length xs + length args)%nat /\
          holds s' this ys (capacity_after (Z.of_nat (length xs + length args))) /\
          (Regular -> exists zs, ys = xs ++ zs /\
             Forall2 (fun a z => exists w w', construct a w = (Some z, w')) args zs)
    | Throw _ _ => True
    | _ => False
    end.
Proof.
  induction args as [|a args IH]; intros s xs Hholds.
  - simpl. exists xs. rewrite Nat.add_0_r. split; [reflexivity|]. split; [exact Hholds|].
    intros _. exists []. rewrite app_nil_r. split; [reflexivity|constructor].
  - simpl. pose proof (EmplaceBack_valid s this xs _ a Hholds) as Hstep.
    unfold bind.
    destruct (EmplaceBack this a s) as [p s1|e s1| |]; [|exact I|contradiction|contradiction].
    destruct Hstep as (x & w & ys1 & Hcons & Hlen1 & Hreg1 & _ & Hholds1 & _).
    assert (Hn : 0 <= Z.of_nat (length xs) < 2 ^ 63).
    { apply holds_inv in Hholds as (buf & _ & Hle & Hcap0 & Hfit & _).
      pose proof (capacity_small _ Hcap0 Hfit). lia. }
    assert (Hcap : (if decide (Z.of_nat (length xs) = capacity_after (Z.of_nat (length xs)))
                    then Z.max 1 (2 * capacity_after (Z.of_nat (length xs)))
                    else capacity_after (Z.of_nat (length xs)))
                   = capacity_after (Z.of_nat (length (ys1 ++ [x])))).
    { rewrite length_app, Hlen1. simpl.
      replace (Z.of_nat (length xs + 1)) with (Z.of_nat (length xs) + 1) by lia.
      rewrite <- (capacity_after_succ _ Hn).
      destruct (decide (Z.of_nat (length xs) = capacity_after (Z.of_nat (length xs))))
        as [Heq|Hne].
      - rewrite <- Heq, Z.eqb_refl.
        destruct (Z.of_nat (length xs) =? 0) eqn:H0.
        + apply Z.eqb_eq in H0. lia.
        + apply Z.eqb_neq in H0. rewrite wrap_small by (unfold SIZE_MODULUS; lia). lia.
      - now replace (Z.of_nat (length xs) =? capacity_after (Z.of_nat (length xs)))
          with false by (symmetry; now apply Z.eqb_neq). }
    rewrite Hcap in Hholds1.
    specialize (IH s1 (ys1 ++ [x]) Hholds1).
    destruct (append_all this args s1) as [[] s'|e s'| |]; try exact IH.
    destruct IH as (ys & Hlen & Hholds' & Hreg).
    rewrite length_app, Hlen1 in Hlen, Hholds'. simpl in Hlen, Hholds'.
    replace (length xs + 1 + length args)%nat with (length xs + S (length args))%nat
      in Hlen, Hholds' by lia.
    exists ys. split; [exact Hlen|]. split; [exact Hholds'|].
    intros HR. destruct (Hreg HR) as (zs & -> & Hzs). rewrite (Hreg1 HR).
    exists (x :: zs). split; [now rewrite <- app_assoc|].
    constructor; [eauto|exact Hzs].
Qed.

(** C4.  An append to a valid vector whose size equals its capacity
    either lets an exception out or completes, and then it has allocated a
    new block of exactly [max(1, 2 * capacity)] slots, which did not exist
    before, and released the old one; the vector is in the new block with
    that capacity and one element more, the new element last.  And
    [k >= 1] appends to a default-constructed vector, when they complete,
    leave it with [k] elements and with the capacity of the doubling
    sequence 1, 2, 4, 8, ..., the least power of two that is at least [k],
    in a block of that many slots.  This holds for every element type; for
    a type with value semantics the elements are the ones constructed from
    the arguments, in order. *)
Theorem appending_doubles_the_capacity (this : nat) :
  (forall (s : state) (xs : list T) (a : Args),
     holds s this xs (Z.of_nat (length xs)) ->
     match EmplaceBack this a s with
     | Normal p s' =>
         exists b l x w ys,
           heap s !! b = None /\ heap s' !! b = Some l /\
           Z.of_nat (length l) = Z.max 1 (2 * Z.of_nat (length xs)) /\
           begin this s' = Normal (at_ b 0) s' /\
           (forall b0, begin this s = Normal (at_ b0 0) s -> heap s' !! b0 = None) /\
           construct a (world s) = (Some x, w) /\
           length ys = length xs /\ (Regular -> ys = xs) /\
           holds s' this (ys ++ [x]) (Z.max 1 (2 * Z.of_nat (length xs))) /\
           Capacity this s' = Normal (Z.max 1 (2 * Z.of_nat (length xs))) s' /\
           Size this s' = Normal (Z.of_nat (length xs) + 1) s'
     | Throw _ _ => True
     | _ => False
     end) /\
  (forall (s : state) (args : list Args),
     (1 <= length args)%nat ->
     match (Vector_default this ;; append_all this args) s with
     | Normal _ s' =>
         exists ys l b,
           length ys = length args /\
           holds s' this ys (doubling_capacity (Z.of_nat (length args))) /\
           begin this s' = Normal (at_ b 0) s' /\ heap s' !! b = Some l /\
           Z.of_nat (length l) = doubling_capacity (Z.of_nat (length args)) /\
           (Regular ->
            Forall2 (fun a y => exists w w', construct a w = (Some y, w')) args ys) /\
           Size this s' = Normal (Z.of_nat (length args)) s' /\
           Capacity this s' = Normal (doubling_capacity (Z.of_nat (length args))) s'
     | Throw _ _ => True
     | _ => False
     end).
Proof.
  split.
  - intros s xs a Hholds.
    pose proof (EmplaceBack_valid s this xs _ a Hholds) as Hstep.
    destruct (EmplaceBack this a s) as [p s'|e s'| |]; try exact Hstep.
    destruct Hstep as (x & w & ys & Hcons & Hlen & Hreg & _ & Hholds' & _ & Hnew).
    rewrite decide_True in Hholds' by reflexivity.
    destruct (Hnew eq_refl) as (b & Hfresh & Hbegin & _ & Hold).
    pose proof Hholds' as Hinv.
    apply holds_inv in Hinv as (buf & Hv' & Hle' & _ & _ & Hbuf').
    rewrite (begin_eq _ _ _ Hv') in Hbegin. cbn [data_ buffer_] in Hbegin.
    injection Hbegin as ->.
    destruct Hbuf' as [[Hnull _]|(b1 & Hb1 & _ & Hl & _)]; [discriminate|].
    apply at_inj in Hb1 as [<- _].
    eexists b, _, x, w, ys. split; [exact Hfresh|]. split; [exact Hl|].
    split; [|split; [now rewrite (begin_eq _ _ _ Hv')|split; [exact Hold|]]].
    { rewrite full_block_length by exact Hle'. lia. }
    split; [exact Hcons|]. split; [exact Hlen|]. split; [exact Hreg|].
    split; [exact Hholds'|]. split; [now rewrite (Capacity_eq _ _ _ Hv')|].
    unfold Size. rewrite (get_size_eq _ _ _ Hv'). cbn [size_].
    rewrite length_app, Hlen. simpl. do 2 f_equal. lia.
  - intros s args Hk. unfold bind at 1. unfold Vector_default, put_vec.
    set (s0 := set_vecs _ s).
    assert (Hempty : holds s0 this [] (capacity_after (Z.of_nat (length (@nil T))))).
    { eexists. split; [subst s0; simpl; apply lookup_insert_eq|]. simpl.
      split; [reflexivity|]. split; [reflexivity|]. split; [reflexivity|].
      split; [discriminate|]. simpl. auto. }
    pose proof (append_all_valid this args s0 [] Hempty) as Hrun.
    destruct (append_all this args s0) as [[] s'|e s'| |]; try exact Hrun.
    destruct Hrun as (ys & Hlen & Hholds' & Hreg). simpl in Hlen, Hholds'.
    assert (Hcap : capacity_after (Z.of_nat (length args))
                   = doubling_capacity (Z.of_nat (length args))).
    { unfold capacity_after.
      now replace (Z.of_nat (length args) =? 0) with false
        by (symmetry; apply Z.eqb_neq; lia). }
    rewrite Hcap in Hholds'.
    pose proof Hholds' as Hinv.
    apply holds_inv in Hinv as (buf & Hv' & Hle' & _ & _ & Hbuf').
    destruct Hbuf' as [[_ Hnull]|(b1 & -> & _ & Hl & _)].
    { exfalso. unfold doubling_capacity in Hnull.
      pose proof (Z.log2_up_nonneg (Z.of_nat (length args))).
      pose proof (Z.pow_pos_nonneg 2 (Z.log2_up (Z.of_nat (length args)))). lia. }
    eexists ys, _, b1. split; [exact Hlen|]. split; [exact Hholds'|].
    split; [now rewrite (begin_eq _ _ _ Hv')|]. split; [exact Hl|]. split.
    { rewrite full_block_length by exact Hle'.
      unfold doubling_capacity in *.
      pose proof (Z.pow_pos_nonneg 2 (Z.log2_up (Z.of_nat (length args)))).
      pose proof (Z.log2_up_nonneg (Z.of_nat (length args))). lia. }
    split.
    { intros HR. destruct (Hreg HR) as (zs & -> & Hzs). exact Hzs. }
    split; [|now rewrite (Capacity_eq _ _ _ Hv')].
    unfold Size. rewrite (get_size_eq _ _ _ Hv'). cbn [size_]. now rewrite Hlen.
Qed.

End GrowthSequence.

Module GrowthWitnesses.
Import Samples.

(** One more element for the full vector [5; 13], and five appends to an
    empty vector. *)
Lemma appending_doubles_the_capacity_witness :
  (exists s' p b l, @EmplaceBack Plain 0%nat 6 (full_vector true true) = Normal p s' /\
     begin 0%nat s' = Normal (at_ b 0) s' /\ heap s' !! b = Some l /\
     length l = 4%nat /\ elements s' 0%nat = Some [5; 13; 6] /\
     Capacity 0%nat s' = Normal 4 s' /\ Size 0%nat s' = Normal 3 s') /\
  (exists s', (Vector_default 0%nat ;; @append_all Plain 0%nat [1; 2; 3; 4; 5]) nothing
              = Normal tt s' /\
     elements s' 0%nat = Some [1; 2; 3; 4; 5] /\
     Size 0%nat s' = Normal 5 s' /\ Capacity 0%nat s' = Normal 8 s').
Proof.
  destruct (@appending_doubles_the_capacity Plain 0%nat) as [Hstep Hseq]. split.
  - specialize (Hstep (full_vector true true) [5; 13] 6
                  (PositionWitnesses.full_vector_holds true true)).
    destruct (@EmplaceBack Plain 0%nat 6 (full_vector true true)) as [p s'| | |] eqn:Hrun;
      try (vm_compute in Hrun; discriminate).
    destruct Hstep as (b & l & x & w & ys & _ & Hl & Hlen & Hb & _ & Hx & _ & Hys
                         & Hholds & Hc & Hs).
    simpl in Hx. injection Hx as <- _.
    rewrite (Hys (sample_regular _ _)) in Hholds.
    exists s', p, b, l. split; [reflexivity|]. split; [exact Hb|]. split; [exact Hl|].
    split; [change (Z.of_nat (length l) = 4) in Hlen; lia|].
    split; [exact (holds_elements _ _ _ _ Hholds)|]. split; [exact Hc|exact Hs].
  - specialize (Hseq nothing [1; 2; 3; 4; 5] ltac:(simpl; lia)).
    destruct ((Vector_default 0%nat ;; @append_all Plain 0%nat [1; 2; 3; 4; 5]) nothing)
      as [[] s'| | |] eqn:Hrun; try (vm_compute in Hrun; discriminate).
    destruct Hseq as (ys & l & b & Hlen & Hholds & _ & _ & _ & Hreg & Hs & Hc).
    exists s'. split; [reflexivity|]. split; [|split; [exact Hs|exact Hc]].
    rewrite (holds_elements _ _ _ _ Hholds). f_equal.
    specialize (Hreg (sample_regular _ _)).
    repeat match goal with
           | H : Forall2 _ (_ :: _) _ |- _ => inversion H; subst; clear H
           | H : Forall2 _ [] _ |- _ => inversion H; subst; clear H
           | H : exists w w', construct _ w = (Some _, w') |- _ =>
               destruct H as (? & ? & H); simpl in H; injection H as <- _
           end.
    reflexivity.
Defined.

End GrowthWitnesses.

(** * Insertion at a position: Emplace and Insert *)

Section InsertionAtPosition.
Context `{E : ElemType} {HR : Regular}.

(** C2.  [Emplace] and [Insert] at index [i <= size] of a valid vector
    either let an exception out or return normally; they never run into
    undefined behaviour or a failed assertion.  When they return, the
    vector holds the old elements in their order with the new element
    [x] at index [i], its size is one more, and the iterator returned is
    [begin() + i].  This covers both paths: when size equals capacity the
    elements are in a new block of capacity [max(1, 2 * capacity)],
    otherwise they stay in place and the capacity is unchanged.

    The new element of [Emplace] is the one constructed from the
    arguments.  The new element of [Insert] is a copy of the element the
    reference refers to when the element is constructed: that is the
    element passed, except without reallocation for a reference into the
    vector's own block at or after index [i], where the elements were
    shifted before the copy is made; a reference to index [kv > i] then
    yields the element that was at [kv - 1], and a reference to index [i]
    a moved-from element. *)
Theorem Emplace_inserts_at_position (s : state) (this : nat) (xs : list T) (cap : Z)
    (i : nat) (b : ptr) :
  holds s this xs cap -> (i <= length xs)%nat -> begin this s = Normal b s ->
  (forall args : Args,
     match Emplace this (ptr_add b (Z.of_nat i)) args s with
     | Normal p s' =>
         exists x b',
           (exists w w', construct args w = (Some x, w')) /\
           holds s' this (take i xs ++ x :: drop i xs)
             (if decide (Z.of_nat (length xs) = cap) then Z.max 1 (2 * cap) else cap) /\
           Size this s' = Normal (Z.of_nat (length xs) + 1) s' /\
           begin this s' = Normal b' s' /\ p = ptr_add b' (Z.of_nat i)
     | Throw _ _ => True
     | _ => False
     end) /\
  (forall (bv kv : nat) (v : T),
     cell s bv kv = Some (Some v) ->
     match Insert this (ptr_add b (Z.of_nat i)) (at_ bv kv) s with
     | Normal p s' =>
         exists x b',
           (if decide (Z.of_nat (length xs) = cap) then x = v
            else if decide (blk b = Some bv /\ (i < kv)%nat)
                 then xs !! (kv - 1)%nat = Some x
                 else if decide (blk b = Some bv /\ kv = i) then True
                      else x = v) /\
           holds s' this (take i xs ++ x :: drop i xs)
             (if decide (Z.of_nat (length xs) = cap) then Z.max 1 (2 * cap) else cap) /\
           Size this s' = Normal (Z.of_nat (length xs) + 1) s' /\
           begin this s' = Normal b' s' /\ p = ptr_add b' (Z.of_nat i)
     | Throw _ _ => True
     | _ => False
     end).
Proof.
  intros Hholds Hi Hb. split.
  - intros args. exact (Emplace_spec s this xs cap i args b Hholds Hi Hb).
  - intros bv kv v Hv.
    pose proof (Emplace_forwarded_spec s this xs cap i (by_const_ref (at_ bv kv)) b
                  Hholds Hi Hb ltac:(exists bv, kv, v; auto)) as Hspec.
    unfold Insert.
    destruct (Emplace_forwarded this (ptr_add b (Z.of_nat i)) (by_const_ref (at_ bv kv)) s)
      as [p s'|e s'| |]; [|exact I|exact Hspec|exact Hspec].
    destruct Hspec as (x & b' & Hx & Hthis & Hb' & -> & _).
    exists x, b'. split; [|split; [exact Hthis|split; [|split; [exact Hb'|reflexivity]]]].
    + destruct (decide (Z.of_nat (length xs) = cap)) as [Hfull|Hroom].
      * destruct Hx as (bv' & kv' & Heq & Hx). apply at_inj in Heq as [<- <-].
        congruence.
      * destruct Hx as (b0 & -> & bv' & kv' & Heq & Hx).
        apply at_inj in Heq as [<- <-]. simpl blk.
        destruct (decide (bv = b0 /\ (i < kv)%nat)) as [[-> Hlt]|Hn1].
        { rewrite decide_True by auto. exact Hx. }
        rewrite decide_False by (intros [[= ->] ?]; tauto).
        destruct (decide (bv = b0 /\ kv = i)) as [[-> ->]|Hn2].
        { now rewrite decide_True by auto. }
        rewrite decide_False by (intros [[= ->] ?]; tauto).
        congruence.
    + apply holds_inv in Hthis as (buf & Hv' & _).
      unfold Size. rewrite (get_size_eq _ _ _ Hv'). cbn [size_].
      rewrite length_app, length_take. simpl. rewrite length_drop.
      do 2 f_equal. lia.
Qed.

End InsertionAtPosition.

Module InsertionWitnesses.
Import Samples.

(** [Emplace] of [9] at index 1 of [1; 2] in place, and of [7] at index 0
    of the full vector [5; 13], which reallocates; [Insert] of the first
    element at index 1 of [1; 2] in place, and at index 2 of the full
    vector [5; 13]. *)
Lemma Emplace_inserts_at_position_witness :
  (exists p s', @Emplace Plain 0%nat (ptr_add (at_ 0 0) (Z.of_nat 1)) 9 roomy_vector
                = Normal p s' /\
     elements s' 0%nat = Some [1; 9; 2] /\ Capacity 0%nat s' = Normal 4 s') /\
  (exists p s', @Emplace Plain 0%nat (ptr_add (at_ 0 0) (Z.of_nat 0)) 7
                  (full_vector true true) = Normal p s' /\
     elements s' 0%nat = Some [7; 5; 13] /\ Capacity 0%nat s' = Normal 4 s') /\
  (exists p s', @Insert Plain 0%nat (ptr_add (at_ 0 0) (Z.of_nat 1)) (at_ 0 0) roomy_vector
                = Normal p s' /\
     elements s' 0%nat = Some [1; 1; 2] /\ Size 0%nat s' = Normal 3 s') /\
  (exists p s', @Insert Plain 0%nat (ptr_add (at_ 0 0) (Z.of_nat 2)) (at_ 0 0)
                  (full_vector true true) = Normal p s' /\
     elements s' 0%nat = Some [5; 13; 5] /\ Capacity 0%nat s' = Normal 4 s').
Proof.
  destruct (@Emplace_inserts_at_position Plain (sample_regular _ _) roomy_vector 0%nat
              [1; 2] 4 1%nat (at_ 0 0) PositionWitnesses.roomy_vector_holds
              ltac:(simpl; lia) eq_refl) as [Hemplace1 Hinsert1].
  destruct (@Emplace_inserts_at_position Plain (sample_regular _ _) (full_vector true true)
              0%nat [5; 13] 2 0%nat (at_ 0 0)
              (PositionWitnesses.full_vector_holds true true)
              ltac:(simpl; lia) eq_refl) as [Hemplace2 _].
  destruct (@Emplace_inserts_at_position Plain (sample_regular _ _) (full_vector true true)
              0%nat [5; 13] 2 2%nat (at_ 0 0)
              (PositionWitnesses.full_vector_holds true true)
              ltac:(simpl; lia) eq_refl) as [_ Hinsert2].
  split; [|split; [|split]].
  - specialize (Hemplace1 9).
    destruct (@Emplace Plain 0%nat (ptr_add (at_ 0 0) (Z.of_nat 1)) 9 roomy_vector)
      as [p s'|e s'| |] eqn:Hrun; try (vm_compute in Hrun; discriminate).
    destruct Hemplace1 as (x & b' & (w & w' & Hx) & Hholds & _).
    exists p, s'. split; [reflexivity|].
    simpl in Hx. injection Hx as <- _. simpl in Hholds. split.
    + exact (holds_elements _ _ _ _ Hholds).
    + destruct Hholds as (v & Hv & _ & Hcap & _).
      rewrite (Capacity_eq _ _ _ Hv), Hcap. reflexivity.
  - specialize (Hemplace2 7).
    destruct (@Emplace Plain 0%nat (ptr_add (at_ 0 0) (Z.of_nat 0)) 7
                (full_vector true true))
      as [p s'|e s'| |] eqn:Hrun; try (vm_compute in Hrun; discriminate).
    destruct Hemplace2 as (x & b' & (w & w' & Hx) & Hholds & _).
    exists p, s'. split; [reflexivity|].
    simpl in Hx. injection Hx as <- _. simpl in Hholds. split.
    + exact (holds_elements _ _ _ _ Hholds).
    + destruct Hholds as (v & Hv & _ & Hcap & _).
      rewrite (Capacity_eq _ _ _ Hv), Hcap. reflexivity.
  - specialize (Hinsert1 0%nat 0%nat 1 eq_refl).
    destruct (@Insert Plain 0%nat (ptr_add (at_ 0 0) (Z.of_nat 1)) (at_ 0 0) roomy_vector)
      as [p s'|e s'| |] eqn:Hrun; try (vm_compute in Hrun; discriminate).
    destruct Hinsert1 as (x & b' & Hx & Hholds & Hsize & _).
    exists p, s'. split; [reflexivity|].
    simpl in Hx. subst x. simpl in Hholds.
    split; [exact (holds_elements _ _ _ _ Hholds)|exact Hsize].
  - specialize (Hinsert2 0%nat 0%nat 5 eq_refl).
    destruct (@Insert Plain 0%nat (ptr_add (at_ 0 0) (Z.of_nat 2)) (at_ 0 0)
                (full_vector true true))
      as [p s'|e s'| |] eqn:Hrun; try (vm_compute in Hrun; discriminate).
    destruct Hinsert2 as (x & b' & Hx & Hholds & _).
    exists p, s'. split; [reflexivity|].
    simpl in Hx. subst x. simpl in Hholds. split.
    + exact (holds_elements _ _ _ _ Hholds).
    + destruct Hholds as (v & Hv & _ & Hcap & _).
      rewrite (Capacity_eq _ _ _ Hv), Hcap. reflexivity.
Defined.

End InsertionWitnesses.

(** * The operations on sample vectors *)

Module OperationWitnesses.
Import Samples.

Lemma roomy_holds : holds roomy_vector 0%nat [1; 2] 4.
Proof. exact PositionWitnesses.roomy_vector_holds. Qed.

Lemma full_holds nm cp : holds (full_vector nm cp) 0%nat [5; 13] 2.
Proof. exact (PositionWitnesses.full_vector_holds nm cp). Qed.

Lemma two_hold :
  holds two_vectors 0%nat [1; 2; 3] 4 /\ holds two_vectors 1%nat [7; 13] 2.
Proof. exact CopyAssignWitnesses.two_vectors_hold. Qed.

Lemma short_long_hold :
  holds short_and_long 0%nat [1] 4 /\ holds short_and_long 1%nat [7; 8] 2.
Proof. exact CopyAssignWitnesses.short_and_long_hold. Qed.

Lemma two_separate : separate two_vectors 1%nat 0%nat.
Proof.
  intros v r Hv Hr. vm_compute in Hv, Hr.
  injection Hv as <-. injection Hr as <-. right. discriminate.
Qed.

Lemma fragile_transfer_is_safe : @transfer_cannot_throw_by_move Fragile.
Proof. intros Hmode. discriminate. Qed.

(** [Vector(3)] *)
Lemma sized_constructor_value_initialises_witness :
  exists s' xs, @Vector_sized Plain 0%nat 3 nothing = Normal tt s' /\
    holds s' 0%nat xs 3 /\ length xs = 3%nat.
Proof.
  pose proof (@sized_constructor_value_initialises Plain nothing 0%nat 3
                ltac:(lia) ltac:(reflexivity)) as H.
  destruct (@Vector_sized Plain 0%nat 3 nothing) as [[] s'|e s'| |] eqn:Hrun;
    try (vm_compute in Hrun; discriminate).
  destruct H as (xs & Hlen & Hholds & _).
  exists s', xs. split; [reflexivity|]. split; [exact Hholds|lia].
Defined.

(** Swapping [1] with [7; 8]. *)
Lemma Swap_exchanges_the_vectors_witness :
  exists s', @Swap Plain 0%nat 1%nat short_and_long = Normal tt s' /\
    elements s' 0%nat = Some [7; 8] /\ elements s' 1%nat = Some [1] /\
    @Swap Plain 0%nat 1%nat s' = Normal tt short_and_long.
Proof.
  destruct (@Swap_exchanges_the_vectors Plain short_and_long 0%nat 1%nat [1] [7; 8] 4 2
              (proj1 short_long_hold) (proj2 short_long_hold))
    as (s' & Hrun & _ & _ & Ha & Hb & _ & Hback).
  exists s'. split; [exact Hrun|]. split; [exact (holds_elements _ _ _ _ Ha)|].
  split; [exact (holds_elements _ _ _ _ Hb)|exact Hback].
Defined.

(** Destroying the first of two vectors. *)
Lemma destructor_releases_only_its_own_block_witness :
  exists s', @Vector_dtor Fragile 0%nat two_vectors = Normal tt s' /\
    vecs s' !! 0%nat = None /\ heap s' !! 0%nat = None /\
    elements s' 1%nat = Some [7; 13].
Proof.
  destruct (@destructor_releases_only_its_own_block Fragile two_vectors 0%nat [1; 2; 3] 4
              (proj1 two_hold)) as (s' & Hrun & Hvecs & _ & Hheap & _ & Hother).
  exists s'. split; [exact Hrun|]. split; [|split].
  - rewrite Hvecs. apply lookup_delete_eq.
  - rewrite (Hheap 0%nat eq_refl). apply lookup_delete_eq.
  - apply (@holds_elements Fragile s' 1%nat [7; 13] 2). apply Hother.
    + discriminate.
    + exact (proj2 two_hold).
    + exact two_separate.
Defined.

(** Copying [7; 8] succeeds; copying [7; 13] fails at the second element. *)
Lemma copy_constructor_makes_an_independent_copy_witness :
  (exists s', @Vector_copy Plain 2%nat 1%nat short_and_long = Normal tt s' /\
     elements s' 2%nat = Some [7; 8] /\ elements s' 1%nat = Some [7; 8] /\
     @Capacity Plain 2%nat s' = Normal 2 s') /\
  (exists e s', @Vector_copy Fragile 2%nat 1%nat two_vectors = Throw e s' /\
     heap s' = heap two_vectors /\ vecs s' = vecs two_vectors).
Proof.
  split.
  - pose proof (@copy_constructor_makes_an_independent_copy Plain (sample_regular _ _)
                  short_and_long 2%nat 1%nat [7; 8] 2 (proj2 short_long_hold)
                  ltac:(discriminate)) as H.
    destruct (@Vector_copy Plain 2%nat 1%nat short_and_long) as [[] s'|e s'| |] eqn:Hrun;
      try (vm_compute in Hrun; discriminate).
    destruct H as (Hthis & Hother & _).
    exists s'. split; [reflexivity|]. split; [exact (holds_elements _ _ _ _ Hthis)|].
    split; [exact (holds_elements _ _ _ _ Hother)|].
    destruct Hthis as (v & Hv & _ & Hcap & _).
    rewrite (Capacity_eq _ _ _ Hv), Hcap. reflexivity.
  - pose proof (@copy_constructor_makes_an_independent_copy Fragile (sample_regular _ _)
                  two_vectors 2%nat 1%nat [7; 13] 2 (proj2 two_hold)
                  ltac:(discriminate)) as H.
    destruct (@Vector_copy Fragile 2%nat 1%nat two_vectors) as [[] s'|e s'| |] eqn:Hrun;
      try (vm_compute in Hrun; discriminate).
    exists e, s'. split; [reflexivity|exact H].
Defined.

(** Assigning [1; 2; 3] to a vector of capacity 2. *)
Lemma copy_assign_reallocating_is_all_or_nothing_witness :
  exists s', @Vector_copy_assign Fragile 1%nat 0%nat two_vectors = Normal tt s' /\
    elements s' 1%nat = Some [1; 2; 3] /\ elements s' 0%nat = Some [1; 2; 3] /\
    @Capacity Fragile 1%nat s' = Normal 3 s' /\ heap s' !! 1%nat = None.
Proof.
  pose proof (@copy_assign_reallocating_is_all_or_nothing Fragile two_vectors 1%nat 0%nat
                [7; 13] [1; 2; 3] 2 4 ltac:(discriminate) (proj2 two_hold)
                (proj1 two_hold) two_separate ltac:(simpl; lia)) as H.
  destruct (@Vector_copy_assign Fragile 1%nat 0%nat two_vectors)
    as [[] s'|e s'| |] eqn:Hrun; try (vm_compute in Hrun; discriminate).
  destruct H as (ys & w & _ & _ & Hthis & Hreg & Hrhs & _ & Hold).
  rewrite (Hreg (sample_regular _ _)) in Hthis.
  exists s'. split; [reflexivity|]. split; [exact (holds_elements _ _ _ _ Hthis)|].
  split; [exact (holds_elements _ _ _ _ Hrhs)|]. split.
  - destruct Hthis as (v & Hv & _ & Hcap & _).
    rewrite (Capacity_eq _ _ _ Hv), Hcap. reflexivity.
  - apply Hold. reflexivity.
Defined.

(** [Reserve(8)] on [1; 2] with capacity 4. *)
Lemma Reserve_reallocates_and_keeps_the_elements_witness :
  exists s', @Reserve Plain 0%nat 8 roomy_vector = Normal tt s' /\
    elements s' 0%nat = Some [1; 2] /\ @Capacity Plain 0%nat s' = Normal 8 s' /\
    heap s' !! 0%nat = None.
Proof.
  pose proof (@Reserve_reallocates_and_keeps_the_elements Plain (sample_regular _ _)
                roomy_vector 0%nat [1; 2] 4 8 roomy_holds ltac:(lia)
                ltac:(reflexivity)) as H.
  destruct (@Reserve Plain 0%nat 8 roomy_vector) as [[] s'|e s'| |] eqn:Hrun;
    try (vm_compute in Hrun; discriminate).
  destruct H as (Hthis & Hold & _).
  exists s'. split; [reflexivity|]. split; [exact (holds_elements _ _ _ _ Hthis)|].
  split.
  - destruct Hthis as (v & Hv & _ & Hcap & _).
    rewrite (Capacity_eq _ _ _ Hv), Hcap. reflexivity.
  - apply Hold. reflexivity.
Defined.

(** [Resize(1)] on [1; 2]. *)
Lemma Resize_shrinks_by_destroying_the_tail_witness :
  exists s', @Resize Plain 0%nat 1 roomy_vector = Normal tt s' /\
    elements s' 0%nat = Some [1] /\ @Capacity Plain 0%nat s' = Normal 4 s'.
Proof.
  destruct (@Resize_shrinks_by_destroying_the_tail Plain roomy_vector 0%nat [1; 2] 4 1%nat
              roomy_holds ltac:(simpl; lia)) as (s' & Hrun & Hthis & _).
  exists s'. split; [exact Hrun|]. split; [exact (holds_elements _ _ _ _ Hthis)|].
  destruct Hthis as (v & Hv & _ & Hcap & _).
  rewrite (Capacity_eq _ _ _ Hv), Hcap. reflexivity.
Defined.

(** [Resize(6)] on [1; 2] with capacity 4. *)
Lemma Resize_grows_with_value_initialised_elements_witness :
  exists s' zs, @Resize Plain 0%nat 6 roomy_vector = Normal tt s' /\
    elements s' 0%nat = Some ([1; 2] ++ zs) /\ length zs = 4%nat /\
    @Capacity Plain 0%nat s' = Normal 6 s'.
Proof.
  pose proof (@Resize_grows_with_value_initialised_elements Plain (sample_regular _ _)
                roomy_vector 0%nat [1; 2] 4 6 roomy_holds ltac:(simpl; lia)
                ltac:(reflexivity)) as H.
  destruct (@Resize Plain 0%nat 6 roomy_vector) as [[] s'|e s'| |] eqn:Hrun;
    try (vm_compute in Hrun; discriminate).
  destruct H as (zs & Hlen & _ & Hthis).
  exists s', zs. split; [reflexivity|]. split; [exact (holds_elements _ _ _ _ Hthis)|].
  split; [simpl in Hlen; lia|].
  destruct Hthis as (v & Hv & _ & Hcap & _).
  rewrite (Capacity_eq _ _ _ Hv), Hcap. reflexivity.
Defined.

(** [PopBack] on [1; 2]. *)
Lemma PopBack_destroys_the_last_element_witness :
  exists s', @PopBack Plain 0%nat roomy_vector = Normal tt s' /\
    elements s' 0%nat = Some [1] /\ @Size Plain 0%nat s' = Normal 1 s'.
Proof.
  destruct (@PopBack_destroys_the_last_element Plain roomy_vector 0%nat [1] 2 4
              roomy_holds) as (s' & Hrun & Hthis & _ & Hsize & _).
  exists s'. split; [exact Hrun|]. split; [exact (holds_elements _ _ _ _ Hthis)|].
  exact Hsize.
Defined.

(** [v[1]] and [v[2]] on [1; 2] with capacity 4. *)
Lemma subscript_is_checked_against_the_size_witness :
  (exists p, @Vector_at Plain 0%nat 1 roomy_vector = Normal p roomy_vector /\
             load p roomy_vector = Normal 2 roomy_vector) /\
  @Vector_at Plain 0%nat 2 roomy_vector = AssertFail.
Proof.
  split.
  - exact (@subscript_is_checked_against_the_size Plain roomy_vector 0%nat [1; 2] 4 1%nat
             roomy_holds).
  - exact (@subscript_is_checked_against_the_size Plain roomy_vector 0%nat [1; 2] 4 2%nat
             roomy_holds).
Defined.

(** [Erase(end())] and [Emplace(end() + 1, 9)] on [1; 2]. *)
Lemma positions_outside_the_range_assert_witness :
  @Erase Plain 0%nat (ptr_add (at_ 0 0) 2) roomy_vector = AssertFail /\
  @Emplace Plain 0%nat (ptr_add (at_ 0 0) 3) 9 roomy_vector = AssertFail.
Proof.
  split.
  - apply (proj1 (@positions_outside_the_range_assert Plain roomy_vector 0%nat [1; 2] 4 2
                    (at_ 0 0) roomy_holds eq_refl)). simpl. lia.
  - apply (proj2 (@positions_outside_the_range_assert Plain roomy_vector 0%nat [1; 2] 4 3
                    (at_ 0 0) roomy_holds eq_refl)). simpl. lia.
Defined.

(** Move-assigning [7; 13] onto [1; 2; 3]. *)
Lemma move_assignment_abandons_the_old_block_witness :
  exists s', @Vector_move_assign Fragile 0%nat 1%nat two_vectors = Normal tt s' /\
    elements s' 0%nat = Some [7; 13] /\ elements s' 1%nat = Some [] /\
    heap s' !! 0%nat = Some [Some 1; Some 2; Some 3; None].
Proof.
  destruct (@move_assignment_abandons_the_old_block Fragile two_vectors 0%nat 1%nat
              [1; 2; 3] [7; 13] 4 2 0%nat ltac:(discriminate) (proj1 two_hold)
              (proj2 two_hold) (proj1 CopyAssignWitnesses.sample_states_separate) eq_refl)
    as (s' & Hrun & Hheap & _ & Hthis & Hrhs & _).
  exists s'. split; [exact Hrun|]. split; [exact (holds_elements _ _ _ _ Hthis)|].
  split; [exact (holds_elements _ _ _ _ Hrhs)|]. rewrite Hheap. reflexivity.
Defined.

(** A block for [2^61 + 1] elements of 8 bytes: one slot. *)
Lemma allocation_size_wraps_around_witness :
  exists rm s', @RawMemory_ctor Plain (2 ^ 61 + 1) nothing = Normal rm s' /\
    capacity_ rm = 2 ^ 61 + 1 /\
    exists b l, buffer_ rm = at_ b 0 /\ heap s' !! b = Some l /\
                Z.of_nat (length l) < 2 ^ 61 + 1.
Proof.
  eexists _, _. split; [vm_compute; reflexivity|].
  eapply (@allocation_size_wraps_around Plain nothing).
  - reflexivity.
  - vm_compute. discriminate.
  - vm_compute. reflexivity.
Defined.

(** [Vector(2^61 + 1)] of 8-byte elements. *)
Lemma sized_constructor_overruns_a_wrapped_allocation_witness :
  ~ exists s', @Vector_sized Plain 0%nat (2 ^ 61 + 1) nothing = Normal tt s'.
Proof.
  intros [s' Hrun]. revert Hrun.
  apply (@sized_constructor_overruns_a_wrapped_allocation Plain nothing 0%nat (2 ^ 61 + 1)).
  - reflexivity.
  - vm_compute. discriminate.
Defined.

(** [Emplace(end(), 9)] and [EmplaceBack(9)] on [1; 2]. *)
Lemma Emplace_at_end_is_EmplaceBack_witness :
  @Emplace Plain 0%nat (ptr_add (at_ 0 0) 2) 9 roomy_vector =
  @EmplaceBack Plain 0%nat 9 roomy_vector.
Proof.
  apply (proj1 (@Emplace_at_end_is_EmplaceBack Plain roomy_vector 0%nat [1; 2] 4
                  (ptr_add (at_ 0 0) 2) roomy_holds eq_refl)).
Defined.

(** [EmplaceBack(9)] on [1; 2] with capacity 4, and on the full [5; 13]. *)
Lemma EmplaceBack_appends_witness :
  (exists p s', @EmplaceBack Plain 0%nat 9 roomy_vector = Normal p s' /\
     elements s' 0%nat = Some [1; 2; 9] /\ load p s' = Normal 9 s') /\
  (exists p s', @EmplaceBack Plain 0%nat 9 (full_vector true true) = Normal p s' /\
     elements s' 0%nat = Some [5; 13; 9] /\ @Capacity Plain 0%nat s' = Normal 4 s').
Proof.
  split.
  - pose proof (@EmplaceBack_appends Plain (sample_regular _ _) roomy_vector 0%nat [1; 2] 4
                  9 roomy_holds) as H.
    destruct (@EmplaceBack Plain 0%nat 9 roomy_vector) as [p s'|e s'| |] eqn:Hrun;
      try (vm_compute in Hrun; discriminate).
    destruct H as (x & (w & w' & Hx) & Hthis & Hload & _).
    simpl in Hx. injection Hx as <- _.
    exists p, s'. split; [reflexivity|]. split; [exact (holds_elements _ _ _ _ Hthis)|].
    exact Hload.
  - pose proof (@EmplaceBack_appends Plain (sample_regular _ _) (full_vector true true)
                  0%nat [5; 13] 2 9 (full_holds true true)) as H.
    destruct (@EmplaceBack Plain 0%nat 9 (full_vector true true))
      as [p s'|e s'| |] eqn:Hrun; try (vm_compute in Hrun; discriminate).
    destruct H as (x & (w & w' & Hx) & Hthis & _).
    simpl in Hx. injection Hx as <- _. simpl in Hthis.
    exists p, s'. split; [reflexivity|]. split; [exact (holds_elements _ _ _ _ Hthis)|].
    destruct Hthis as (v & Hv & _ & Hcap & _).
    rewrite (Capacity_eq _ _ _ Hv), Hcap. reflexivity.
Defined.

(** [v.PushBack(v[0])] on the full [5; 13]. *)
Lemma PushBack_appends_a_copy_even_of_an_own_element_witness :
  exists s', @PushBack Plain 0%nat (at_ 0 0) (full_vector true true) = Normal tt s' /\
    elements s' 0%nat = Some [5; 13; 5].
Proof.
  pose proof (@PushBack_appends_a_copy_even_of_an_own_element Plain (sample_regular _ _)
                (full_vector true true) 0%nat [5; 13] 2 0%nat 0%nat 5
                (full_holds true true) eq_refl) as H.
  destruct (@PushBack Plain 0%nat (at_ 0 0) (full_vector true true))
    as [[] s'|e s'| |] eqn:Hrun; try (vm_compute in Hrun; discriminate).
  exists s'. split; [reflexivity|]. exact (holds_elements _ _ _ _ H).
Defined.

(** [v.Insert(v.begin() + 1, v[0])] on the full [5; 13]. *)
Lemma Insert_copies_the_element_referred_to_witness :
  exists p s', @Insert Plain 0%nat (ptr_add (at_ 0 0) (Z.of_nat 1)) (at_ 0 0)
                 (full_vector true true) = Normal p s' /\
    elements s' 0%nat = Some [5; 5; 13].
Proof.
  pose proof (@Insert_copies_the_element_referred_to Plain (sample_regular _ _)
                (full_vector true true) 0%nat [5; 13] 2 1%nat (at_ 0 0) 0%nat 0%nat 5
                (full_holds true true) ltac:(simpl; lia) eq_refl eq_refl
                ltac:(left; reflexivity)) as H.
  destruct (@Insert Plain 0%nat (ptr_add (at_ 0 0) (Z.of_nat 1)) (at_ 0 0)
              (full_vector true true)) as [p s'|e s'| |] eqn:Hrun;
    try (vm_compute in Hrun; discriminate).
  destruct H as (Hthis & _).
  exists p, s'. split; [reflexivity|]. exact (holds_elements _ _ _ _ Hthis).
Defined.

(** [v.Insert(v.begin(), v[1])] on [1; 2] with spare capacity gives
    [1; 1; 2], not [2; 1; 2]. *)
Lemma Insert_of_a_later_own_element_inserts_its_predecessor_witness :
  exists p s', @Insert Plain 0%nat (at_ 0 0) (at_ 0 1) roomy_vector = Normal p s' /\
    elements s' 0%nat = Some [1; 1; 2].
Proof.
  pose proof (@Insert_of_a_later_own_element_inserts_its_predecessor Plain
                (sample_regular _ _) roomy_vector 0%nat [1; 2] 4 0%nat 1%nat 0%nat 1
                roomy_holds ltac:(simpl; lia) eq_refl ltac:(simpl; lia) eq_refl) as H.
  destruct (@Insert Plain 0%nat (at_ 0 0) (at_ 0 1) roomy_vector)
    as [p s'|e s'| |] eqn:Hrun; try (vm_compute in Hrun; discriminate).
  destruct H as (Hthis & _).
  exists p, s'. split; [reflexivity|]. exact (holds_elements _ _ _ _ Hthis).
Defined.

(** [Emplace(begin(), 7)] on the full [5; 13] of a type whose copy of
    [13] throws. *)
Lemma Emplace_growing_strong_guarantee_witness :
  exists e s', @Emplace Fragile 0%nat (ptr_add (at_ 0 0) (Z.of_nat 0)) 7
                 (full_vector false true) = Throw e s' /\
    heap s' = heap (full_vector false true) /\
    vecs s' = vecs (full_vector false true).
Proof.
  destruct (@Emplace Fragile 0%nat (ptr_add (at_ 0 0) (Z.of_nat 0)) 7
              (full_vector false true)) as [p s'|e s'| |] eqn:Hrun;
    try (vm_compute in Hrun; discriminate).
  exists e, s'. split; [reflexivity|].
  exact (proj1 (@Emplace_growing_strong_guarantee Fragile (sample_regular _ _)
                  (full_vector false true) 0%nat [5; 13] 0%nat (at_ 0 0)
                  (full_holds false true) ltac:(simpl; lia) eq_refl
                  fragile_transfer_is_safe) 7 e s' Hrun).
Defined.

(** [EmplaceBack(9)] then [PopBack()] on [1; 2]. *)
Lemma PopBack_undoes_EmplaceBack_witness :
  exists p s1 s2, @EmplaceBack Plain 0%nat 9 roomy_vector = Normal p s1 /\
    @PopBack Plain 0%nat s1 = Normal tt s2 /\ elements s2 0%nat = Some [1; 2].
Proof.
  destruct (@EmplaceBack Plain 0%nat 9 roomy_vector) as [p s1|e s1| |] eqn:Hrun;
    try (vm_compute in Hrun; discriminate).
  destruct (@PopBack_undoes_EmplaceBack Plain (sample_regular _ _) roomy_vector s1 0%nat
              [1; 2] 4 9 p roomy_holds Hrun) as (s2 & Hpop & Hthis & _).
  exists p, s1, s2. split; [reflexivity|]. split; [exact Hpop|].
  exact (holds_elements _ _ _ _ Hthis).
Defined.

(** [Emplace(begin() + 1, 9)] then [Erase] at the position returned, on
    [1; 2]. *)
Lemma Erase_undoes_Emplace_witness :
  exists p s1 q s2,
    @Emplace Plain 0%nat (ptr_add (at_ 0 0) (Z.of_nat 1)) 9 roomy_vector = Normal p s1 /\
    @Erase Plain 0%nat p s1 = Normal q s2 /\ elements s2 0%nat = Some [1; 2].
Proof.
  destruct (@Emplace Plain 0%nat (ptr_add (at_ 0 0) (Z.of_nat 1)) 9 roomy_vector)
    as [p s1|e s1| |] eqn:Hrun; try (vm_compute in Hrun; discriminate).
  pose proof (@Erase_undoes_Emplace Plain (sample_regular _ _) roomy_vector s1 0%nat
                [1; 2] 4 1%nat (at_ 0 0) p 9 roomy_holds ltac:(simpl; lia) eq_refl Hrun)
    as H.
  destruct (@Erase Plain 0%nat p s1) as [q s2|e s2| |] eqn:Herase;
    [|exfalso|contradiction|contradiction].
  - destruct H as (Hthis & _).
    exists p, s1, q, s2. split; [reflexivity|]. split; [exact Herase|].
    exact (holds_elements _ _ _ _ Hthis).
  - vm_compute in Hrun. injection Hrun as <- <-. vm_compute in Herase. discriminate.
Defined.

End OperationWitnesses.
